(* ===== verification/_CoqProject ===== *)
-Q . S2P
Prelude.v
GoTime.v
Prog.v
Effects.v
Machine.v
Datastore.v
RequestControl.v
Instances.v
Annotations.v
Activator.v
Admission.v
ActivatorEdges.v
Refusals.v
Deactivator.v
DueTicks.v
Handlers.v
Controller.v
Health.v
Goroutines.v
ScaleUpState.v
PoolLock.v
Progress.v
Traces.v
Verdicts.v
IdleTicks.v
Readiness.v
Crashes.v
Provenance.v
Answers.v
Origins.v
Waiting.v
Races.v
Linearizable.v
Manager.v
Startup.v
Tls.v
Server.v
Shutdown.v
Runner.v
