(* ===== verification/Prelude.v ===== *)
(** * A verification of the llm-d activator

    The activator sits beside an Envoy proxy in front of an inference pool
    whose pods may have been scaled to zero.  Envoy asks it, over an external
    processing (ext_proc) stream, whether a request may go on; the activator
    answers when the pool has ready pods, scaling its target object up first
    if need be.  A deactivator scales the target back to zero when no request
    has come for a while.  The pool is kept in a datastore that a Kubernetes
    reconciler fills.  This development models the whole Go program and proves
    what makes it correct, including where it is not.

    ** How code is modelled

    A Go function is a term of a free monad ([Prog.prog]): a finite tree whose
    nodes are the operations through which the code acts (taking a lock,
    reading a shared field, calling the Kubernetes API, receiving from the
    stream) and whose leaves are results or panics; [bind] is sequencing,
    [defer] runs deferred calls on returns and on panics, [for_loop n] is a
    [for] loop.  A theorem about [exec p tr r] is about every run of [p]:
    [tr] lists the operations performed with what they were answered, [r] is
    the result or the panic.  The same terms run side by side in the machine of
    file Machine, where operations change the shared memory and goroutines
    interleave at every operation; [reachable] and [steps] are the
    interleavings.

    Loops: [for_loop n] gives up with [None] after [n] rounds.  The theorems
    hold for all [n], so for every finite run of the loop, and
    [Handlers.Process_terminates] shows that a stream that ends makes the loop
    end.  [wait.PollUntilContextTimeout] is a parameter whose documented
    behaviour is the inductive [Effects.poll_shape] and, that it does not give
    up early, [Refusals.WaitPkgPersists]; witnesses use the concrete
    [ref_wait], with timeout/interval rounds.  The duration parser has the
    length of its input as fuel, which is enough ([components_fuel]).
    Integers are Z; conversions to int8, int32 and int64 wrap explicitly.

    ** Files

    - Prelude: this header; machine integers, association lists, strings,
      shared tactics and hint databases.
    - GoTime: [time.Duration], [time.ParseDuration] and [time.Ticker] of Go's
      standard library, which the sources use.
    - Prog: programs, their runs, and two program logics: the operations a
      program uses, and safety automata over its events ([mon]).
    - Effects: the values, the errors and the operations of the program, and
      the classes that stand for libraries ([Kubernetes], [ErrUtil],
      [GrpcStatus], [WaitPkg], with their laws).
    - Machine: the shared state (the structs of datastore.go and activator.go,
      the locks, channels, clock and leader flag), [perform], the step relation,
      a thread-modular proof rule ([thread_ok], [pool_invariant]) and an
      executable scheduler.
    - Datastore: pkg/activator/datastore, its interface ([Datastore_iface]) and
      the promises it makes: what calls return ([DatastoreLaws]) and which
      operations they use ([DatastoreOps]).  The activator, the deactivator, the
      reconciler and the health service are defined over the interface.
    - RequestControl: gvr.go and the annotation helpers of
      pkg/activator/requestcontrol.
    - Instances: concrete libraries and environments for the witnesses.
    - Annotations: reading durations from annotations.
    - Activator, Admission, ActivatorEdges: requestcontrol/activator.go.
    - Refusals: why requests are refused.
    - Deactivator: requestcontrol/deactivator.go.
    - DueTicks: a round of the deactivator against a reference.
    - Handlers: pkg/activator/handlers/server.go, against the interface
      [Activator_iface] and with requestcontrol's activator as its instance.
    - Controller: pkg/activator/controller/inferencepool_reconciler.go.
    - Health: cmd/activator/runner/health.go.
    - Goroutines: the goroutines of the process (streams, the deactivator, the
      reconciler's worker, health checks, the goroutine of runner.go that waits
      for the election) and one walk over their code for any program logic
      (class [Logic] with [Sections], [MoreSections] and [PoolWrites]),
      instantiated by the files below with thread-modular invariants ([calm]),
      with safety automata ([balanced], [anywhere]) and with automata that are
      left when an event excuses what follows ([unless]).
    - ScaleUpState: [scalingUp] and [guard] under concurrency.
    - PoolLock: lock discipline, atomicity of [PoolGet], the deadlock.
    - Progress: where goroutines can block, and that the deadlock of PoolLock
      is the only one.
    - Traces: the events of one goroutine in a run, and who wrote what is read.
    - Verdicts: a stream sends nothing but the verdict of the run of
      [MayActivate] for the headers it received last.
    - IdleTicks: the shared ticker and scaling to zero.
    - Readiness: replicas under leader election.
    - Crashes: from every panic that ends the process back to its cause.
    - Provenance: from every update of a scale back to the pool that the API
      showed the reconciler.
    - Answers: from every message to Envoy back to the run of [MayActivate] that
      decided it and to its reason.
    - Origins: from what the shared state holds back to what put it there.
    - Waiting: sleeping requests, and requests that wait for a guard.
    - Races: accesses to the shared fields.
    - Linearizable: a machine whose calls of the datastore are atomic, and a
      simulation of the process by it.
    - Manager: pkg/activator/server/controller_manager.go; what the packages
      that the scheme is built from register is a parameter ([SchemeLib]).
    - Startup: the operations of the start-up code.
    - Tls: pkg/activator/tls/tls.go.
    - Server: pkg/activator/runnable and pkg/activator/server/runserver.go.
    - Shutdown: a gRPC server and its shutdown goroutine side by side, as a
      step relation of their own with infinite fair runs, over a parameter for
      google.golang.org/grpc ([GrpcServer], [GrpcServerLaws]).
    - Runner: cmd/activator/runner/runner.go, cmd/activator/main.go and the
      constructors NewActivatorWithConfig, DeactivatorWithConfig and
      InitScaleClient.

    ** What is proved

    - The datastore refines two plain variables, for one caller, and is
      linearizable for the whole process: in every run its calls can be taken
      to be atomic; the reconciler refines an
      abstract reconciler, and the last observation wins.
    - [MayActivate]: the scale-up protocol (fetch, raise the flag, publish the
      guard, one update to one replica, lower, close, forget, on every exit
      but a panic of closing the guard);
      on what evidence a request is admitted and for which causes it is
      refused; what a waiting request does; how an admitted request re-arms the
      ticker.
    - The deactivator: a scale-down only after a tick, of the object just
      fetched, and the ticker stopped on every exit; under concurrency, one tick
      for every scale-down, not before the last re-arming's period has passed,
      and every request answered with CONTINUE before it had re-armed the ticker
      with its pool's delay or had waited; and a tick that is due is handled, with exactly the updates of a reference function.
    - The stream: which messages are answered, with what, in which order; the
      error table; termination.
    - Concurrency: consistency of the scale-up state, data-race freedom and lock discipline, atomicity of
      [PoolGet], safety of a single stream; goroutines never block each other
      for ever except by the recursive read lock.
    - End to end, in every interleaving: every crash of the process has one of
      four causes, which can be read off the run; every update of a scale is a
      scale object fetched for the target of a pool that the API had shown;
      every message to Envoy is the verdict of one complete run of [MayActivate]
      right before it, which holds its reason, about a pool that the API had
      shown; the stored pool, the ticker's period and the leader flag have their
      origin in what the API showed, a re-arming and a won election; no
      goroutine waits for a timer or a guard for more than a minute; no two
      goroutines race for a shared field.
    - Leader election: a replica reports itself ready only after it was elected
      and its pool was stored.
    - Shutdown: once the context is cancelled, and once serving has ended, both
      goroutines of a server end in every fair run, in which the calls that are
      open when the server is being stopped end.
    - A duration written into an annotation is the duration read from it.
    - The health table; the manager's cache and lease; the certificate; the
      bring-up of the servers; the order of start-up and the handling of its
      failures.
    - Behaviour that the code surely does not intend is stated and proved as
      such: two overlapping scale-ups end the process
      ([overlapping_scale_ups_crash]); a recursive read lock deadlocks it
      ([recursive_read_lock_deadlocks]); a tick before the pool is synced
      crashes it ([unsynced_tick_crashes]), and so does the first tick of every
      replica that is not elected ([unelected_replica_crashes]); a request can
      be admitted and its target then be scaled to zero by a tick that came
      before it ([admission_does_not_stop_scale_down]); a request that is
      refused shortens the scale-down delay of one that was admitted
      ([refused_request_shortens_delay]); a malformed delay
      annotation and an object without a status crash the process; a
      grace-period annotation has no effect on a scale from zero; replicas that
      are slow to become ready are scaled down; readiness is tested by equality
      modulo 2^32; the text of a receive error is lost; a log level wraps
      around.

    ** What is not modelled

    Logging, except where evaluating its arguments matters (the nil pool in the
    deactivator, the leader flag in the health check).  Libraries (Kubernetes
    clients and controller-runtime, gRPC, Envoy's types, crypto) are
    parameters, or operations that may answer anything; of the gRPC server the
    documented behaviour of Serve and GracefulStop is assumed (file Shutdown), of
    controller-runtime that a controller is started only once its replica is
    elected (file Readiness).  Panics are not
    recovered: the sources do not, and neither does gRPC, so a panic ends
    the process.  hack/referencer.go has no code, the type Response of types.go
    is used nowhere.  The metrics server and flag parsing are libraries. *)

From stdpp Require Export base strings list gmap pretty.
From Stdlib Require Export ZArith Lia.

#[export] Set Warnings "-clear-no-such-hyp".

#[global] Open Scope Z_scope.

(** ** Notations, in a scope of their own *)

Declare Scope go_scope.
Delimit Scope go_scope with go.

(** ** Go's fixed-width integers

    An integer of Go is a [Z]; a conversion to a narrower type is the
    two's-complement wrap-around of its width. *)

Definition wrap (w x : Z) : Z := (x + 2 ^ (w - 1)) mod 2 ^ w - 2 ^ (w - 1).
Definition int8 (x : Z) : Z := wrap 8 x.
Definition int32 (x : Z) : Z := wrap 32 x.
Definition int64 (x : Z) : Z := wrap 64 x.
Definition uint64 (x : Z) : Z := x mod 2 ^ 64.

Definition in_width (w x : Z) : Prop := - 2 ^ (w - 1) <= x < 2 ^ (w - 1).

Lemma pow2_half w : 0 < w -> 2 ^ w = 2 * 2 ^ (w - 1).
Proof. intros Hw. rewrite <- (Z.pow_succ_r 2 (w - 1)) by lia. f_equal; lia. Qed.

Lemma wrap_range w x : 0 < w -> in_width w (wrap w x).
Proof.
  intros Hw. unfold in_width, wrap.
  pose proof (Z.mod_pos_bound (x + 2 ^ (w - 1)) (2 ^ w) ltac:(lia)).
  pose proof (pow2_half w Hw). lia.
Qed.

Lemma wrap_small w x : 0 < w -> in_width w x -> wrap w x = x.
Proof.
  unfold in_width, wrap. intros Hw Hx. pose proof (pow2_half w Hw).
  rewrite Z.mod_small by lia. lia.
Qed.

Lemma wrap_period w x k : 0 < w -> wrap w (x + k * 2 ^ w) = wrap w x.
Proof.
  intros Hw. unfold wrap.
  replace (x + k * 2 ^ w + 2 ^ (w - 1)) with (x + 2 ^ (w - 1) + k * 2 ^ w) by lia.
  by rewrite Z_mod_plus_full.
Qed.

(** Two integers wrap to the same value exactly when they agree modulo
    the width. *)
Lemma wrap_eq_iff w x y : 0 < w -> wrap w x = wrap w y <-> (x - y) mod 2 ^ w = 0.
Proof.
  intros Hw. unfold wrap. set (m := 2 ^ w). set (h := 2 ^ (w - 1)).
  assert (Hm : m <> 0) by (unfold m; lia). split; intros H.
  - assert (E : (x + h) mod m = (y + h) mod m) by lia.
    replace (x - y) with ((x + h) - (y + h)) by lia.
    by rewrite Zminus_mod, E, Z.sub_diag, Zmod_0_l.
  - apply Z.mod_divide in H as [k Hk]; [|done].
    replace (x + h) with (y + h + k * m) by lia. by rewrite Z_mod_plus_full.
Qed.

(** ** Lists and options *)

Definition is_nil {A} (o : option A) : bool :=
  match o with Some _ => false | None => true end.

(** The value of a lookup in a Go map: the zero value when the key is absent. *)
Definition map_get (m : gmap string string) (k : string) : string := default ""%string (m !! k).

(** First match in an association list of string keys. *)
Fixpoint assoc {V} (k : string) (l : list (string * V)) : option V :=
  match l with
  | [] => None
  | (k', v) :: l' => if String.eqb k k' then Some v else assoc k l'
  end.

Lemma assoc_Some_elem {V} k (l : list (string * V)) v : assoc k l = Some v -> (k, v) ∈ l.
Proof.
  induction l as [|[k' v'] l IH]; simpl; [done|].
  destruct (String.eqb_spec k k') as [->|]; [intros [= ->]; left|right; auto].
Qed.

Lemma elem_assoc_Some {V} k (l : list (string * V)) v :
  NoDup (map fst l) -> (k, v) ∈ l -> assoc k l = Some v.
Proof.
  induction l as [|[k' v'] l IH]; simpl; [set_solver|].
  rewrite NoDup_cons, elem_of_cons. intros [Hk Hl] [[= -> ->]|H].
  - by rewrite String.eqb_refl.
  - destruct (String.eqb_spec k k') as [->|]; [|auto].
    destruct Hk. apply list_elem_of_In, in_map_iff. exists (k', v). by rewrite <- list_elem_of_In.
Qed.

Lemma assoc_None_iff {V} k (l : list (string * V)) : assoc k l = None <-> k ∉ map fst l.
Proof.
  induction l as [|[k' v'] l IH]; simpl; [set_solver|].
  rewrite not_elem_of_cons. destruct (String.eqb_spec k k'); naive_solver.
Qed.

Lemma app_snoc_assoc {A} (l : list A) x l' : (l ++ [x]) ++ l' = l ++ x :: l'.
Proof. by rewrite <- app_assoc. Qed.

Lemma String_eqb_refl s : String.eqb s s = true.
Proof. by apply String.eqb_eq. Qed.

(** ** Hint databases and tactics of the development *)

Create HintDb golib.
Create HintDb goarith.
Create Rewrite HintDb golist.
Create Rewrite HintDb gostr.
#[export] Hint Rewrite app_nil_r : golist.
#[export] Hint Rewrite @app_snoc_assoc : golist.
#[export] Hint Rewrite String_eqb_refl : gostr.
#[export] Hint Resolve wrap_range wrap_small : goarith.

(** Break every conjunction, existential and disjunction of the context. *)
Ltac split_hyps :=
  repeat match goal with
  | H : _ /\ _ |- _ => destruct H
  | H : exists _, _ |- _ => destruct H
  | H : (_ * _)%type |- _ => destruct H
  end; simplify_eq.

(** Case on the scrutinee of the outermost [match] of the goal. *)
Ltac split_match :=
  match goal with
  | |- context [match ?x with _ => _ end] =>
      lazymatch x with
      | context [match _ with _ => _ end] => fail
      | _ => destruct x eqn:?
      end
  end; simplify_eq.

Ltac split_match_in H :=
  match type of H with
  | context [match ?x with _ => _ end] =>
      lazymatch x with
      | context [match _ with _ => _ end] => fail
      | _ => destruct x eqn:?
      end
  end; simplify_eq.

(** ** Strings *)

Lemma string_length_app (a b : string) :
  String.length (a +:+ b) = (String.length a + String.length b)%nat.
Proof. induction a as [|x a IH]; [done|]. cbn. by rewrite <- IH. Qed.

Lemma string_app_inj_prefix (a b c : string) : a +:+ b = a +:+ c -> b = c.
Proof. induction a as [|x a IH]; [done|]. intros [= H]. auto. Qed.

Lemma string_app_inj_suffix (a b c : string) : a +:+ c = b +:+ c -> a = b.
Proof.
  revert b. induction a as [|x a IH]; intros [|y b] H; [done|..].
  - apply (f_equal String.length) in H. rewrite !string_length_app in H. simpl in H. lia.
  - apply (f_equal String.length) in H. rewrite !string_length_app in H. simpl in H. lia.
  - injection H as -> H. f_equal. auto.
Qed.

#[export] Hint Rewrite string_length_app : gostr.
