(* ===== verification/GoTime.v ===== *)
(** * Go's [time] package, as far as the activator uses it

    [time.Duration] is a count of nanoseconds in an [int64]; the
    constants below are the units the sources multiply.
    [ParseDuration] is the standard library's parser of the pool
    annotations ("120s", "1m30s", ...), with its overflow checks and its
    floating-point treatment of fractions, in the binary64 arithmetic of
    [SpecFloat].  [ticker] is [time.Ticker] with the semantics of Go 1.23
    and later (the module requires 1.24): after [Reset] or [Stop] returns
    no tick of the earlier setting can be received. *)

From Stdlib Require Import Ascii Floats.SpecFloat.
From S2P Require Import Prelude.

Definition Duration := Z.

Definition Nanosecond : Duration := 1.
Definition Microsecond : Duration := 1000 * Nanosecond.
Definition Millisecond : Duration := 1000 * Microsecond.
Definition Second : Duration := 1000 * Millisecond.
Definition Minute : Duration := 60 * Second.
Definition Hour : Duration := 60 * Minute.

(** ** [time.ParseDuration] *)

Module ParseDuration.

(** binary64 *)
Definition f64_of_Z (x : Z) : spec_float := binary_normalize 53 1024 x 0 false.
Definition f64_mul := SFmul 53 1024.
Definition f64_div := SFdiv 53 1024.

(** Conversion of a non-negative finite float to [uint64]: truncation. *)
Definition f64_trunc (f : spec_float) : Z :=
  match f with
  | S754_finite _ m e => if 0 <=? e then Zpos m * 2 ^ e else Zpos m / 2 ^ (- e)
  | _ => 0
  end.

Definition digit (c : Ascii.ascii) : option Z :=
  let n := Z.of_N (Ascii.N_of_ascii c) in
  if (48 <=? n) && (n <=? 57) then Some (n - 48) else None.

Definition is_dot (c : Ascii.ascii) : bool := Ascii.eqb c "."%char.

(** [leadingInt]: the integer prefix, or [None] when it exceeds [1<<63]. *)
Fixpoint leadingInt (x : Z) (s : string) : option (Z * string) :=
  match s with
  | EmptyString => Some (x, s)
  | String c s' =>
      match digit c with
      | None => Some (x, s)
      | Some d =>
          if 2 ^ 63 / 10 <? x then None
          else if 2 ^ 63 <? x * 10 + d then None
          else leadingInt (x * 10 + d) s'
      end
  end.

(** [leadingFraction]: digits after the point as [x / scale]; digits past
    the capacity of [x] are consumed and ignored. *)
Fixpoint leadingFraction (x scale : Z) (overflow : bool) (s : string) : Z * Z * string :=
  match s with
  | EmptyString => (x, scale, s)
  | String c s' =>
      match digit c with
      | None => (x, scale, s)
      | Some d =>
          if overflow then leadingFraction x scale true s'
          else if (2 ^ 63 - 1) / 10 <? x then leadingFraction x scale true s'
          else if 2 ^ 63 <? x * 10 + d then leadingFraction x scale true s'
          else leadingFraction (x * 10 + d) (scale * 10) false s'
      end
  end.

(** The unit: everything up to the next digit or point. *)
Fixpoint span_unit (s : string) : string * string :=
  match s with
  | EmptyString => (EmptyString, EmptyString)
  | String c s' =>
      if is_dot c || match digit c with Some _ => true | None => false end
      then (EmptyString, s)
      else let '(u, r) := span_unit s' in (String c u, r)
  end.

Definition utf8_2 (a b : nat) (s : string) : string :=
  String (Ascii.ascii_of_nat a) (String (Ascii.ascii_of_nat b) s).

Definition unitMap (u : string) : option Z :=
  if String.eqb u "ns" then Some Nanosecond
  else if String.eqb u "us" then Some Microsecond
  else if String.eqb u (utf8_2 194 181 "s") then Some Microsecond
  else if String.eqb u (utf8_2 206 188 "s") then Some Microsecond
  else if String.eqb u "ms" then Some Millisecond
  else if String.eqb u "s" then Some Second
  else if String.eqb u "m" then Some Minute
  else if String.eqb u "h" then Some Hour
  else None.

Definition starts_number (s : string) : bool :=
  match s with
  | EmptyString => false
  | String c _ => is_dot c || match digit c with Some _ => true | None => false end
  end.

(** One component [number unit] of the input: its nanoseconds and the rest. *)
Definition component (s : string) : option (Z * string) :=
  if negb (starts_number s) then None else
  match leadingInt 0 s with
  | None => None
  | Some (v, s1) =>
      let pre := negb (Nat.eqb (String.length s) (String.length s1)) in
      let '(f, scale, s2, post) :=
        match s1 with
        | String c s1' =>
            if is_dot c then
              let '(f, scale, s2) := leadingFraction 0 1 false s1' in
              (f, scale, s2, negb (Nat.eqb (String.length s1') (String.length s2)))
            else (0, 1, s1, false)
        | EmptyString => (0, 1, s1, false)
        end in
      if negb pre && negb post then None else
      let '(u, rest) := span_unit s2 in
      match unitMap u with
      | None => None
      | Some unit =>
          if 2 ^ 63 / unit <? v then None else
          let v1 := v * unit in
          if 0 <? f then
            let v2 := uint64 (v1 + f64_trunc (f64_mul (f64_of_Z f) (f64_div (f64_of_Z unit) (f64_of_Z scale)))) in
            if 2 ^ 63 <? v2 then None else Some (v2, rest)
          else Some (v1, rest)
      end
  end.

(** The loop over the components; each consumes at least one character,
    so the length of the input is enough fuel. *)
Fixpoint components (fuel : nat) (d : Z) (s : string) : option Z :=
  match s with
  | EmptyString => Some d
  | _ =>
      match fuel with
      | O => None
      | S fuel' =>
          match component s with
          | None => None
          | Some (v, rest) =>
              let d' := uint64 (d + v) in
              if 2 ^ 63 <? d' then None else components fuel' d' rest
          end
      end
  end.

Definition parse (orig : string) : option Duration :=
  let '(neg, s) :=
    match orig with
    | String c s' =>
        if Ascii.eqb c "-"%char then (true, s')
        else if Ascii.eqb c "+"%char then (false, s') else (false, orig)
    | EmptyString => (false, orig)
    end in
  if String.eqb s "0" then Some 0
  else if String.eqb s "" then None
  else match components (String.length s) 0 s with
       | None => None
       | Some d =>
           if neg then Some (int64 (- int64 d))
           else if 2 ^ 63 - 1 <? d then None else Some d
       end.

Example parse_120s : parse "120s" = Some (120 * Second). Proof. reflexivity. Qed.
Example parse_mixed : parse "1h15m30.918273645s" = Some 4530918273645. Proof. reflexivity. Qed.
Example parse_neg : parse "-1.5h" = Some (- 5400000000000). Proof. reflexivity. Qed.
Example parse_bare : parse "120" = None. Proof. reflexivity. Qed.
Example parse_max : parse "9223372036854775807ns" = Some (2 ^ 63 - 1). Proof. reflexivity. Qed.
Example parse_over : parse "9223372036854775808ns" = None. Proof. reflexivity. Qed.

(** The parser's loop never runs out of fuel: a component is never empty. *)
Lemma leadingInt_length s : forall x v r,
  leadingInt x s = Some (v, r) -> (String.length r <= String.length s)%nat.
Proof.
  induction s as [|c s IH]; simpl; intros x v r H; [naive_solver|].
  repeat split_match_in H; simpl in *; try lia. apply IH in H. lia.
Qed.

Lemma leadingFraction_length s : forall x sc o v sc' r,
  leadingFraction x sc o s = (v, sc', r) -> (String.length r <= String.length s)%nat.
Proof.
  induction s as [|c s IH]; simpl; intros x sc o v sc' r H; [naive_solver|].
  repeat split_match_in H; simpl in *; try lia; apply IH in H; lia.
Qed.

Lemma span_unit_length s : forall u r,
  span_unit s = (u, r) -> (String.length u + String.length r = String.length s)%nat.
Proof.
  induction s as [|c s IH]; simpl; intros u r H; [naive_solver|].
  destruct (_ || _); [naive_solver|].
  destruct (span_unit s) as [u' r'] eqn:E; simplify_eq/=. rewrite (IH _ _ eq_refl). done.
Qed.

Lemma component_consumes s v r :
  component s = Some (v, r) -> (String.length r < String.length s)%nat.
Proof.
  unfold component. destruct (starts_number s); [|done]. simpl.
  destruct (leadingInt 0 s) as [[w s1]|] eqn:E1; [|done].
  apply leadingInt_length in E1.
  assert (H2 : forall f sc s2 (post : bool),
    match s1 with
    | String c s1' =>
        if is_dot c then
          let '(f, scale, s2) := leadingFraction 0 1 false s1' in
          (f, scale, s2, negb (Nat.eqb (String.length s1') (String.length s2)))
        else (0, 1, s1, false)
    | EmptyString => (0, 1, s1, false)
    end = (f, sc, s2, post) -> (String.length s2 <= String.length s1)%nat).
  { intros f sc s2 post. destruct s1 as [|c s1']; [naive_solver|].
    destruct (is_dot c); [|naive_solver].
    destruct (leadingFraction 0 1 false s1') as [[f' sc'] s2'] eqn:E2.
    apply leadingFraction_length in E2. intros ?; simplify_eq/=. lia. }
  destruct (match s1 with String _ _ => _ | EmptyString => _ end) as [[[f sc] s2] post].
  specialize (H2 _ _ _ _ eq_refl).
  destruct (negb _ && negb post); [done|].
  destruct (span_unit s2) as [u rest] eqn:E3. apply span_unit_length in E3.
  destruct u as [|c u]; [done|]. simpl in E3.
  destruct (unitMap _); [|done]. destruct (_ <? w); [done|].
  destruct (0 <? f); [destruct (_ <? _); [done|]|]; intros ?; simplify_eq; lia.
Qed.

Lemma components_fuel : forall n m d s,
  (String.length s <= n)%nat -> (n <= m)%nat -> components m d s = components n d s.
Proof.
  induction n as [|n IH]; intros m d s Hn Hm.
  - destruct s; [by destruct m|simpl in Hn; lia].
  - destruct s as [|c s]; [by destruct m|]. destruct m as [|m]; [lia|].
    cbn [components]. destruct (component (String c s)) as [[v r]|] eqn:E; [|done].
    apply component_consumes in E. destruct (_ <? _); [done|].
    apply IH; simpl in *; lia.
Qed.

End ParseDuration.

(** [value, _ = time.ParseDuration(s)]: on an error the value is 0. *)
Definition ParseDuration_ignoring_error (s : string) : Duration :=
  default 0 (ParseDuration.parse s).

(** ** [time.Ticker]

    [t_next] is the instant of the next (or of the pending) tick and
    [t_armed] the instant of the last [NewTicker] or [Reset]. *)

Record ticker := Ticker { t_period : option Duration; t_armed : Z; t_next : Z }.

Definition NewTicker (now : Z) (d : Duration) : ticker := Ticker (Some d) now (now + d).
Definition ticker_Reset (now : Z) (d : Duration) (t : ticker) : ticker := Ticker (Some d) now (now + d).
Definition ticker_Stop (t : ticker) : ticker := Ticker None (t_armed t) (t_next t).

(** Receiving from [t.C]: blocked ([None]) until the tick is due; ticks that
    fell due while one was pending are dropped. *)
Definition ticker_recv (now : Z) (t : ticker) : option ticker :=
  match t_period t with
  | None => None
  | Some p =>
      if t_next t <=? now
      then Some (Ticker (Some p) (t_armed t) (t_next t + p * (1 + (now - t_next t) / p)))
      else None
  end.

(** What a ticker promises: the next tick is a whole period after the
    last arming. *)
Definition ticker_inv (t : ticker) : Prop :=
  forall p, t_period t = Some p -> 0 < p /\ t_armed t + p <= t_next t.

Lemma NewTicker_inv now d : 0 < d -> ticker_inv (NewTicker now d).
Proof. intros Hd p [= <-]. simpl. lia. Qed.

Lemma ticker_Reset_inv now d t : 0 < d -> ticker_inv (ticker_Reset now d t).
Proof. intros Hd p [= <-]. simpl. lia. Qed.

Lemma ticker_Stop_inv t : ticker_inv (ticker_Stop t).
Proof. by intros p [=]. Qed.

Lemma ticker_recv_inv now t t' : ticker_inv t -> ticker_recv now t = Some t' -> ticker_inv t'.
Proof.
  unfold ticker_inv, ticker_recv. intros Hi H.
  destruct (t_period t) as [p|]; [|done].
  destruct (t_next t <=? now) eqn:E; [|done]. simplify_eq/=.
  destruct (Hi p eq_refl). intros ? [= <-]. split; [done|].
  apply Z.leb_le in E. pose proof (Z.div_pos (now - t_next t) p ltac:(lia) ltac:(lia)). nia.
Qed.

(** A tick is received no earlier than a period after the last arming. *)
Lemma ticker_recv_due now t t' :
  ticker_inv t -> ticker_recv now t = Some t' ->
  exists p, t_period t = Some p /\ t_armed t + p <= now /\ t_armed t' = t_armed t.
Proof.
  unfold ticker_inv, ticker_recv. intros Hi H.
  destruct (t_period t) as [p|]; [|done].
  destruct (t_next t <=? now) eqn:E; [|done]. apply Z.leb_le in E. simplify_eq/=.
  exists p. destruct (Hi p eq_refl). repeat split; lia.
Qed.

#[export] Hint Resolve NewTicker_inv ticker_Reset_inv ticker_Stop_inv ticker_recv_inv : golib.
