(* ===== verification/Prog.v ===== *)
(** * Goroutine code as a free monad

    A function of the program is a [prog]: a finite tree whose nodes are
    the operations through which the code touches shared memory, locks,
    channels, clocks, the Kubernetes API or the gRPC stream.  Everything
    between two operations is ordinary computation.  The same term is
    - run alone, its observable behaviour being its traces ([exec]), and
    - run beside others, interleaved at its operations (file Machine).

    [Panic] is a Go panic: it skips the rest of the function but not its
    deferred calls ([defer]), and, since nothing in the program recovers,
    it ends the process. *)

From S2P Require Import Prelude.

Section Prog.
Context {op : Type} {ans : op -> Type}.

Inductive prog (A : Type) : Type :=
| Ret (a : A)
| Panic (msg : string)
| Op (o : op) (k : ans o -> prog A).
Arguments Ret {A} a.
Arguments Panic {A} msg.
Arguments Op {A} o k.

Fixpoint bind {A B} (p : prog A) (f : A -> prog B) : prog B :=
  match p with
  | Ret a => f a
  | Panic m => Panic m
  | Op o k => Op o (fun x => bind (k x) f)
  end.

(** [defer f(); p]: [f] runs when [p] returns and when it panics. *)
Fixpoint defer {A} (f : prog unit) (p : prog A) : prog A :=
  match p with
  | Ret a => bind f (fun _ => Ret a)
  | Panic m => bind f (fun _ => Panic m)
  | Op o k => Op o (fun x => defer f (k x))
  end.

(** [for { body }], unrolled [n] times: [body] returns [None] to go round
    again and [Some b] to leave the loop; the loop's own [None] means that
    [n] rounds were not enough. *)
Fixpoint for_loop {B} (n : nat) (body : prog (option B)) : prog (option B) :=
  match n with
  | O => Ret None
  | S n' => bind body (fun c => match c with
                                | None => for_loop n' body
                                | Some b => Ret (Some b)
                                end)
  end.

(** ** Observable behaviour *)

Record event := Ev { ev_op : op; ev_ans : ans ev_op }.

Inductive outcome (A : Type) : Type :=
| Done (a : A)
| Crash (msg : string).
Arguments Done {A} a.
Arguments Crash {A} msg.

Definition of_outcome {A} (r : outcome A) : prog A :=
  match r with Done a => Ret a | Crash m => Panic m end.

(** [exec p tr r]: with the environment answering as [tr] records, [p]
    performs exactly the operations of [tr] and ends in [r]. *)
Fixpoint exec {A} (p : prog A) (tr : list event) (r : outcome A) : Prop :=
  match p with
  | Ret a => tr = [] /\ r = Done a
  | Panic m => tr = [] /\ r = Crash m
  | Op o k => exists x tr', tr = Ev o x :: tr' /\ exec (k x) tr' r
  end.

(** Every run has an outcome: programs are finite trees, so they return or
    panic once their operations are answered. *)
Lemma exec_total {A} (p : prog A) (answers : forall o, ans o) :
  exists tr r, exec p tr r.
Proof.
  induction p as [a|m|o k IH]; simpl; [by eauto..|].
  destruct (IH (answers o)) as (tr & r & H). eauto 10.
Qed.

(** The run against an environment that answers each operation by a fixed
    function. *)
Fixpoint run_with {A} (env : forall o, ans o) (p : prog A) : list event * outcome A :=
  match p with
  | Ret a => ([], Done a)
  | Panic m => ([], Crash m)
  | Op o k => let '(tr, r) := run_with env (k (env o)) in (Ev o (env o) :: tr, r)
  end.

Lemma run_with_exec {A} env (p : prog A) : exec p (fst (run_with env p)) (snd (run_with env p)).
Proof.
  induction p as [a|m|o k IH]; simpl; [done..|].
  specialize (IH (env o)). destruct (run_with env (k (env o))) as [tr r]. simpl in *. eauto.
Qed.

Lemma exec_bind {A B} (p : prog A) (f : A -> prog B) : forall tr r,
  exec (bind p f) tr r <->
  (exists m, r = Crash m /\ exec p tr (Crash m)) \/
  (exists a t1 t2, tr = t1 ++ t2 /\ exec p t1 (Done a) /\ exec (f a) t2 r).
Proof.
  induction p as [a|m|o k IH]; intros tr r; simpl.
  - split; [intros H; right; by exists a, [], tr|].
    intros [(m & -> & _ & [=])|(? & t1 & t2 & -> & [-> [= ->]] & Hf)]. done.
  - split; [intros [-> ->]; left; by exists m|].
    intros [(m' & -> & -> & [= ->])|(? & ? & ? & -> & [-> [=]] & _)]. done.
  - split.
    + intros (x & tr' & -> & H). apply IH in H as [(m & -> & H)|(a & t1 & t2 & -> & H1 & H2)].
      * left. exists m. split; [done|]. eauto.
      * right. exists a, (Ev o x :: t1), t2. split; [done|]. split; [eauto|done].
    + intros [(m & -> & x & tr' & -> & H)|(a & t1 & t2 & -> & (x & t1' & -> & H1) & H2)].
      * exists x, tr'. split; [done|]. apply IH. left. eauto.
      * exists x, (t1' ++ t2). split; [done|]. apply IH. right. eauto 10.
Qed.

Lemma exec_bind_Done {A B} (p : prog A) (f : A -> prog B) t1 t2 a r :
  exec p t1 (Done a) -> exec (f a) t2 r -> exec (bind p f) (t1 ++ t2) r.
Proof. intros. apply exec_bind. right. eauto 10. Qed.

Lemma exec_defer {A} (f : prog unit) (p : prog A) : forall tr r,
  exec (defer f p) tr r <->
  exists t1 t2 r1, tr = t1 ++ t2 /\ exec p t1 r1 /\ exec (bind f (fun _ => of_outcome r1)) t2 r.
Proof.
  induction p as [a|m|o k IH]; intros tr r; simpl.
  - split; [intros H; by exists [], tr, (Done a)|].
    intros (t1 & t2 & r1 & -> & [-> ->] & H). done.
  - split; [intros H; by exists [], tr, (Crash m)|].
    intros (t1 & t2 & r1 & -> & [-> ->] & H). done.
  - split.
    + intros (x & tr' & -> & H). apply IH in H as (t1 & t2 & r1 & -> & H1 & H2).
      exists (Ev o x :: t1), t2, r1. split; [done|]. eauto 10.
    + intros (t1 & t2 & r1 & -> & (x & t1' & -> & H1) & H2).
      exists x, (t1' ++ t2). split; [done|]. apply IH. eauto 10.
Qed.

(** ** The operations a program uses *)

Fixpoint uses {A} (N : op -> bool) (p : prog A) : Prop :=
  match p with
  | Ret _ | Panic _ => True
  | Op o k => N o = true /\ forall x, uses N (k x)
  end.

Lemma uses_bind {A B} N (p : prog A) (f : A -> prog B) :
  uses N p -> (forall a, uses N (f a)) -> uses N (bind p f).
Proof. induction p as [a|m|o k IH]; simpl; auto. intros [? ?] ?. auto. Qed.

Lemma uses_defer {A} N (f : prog unit) (p : prog A) :
  uses N f -> uses N p -> uses N (defer f p).
Proof.
  intros Hf. induction p as [a|m|o k IH]; simpl; [intros _; by apply uses_bind..|].
  intros [? ?]. auto.
Qed.

Lemma uses_mono {A} (N N' : op -> bool) (p : prog A) :
  (forall o, N o = true -> N' o = true) -> uses N p -> uses N' p.
Proof. intros HN. induction p as [a|m|o k IH]; simpl; auto. intros [? ?]. auto. Qed.

Lemma uses_exec {A} N (p : prog A) : forall tr r,
  uses N p -> exec p tr r -> Forall (fun e => N (ev_op e) = true) tr.
Proof.
  induction p as [a|m|o k IH]; simpl; intros tr r.
  - intros _ [-> _]. constructor.
  - intros _ [-> _]. constructor.
  - intros [? ?] (x & tr' & -> & H'). constructor; eauto.
Qed.

Lemma uses_absent {A} N (p : prog A) tr r o (x : ans o) :
  uses N p -> exec p tr r -> N o = false -> Ev o x ∉ tr.
Proof.
  intros Hu He Hn Hin. pose proof (uses_exec _ _ _ _ Hu He) as Hf. rewrite Forall_forall in Hf.
  specialize (Hf _ Hin). simpl in Hf. congruence.
Qed.

(** ** The panics a program may raise *)

Fixpoint panics {A} (P : string -> Prop) (p : prog A) : Prop :=
  match p with
  | Ret _ => True
  | Panic m => P m
  | Op o k => forall x, panics P (k x)
  end.

Lemma panics_bind {A B} P (p : prog A) (f : A -> prog B) :
  panics P p -> (forall a, panics P (f a)) -> panics P (bind p f).
Proof. induction p as [a|m|o k IH]; simpl; auto. Qed.

(** ** Programs that cannot panic *)

Fixpoint returns {A} (p : prog A) : Prop :=
  match p with
  | Ret _ => True
  | Panic _ => False
  | Op o k => forall x, returns (k x)
  end.

Lemma returns_bind {A B} (p : prog A) (f : A -> prog B) :
  returns p -> (forall a, returns (f a)) -> returns (bind p f).
Proof. induction p as [a|m|o k IH]; simpl; auto. Qed.

Lemma returns_exec {A} (p : prog A) : forall tr r, returns p -> exec p tr r -> exists a, r = Done a.
Proof.
  induction p as [a|m|o k IH]; simpl; intros tr r.
  - intros _ [_ ->]. eauto.
  - done.
  - intros Hk (x & tr' & _ & He). eauto.
Qed.

(** ** Safety automata

    A safety property of traces is an automaton [delta] over events, partial
    where the property forbids an event.  [mon] checks a program against it
    in one pass over its tree. *)

Section Automaton.
Context {S : Type} (delta : S -> event -> option S).

Fixpoint accepts (s : S) (tr : list event) : option S :=
  match tr with
  | [] => Some s
  | e :: tr' => match delta s e with Some s' => accepts s' tr' | None => None end
  end.

Lemma accepts_app tr1 tr2 : forall s,
  accepts s (tr1 ++ tr2) = match accepts s tr1 with Some s' => accepts s' tr2 | None => None end.
Proof. induction tr1 as [|e tr1 IH]; intros s; simpl; [done|]. destruct (delta s e); auto. Qed.

Fixpoint mon {A} (s : S) (p : prog A) (Q : S -> outcome A -> Prop) : Prop :=
  match p with
  | Ret a => Q s (Done a)
  | Panic m => Q s (Crash m)
  | Op o k => forall x, match delta s (Ev o x) with Some s' => mon s' (k x) Q | None => False end
  end.

Lemma mon_exec {A} (p : prog A) : forall s Q tr r,
  mon s p Q -> exec p tr r -> exists s', accepts s tr = Some s' /\ Q s' r.
Proof.
  induction p as [a|m|o k IH]; simpl; intros s Q tr r Hm.
  - intros [-> ->]. eauto.
  - intros [-> ->]. eauto.
  - intros (x & tr' & -> & He). specialize (Hm x). simpl.
    destruct (delta s (Ev o x)) as [s'|]; [|done]. by eapply IH.
Qed.

Lemma mon_mono {A} (p : prog A) : forall s (Q Q' : S -> outcome A -> Prop),
  (forall s' r, Q s' r -> Q' s' r) -> mon s p Q -> mon s p Q'.
Proof.
  induction p as [a|m|o k IH]; simpl; intros s Q Q' HQ H; auto.
  intros x. specialize (H x). destruct (delta s (Ev o x)); [|done]. eauto.
Qed.

(** A program that uses only operations the automaton ignores. *)
Lemma mon_uses {A} N (p : prog A) : forall s (Q : S -> outcome A -> Prop),
  uses N p -> (forall o x, N o = true -> delta s (Ev o x) = Some s) ->
  (forall r, Q s r) -> mon s p Q.
Proof.
  induction p as [a|m|o k IH]; simpl; intros s Q Hu Hd HQ; auto.
  destruct Hu as [Ho Hk]. intros x. rewrite Hd by done. auto.
Qed.

Lemma mon_uses_returns {A} N (p : prog A) : forall s (Q : S -> outcome A -> Prop),
  uses N p -> returns p -> (forall o x, N o = true -> delta s (Ev o x) = Some s) ->
  (forall a, Q s (Done a)) -> mon s p Q.
Proof.
  induction p as [a|m|o k IH]; simpl; intros s Q Hu Hr Hd HQ; auto; [done|].
  destruct Hu as [Ho Hk]. intros x. rewrite Hd by done. auto.
Qed.

Definition mthen {A B} (f : A -> prog B) (Q : S -> outcome B -> Prop) (s : S) (r : outcome A) : Prop :=
  match r with Done a => mon s (f a) Q | Crash m => Q s (Crash m) end.

Lemma mon_bind {A B} (p : prog A) (f : A -> prog B) : forall s Q,
  mon s p (mthen f Q) -> mon s (bind p f) Q.
Proof.
  induction p as [a|m|o k IH]; simpl; intros s Q H; auto.
  intros x. specialize (H x). destruct (delta s (Ev o x)); [|done]. auto.
Qed.

Lemma mon_defer {A} (f : prog unit) (p : prog A) : forall s Q,
  mon s p (fun s' r => mon s' f (mthen (fun _ => of_outcome r) Q)) -> mon s (defer f p) Q.
Proof.
  induction p as [a|m|o k IH]; simpl; intros s Q H; [by apply mon_bind..|].
  intros x. specialize (H x). destruct (delta s (Ev o x)); [|done]. auto.
Qed.

Lemma mon_for_loop {B} (body : prog (option B)) (I : S -> Prop) (Q : S -> outcome (option B) -> Prop) :
  (forall s, I s -> mon s body (fun s' r =>
     match r with
     | Done None => I s'
     | Done (Some b) => Q s' (Done (Some b))
     | Crash m => Q s' (Crash m)
     end)) ->
  (forall s, I s -> Q s (Done None)) ->
  forall n s, I s -> mon s (for_loop n body) Q.
Proof.
  intros Hb H0. induction n as [|n IH]; intros s Hs; simpl; [by apply H0|].
  apply mon_bind. eapply mon_mono; [|apply Hb, Hs].
  intros s' [[b|]|m]; simpl; auto.
Qed.

End Automaton.

(** An automaton that follows every move of another one accepts what the other
    accepts. *)
Lemma mon_simulation {S1 S2 A} (d1 : S1 -> event -> option S1) (d2 : S2 -> event -> option S2)
    (R : S1 -> S2 -> Prop) (p : prog A) : forall s1 s2 Q1 Q2,
  (forall t1 t2 e t1', R t1 t2 -> d1 t1 e = Some t1' -> exists t2', d2 t2 e = Some t2' /\ R t1' t2') ->
  (forall t1 t2 r, R t1 t2 -> Q1 t1 r -> Q2 t2 r) ->
  R s1 s2 -> mon d1 s1 p Q1 -> mon d2 s2 p Q2.
Proof.
  induction p as [a|m|o k IH]; simpl; intros s1 s2 Q1 Q2 Hsim HQ HR Hm; [by eapply HQ..|].
  intros x. specialize (Hm x). destruct (d1 s1 (Ev o x)) as [s1'|] eqn:H1; [|done].
  destruct (Hsim _ _ _ _ HR H1) as (s2' & -> & HR'). by eapply IH.
Qed.

End Prog.

Arguments prog {op} ans A.
Arguments Ret {op ans A} a.
Arguments Panic {op ans A} msg.
Arguments Op {op ans A} o k.
Arguments event {op} ans.
Arguments Ev {op ans} ev_op ev_ans.
Arguments Done {A} a.
Arguments Crash {A} msg.

Notation "x <- p ;; q" := (bind p (fun x => q))
  (at level 100, p at next level, q at level 200, right associativity) : go_scope.
Notation "p ;; q" := (bind p (fun _ => q))
  (at level 100, q at level 200, right associativity) : go_scope.


(** Check which operations a concrete program uses. *)
Ltac uses_tac :=
  cbn; repeat first
    [ done
    | split; [reflexivity|]
    | progress intros
    | match goal with
      | |- uses _ (match ?x with _ => _ end) => destruct x; cbn
      | |- context [match ?x with _ => _ end] => destruct x; cbn
      end ].
