(* ===== verification/Effects.v ===== *)
(** * Data and operations shared by the components

    The values that flow between the activator and its environment (Go
    errors, the Kubernetes and Envoy types the sources name, restricted to
    the fields they use), the signature [op] of every operation through
    which the code acts, and the classes that stand for the libraries the
    sources call: their members are parameters of the development. *)

From S2P Require Import Prelude GoTime Prog.

#[local] Set Warnings "-register-all".

(** ** Errors *)

(** [google.golang.org/grpc/codes.Code] *)
Inductive code :=
| OK | Canceled | Unknown | InvalidArgument | DeadlineExceeded | NotFound
| AlreadyExists | PermissionDenied | ResourceExhausted | FailedPrecondition
| Aborted | OutOfRange | Unimplemented | Internal | Unavailable | DataLoss
| Unauthenticated.

#[export] Instance code_eq_dec : EqDecision code.
Proof. solve_decision. Defined.

(** A Go [error] value that is not nil; a possibly nil one is an [option]. *)
Inductive error :=
| EPoolNotSynced                     (* datastore.errPoolNotSynced *)
| EUtil (Code Msg : string)          (* errutil.Error{Code, Msg} *)
| EStatus (c : code) (msg : string)  (* status.Errorf(c, ...) *)
| EWrap (prefix : string) (e : error) (* fmt.Errorf(prefix + "%w", e) *)
| ENew (msg : string)                (* errors.New, fmt.Errorf without %w *)
| EEOF                               (* io.EOF *)
| ECanceled                          (* context.Canceled *)
| EDeadlineExceeded                  (* context.DeadlineExceeded *)
| EServerStopped                     (* grpc.ErrServerStopped *)
| EApi (reason msg : string).        (* an error of the Kubernetes API *)

#[export] Instance error_eq_dec : EqDecision error.
Proof. solve_decision. Defined.

(** [(A, error)] results: one of the two is meaningful. *)
Inductive res (A : Type) : Type :=
| Ok (a : A)
| Err (e : error).
Arguments Ok {A} a.
Arguments Err {A} e.

Definition is_Ok {A} (r : res A) : bool := match r with Ok _ => true | Err _ => false end.

(** ** Kubernetes types *)

Module v1.
Record InferencePool := MkPool {
  Name : string;
  Namespace : string;
  Annotations : gmap string string;
  DeletionTimestampIsZero : bool
}.
#[export] Instance InferencePool_eq_dec : EqDecision InferencePool.
Proof. solve_decision. Defined.
End v1.
Export (hints) v1.

Module v1alpha2.
Record InferencePool := MkPool {
  Name : string;
  Namespace : string;
  Annotations : gmap string string;
  DeletionTimestampIsZero : bool
}.
End v1alpha2.

Record GroupVersion := MkGV { gv_Group : string; gv_Version : string }.
Record GroupKind := MkGK { gk_Group : string; gk_Kind : string }.
Record GroupResource := MkGR { gr_Group : string; gr_Resource : string }.
Record GroupVersionResource := MkGVR { gvr_Group : string; gvr_Version : string; gvr_Resource : string }.
Record NamespacedName := MkNN { nn_Namespace : string; nn_Name : string }.
(** [common.GKNN]: a namespaced name with its group and kind. *)
Record GKNN := MkGKNN { gknn_nn : NamespacedName; gknn_gk : GroupKind }.

#[export] Instance GroupKind_eq_dec : EqDecision GroupKind.
Proof. solve_decision. Defined.
#[export] Instance NamespacedName_eq_dec : EqDecision NamespacedName.
Proof. solve_decision. Defined.
#[export] Instance GKNN_eq_dec : EqDecision GKNN.
Proof. solve_decision. Defined.

(** [autoscaling/v1.Scale]: [Spec.Replicas] is an int32; the metadata the
    server matches an update against is carried along unchanged. *)
Record Scale := MkScale {
  scale_Name : string;
  scale_ResourceVersion : string;
  Spec_Replicas : Z
}.

Definition set_Replicas (n : Z) (s : Scale) : Scale :=
  MkScale (scale_Name s) (scale_ResourceVersion s) n.

#[export] Instance GroupResource_eq_dec : EqDecision GroupResource.
Proof. solve_decision. Defined.
#[export] Instance Scale_eq_dec : EqDecision Scale.
Proof. solve_decision. Defined.

(** [any], as the JSON decoder fills the object of an unstructured value. *)
Inductive any :=
| ANil
| ABool (b : bool)
| AInt64 (z : Z)
| AFloat64 (mantissa exponent : Z)
| AString (s : string)
| ASlice (l : list any)
| AMap (m : list (string * any)).

(** [m["k"]]: a nil interface when the key is absent. *)
Definition any_index (k : string) (m : list (string * any)) : any := default ANil (assoc k m).

(** ** Envoy external processing *)

Inductive ProcessingRequest :=
| ProcessingRequest_RequestHeaders
| ProcessingRequest_RequestBody
| ProcessingRequest_RequestTrailers
| ProcessingRequest_ResponseHeaders
| ProcessingRequest_ResponseBody
| ProcessingRequest_ResponseTrailers
| ProcessingRequest_none.

Inductive StatusCode :=
| StatusCode_BadRequest | StatusCode_NotFound | StatusCode_TooManyRequests
| StatusCode_InternalServerError | StatusCode_ServiceUnavailable.

Definition http_status (c : StatusCode) : Z :=
  match c with
  | StatusCode_BadRequest => 400
  | StatusCode_NotFound => 404
  | StatusCode_TooManyRequests => 429
  | StatusCode_InternalServerError => 500
  | StatusCode_ServiceUnavailable => 503
  end.

Inductive ProcessingResponse :=
| PR_RequestHeaders_CONTINUE
| PR_ImmediateResponse (Code : StatusCode) (Body : string).

(** ** gRPC health checks *)

(** [healthPb.HealthCheckResponse_ServingStatus], as far as the sources use it. *)
Inductive ServingStatus := SERVING | NOT_SERVING | SERVICE_UNKNOWN.

#[export] Instance ServingStatus_eq_dec : EqDecision ServingStatus.
Proof. solve_decision. Defined.

(** ** Operations *)

Definition chan := nat.

(** What the deactivator's [select] received. *)
Inductive selected := SelCtxDone | SelTick.

Inductive op :=
(* sync.RWMutex datastore.poolMu; [Lock] is two steps: it announces the
   writer, which stops new readers, then waits for the readers inside *)
| OPoolRLock | OPoolRUnlock | OPoolLockAnnounce | OPoolLockAcquire | OPoolUnlock
(* the fields pool and ticker of the datastore *)
| OPoolRead | OPoolWrite (p : option v1.InferencePool)
| OTickerReset (d : Duration) | OTickerStop
(* sync.Mutex Activator.scalingUpAndGuardMu and the fields it protects *)
| OMuLock | OMuUnlock
| OScalingUpRead | OScalingUpWrite (b : bool)
| OGuardRead | OGuardWrite (g : option chan)
| OMakeChan | OClose (c : chan)
(* the atomic.Bool isLeader, and the channel mgr.Elected() *)
| OLeaderLoad | OLeaderStore (b : bool) | OElected
(* package time: a timer's deadline, and waiting *)
| OAfter (d : Duration) | OWaitUntil (deadline : Z)
| OSelectGuard (deadline : Z) (guard : option chan)
| OSelectTick
| OPollWait (interval : Duration)
(* the Kubernetes API *)
| ORESTMapping (gk : GroupKind) (version : string)
| OScaleGet (namespace : string) (gr : GroupResource) (name : string)
| OScaleUpdate (namespace : string) (gr : GroupResource) (s : Scale)
| ODynamicGet (gvr : GroupVersionResource) (namespace name : string)
| OReaderGetV1 (nn : NamespacedName)
| OReaderGetV1alpha2 (nn : NamespacedName)
(* the gRPC stream of Envoy *)
| OStreamCtxErr | ORecv | OSend (r : ProcessingResponse)
(* the reply to a health check *)
| OHealthSend (st : ServingStatus).

Definition ans (o : op) : Type :=
  match o with
  | OPoolRead => option v1.InferencePool
  | OScalingUpRead => bool
  | OGuardRead => option chan
  | OMakeChan => chan
  | OLeaderLoad => bool
  | OClose _ => bool              (* false: the channel was closed already *)
  | OAfter _ => Z
  | OSelectTick => selected
  | OPollWait _ => bool           (* true: the polling context has expired *)
  | ORESTMapping _ _ => res GroupVersionResource
  | OScaleGet _ _ _ => res Scale
  | OScaleUpdate _ _ _ => res Scale
  | ODynamicGet _ _ _ => res (list (string * any))
  | OReaderGetV1 _ => res v1.InferencePool
  | OReaderGetV1alpha2 _ => res v1alpha2.InferencePool
  | OStreamCtxErr => option error
  | ORecv => res ProcessingRequest
  | OSend _ => option error
  | _ => unit
  end.

Notation "'go' A" := (prog ans A) (at level 10, A at next level).
Abbreviation evt := (event ans).

(** Performing one operation. *)
Definition eff (o : op) : go (ans o) := Op o Ret.

(** An answer for every operation (used to show that runs exist). *)
Definition some_answer (o : op) : ans o.
Proof.
  destruct o; simpl; first
    [ exact tt | exact true | exact 0 | exact 0%nat | exact None | exact SelTick
    | exact (Err EEOF) ].
Defined.

(** ** Language primitives *)

(** [close(c)] of a possibly nil channel. *)
Definition close_chan (c : option chan) : go unit :=
  match c with
  | None => Panic "close of nil channel"
  | Some c =>
      bind (eff (OClose c)) (fun ok => if ok : bool then Ret tt else Panic "close of closed channel")
  end.

(** [time.Sleep(d)] *)
Definition Sleep (d : Duration) : go unit :=
  bind (eff (OAfter d)) (fun t => eff (OWaitUntil t)).

(** [ticker.Reset(d)] panics unless the period is positive. *)
Definition TickerReset (d : Duration) : go unit :=
  if d <=? 0 then Panic "non-positive interval for Ticker.Reset" else eff (OTickerReset d).

(** Dereferencing a pointer that may be nil. *)
Definition deref {A} (p : option A) : go A :=
  match p with
  | Some a => Ret a
  | None => Panic "invalid memory address or nil pointer dereference"
  end.

(** ** The libraries the sources call *)

(** k8s.io/apimachinery and the gateway-api-inference-extension API. *)
Class Kubernetes := {
  ParseGroupVersion : string -> res GroupVersion;
  GroupResource_of : GroupVersionResource -> GroupResource;
  IsNotFound : error -> bool;
  v1_GroupName : string;
  v1alpha2_GroupName : string;
  ConvertTo : v1alpha2.InferencePool -> res v1.InferencePool
}.

(** pkg/epp/util/error of the gateway-api-inference-extension and the
    [Error] method of the error values. *)
Class ErrUtil := {
  errutil_InferencePoolResourceExhausted : string;
  errutil_Internal : string;
  errutil_ServiceUnavailable : string;
  errutil_BadRequest : string;
  errutil_BadConfiguration : string;
  CanonicalCode : error -> string;
  Error : error -> string
}.

(** The codes the sources dispatch on. *)
Definition errutil_codes `{ErrUtil} : list string :=
  [errutil_InferencePoolResourceExhausted; errutil_Internal; errutil_ServiceUnavailable;
   errutil_BadRequest; errutil_BadConfiguration].

(** [CanonicalCode] is the code of an [errutil.Error]; any other error has
    a code of its own.  Go refuses a switch with equal constant cases, so
    the codes differ. *)
Class ErrUtilLaws `{ErrUtil} : Prop := {
  errutil_codes_NoDup : NoDup errutil_codes;
  CanonicalCode_EUtil c m : CanonicalCode (EUtil c m) = c;
  CanonicalCode_other e :
    (forall c m, e <> EUtil c m) -> CanonicalCode e ∉ errutil_codes
}.

(** google.golang.org/grpc/status *)
Class GrpcStatus := { status_Code : option error -> code }.

(** [status.Code] is OK for nil, the code of a status error, and Unknown
    for an error that is neither a status nor wraps one. *)
Class GrpcStatusLaws `{GrpcStatus} : Prop := {
  status_Code_nil : status_Code None = OK;
  status_Code_status c m : status_Code (Some (EStatus c m)) = c;
  status_Code_EOF : status_Code (Some EEOF) = Unknown;
  status_Code_not_synced : status_Code (Some EPoolNotSynced) = Unknown
}.

(** k8s.io/apimachinery/pkg/util/wait *)

(** The shape of a polling run: wait, call the condition, stop when it is
    done or fails, give up with an error when the context ends. *)
Inductive poll_shape (cond : go (bool * option error)) : go (option error) -> Prop :=
| ps_give_up e : poll_shape cond (Ret (Some e))
| ps_wait d k : (forall x, poll_shape cond (k x)) -> poll_shape cond (Op (OPollWait d) k)
| ps_call k :
    (forall b e, k (b, Some e) = Ret (Some e)) ->
    k (true, None) = Ret None ->
    poll_shape cond (k (false, None)) ->
    poll_shape cond (bind cond k).

Class WaitPkg := {
  PollUntilContextTimeout :
    Duration -> Duration -> bool -> go (bool * option error) -> go (option error)
}.

Class WaitPkgLaws `{WaitPkg} : Prop := {
  poll_law interval timeout immediate cond :
    poll_shape cond (PollUntilContextTimeout interval timeout immediate cond)
}.

(** ** Polling against a safety automaton

    The rule for a poll: an invariant that every wait and every unsuccessful
    call of the condition keep. *)
Lemma mon_poll {S} (delta : S -> evt -> option S) cond p (I : S -> Prop)
    (Q : S -> outcome (option error) -> Prop) :
  poll_shape cond p ->
  (forall s d x, I s -> match delta s (Ev (OPollWait d) x) with Some s' => I s' | None => False end) ->
  (forall s, I s -> mon delta s cond (fun s' r =>
     match r with
     | Done (_, Some e) => Q s' (Done (Some e))
     | Done (true, None) => Q s' (Done None)
     | Done (false, None) => I s'
     | Crash m => Q s' (Crash m)
     end)) ->
  (forall s e, I s -> Q s (Done (Some e))) ->
  forall s, I s -> mon delta s p Q.
Proof.
  intros Hs Hw Hc He. induction Hs as [e|d k _ IH|k Hk Ht _ IH]; intros s Hi; simpl.
  - by apply He.
  - intros x. specialize (Hw s d x Hi). destruct (delta s _); [|done]. by apply IH.
  - apply mon_bind. eapply mon_mono; [|by apply Hc].
    intros s' [[[] [e|]]|m]; simpl; rewrite ?Hk, ?Ht; auto.
Qed.

Lemma uses_poll N cond p :
  poll_shape cond p -> (forall d, N (OPollWait d) = true) -> uses N cond -> uses N p.
Proof.
  intros Hs Hw Hc. induction Hs as [e|d k _ IH|k Hk Ht _ IH]; simpl; auto.
  apply uses_bind; [done|]. intros [[] [e|]]; by rewrite ?Hk, ?Ht.
Qed.

(** A poll that ends without an error ended on a condition that was done. *)
Lemma exec_poll_done cond p tr :
  poll_shape cond p -> exec p tr (Done None) ->
  exists t1 t2, tr = t1 ++ t2 /\ exec cond t2 (Done (true, None)).
Proof.
  intros Hs. revert tr. induction Hs as [e|d k _ IH|k Hk Ht _ IH]; intros tr; simpl.
  - by intros [_ [=]].
  - intros (x & tr' & -> & H). destruct (IH x tr' H) as (t1 & t2 & -> & Hc).
    by exists (Ev (OPollWait d) x :: t1), t2.
  - intros [(m & [=] & _)|([b [e|]] & t1 & t2 & -> & Hc & H)]%exec_bind.
    + by rewrite Hk in H; destruct H as [_ [=]].
    + destruct b.
      * rewrite Ht in H. destruct H as [-> _]. exists [], t1. by rewrite app_nil_r.
      * destruct (IH _ H) as (t1' & t2' & -> & Hc'). exists (t1 ++ t1'), t2'.
        by rewrite app_assoc.
Qed.

(** A reference poll, used to exhibit runs: at most [timeout / interval]
    calls of the condition. *)
Fixpoint poll_n (n : nat) (interval : Duration) (cond : go (bool * option error)) : go (option error) :=
  match n with
  | O => Ret (Some EDeadlineExceeded)
  | S n' =>
      bind (eff (OPollWait interval)) (fun expired : bool =>
        if expired then Ret (Some EDeadlineExceeded)
        else bind cond (fun r =>
          match r with
          | (_, Some e) => Ret (Some e)
          | (true, None) => Ret None
          | (false, None) => poll_n n' interval cond
          end))
  end.

Definition ref_wait : WaitPkg := {|
  PollUntilContextTimeout interval timeout immediate cond :=
    poll_n (Z.to_nat (timeout / interval)) interval cond
|}.

Lemma poll_n_shape n interval cond : poll_shape cond (poll_n n interval cond).
Proof.
  induction n as [|n IH]; simpl; [constructor|]. constructor. intros [|]; simpl; [constructor|].
  apply ps_call; [by intros []|done|done].
Qed.

Lemma ref_wait_laws : @WaitPkgLaws ref_wait.
Proof. constructor. intros. apply poll_n_shape. Qed.
