(* ===== verification/Machine.v ===== *)
(** * The shared state and the interleaving of goroutines

    [world] is the memory the goroutines share: the datastore and the
    activator as the sources declare them, the channels, the clock and the
    root context.  [perform] says when an operation is enabled, with which
    answers, and what it does.  Operations on the API server and on the
    gRPC stream may answer anything.  [step] interleaves goroutines at
    their operations, lets time pass, cancels the root context, and ends
    the process when a goroutine panics.

    [thread_ok] is a thread-modular proof rule: an invariant of the world,
    plus what each goroutine knows from its own position, checked one
    operation at a time, holds in every reachable state
    ([pool_invariant]). *)

From S2P Require Import Prelude GoTime Prog Effects.

Definition tid := nat.

(** ** [sync.RWMutex]

    The goroutines inside are named, for the proofs; Go's lock only counts
    them.  A goroutine of this program releases only what it holds. *)

Inductive writer_state := NoWriter | WriterPending (i : tid) | WriterInside (i : tid).

#[export] Instance writer_state_eq_dec : EqDecision writer_state.
Proof. solve_decision. Defined.

Record rwmutex := RW { rw_readers : list tid; rw_writer : writer_state }.

Fixpoint remove_one (i : tid) (l : list tid) : list tid :=
  match l with
  | [] => []
  | j :: l' => if decide (i = j) then l' else j :: remove_one i l'
  end.

(** How many times goroutine [i] is inside as a reader. *)
Fixpoint holds (i : tid) (l : list tid) : nat :=
  match l with
  | [] => 0
  | j :: l' => (if decide (i = j) then 1 else 0) + holds i l'
  end.

Lemma holds_remove_eq i l : holds i (remove_one i l) = pred (holds i l).
Proof.
  induction l as [|j l IH]; simpl; [done|]. case_decide; simpl; [done|]. by rewrite decide_False.
Qed.

Lemma holds_remove_ne i j l : i <> j -> holds i (remove_one j l) = holds i l.
Proof.
  intros Hne. induction l as [|k l IH]; simpl; [done|]. case_decide as Hj; simpl.
  - subst. by rewrite decide_False.
  - by rewrite IH.
Qed.

(** A pending writer keeps new readers out. *)
Definition rw_RLock (i : tid) (m : rwmutex) : option rwmutex :=
  match rw_writer m with NoWriter => Some (RW (i :: rw_readers m) NoWriter) | _ => None end.
Definition rw_RUnlock (i : tid) (m : rwmutex) : option rwmutex :=
  match holds i (rw_readers m) with
  | S _ => Some (RW (remove_one i (rw_readers m)) (rw_writer m))
  | O => None
  end.
Definition rw_Announce (i : tid) (m : rwmutex) : option rwmutex :=
  match rw_writer m with NoWriter => Some (RW (rw_readers m) (WriterPending i)) | _ => None end.
Definition rw_Acquire (i : tid) (m : rwmutex) : option rwmutex :=
  match rw_writer m, rw_readers m with
  | WriterPending j, [] => if decide (i = j) then Some (RW [] (WriterInside i)) else None
  | _, _ => None
  end.
Definition rw_Unlock (i : tid) (m : rwmutex) : option rwmutex :=
  match rw_writer m with
  | WriterInside j => if decide (i = j) then Some (RW (rw_readers m) NoWriter) else None
  | _ => None
  end.

Lemma rw_RLock_free i l : rw_RLock i (RW l NoWriter) = Some (RW (i :: l) NoWriter).
Proof. done. Qed.
Lemma rw_RUnlock_own i l w : rw_RUnlock i (RW (i :: l) w) = Some (RW l w).
Proof. unfold rw_RUnlock. simpl. by rewrite !decide_True. Qed.
Lemma rw_Announce_free i l : rw_Announce i (RW l NoWriter) = Some (RW l (WriterPending i)).
Proof. done. Qed.
Lemma rw_Acquire_own i : rw_Acquire i (RW [] (WriterPending i)) = Some (RW [] (WriterInside i)).
Proof. unfold rw_Acquire. simpl. by rewrite decide_True. Qed.
Lemma rw_Unlock_own i l : rw_Unlock i (RW l (WriterInside i)) = Some (RW l NoWriter).
Proof. unfold rw_Unlock. simpl. by rewrite decide_True. Qed.

#[global] Arguments rw_RLock : simpl never.
#[global] Arguments rw_RUnlock : simpl never.
#[global] Arguments rw_Announce : simpl never.
#[global] Arguments rw_Acquire : simpl never.
#[global] Arguments rw_Unlock : simpl never.

Create Rewrite HintDb gorw.
#[export] Hint Rewrite rw_RLock_free rw_RUnlock_own rw_Announce_free rw_Acquire_own rw_Unlock_own : gorw.

(** ** State of the components *)

(** [datastore.datastore]; a nil pool is [None]. *)
Record datastore := MkDatastore {
  poolMu : rwmutex;
  pool : option v1.InferencePool;
  ds_ticker : ticker
}.

Definition NewDatastore (now : Z) : datastore :=
  MkDatastore (RW [] NoWriter) None (NewTicker now (60 * Second)).

(** The part of [requestcontrol.Activator] that changes.  The mutex names
    the goroutine inside, for the proofs; Go's mutex does not. *)
Record activator := MkActivator {
  scalingUp : bool;
  guard : option chan;
  scalingUpAndGuardMu : option tid
}.

Definition NewActivator : activator := MkActivator false None None.

Record world := MkWorld {
  now : Z;
  ds : datastore;
  act : activator;
  closed : list bool;    (* the channels made so far: closed or open *)
  ctx_done : bool;       (* the root context *)
  isLeader : bool        (* the atomic.Bool of runner.Run *)
}.

Definition init_world (t : Z) : world := MkWorld t (NewDatastore t) NewActivator [] false false.

Definition set_now t w := MkWorld t (ds w) (act w) (closed w) (ctx_done w) (isLeader w).
Definition set_ds d w := MkWorld (now w) d (act w) (closed w) (ctx_done w) (isLeader w).
Definition set_act a w := MkWorld (now w) (ds w) a (closed w) (ctx_done w) (isLeader w).
Definition set_closed c w := MkWorld (now w) (ds w) (act w) c (ctx_done w) (isLeader w).
Definition set_ctx_done b w := MkWorld (now w) (ds w) (act w) (closed w) b (isLeader w).
Definition set_isLeader b w := MkWorld (now w) (ds w) (act w) (closed w) (ctx_done w) b.

Definition set_poolMu w m := set_ds (MkDatastore m (pool (ds w)) (ds_ticker (ds w))) w.
Definition set_pool w p := set_ds (MkDatastore (poolMu (ds w)) p (ds_ticker (ds w))) w.
Definition set_ticker w t := set_ds (MkDatastore (poolMu (ds w)) (pool (ds w)) t) w.
Definition set_scalingUp w b := set_act (MkActivator b (guard (act w)) (scalingUpAndGuardMu (act w))) w.
Definition set_guard w g := set_act (MkActivator (scalingUp (act w)) g (scalingUpAndGuardMu (act w))) w.
Definition set_mu w o := set_act (MkActivator (scalingUp (act w)) (guard (act w)) o) w.

Definition is_closed (w : world) (c : chan) : bool := default false (closed w !! c).

(** ** What an operation does *)

Definition guard_on (b : bool) (w : world) : option world := if b then Some w else None.

Definition perform (i : tid) (o : op) (w : world) : ans o -> option world :=
  match o return ans o -> option world with
  | OPoolRLock => fun _ => set_poolMu w <$> rw_RLock i (poolMu (ds w))
  | OPoolRUnlock => fun _ => set_poolMu w <$> rw_RUnlock i (poolMu (ds w))
  | OPoolLockAnnounce => fun _ => set_poolMu w <$> rw_Announce i (poolMu (ds w))
  | OPoolLockAcquire => fun _ => set_poolMu w <$> rw_Acquire i (poolMu (ds w))
  | OPoolUnlock => fun _ => set_poolMu w <$> rw_Unlock i (poolMu (ds w))
  | OPoolRead => fun (p : option v1.InferencePool) => if decide (p = pool (ds w)) then Some w else None
  | OPoolWrite p => fun _ => Some (set_pool w p)
  | OTickerReset d => fun _ => Some (set_ticker w (ticker_Reset (now w) d (ds_ticker (ds w))))
  | OTickerStop => fun _ => Some (set_ticker w (ticker_Stop (ds_ticker (ds w))))
  | OMuLock => fun _ =>
      match scalingUpAndGuardMu (act w) with None => Some (set_mu w (Some i)) | Some _ => None end
  | OMuUnlock => fun _ =>
      match scalingUpAndGuardMu (act w) with Some _ => Some (set_mu w None) | None => None end
  | OScalingUpRead => fun b => guard_on (Bool.eqb b (scalingUp (act w))) w
  | OScalingUpWrite b => fun _ => Some (set_scalingUp w b)
  | OGuardRead => fun (g : option chan) => if decide (g = guard (act w)) then Some w else None
  | OGuardWrite g => fun _ => Some (set_guard w g)
  | OMakeChan => fun (c : chan) =>
      if decide (c = length (closed w)) then Some (set_closed (closed w ++ [false]) w) else None
  | OClose c => fun ok =>
      if Bool.eqb ok (negb (is_closed w c)) then Some (set_closed (<[c := true]> (closed w)) w) else None
  | OLeaderLoad => fun b => guard_on (Bool.eqb b (isLeader w)) w
  | OLeaderStore b => fun _ => Some (set_isLeader b w)
  | OAfter d => fun t => guard_on (t =? now w + d) w
  | OWaitUntil t => fun _ => guard_on (t <=? now w) w
  | OSelectGuard t g => fun _ =>
      guard_on ((t <=? now w) || match g with Some c => is_closed w c | None => false end) w
  | OSelectTick => fun s =>
      match s with
      | SelCtxDone => guard_on (ctx_done w) w
      | SelTick => set_ticker w <$> ticker_recv (now w) (ds_ticker (ds w))
      end
  | _ => fun _ => Some w
  end.

(** The cases of an operation. *)
Ltac perform_cases H :=
  cbn in H; unfold guard_on in H;
  repeat match type of H with
  | (_ <$> ?m) = _ => destruct m eqn:?; cbn in H
  | context [match ?s with SelCtxDone => _ | SelTick => _ end] => destruct s
  | context [scalingUpAndGuardMu ?a] => destruct (scalingUpAndGuardMu a)
  | (if ?b then _ else _) = _ => destruct b eqn:?
  end; simplify_eq.

(** ** Goroutines and their interleaving *)

Definition void {A} (p : go A) : go unit := bind p (fun _ => Ret tt).

Inductive proc :=
| Running (w : world) (ts : list (go unit))
| Crashed (msg : string).

Inductive label :=
| LOp (i : tid) (e : evt)
| LTime (d : Z)
| LCancel
| LPanic (i : tid).

(** Goroutine [i] takes one step. *)
Definition thread_step (i : tid) (w : world) (t : go unit) (l : label) (w' : world) (t' : go unit) : Prop :=
  match t with
  | Op o k => exists x, l = LOp i (Ev o x) /\ perform i o w x = Some w' /\ t' = k x
  | _ => False
  end.

Inductive step : proc -> label -> proc -> Prop :=
| step_thread i w ts t l w' t' :
    ts !! i = Some t -> thread_step i w t l w' t' ->
    step (Running w ts) l (Running w' (<[i := t']> ts))
| step_time w ts d : 0 <= d ->
    step (Running w ts) (LTime d) (Running (set_now (now w + d) w) ts)
| step_cancel w ts :
    step (Running w ts) LCancel (Running (set_ctx_done true w) ts)
| step_panic i w ts m :
    ts !! i = Some (Panic m) -> step (Running w ts) (LPanic i) (Crashed m).

Inductive steps : proc -> list label -> proc -> Prop :=
| steps_refl c : steps c [] c
| steps_step c l c' ls c'' : step c l c' -> steps c' ls c'' -> steps c (l :: ls) c''.

Definition reachable (c c' : proc) : Prop := exists ls, steps c ls c'.

Lemma steps_app c ls c' ls' c'' : steps c ls c' -> steps c' ls' c'' -> steps c (ls ++ ls') c''.
Proof. induction 1; simpl; eauto using steps. Qed.

(** A relation between the world and the goroutines that every step keeps. *)
Lemma steps_invariant (P : world -> list (go unit) -> Prop) :
  (forall w ts l w' ts', P w ts -> step (Running w ts) l (Running w' ts') -> P w' ts') ->
  forall w ts ls w' ts', steps (Running w ts) ls (Running w' ts') -> P w ts -> P w' ts'.
Proof.
  intros HP w ts ls w' ts' Hs. remember (Running w ts) as c eqn:Hc. remember (Running w' ts') as c' eqn:Hc'.
  revert w ts Hc. induction Hs as [c|c l c1 ls c2 Hst Hr IH]; intros w ts Hc H; [by simplify_eq|]. subst.
  destruct c1 as [w1 ts1|m]; [by eauto|inversion Hr as [|? ? ? ? ? Hs]; inversion Hs].
Qed.

Lemma reachable_refl c : reachable c c.
Proof. exists []. constructor. Qed.

Lemma reachable_trans c c' c'' : reachable c c' -> reachable c' c'' -> reachable c c''.
Proof. intros [ls H] [ls' H']. exists (ls ++ ls'). by eapply steps_app. Qed.

(** A goroutine that has not ended but cannot step, now or ever, unless
    another goroutine does something. *)
Definition blocked (i : tid) (w : world) (t : go unit) : Prop :=
  match t with
  | Op o _ => forall x t', perform i o (set_now t' w) x = None
  | _ => False
  end.

(** ** Running one goroutine alone *)

Fixpoint replay (i : tid) (w : world) (tr : list evt) : option world :=
  match tr with
  | [] => Some w
  | Ev o x :: tr' => match perform i o w x with Some w' => replay i w' tr' | None => None end
  end.

(** [runs i p w tr r w']: goroutine [i] executes [p] from [w] without
    interference, performs [tr] and ends in [r] and [w']. *)
Fixpoint runs {A} (i : tid) (p : go A) (w : world) (r : outcome A) (w' : world) : Prop :=
  match p with
  | Ret a => r = Done a /\ w' = w
  | Panic m => r = Crash m /\ w' = w
  | Op o k => exists x w1, perform i o w x = Some w1 /\ runs i (k x) w1 r w'
  end.

Lemma runs_exec {A} i (p : go A) : forall w r w',
  runs i p w r w' <-> exists tr, exec p tr r /\ replay i w tr = Some w'.
Proof.
  induction p as [a|m|o k IH]; intros w r w'; simpl.
  - split; [intros [-> ->]; by exists []|intros (tr & [-> ->] & [= ->]); done].
  - split; [intros [-> ->]; by exists []|intros (tr & [-> ->] & [= ->]); done].
  - split.
    + intros (x & w1 & Hp & H). apply IH in H as (tr & He & Hr).
      exists (Ev o x :: tr). split; [eauto|]. simpl. by rewrite Hp.
    + intros (tr & (x & tr' & -> & He) & Hr). simpl in Hr.
      destruct (perform i o w x) as [w1|] eqn:Hp; [|done].
      exists x, w1. split; [done|]. apply IH. eauto.
Qed.

Lemma runs_bind {A B} i (p : go A) (f : A -> go B) : forall w r w',
  runs i (bind p f) w r w' <->
  (exists m, r = Crash m /\ runs i p w (Crash m) w') \/
  (exists a w1, runs i p w (Done a) w1 /\ runs i (f a) w1 r w').
Proof.
  induction p as [a|m|o k IH]; intros w r w'; simpl.
  - split; [intros H; right; eauto|].
    intros [(m & -> & [=] & _)|(? & w1 & [[= ->] ->] & Hf)]. done.
  - split; [intros [-> ->]; left; eauto|].
    intros [(m' & -> & [= ->] & ->)|(? & w1 & [[=] _] & _)]. done.
  - split.
    + intros (x & w1 & Hp & H). apply IH in H as [(m & -> & H)|(a & w2 & H1 & H2)]; eauto 10.
    + intros [(m & -> & x & w1 & Hp & H)|(a & w2 & (x & w1 & Hp & H1) & H2)];
        exists x, w1; (split; [done|]); apply IH; eauto.
Qed.

(** Invert a run of a concrete program. *)
Ltac runs_inv := repeat progress (split_hyps; autorewrite with gorw in *; simplify_eq/=; repeat case_decide).

(** Exhibit a run: one operation with a given answer. *)
Ltac runs_op x := exists x; eexists; split; [cbn; autorewrite with gorw; rewrite ?decide_True by done; reflexivity|].

(** A run of a goroutine alone is an interleaving of the machine. *)
Lemma runs_steps {A} i (p : go A) (f : A -> go unit) : forall w a w' ts,
  runs i p w (Done a) w' -> ts !! i = Some (bind p f) ->
  reachable (Running w ts) (Running w' (<[i := f a]> ts)).
Proof.
  induction p as [a0|m|o k IH]; intros w a w' ts; simpl.
  - intros [[= ->] ->] Hi. rewrite list_insert_id by done. apply reachable_refl.
  - by intros [[=] _].
  - intros (x & w1 & Hp & H) Hi.
    eapply reachable_trans.
    + exists [LOp i (Ev o x)]. eapply steps_step; [|constructor].
      eapply step_thread; [done|]. exists x. done.
    + replace (<[i := f a]> ts) with (<[i := f a]> (<[i := bind (k x) f]> ts)) by apply list_insert_insert_eq.
      eapply IH; [done|]. apply list_lookup_insert_eq. by eapply lookup_lt_Some.
Qed.

(** ** Thread-modular invariants *)

Section Invariant.
(** [I] holds of the world; [R i l w] is what goroutine [i] in local state
    [l] knows about [w]. *)
Context {L : Type} (I : world -> Prop) (R : tid -> L -> world -> Prop).
Context (bad : string -> Prop).

Hypothesis I_time : forall w d, 0 <= d -> I w -> I (set_now (now w + d) w).
Hypothesis I_cancel : forall w, I w -> I (set_ctx_done true w).
Hypothesis R_time : forall i l w d, 0 <= d -> R i l w -> R i l (set_now (now w + d) w).
Hypothesis R_cancel : forall i l w, R i l w -> R i l (set_ctx_done true w).

(** One operation keeps the invariant, updates what its goroutine knows
    and leaves alone what the others know. *)
Definition op_ok (i : tid) (l : L) (o : op) (next : ans o -> L -> Prop) : Prop :=
  forall w x w', I w -> R i l w -> perform i o w x = Some w' ->
    I w' /\ (forall j l', j <> i -> R j l' w -> R j l' w') /\
    exists l', R i l' w' /\ next x l'.

(** [Q] holds of what the goroutine knows at the end, whether it returns or
    panics. *)
Fixpoint thread_ok {A} (i : tid) (l : L) (p : go A) (Q : L -> outcome A -> Prop) : Prop :=
  match p with
  | Ret a => Q l (Done a)
  | Panic m => Q l (Crash m)
  | Op o k => op_ok i l o (fun x l' => thread_ok i l' (k x) Q)
  end.

Definition ok_then {A B} (i : tid) (f : A -> go B) (Q : L -> outcome B -> Prop) (l : L) (r : outcome A) : Prop :=
  match r with Done a => thread_ok i l (f a) Q | Crash m => Q l (Crash m) end.

Lemma op_ok_mono i l o (n n' : ans o -> L -> Prop) :
  (forall x l', n x l' -> n' x l') -> op_ok i l o n -> op_ok i l o n'.
Proof.
  intros Hn H w x w' Hi Hr Hp. destruct (H w x w' Hi Hr Hp) as (? & ? & l' & ? & ?). eauto 10.
Qed.

Lemma thread_ok_mono {A} i (p : go A) : forall l (Q Q' : L -> outcome A -> Prop),
  (forall l' r, Q l' r -> Q' l' r) -> thread_ok i l p Q -> thread_ok i l p Q'.
Proof.
  induction p as [a|m|o k IH]; simpl; intros l Q Q' HQ; auto.
  apply op_ok_mono. intros x l'. by apply IH.
Qed.

Lemma thread_ok_bind {A B} i (p : go A) (f : A -> go B) : forall l Q,
  thread_ok i l p (ok_then i f Q) -> thread_ok i l (bind p f) Q.
Proof.
  induction p as [a|m|o k IH]; simpl; intros l Q; auto.
  apply op_ok_mono. intros x l'. apply IH.
Qed.

Lemma thread_ok_defer {A} i (f : go unit) (p : go A) : forall l Q,
  thread_ok i l p (fun l' r => thread_ok i l' f (ok_then i (fun _ => of_outcome r) Q)) ->
  thread_ok i l (defer f p) Q.
Proof.
  induction p as [a|m|o k IH]; simpl; intros l Q; [apply thread_ok_bind..|].
  apply op_ok_mono. intros x l'. apply IH.
Qed.

(** A program made of operations that keep the invariant and tell its
    goroutine nothing. *)
Lemma thread_ok_uses {A} i N P (p : go A) l (Q : L -> outcome A -> Prop) :
  uses N p -> panics P p ->
  (forall o, N o = true -> op_ok i l o (fun _ l' => l' = l)) ->
  (forall a, Q l (Done a)) -> (forall m, P m -> Q l (Crash m)) -> thread_ok i l p Q.
Proof.
  intros Hu Hp HN HQ HP. induction p as [a|m|o k IH]; simpl in *; auto.
  destruct Hu as [Ho Hk]. eapply op_ok_mono; [|by apply HN]. intros x l' ->. auto.
Qed.

(** The invariant, and what each goroutine knows and will end with. *)
Definition threads_ok (Post : tid -> L -> outcome unit -> Prop) (w : world) (ts : list (go unit)) : Prop :=
  I w /\ forall i t, ts !! i = Some t -> exists l, R i l w /\ thread_ok i l t (Post i).

Lemma threads_ok_step Post w ts l w' ts' :
  threads_ok Post w ts -> step (Running w ts) l (Running w' ts') -> threads_ok Post w' ts'.
Proof.
  intros [HI Hts] Hs. inversion Hs as [i w0 ts0 t l0 w1 t' Hi Ht|w0 ts0 d Hd|w0 ts0|]; subst.
  - destruct (Hts i t Hi) as (loc & HR & Hok).
    destruct t as [a|m|o k]; [done..|]. destruct Ht as (x & _ & Hp & ->).
    destruct (Hok w x w' HI HR Hp) as (HI' & Hst & loc' & HR' & Hok').
    split; [done|]. intros j t Hj. destruct (decide (j = i)) as [->|Hne].
    + rewrite list_lookup_insert_eq in Hj by (by eapply lookup_lt_Some).
      simplify_eq. eauto.
    + rewrite list_lookup_insert_ne in Hj by done.
      destruct (Hts j t Hj) as (lj & ? & ?). eauto.
  - split; [auto|]. intros i t Hi. destruct (Hts i t Hi) as (l & ? & ?). eauto.
  - split; [auto|]. intros i t Hi. destruct (Hts i t Hi) as (l & ? & ?). eauto.
Qed.

Lemma threads_ok_steps Post w ts ls w' ts' :
  steps (Running w ts) ls (Running w' ts') -> threads_ok Post w ts -> threads_ok Post w' ts'.
Proof. apply (steps_invariant (threads_ok Post)). intros ? ? ? ? ?. apply threads_ok_step. Qed.

(** What a goroutine of the pool must guarantee: no bad panic. *)
Definition no_bad {A} (_ : L) (r : outcome A) : Prop :=
  match r with Done _ => True | Crash m => ~ bad m end.

Definition pool_ok (c : proc) : Prop :=
  match c with
  | Running w ts => threads_ok (fun _ => no_bad) w ts
  | Crashed m => ~ bad m
  end.

Lemma pool_ok_step c l c' : pool_ok c -> step c l c' -> pool_ok c'.
Proof.
  intros Hc Hs. destruct c as [w ts|m]; [|inversion Hs]. destruct c' as [w' ts'|m]; [by eapply threads_ok_step|].
  inversion Hs as [| | |i w0 ts0 m0 Hi]; subst. destruct Hc as [_ Hts]. destruct (Hts i _ Hi) as (l & _ & Hb). done.
Qed.

(** The invariant holds in every reachable state, and no reachable panic
    is a bad one. *)
Lemma pool_invariant c c' : pool_ok c -> reachable c c' -> pool_ok c'.
Proof. intros Hc [ls H]. induction H; eauto using pool_ok_step. Qed.

End Invariant.

(** ** Executing a schedule

    [resolve] computes the answer of the operations whose answer the world
    determines and takes the others from [env]; [run_sched] follows a
    schedule, which names at each step the goroutine that moves and the
    environment that answers it. *)

Definition resolve (env : forall o, ans o) (w : world) (o : op) : ans o :=
  match o return ans o with
  | OPoolRead => pool (ds w)
  | OScalingUpRead => scalingUp (act w)
  | OGuardRead => guard (act w)
  | OMakeChan => length (closed w)
  | OClose c => negb (is_closed w c)
  | OLeaderLoad => isLeader w
  | OAfter d => now w + d
  | OSelectTick => if ctx_done w then SelCtxDone else SelTick
  | o => env o
  end.

Inductive sched := Go (env : forall o, ans o) (i : tid) | Elapse (d : Z) | Cancel.

Definition run_one (s : sched) (c : proc) : option proc :=
  match c with
  | Crashed _ => None
  | Running w ts =>
      match s with
      | Go env i =>
          match ts !! i with
          | Some (Op o k) =>
              let x := resolve env w o in
              match perform i o w x with
              | Some w' => Some (Running w' (<[i := k x]> ts))
              | None => None
              end
          | Some (Panic m) => Some (Crashed m)
          | _ => None
          end
      | Elapse d => if 0 <=? d then Some (Running (set_now (now w + d) w) ts) else None
      | Cancel => Some (Running (set_ctx_done true w) ts)
      end
  end.

Fixpoint run_sched (ss : list sched) (c : proc) : option proc :=
  match ss with
  | [] => Some c
  | s :: ss' => match run_one s c with Some c' => run_sched ss' c' | None => None end
  end.

(** The labels of a schedule's steps. *)
Definition label_of (s : sched) (c : proc) : label :=
  match s, c with
  | Go env i, Running w ts =>
      match ts !! i with
      | Some (Op o _) => LOp i (Ev o (resolve env w o))
      | _ => LPanic i
      end
  | Elapse d, _ => LTime d
  | _, _ => LCancel
  end.

Fixpoint run_labels (ss : list sched) (c : proc) : list label :=
  match ss with
  | [] => []
  | s :: ss' => label_of s c :: match run_one s c with Some c' => run_labels ss' c' | None => [] end
  end.

Lemma run_one_label s c c' : run_one s c = Some c' -> step c (label_of s c) c'.
Proof.
  destruct c as [w ts|]; simpl; [|done].
  destruct s as [env i|d|].
  - cbn. destruct (ts !! i) as [[a|m|o k]|] eqn:Hi; [done|..|done].
    + intros [= <-]. by econstructor.
    + destruct (perform i o w _) as [w'|] eqn:Hp; [|done]. intros [= <-].
      econstructor; [done|]. by exists (resolve env w o).
  - destruct (0 <=? d) eqn:Hd; [|done]. intros [= <-]. constructor. lia.
  - intros [= <-]. constructor.
Qed.

Lemma run_sched_steps ss : forall c c', run_sched ss c = Some c' -> steps c (run_labels ss c) c'.
Proof.
  induction ss as [|s ss IH]; simpl; intros c c'; [intros [= ->]; constructor|].
  destruct (run_one s c) as [c1|] eqn:H1; [|done]. intros H.
  apply run_one_label in H1. econstructor; [done|]. by apply IH.
Qed.

Lemma run_sched_reachable ss c c' : run_sched ss c = Some c' -> reachable c c'.
Proof. intros H. exists (run_labels ss c). by apply run_sched_steps. Qed.

(** One goroutine alone, to the end. *)
Fixpoint run_alone {A} (env : forall o, ans o) (i : tid) (p : go A) (w : world) : option (outcome A * world) :=
  match p with
  | Ret a => Some (Done a, w)
  | Panic m => Some (Crash m, w)
  | Op o k =>
      let x := resolve env w o in
      match perform i o w x with Some w' => run_alone env i (k x) w' | None => None end
  end.

Lemma run_alone_runs {A} env i (p : go A) : forall w r w',
  run_alone env i p w = Some (r, w') -> runs i p w r w'.
Proof.
  induction p as [a|m|o k IH]; simpl; intros w r w'; [by intros [= <- <-]..|].
  destruct (perform i o w _) as [w1|] eqn:Hp; [|done]. intros H. eauto.
Qed.
