(* ===== verification/Datastore.v ===== *)
(** * pkg/activator/datastore

    The operations of [datastore] as the goroutines execute them, lock by
    lock, and their refinement of two plain variables, the pool and the
    ticker: a sequence of calls returns what the same sequence returns on
    them ([datastore_refines_register]).  [Datastore_iface] is the interface the
    other components use and [DatastoreLaws] its promise.  The lock of the datastore is a
    [sync.RWMutex]; [PoolGet] takes it for reading and, through
    [PoolHasSynced], takes it again. *)

From S2P Require Import Prelude GoTime Prog Effects Machine.
#[local] Open Scope go_scope.

(** The sentinel error of an empty datastore. *)
Definition errPoolNotSynced : error := EPoolNotSynced.

(** [ds.poolMu.Lock()] *)
Definition poolMu_Lock : go unit := eff OPoolLockAnnounce ;; eff OPoolLockAcquire.

Definition PoolSet (pool : option v1.InferencePool) : go unit :=
  poolMu_Lock ;;
  defer (eff OPoolUnlock) (eff (OPoolWrite pool)).

Definition PoolHasSynced : go bool :=
  eff OPoolRLock ;;
  defer (eff OPoolRUnlock) (
    pool <- eff OPoolRead ;;
    Ret (negb (is_nil pool))).

Definition PoolGet : go (option v1.InferencePool * option error) :=
  eff OPoolRLock ;;
  defer (eff OPoolRUnlock) (
    synced <- PoolHasSynced ;;
    if negb synced then Ret (None, Some errPoolNotSynced)
    else pool <- eff OPoolRead ;; Ret (pool, None)).

Definition Clear : go unit := PoolSet None.

Definition ResetTicker (t : Duration) : go unit :=
  eff OPoolRLock ;;
  defer (eff OPoolRUnlock) (TickerReset t).

(** The ticker itself never changes, so the handle carries nothing. *)
Definition GetTicker : go unit :=
  eff OPoolRLock ;;
  defer (eff OPoolRUnlock) (Ret tt).

Definition StopTicker : go unit :=
  eff OPoolRLock ;;
  defer (eff OPoolRUnlock) (eff OTickerStop).

(** ** The operations they use *)

Definition pool_reads (o : op) : bool :=
  match o with OPoolRLock | OPoolRUnlock | OPoolRead => true | _ => false end.

Definition ticker_resets (o : op) : bool :=
  match o with OPoolRLock | OPoolRUnlock | OTickerReset _ => true | _ => false end.

Definition ticker_stops (o : op) : bool :=
  match o with OPoolRLock | OPoolRUnlock | OTickerStop => true | _ => false end.

Definition pool_writes (o : op) : bool :=
  match o with OPoolLockAnnounce | OPoolLockAcquire | OPoolUnlock | OPoolWrite _ => true | _ => false end.

Lemma PoolGet_uses : uses pool_reads PoolGet.
Proof. uses_tac. Qed.

Lemma PoolHasSynced_uses : uses pool_reads PoolHasSynced.
Proof. uses_tac. Qed.

Lemma ResetTicker_uses d : uses ticker_resets (ResetTicker d).
Proof. unfold ResetTicker, TickerReset. uses_tac. Qed.

Lemma ResetTicker_returns d : 0 < d -> returns (ResetTicker d).
Proof. intros Hd. unfold ResetTicker, TickerReset. replace (d <=? 0) with false by lia. done. Qed.

Lemma GetTicker_uses : uses ticker_resets GetTicker.
Proof. uses_tac. Qed.

Lemma StopTicker_uses : uses ticker_stops StopTicker.
Proof. uses_tac. Qed.

Lemma PoolSet_uses p : uses pool_writes (PoolSet p).
Proof. uses_tac. Qed.

#[export] Hint Resolve PoolGet_uses PoolHasSynced_uses ResetTicker_uses GetTicker_uses
  StopTicker_uses PoolSet_uses : golib.

(** ** Running alone *)

(** With no writer about, [PoolGet] run alone returns the pool, or
    [errPoolNotSynced] when there is none, and changes nothing. *)
Lemma PoolGet_runs i w r w' : rw_writer (poolMu (ds w)) = NoWriter ->
  runs i PoolGet w r w' <->
  r = Done (pool (ds w), if is_nil (pool (ds w)) then Some EPoolNotSynced else None) /\ w' = w.
Proof.
  destruct w as [t [[n wr] p tk] a cl cd le]. simpl. intros ->. split.
  - intros H. cbn in H. runs_inv; destruct p; runs_inv; done.
  - intros [-> ->]. cbn. runs_op tt. runs_op tt. runs_op p. runs_op tt. destruct p as [p|]; simpl.
    + runs_op (Some p). runs_op tt. done.
    + runs_op tt. done.
Qed.

Lemma PoolSet_runs i p w r w' : poolMu (ds w) = RW [] NoWriter ->
  runs i (PoolSet p) w r w' <-> r = Done tt /\ w' = set_pool w p.
Proof.
  destruct w as [t [m q tk] a cl cd le]. simpl. intros ->. split.
  - intros H. cbn in H. runs_inv.
    repeat match goal with x : unit |- _ => destruct x end. done.
  - intros [-> ->]. cbn. do 4 runs_op tt. done.
Qed.

(** ** The interface and its abstract meaning *)

(** [datastore.Datastore]: what the other components see. *)
Class Datastore_iface := {
  ds_PoolSet : option v1.InferencePool -> go unit;
  ds_PoolGet : go (option v1.InferencePool * option error);
  ds_PoolHasSynced : go bool;
  ds_GetTicker : go unit;
  ds_ResetTicker : Duration -> go unit;
  ds_StopTicker : go unit;
  ds_Clear : go unit
}.

(** Leaving out the locks, [StopTicker] stops the ticker, once. *)
Definition stop_delta (stopped : bool) (e : evt) : option bool :=
  match e with
  | Ev OTickerStop _ => if stopped then None else Some true
  | Ev (OPoolRLock | OPoolRUnlock) _ => Some stopped
  | _ => None
  end.

(** What a method of the interface may do to the rest of the process: the
    readers of the datastore take its read lock and touch what they name;
    none of them scales, waits or looks at the activator's state. *)
Class DatastoreOps {D : Datastore_iface} : Prop := {
  ds_PoolGet_uses : uses pool_reads ds_PoolGet;
  ds_ResetTicker_uses d : uses ticker_resets (ds_ResetTicker d);
  ds_ResetTicker_returns d : 0 < d -> returns (ds_ResetTicker d);
  ds_GetTicker_uses : uses ticker_resets ds_GetTicker;
  ds_StopTicker_stops : mon stop_delta false ds_StopTicker (fun stopped r => stopped = true /\ r = Done tt)
}.

#[export] Hint Resolve ds_PoolGet_uses ds_ResetTicker_uses ds_GetTicker_uses : golib.

Module Register.

(** Two variables: the pool and the ticker. *)
Record abs := Abs { a_pool : option v1.InferencePool; a_ticker : ticker }.

Inductive cmd := CSet (p : option v1.InferencePool) | CGet | CHasSynced | CGetTicker | CReset (d : Duration) | CStop | CClear.

Inductive reply :=
| RUnit
| RGet (p : option v1.InferencePool) (e : option error)
| RBool (b : bool).

(** What a caller may rely on, at time [t]. *)
Definition spec_step (t : Z) (c : cmd) (s : abs) : outcome reply * abs :=
  match c with
  | CSet p => (Done RUnit, Abs p (a_ticker s))
  | CGet => (Done (RGet (a_pool s) (if is_nil (a_pool s) then Some errPoolNotSynced else None)), s)
  | CHasSynced => (Done (RBool (negb (is_nil (a_pool s)))), s)
  | CGetTicker => (Done RUnit, s)
  | CReset d =>
      if d <=? 0 then (Crash "non-positive interval for Ticker.Reset", s)
      else (Done RUnit, Abs (a_pool s) (ticker_Reset t d (a_ticker s)))
  | CStop => (Done RUnit, Abs (a_pool s) (ticker_Stop (a_ticker s)))
  | CClear => (Done RUnit, Abs None (a_ticker s))
  end.

Fixpoint spec_run (t : Z) (cs : list cmd) (s : abs) : outcome (list reply) * abs :=
  match cs with
  | [] => (Done [], s)
  | c :: cs' =>
      match spec_step t c s with
      | (Crash m, s1) => (Crash m, s1)
      | (Done r, s1) =>
          match spec_run t cs' s1 with
          | (Crash m, s2) => (Crash m, s2)
          | (Done rs, s2) => (Done (r :: rs), s2)
          end
      end
  end.

Definition idle (w : world) : Prop := poolMu (ds w) = RW [] NoWriter.

Definition abs_of (w : world) : abs := Abs (pool (ds w)) (ds_ticker (ds w)).
Definition set_abs (w : world) (s : abs) : world := set_ds (MkDatastore (poolMu (ds w)) (a_pool s) (a_ticker s)) w.

Lemma set_pool_idle w p : idle w -> idle (set_pool w p).
Proof. done. Qed.

Lemma set_pool_same w : set_pool w (pool (ds w)) = w.
Proof. by destruct w as [? [] ? ? ? ?]. Qed.

Lemma set_abs_same w : set_abs w (abs_of w) = w.
Proof. by destruct w as [? [] ? ? ? ?]. Qed.

(** *** Any implementation that keeps the promise *)

Section Calls.
Context {D : Datastore_iface}.

Definition call (c : cmd) : go reply :=
  match c with
  | CSet p => ds_PoolSet p ;; Ret RUnit
  | CGet => r <- ds_PoolGet ;; Ret (RGet (fst r) (snd r))
  | CHasSynced => b <- ds_PoolHasSynced ;; Ret (RBool b)
  | CGetTicker => ds_GetTicker ;; Ret RUnit
  | CReset d => ds_ResetTicker d ;; Ret RUnit
  | CStop => ds_StopTicker ;; Ret RUnit
  | CClear => ds_Clear ;; Ret RUnit
  end.

Fixpoint calls (cs : list cmd) : go (list reply) :=
  match cs with
  | [] => Ret []
  | c :: cs' => r <- call c ;; rs <- calls cs' ;; Ret (r :: rs)
  end.

(** One call, alone and with the lock free, is one step of the register. *)
Class DatastoreLaws : Prop := {
  call_spec i c w r w' : idle w ->
    runs i (call c) w r w' <->
    r = fst (spec_step (now w) c (abs_of w)) /\ w' = set_abs w (snd (spec_step (now w) c (abs_of w)))
}.

Context {DL : DatastoreLaws}.

(** Then so are sequences of calls. *)
Lemma calls_refine i cs : forall w r w', idle w ->
  runs i (calls cs) w r w' <->
  r = fst (spec_run (now w) cs (abs_of w)) /\ w' = set_abs w (snd (spec_run (now w) cs (abs_of w))).
Proof.
  induction cs as [|c cs IH]; intros w r w' Hw; cbn [calls spec_run]; [cbn; by rewrite set_abs_same|].
  pose proof (fun r w' => call_spec i c w r w' Hw) as Hc.
  destruct (spec_step (now w) c (abs_of w)) as [rep s1] eqn:E1. cbn [fst snd] in Hc. rewrite runs_bind.
  destruct rep as [rep|m]; cycle 1.
  { split.
    - intros [(m' & -> & H)|(a & w1 & H1 & _)]; [by apply Hc in H as [[= ->] ->]|by apply Hc in H1 as [? _]].
    - intros [-> ->]. left. exists m. split; [done|]. by apply Hc. }
  pose proof (fun r w' => IH (set_abs w s1) r w' Hw) as IH'.
  change (now (set_abs w s1)) with (now w) in IH'. change (abs_of (set_abs w s1)) with (Abs (a_pool s1) (a_ticker s1)) in IH'.
  replace (Abs (a_pool s1) (a_ticker s1)) with s1 in IH' by by destruct s1.
  destruct (spec_run (now w) cs s1) as [rs s2] eqn:E2. cbn [fst snd] in IH'. split.
  - intros [(m & -> & H)|(a & w1 & H1 & H2)]; [by apply Hc in H as [? _]|].
    apply Hc in H1 as [[= ->] ->]. rewrite runs_bind in H2. destruct H2 as [(m & -> & H)|(a & w1 & H3 & H4)].
    + apply IH' in H as [<- ->]. done.
    + apply IH' in H3 as [<- ->]. cbn in H4. by destruct H4 as [-> ->].
  - intros [-> ->]. right. exists rep, (set_abs w s1). split; [destruct rs; by apply Hc|]. rewrite runs_bind.
    destruct rs as [rs|m]; [right; exists rs, (set_abs w s2); split; [by apply IH'|done]|].
    left. exists m. split; [done|]. by apply IH'.
Qed.

End Calls.

(** *** The implementation keeps it *)

#[export] Instance datastore_impl : Datastore_iface := {|
  ds_PoolSet := PoolSet;
  ds_PoolGet := PoolGet;
  ds_PoolHasSynced := PoolHasSynced;
  ds_GetTicker := GetTicker;
  ds_ResetTicker := ResetTicker;
  ds_StopTicker := StopTicker;
  ds_Clear := Clear
|}.

#[export] Instance datastore_impl_ops : DatastoreOps.
Proof.
  split; [apply PoolGet_uses|apply ResetTicker_uses|apply ResetTicker_returns|apply GetTicker_uses|].
  by intros [] [] [].
Qed.

Ltac unit_answers := repeat match goal with x : unit |- _ => destruct x end.

#[export] Instance datastore_impl_laws : DatastoreLaws.
Proof.
  split. intros i c w r w'. destruct w as [t [m p tk] a cl cd le]. unfold idle. simpl. intros ->. split.
  - intros H. destruct c; cbn in H; unfold TickerReset in H; runs_inv; try done.
    all: try (destruct p; runs_inv; done).
    destruct (d <=? 0) eqn:E; cbn in *; runs_inv; done.
  - intros [-> ->]. destruct c; cbn.
    + do 4 runs_op tt. done.
    + do 2 runs_op tt. runs_op p. runs_op tt. destruct p as [p|]; simpl.
      * runs_op (Some p). runs_op tt. done.
      * runs_op tt. done.
    + runs_op tt. runs_op p. runs_op tt. done.
    + do 2 runs_op tt. done.
    + runs_op tt. unfold TickerReset. destruct (d <=? 0); cbn; [runs_op tt|do 2 runs_op tt]; done.
    + do 3 runs_op tt. done.
    + do 4 runs_op tt. done.
Qed.

(** C13.  Refinement: any sequence of calls of the datastore's methods, run
    from a datastore whose lock is free, terminates, returns the replies of
    two plain variables and leaves the lock free: a pool that was set is the
    one read back; [Clear] makes the pool unavailable, reported with
    [errPoolNotSynced]; the ticker is re-armed at the current time, or
    stopped; a period that is not positive panics, with the lock released. *)
Theorem datastore_refines_register (i : tid) (cs : list cmd) (w : world) r w' :
  idle w ->
  runs i (calls (D := datastore_impl) cs) w r w' <->
  r = fst (spec_run (now w) cs (abs_of w)) /\ w' = set_abs w (snd (spec_run (now w) cs (abs_of w))).
Proof. apply calls_refine. Qed.

Definition test_pool : v1.InferencePool := v1.MkPool "pool1" "default" ∅ true.

(** The scenario of datastore_test.go: set, get, clear, get. *)
Lemma datastore_refines_register_witness :
  exists w', idle (init_world 0) /\
  runs 0%nat (calls (D := datastore_impl) [CSet (Some test_pool); CGet; CHasSynced; CReset 5; CClear; CGet]) (init_world 0)
    (Done [RUnit; RGet (Some test_pool) None; RBool true; RUnit; RUnit; RGet None (Some errPoolNotSynced)]) w'.
Proof.
  eexists. split; [reflexivity|].
  apply (datastore_refines_register 0%nat
    [CSet (Some test_pool); CGet; CHasSynced; CReset 5; CClear; CGet] (init_world 0)); [reflexivity|].
  split; reflexivity.
Defined.

End Register.
Export (hints) Register.
#[export] Hint Resolve Register.datastore_impl_ops : golib.
