(* ===== verification/RequestControl.v ===== *)
(** * pkg/activator/requestcontrol: annotations and resource lookup

    The constants and the helpers that the activator and the deactivator
    share: gvr.go, and the annotation functions at the end of
    activator.go. *)

From S2P Require Import Prelude GoTime Prog Effects.
#[local] Open Scope go_scope.

Definition ObjectApiVersionKey : string := "activator.llm-d.ai/target-apiversion".
Definition ObjectkindKey : string := "activator.llm-d.ai/target-kind".
Definition ObjectNameKey : string := "activator.llm-d.ai/target-name".
Definition ScaleFromZeroGracePeriodKey : string := "activator.llm-d.ai/scale-from-zero-grace-period".
Definition ScaleDownDelayKey : string := "activator.llm-d.ai/scale-down-delay".
Definition ScaleToZeroGracePeriodKey : string := "activator.llm-d.ai/scale-to-zero-grace-period".

Definition DefaultScaleFromZeroGracePeriod : Duration := 60 * Second.
Definition DefaultScaleDownDelay : Duration := 120 * Second.
Definition ScaleToZeroRequestRetentionPeriod : Duration := 5 * Second.

Definition VerifyPoolObjectAnnotations (pool : v1.InferencePool) : bool :=
  if is_nil (v1.Annotations pool !! ObjectApiVersionKey) then false
  else if is_nil (v1.Annotations pool !! ObjectkindKey) then false
  else if is_nil (v1.Annotations pool !! ObjectNameKey) then false
  else true.

Definition GetOptionalPoolAnnotation (annotationKey : string) (pool : v1.InferencePool) : string * bool :=
  match v1.Annotations pool !! annotationKey with
  | Some value => (value, true)
  | None => (""%string, false)
  end.

(** [pool.Annotations[key]] *)
Definition annotation (pool : v1.InferencePool) (key : string) : string :=
  map_get (v1.Annotations pool) key.

(** The pattern [d := default; if value, found := GetOptional...; found
    { d, _ = time.ParseDuration(value) }]. *)
Definition duration_annotation (key : string) (dflt : Duration) (pool : v1.InferencePool) : Duration :=
  let '(value, found) := GetOptionalPoolAnnotation key pool in
  if found then ParseDuration_ignoring_error value else dflt.

Definition GetResourceForKind `{Kubernetes} (apiVersion kind : string) : go (res GroupVersionResource) :=
  match ParseGroupVersion apiVersion with
  | Err e => Ret (Err e)
  | Ok gv =>
      mapping <- eff (ORESTMapping (MkGK (gv_Group gv) kind) (gv_Version gv)) ;;
      match mapping with
      | Err e => Ret (Err e)
      | Ok gvr => Ret (Ok gvr)
      end
  end.

(** The three required annotations are present. *)
Lemma VerifyPoolObjectAnnotations_true pool :
  VerifyPoolObjectAnnotations pool = true <->
  is_Some (v1.Annotations pool !! ObjectApiVersionKey) /\
  is_Some (v1.Annotations pool !! ObjectkindKey) /\
  is_Some (v1.Annotations pool !! ObjectNameKey).
Proof.
  unfold VerifyPoolObjectAnnotations, is_nil.
  repeat case_match; split; try done; intros (?&?&?); split_hyps; try done;
    by repeat match goal with H : is_Some None |- _ => destruct H as [? [=]] end.
Qed.

Lemma duration_annotation_absent key dflt pool :
  v1.Annotations pool !! key = None -> duration_annotation key dflt pool = dflt.
Proof. unfold duration_annotation, GetOptionalPoolAnnotation. by intros ->. Qed.

Lemma duration_annotation_present key dflt pool v :
  v1.Annotations pool !! key = Some v ->
  duration_annotation key dflt pool = ParseDuration_ignoring_error v.
Proof. unfold duration_annotation, GetOptionalPoolAnnotation. by intros ->. Qed.

(** A value that does not parse makes the duration zero, not the default. *)
Lemma duration_annotation_malformed key dflt pool v :
  v1.Annotations pool !! key = Some v -> ParseDuration.parse v = None ->
  duration_annotation key dflt pool = 0.
Proof.
  intros Hv Hp. rewrite (duration_annotation_present _ _ _ _ Hv).
  unfold ParseDuration_ignoring_error. by rewrite Hp.
Qed.
