(* ===== verification/Instances.v ===== *)
(** * Concrete libraries and environments

    Instances of the library classes, and environments that answer every
    operation, with which the theorems are applied to concrete runs.  The
    instances satisfy the laws the theorems assume. *)

From S2P Require Import Prelude GoTime Prog Effects RequestControl.

Definition demo_k8s : Kubernetes := {|
  ParseGroupVersion s :=
    if String.eqb s "apps/v1" then Ok (MkGV "apps" "v1") else Err (ENew "unexpected GroupVersion string");
  GroupResource_of gvr := MkGR (gvr_Group gvr) (gvr_Resource gvr);
  IsNotFound e := match e with EApi r _ => String.eqb r "NotFound" | _ => false end;
  v1_GroupName := "inference.networking.k8s.io";
  v1alpha2_GroupName := "inference.networking.x-k8s.io";
  ConvertTo p := Ok (v1.MkPool (v1alpha2.Name p) (v1alpha2.Namespace p) (v1alpha2.Annotations p)
                       (v1alpha2.DeletionTimestampIsZero p))
|}.

Definition demo_errutil : ErrUtil := {|
  errutil_InferencePoolResourceExhausted := "InferencePoolResourceExhausted";
  errutil_Internal := "Internal";
  errutil_ServiceUnavailable := "ServiceUnavailable";
  errutil_BadRequest := "BadRequest";
  errutil_BadConfiguration := "BadConfiguration";
  CanonicalCode e := match e with EUtil c _ => c | _ => "Unknown"%string end;
  Error e := match e with
             | EUtil c m => ("inference gateway: " +:+ c +:+ " - " +:+ m)%string
             | ENew m => m
             | EPoolNotSynced => "InferencePool is not initialized in data store"%string
             | EEOF => "EOF"%string
             | _ => ""%string
             end
|}.

Lemma demo_errutil_laws : @ErrUtilLaws demo_errutil.
Proof.
  constructor; [|done|].
  - repeat constructor; set_solver.
  - intros e He. destruct e as [|c m| | | | | | | |]; simpl; set_solver.
Qed.

Definition demo_status : GrpcStatus := {|
  status_Code e := match e with None => OK | Some (EStatus c _) => c | Some _ => Unknown end
|}.

Lemma demo_status_laws : @GrpcStatusLaws demo_status.
Proof. by constructor. Qed.

(** A pool whose target is the deployment [decode]. *)
Definition demo_annotations : gmap string string :=
  <[ObjectApiVersionKey := "apps/v1"%string]>
  (<[ObjectkindKey := "Deployment"%string]> (<[ObjectNameKey := "decode"%string]> ∅)).

Definition demo_pool : v1.InferencePool :=
  v1.MkPool "gaie-sim" "llm-d-sim" demo_annotations true.

Definition with_annotation (k v : string) (p : v1.InferencePool) : v1.InferencePool :=
  v1.MkPool (v1.Name p) (v1.Namespace p) (<[k := v]> (v1.Annotations p)) (v1.DeletionTimestampIsZero p).

Definition demo_scale (n : Z) : Scale := MkScale "decode" "4711" n.

Definition demo_object (ready : Z) : list (string * any) :=
  [("kind"%string, AString "Deployment"); ("status"%string, AMap [("readyReplicas"%string, AInt64 ready)])].

(** An environment: the pool of the datastore, the flag of the activator,
    and the answers of the API. *)
Definition demo_env (pool : option v1.InferencePool) (flag : bool) (scale : res Scale)
    (obj : res (list (string * any))) (o : op) : ans o :=
  match o return ans o with
  | OPoolRead => pool
  | OScalingUpRead => flag
  | OGuardRead => Some 0%nat
  | OClose _ => true
  | OPollWait _ => false
  | ORESTMapping _ _ => Ok (MkGVR "apps" "v1" "deployments")
  | OScaleGet _ _ _ => scale
  | OScaleUpdate _ _ s => Ok s
  | ODynamicGet _ _ _ => obj
  | o => some_answer o
  end.
