(* ===== verification/Annotations.v ===== *)
(** * Durations in the annotations of a pool

    The delays of a pool are annotations, written as Go writes durations.
    Whatever list of numbers and units an operator writes down, the code
    reads back its sum ([duration_annotation_round_trip]); whatever text an
    operator writes down, what the code reads fits an [int64]
    ([duration_annotation_in_range]). *)

From Stdlib Require Import Ascii.
From stdpp Require Import pretty.
From S2P Require Import Prelude GoTime Effects RequestControl Instances.

(** ** Writing a duration *)

Inductive time_unit := UNanosecond | UMicrosecond | UMillisecond | USecond | UMinute | UHour.

Definition unit_text (u : time_unit) : string :=
  match u with
  | UNanosecond => "ns" | UMicrosecond => "us" | UMillisecond => "ms"
  | USecond => "s" | UMinute => "m" | UHour => "h"
  end.

Definition unit_value (u : time_unit) : Duration :=
  match u with
  | UNanosecond => Nanosecond | UMicrosecond => Microsecond | UMillisecond => Millisecond
  | USecond => Second | UMinute => Minute | UHour => Hour
  end.

(** "1h30m", "120s", ...: numbers with their units, in any order. *)
Definition print_duration (cs : list (N * time_unit)) : string :=
  foldr (fun '(n, u) s => pretty n +:+ unit_text u +:+ s) "" cs.

Definition duration_of (cs : list (N * time_unit)) : Duration :=
  foldr (fun '(n, u) d => Z.of_N n * unit_value u + d) 0 cs.

Example print_90m : print_duration [(1%N, UHour); (30%N, UMinute)] = "1h30m"%string.
Proof. reflexivity. Qed.

(** ** Reading it back *)

Module RoundTrip.
Import ParseDuration.

Lemma unit_value_bounds u : 0 < unit_value u.
Proof. by destruct u. Qed.

Lemma duration_of_nonneg cs : 0 <= duration_of cs.
Proof.
  induction cs as [|[n u] cs IH]; [done|]. cbn [duration_of foldr]. fold (duration_of cs).
  pose proof (unit_value_bounds u). pose proof (N2Z.is_nonneg n). nia.
Qed.

Lemma digit_pretty n : (n < 10)%N -> digit (pretty_N_char n) = Some (Z.of_N n).
Proof.
  intros Hn. assert (Hin : n ∈ [0; 1; 2; 3; 4; 5; 6; 7; 8; 9]%N).
  { rewrite !elem_of_cons. lia. }
  clear Hn. repeat (apply elem_of_cons in Hin as [->|Hin]; [reflexivity|]). by apply not_elem_of_nil in Hin.
Qed.

Lemma pretty_N_go_app x : forall s t, pretty_N_go x s +:+ t = pretty_N_go x (s +:+ t).
Proof.
  induction (N.lt_wf_0 x) as [x _ IH]. intros s t.
  destruct (decide (x = 0)%N) as [->|Hx]; [by rewrite !pretty_N_go_0|].
  rewrite (pretty_N_go_step x s), (pretty_N_go_step x (s +:+ t)) by lia.
  rewrite IH by (apply N.div_lt; lia). done.
Qed.

(** Reading the digits of [x] continues after them with [x]. *)
Lemma leadingInt_go x : forall s, Z.of_N x <= 2 ^ 63 ->
  leadingInt 0 (pretty_N_go x s) = leadingInt (Z.of_N x) s.
Proof.
  induction (N.lt_wf_0 x) as [x _ IH]. intros s Hx.
  destruct (decide (x = 0)%N) as [->|Hne]; [by rewrite pretty_N_go_0|].
  pose proof (N.div_mod x 10 ltac:(lia)) as Hdm. pose proof (N.mod_lt x 10 ltac:(lia)) as Hm.
  rewrite pretty_N_go_step by lia.
  assert (Hq : Z.of_N (x / 10) * 10 + Z.of_N (x mod 10) = Z.of_N x) by (rewrite Hdm at 3; lia).
  pose proof (N2Z.is_nonneg (x / 10)). pose proof (N2Z.is_nonneg (x mod 10)).
  rewrite IH; [|apply N.div_lt; lia|lia].
  cbn [leadingInt]. rewrite digit_pretty by done.
  rewrite (proj2 (Z.ltb_ge _ _)) by (rewrite N2Z.inj_div; apply Z.div_le_mono; lia).
  by rewrite Hq, (proj2 (Z.ltb_ge _ _)).
Qed.

Lemma pretty_leadingInt n s : Z.of_N n <= 2 ^ 63 ->
  leadingInt 0 (pretty n +:+ s) = leadingInt (Z.of_N n) s.
Proof.
  intros Hn. unfold pretty, pretty_N. case_decide as Hz; [by subst|].
  rewrite pretty_N_go_app. by apply leadingInt_go.
Qed.

(** A printed number begins with a digit. *)
Lemma pretty_go_head x s : (0 < x)%N -> exists c s' d, pretty_N_go x s = String c s' /\ digit c = Some d.
Proof.
  revert s. induction (N.lt_wf_0 x) as [x _ IH]. intros s Hx. rewrite pretty_N_go_step by lia.
  destruct (decide (x / 10 = 0)%N) as [E|E]; [rewrite E, pretty_N_go_0|by apply IH; [apply N.div_lt; lia|apply N.neq_0_lt_0]].
  eexists _, _, _. split; [done|]. apply digit_pretty. by apply N.mod_lt.
Qed.

Lemma pretty_head (n : N) : exists c s d, pretty n = String c s /\ digit c = Some d.
Proof.
  unfold pretty, pretty_N. case_decide as Hz; [by exists "0"%char, ""%string, 0|]. apply pretty_go_head. lia.
Qed.

Lemma starts_number_digit c s d : digit c = Some d -> starts_number (String c s) = true.
Proof. intros Hd. unfold starts_number. by rewrite Hd, orb_true_r. Qed.

Lemma pretty_starts_number (n : N) s : starts_number (pretty n +:+ s) = true.
Proof. destruct (pretty_head n) as (c & t & d & -> & Hd). by eapply starts_number_digit. Qed.

(** What follows a component: nothing, or another number. *)
Definition number_or_end (s : string) : Prop := s = ""%string \/ starts_number s = true.

Lemma print_number_or_end cs : number_or_end (print_duration cs).
Proof.
  destruct cs as [|[n u] cs]; [by left|]. right. apply pretty_starts_number.
Qed.

Lemma span_unit_text u s : number_or_end s -> span_unit (unit_text u +:+ s) = (unit_text u, s).
Proof.
  intros Hs. assert (Hn : span_unit s = (""%string, s)).
  { destruct Hs as [->|Hs]; [done|]. destruct s as [|c s]; [done|]. cbn in *. by rewrite Hs. }
  assert (He : span_unit ("" +:+ s) = (""%string, s)) by exact Hn.
  destruct u; simpl; by rewrite He.
Qed.

Lemma unitMap_text u : unitMap (unit_text u) = Some (unit_value u).
Proof. by destruct u. Qed.

Lemma leadingInt_unit x u s : leadingInt x (unit_text u +:+ s) = Some (x, unit_text u +:+ s).
Proof. by destruct u. Qed.

Lemma unit_not_dot u s : exists c t, unit_text u +:+ s = String c t /\ is_dot c = false.
Proof. destruct u; cbn; eauto. Qed.

(** One component is read back. *)
Lemma component_print n u s : number_or_end s -> Z.of_N n * unit_value u < 2 ^ 63 ->
  component (pretty n +:+ unit_text u +:+ s) = Some (Z.of_N n * unit_value u, s).
Proof.
  intros Hs Hb. pose proof (unit_value_bounds u) as Hu. unfold component.
  destruct (pretty_head n) as (c & t & d & Hp & Hd).
  rewrite pretty_starts_number. cbn [negb]. rewrite pretty_leadingInt by nia. rewrite leadingInt_unit.
  assert (Hlen : Nat.eqb (String.length (pretty n +:+ unit_text u +:+ s)) (String.length (unit_text u +:+ s)) = false).
  { apply Nat.eqb_neq. rewrite string_length_app, Hp. cbn. lia. }
  rewrite Hlen. destruct (unit_not_dot u s) as (c' & t' & Heq & Hdot). rewrite Heq, Hdot, <- Heq.
  cbn [negb andb]. rewrite span_unit_text by done. rewrite unitMap_text.
  by rewrite (proj2 (Z.ltb_ge _ _)) by (apply Z.div_le_lower_bound; lia).
Qed.

Lemma components_print cs : forall fuel d, 0 <= d -> d + duration_of cs < 2 ^ 63 ->
  (String.length (print_duration cs) <= fuel)%nat ->
  components fuel d (print_duration cs) = Some (d + duration_of cs).
Proof.
  induction cs as [|[n u] cs IH]; intros fuel d Hd Hb Hf.
  { cbn. rewrite Z.add_0_r. by destruct fuel. }
  pose proof (duration_of_nonneg cs) as Hnn. pose proof (unit_value_bounds u) as Hu.
  cbn [duration_of foldr] in Hb. fold (duration_of cs) in Hb.
  assert (Hc : component (print_duration ((n, u) :: cs)) = Some (Z.of_N n * unit_value u, print_duration cs)).
  { apply component_print; [apply print_number_or_end|lia]. }
  pose proof (component_consumes _ _ _ Hc) as Hlen.
  destruct (print_duration ((n, u) :: cs)) as [|c s] eqn:Ep; [cbn in Hlen; lia|].
  destruct fuel as [|fuel]; [cbn in Hf; lia|]. cbn [components]. rewrite Hc.
  assert (Hw : uint64 (d + Z.of_N n * unit_value u) = d + Z.of_N n * unit_value u).
  { apply Z.mod_small. nia. }
  rewrite Hw, (proj2 (Z.ltb_ge _ _)) by lia.
  rewrite IH by (cbn in *; nia). cbn. f_equal. fold (duration_of cs). lia.
Qed.

(** The parser reads back what was written. *)
Lemma parse_print cs : cs <> [] -> duration_of cs < 2 ^ 63 -> parse (print_duration cs) = Some (duration_of cs).
Proof.
  intros Hne Hb. destruct cs as [|[n u] cs]; [done|].
  assert (Hc : components (String.length (print_duration ((n, u) :: cs))) 0 (print_duration ((n, u) :: cs))
    = Some (duration_of ((n, u) :: cs))).
  { rewrite components_print by (pose proof (duration_of_nonneg ((n, u) :: cs)); lia). done. }
  assert (Hform : exists c d c' s, print_duration ((n, u) :: cs) = String c (String c' s) /\ digit c = Some d).
  { cbn. destruct (pretty_head n) as (c & t & d & -> & Hd). cbn.
    destruct (unit_not_dot u (print_duration cs)) as (c' & t' & Heq & _).
    destruct t as [|a t]; cbn; [|by eauto 10]. fold (print_duration cs). rewrite Heq. eauto 10. }
  destruct Hform as (c & d & c' & s & Heq & Hd). unfold parse. rewrite Heq in *.
  assert (Hs : Ascii.eqb c "-" = false /\ Ascii.eqb c "+" = false).
  { split; apply Ascii.eqb_neq; intros ->; discriminate Hd. }
  destruct Hs as [-> ->].
  assert (H0 : String.eqb (String c (String c' s)) "0" = false).
  { apply String.eqb_neq. by intros [= _]. }
  rewrite H0, Hc. cbn [String.eqb]. by rewrite (proj2 (Z.ltb_ge _ _)) by lia.
Qed.

(** ** Any text *)

Lemma components_range fuel : forall d s v, 0 <= d <= 2 ^ 63 -> components fuel d s = Some v -> 0 <= v <= 2 ^ 63.
Proof.
  induction fuel as [|fuel IH]; intros d s v Hd H; destruct s as [|c s]; cbn in H; try by simplify_eq.
  destruct (component (String c s)) as [[v' r]|]; [|done].
  destruct (2 ^ 63 <? uint64 (d + v')) eqn:E; [done|]. eapply IH; [|exact H].
  split; [apply Z.mod_pos_bound; lia|by apply Z.ltb_ge in E].
Qed.

Lemma parse_range s d : parse s = Some d -> - 2 ^ 63 <= d < 2 ^ 63.
Proof.
  unfold parse. destruct (match s with String _ _ => _ | EmptyString => _ end) as [neg s'].
  destruct (String.eqb s' "0"); [intros [= <-]; lia|]. destruct (String.eqb s' ""); [done|].
  destruct (components _ _ _) as [v|] eqn:E; [|done].
  apply components_range in E; [|lia]. destruct neg.
  - intros [= <-]. apply (wrap_range 64). lia.
  - destruct (2 ^ 63 - 1 <? v) eqn:E'; [done|]. intros [= <-]. apply Z.ltb_ge in E'. lia.
Qed.

End RoundTrip.

(** ** The annotations of a pool *)

(** C29.  Round trip.  A delay written as any non-empty list of whole numbers
    with units ("120s", "1h30m", ...) whose sum fits an [int64] and put into
    any annotation of a pool is the delay the code reads from that annotation,
    whatever the default. *)
Theorem duration_annotation_round_trip key dflt pool cs :
  cs <> [] -> duration_of cs < 2 ^ 63 ->
  duration_annotation key dflt (with_annotation key (print_duration cs) pool) = duration_of cs.
Proof.
  intros Hne Hb. erewrite duration_annotation_present by apply lookup_insert_eq.
  unfold ParseDuration_ignoring_error. by rewrite RoundTrip.parse_print.
Qed.

(** Bounds.  Whatever the text of an annotation, the delay read from it
    is an [int64], provided that the default is; a text that is not a duration
    reads as zero. *)
Theorem duration_annotation_in_range key dflt pool :
  in_width 64 dflt ->
  in_width 64 (duration_annotation key dflt pool) /\
  (forall v, v1.Annotations pool !! key = Some v -> ParseDuration.parse v = None ->
     duration_annotation key dflt pool = 0).
Proof.
  intros Hd. split; [|intros v; apply duration_annotation_malformed].
  destruct (v1.Annotations pool !! key) as [v|] eqn:Hv.
  - rewrite (duration_annotation_present _ _ _ _ Hv). unfold ParseDuration_ignoring_error.
    destruct (ParseDuration.parse v) as [d|] eqn:Hp; [|done]. by apply RoundTrip.parse_range in Hp.
  - by rewrite duration_annotation_absent.
Qed.

(** An hour and a half. *)
Lemma duration_annotation_round_trip_witness :
  duration_annotation ScaleDownDelayKey DefaultScaleDownDelay
    (with_annotation ScaleDownDelayKey "1h30m" demo_pool) = 5400 * Second.
Proof.
  apply (duration_annotation_round_trip ScaleDownDelayKey DefaultScaleDownDelay demo_pool
    [(1%N, UHour); (30%N, UMinute)]); [discriminate|reflexivity].
Defined.

(** A number without a unit. *)
Lemma duration_annotation_in_range_witness :
  in_width 64 (duration_annotation ScaleDownDelayKey DefaultScaleDownDelay
    (with_annotation ScaleDownDelayKey "120" demo_pool)).
Proof.
  apply (duration_annotation_in_range ScaleDownDelayKey DefaultScaleDownDelay
    (with_annotation ScaleDownDelayKey "120" demo_pool)).
  split; vm_compute; [discriminate|reflexivity].
Defined.
