(* ===== verification/Activator.v ===== *)
(** * pkg/activator/requestcontrol/activator.go

    [MayActivate] and everything it calls.  A request that finds a scale-up
    in progress waits on its guard; any other request makes sure that the
    target object has ready replicas, scaling it to one replica if need be.
    The theorems are about every run of these functions, whatever the
    Kubernetes API, the clock and the other goroutines answer. *)

From S2P Require Import Prelude GoTime Prog Effects Datastore RequestControl Instances.
#[local] Open Scope go_scope.

Record ScaledObjectData := MkScaledObjectData {
  name : string;
  scaleGracePeriod : Duration;
  numReplicas : Z;
  scaleObject : Scale
}.

Definition beginScalingUp : go unit :=
  eff OMuLock ;;
  defer (eff OMuUnlock) (
    eff (OScalingUpWrite true) ;;
    c <- eff OMakeChan ;;
    eff (OGuardWrite (Some c))).

Definition endScalingUp : go unit :=
  eff OMuLock ;;
  defer (eff OMuUnlock) (
    eff (OScalingUpWrite false) ;;
    g <- eff OGuardRead ;;
    close_chan g ;;
    eff (OGuardWrite None)).

Definition isScalingUp : go (bool * option chan) :=
  eff OMuLock ;;
  defer (eff OMuUnlock) (
    scalingUp <- eff OScalingUpRead ;;
    guard <- eff OGuardRead ;;
    Ret (scalingUp : bool, guard : option chan)).

(** [select { case <-time.After(timeout): case <-guard: }] *)
Definition waitOnGuard (guard : option chan) (timeout : Duration) : go unit :=
  t <- eff (OAfter timeout) ;;
  eff (OSelectGuard t guard).

(** [obj["status"].(map[string]any)["readyReplicas"].(int64)]: only the last
    assertion is the two-valued one, so only it may fail without a panic. *)
Definition status_readyReplicas (obj : list (string * any)) : go (option Z) :=
  match any_index "status" obj with
  | AMap status =>
      match any_index "readyReplicas" status with
      | AInt64 z => Ret (Some z)
      | _ => Ret None
      end
  | _ => Panic "interface conversion: interface {} is not map[string]interface {}"
  end.

(** The activator's methods, over the datastore its field [datastore] points
    to and the libraries. *)
Section Activator.
Context {D : Datastore_iface} `{K8s : Kubernetes} `{EU : ErrUtil} `{Wait : WaitPkg}.

(** The condition function of [InferencePoolPodsReady]. *)
Definition podsReady_condition (namespace objname : string) (numReplicas : Z)
    (gvr : GroupVersionResource) : go (bool * option error) :=
  ds_ResetTicker DefaultScaleDownDelay ;;
  obj <- eff (ODynamicGet gvr namespace objname) ;;
  match obj with
  | Err _ => Ret (false, None)
  | Ok obj =>
      ready <- status_readyReplicas obj ;;
      match ready with
      | None => Ret (false, None)
      | Some readyReplicas =>
          if numReplicas =? int32 readyReplicas then Ret (true, None) else Ret (false, None)
      end
  end.

Definition InferencePoolPodsReady (namespace objname : string) (numReplicas : Z)
    (scaleGracePeriod : Duration) (gr : GroupResource) (gvr : GroupVersionResource) : go bool :=
  err <- PollUntilContextTimeout (1 * Second) scaleGracePeriod false
           (podsReady_condition namespace objname numReplicas gvr) ;;
  Ret (is_nil err).

Definition scaleInferencePool (namespace : string) (objData : ScaledObjectData)
    (gr : GroupResource) (gvr : GroupVersionResource) : go bool :=
  beginScalingUp ;;
  defer endScalingUp (
    let scaleObject := set_Replicas (numReplicas objData) (scaleObject objData) in
    updated <- eff (OScaleUpdate namespace gr scaleObject) ;;
    match updated with
    | Err _ => Ret false
    | Ok _ =>
        ready <- InferencePoolPodsReady namespace (name objData) (numReplicas objData)
                   (scaleGracePeriod objData) gr gvr ;;
        if ready : bool then Sleep ScaleToZeroRequestRetentionPeriod ;; Ret true
        else Ret false
    end).

Definition InferencePoolReady (pool : v1.InferencePool) : go bool :=
  let namespace := v1.Namespace pool in
  if negb (VerifyPoolObjectAnnotations pool) then Ret false else
  let scaleGracePeriod :=
    duration_annotation ScaleFromZeroGracePeriodKey DefaultScaleFromZeroGracePeriod pool in
  gvr <- GetResourceForKind (annotation pool ObjectApiVersionKey) (annotation pool ObjectkindKey) ;;
  match gvr with
  | Err _ => Ret false
  | Ok gvr =>
      let gr := GroupResource_of gvr in
      scaleObject <- eff (OScaleGet namespace gr (annotation pool ObjectNameKey)) ;;
      match scaleObject with
      | Err _ => Ret true
      | Ok scaleObject =>
          ready <- (if 0 <? Spec_Replicas scaleObject
                    then InferencePoolPodsReady namespace (annotation pool ObjectNameKey)
                           (Spec_Replicas scaleObject) scaleGracePeriod gr gvr
                    else Ret false) ;;
          if ready : bool then Ret true else
          let numReplicas := int32 1 in
          let scaleData := MkScaledObjectData (annotation pool ObjectNameKey)
                             DefaultScaleFromZeroGracePeriod numReplicas scaleObject in
          scaleInferencePool namespace scaleData gr gvr
      end
  end.

Definition serviceUnavailable : error :=
  EUtil errutil_ServiceUnavailable
    "failed to find active candidate pods in the inferencePool for serving the request".

Definition MayActivate : go (option error) :=
  r <- ds_PoolGet ;;
  match snd r with
  | Some err => Ret (Some err)
  | None =>
      pool <- deref (fst r) ;;
      s <- isScalingUp ;;
      if fst s : bool then
        waitOnGuard (snd s) DefaultScaleFromZeroGracePeriod ;;
        Ret None
      else
        ready <- InferencePoolReady pool ;;
        if negb ready then Ret (Some serviceUnavailable)
        else
          let scaleDownDelay := duration_annotation ScaleDownDelayKey DefaultScaleDownDelay pool in
          ds_ResetTicker scaleDownDelay ;;
          Ret None
  end.

End Activator.

(** ** The operations they use *)

(** Weaken the operations of a call to those of its caller. *)
Ltac ops_sub := intros []; first [intros _; reflexivity | discriminate].
Ltac uses_by H := eapply uses_mono; [|apply H]; ops_sub.

Definition mu_reads (o : op) : bool :=
  match o with OMuLock | OMuUnlock | OScalingUpRead | OGuardRead => true | _ => false end.

Definition mapping_ops (o : op) : bool := match o with ORESTMapping _ _ => true | _ => false end.

Definition polling_ops (o : op) : bool :=
  match o with
  | OPoolRLock | OPoolRUnlock | OTickerReset _ | OPollWait _ | ODynamicGet _ _ _ => true
  | _ => false
  end.

Lemma isScalingUp_uses : uses mu_reads isScalingUp.
Proof. uses_tac. Qed.

Lemma GetResourceForKind_uses `{Kubernetes} a k : uses mapping_ops (GetResourceForKind a k).
Proof. unfold GetResourceForKind. uses_tac. Qed.

Lemma status_readyReplicas_uses N obj : uses N (status_readyReplicas obj).
Proof. unfold status_readyReplicas. uses_tac. Qed.

Definition scaling_ops (o : op) : bool :=
  match o with
  | OMuLock | OMuUnlock | OScalingUpWrite _ | OMakeChan | OGuardRead | OGuardWrite _ | OClose _
  | OScaleGet _ _ _ | OScaleUpdate _ _ _ | OAfter _ | OWaitUntil _ => true
  | _ => false
  end.

Definition ready_ops (o : op) : bool := polling_ops o || mapping_ops o || scaling_ops o.

Definition activate_ops (o : op) : bool :=
  pool_reads o || mu_reads o || ready_ops o ||
  match o with OSelectGuard _ _ => true | _ => false end.

Section Uses.
Context {D : Datastore_iface} {DO : DatastoreOps} `{K8s : Kubernetes} `{EU : ErrUtil} `{Wait : WaitPkg} {WL : WaitPkgLaws}.

Lemma podsReady_condition_uses ns n k gvr : uses polling_ops (podsReady_condition ns n k gvr).
Proof.
  unfold podsReady_condition. apply uses_bind; [uses_by ds_ResetTicker_uses|intros _].
  apply uses_bind; [uses_tac|]. intros [obj|e]; [|done].
  apply uses_bind; [apply status_readyReplicas_uses|]. uses_tac.
Qed.

Lemma InferencePoolPodsReady_uses ns n k gp gr gvr :
  uses polling_ops (InferencePoolPodsReady ns n k gp gr gvr).
Proof.
  apply uses_bind; [|done]. eapply uses_poll; [apply poll_law|done|apply podsReady_condition_uses].
Qed.

Lemma beginScalingUp_uses : uses scaling_ops beginScalingUp.
Proof. uses_tac. Qed.

Lemma endScalingUp_uses : uses scaling_ops endScalingUp.
Proof. unfold endScalingUp, close_chan. uses_tac. Qed.

Lemma scaleInferencePool_uses ns d gr gvr :
  uses ready_ops (scaleInferencePool ns d gr gvr).
Proof.
  unfold scaleInferencePool. apply uses_bind; [uses_by beginScalingUp_uses|intros _].
  apply uses_defer; [uses_by endScalingUp_uses|].
  apply uses_bind; [uses_tac|]. intros [s|e]; [|done].
  apply uses_bind; [uses_by InferencePoolPodsReady_uses|].
  intros []; uses_tac.
Qed.

Lemma InferencePoolReady_uses pool : uses ready_ops (InferencePoolReady pool).
Proof.
  unfold InferencePoolReady. destruct (VerifyPoolObjectAnnotations pool); [|done]. cbn [negb].
  apply uses_bind; [uses_by GetResourceForKind_uses|].
  intros [gvr|e]; [|done]. apply uses_bind; [uses_tac|]. intros [s|e]; [|done].
  apply uses_bind.
  - destruct (0 <? Spec_Replicas s); [|done].
    uses_by InferencePoolPodsReady_uses.
  - intros []; [done|apply scaleInferencePool_uses].
Qed.

Lemma MayActivate_uses : uses activate_ops MayActivate.
Proof.
  unfold MayActivate. apply uses_bind; [uses_by ds_PoolGet_uses|].
  intros [p [e|]]; [done|]. cbn [fst snd]. destruct p as [p|]; [|done]. cbn [deref bind].
  apply uses_bind; [uses_by isScalingUp_uses|].
  intros [[] g]; cbn [fst snd]; [uses_tac|].
  apply uses_bind; [uses_by InferencePoolReady_uses|].
  intros []; [|done]. apply uses_bind; [uses_by ds_ResetTicker_uses|done].
Qed.

End Uses.

#[export] Hint Resolve isScalingUp_uses GetResourceForKind_uses podsReady_condition_uses
  InferencePoolPodsReady_uses InferencePoolReady_uses MayActivate_uses : golib.

(** A call that the automaton does not see. *)
Ltac mon_skip := eapply mon_uses; [by auto with golib | by intros [] | ].

(** ** Concrete environments *)

Definition demo_MayActivate : go (option error) :=
  @MayActivate Register.datastore_impl demo_k8s demo_errutil ref_wait.

(** The target has no replicas: it is scaled to one. *)
Definition from_zero_env : forall o, ans o :=
  demo_env (Some demo_pool) false (Ok (demo_scale 0)) (Ok (demo_object 1)).

Definition waiting_env : forall o, ans o :=
  demo_env (Some demo_pool) true (Ok (demo_scale 0)) (Ok (demo_object 0)).

(** ** The scale-up protocol *)

Module Protocol.

(** Where a request is in a scale-up: nothing fetched yet, the scale object
    fetched, [scalingUp] raised, the guard made and published, the update
    sent, [scalingUp] lowered, the guard closed, the guard forgotten. *)
Inductive phase :=
| Idle
| Fetched (ns : string) (gr : GroupResource) (s : Scale)
| Raised (ns : string) (gr : GroupResource) (s : Scale)
| Made (ns : string) (gr : GroupResource) (s : Scale) (c : chan)
| Guarded (ns : string) (gr : GroupResource) (s : Scale)
| Updated
| Lowered
| Closed
| Finished.

(** The only order in which a request may fetch, raise the flag, publish
    the guard, send its one update (the fetched object with one replica,
    to the namespace and resource it was fetched from), lower the flag,
    close and forget the guard.  Other operations are free. *)
Definition delta (p : phase) (e : evt) : option phase :=
  match e with
  | Ev (OScaleGet ns gr _) r =>
      match p, r with
      | Idle, Ok s => Some (Fetched ns gr s)
      | Idle, Err _ => Some Idle
      | _, _ => None
      end
  | Ev (OScalingUpWrite true) _ =>
      match p with Fetched ns gr s => Some (Raised ns gr s) | _ => None end
  | Ev OMakeChan c =>
      match p with Raised ns gr s => Some (Made ns gr s c) | _ => None end
  | Ev (OGuardWrite (Some c)) _ =>
      match p with
      | Made ns gr s c' => if decide (c = c') then Some (Guarded ns gr s) else None
      | _ => None
      end
  | Ev (OScaleUpdate ns gr s) _ =>
      match p with
      | Guarded ns' gr' s' =>
          if decide (ns = ns' /\ gr = gr' /\ s = set_Replicas 1 s') then Some Updated else None
      | _ => None
      end
  | Ev (OScalingUpWrite false) _ => match p with Updated => Some Lowered | _ => None end
  | Ev (OClose _) _ => match p with Lowered => Some Closed | _ => None end
  | Ev (OGuardWrite None) _ => match p with Closed => Some Finished | _ => None end
  | _ => Some p
  end.

(** No scale-up was begun, or it was ended. *)
Definition settled (p : phase) : Prop :=
  match p with Idle | Fetched _ _ _ | Finished => True | _ => False end.

(** ... or it was being ended when closing the guard itself panicked: the flag
    was lowered and there was no guard, or the guard was closed already. *)
Definition closing_panic (p : phase) (m : string) : Prop :=
  (p = Lowered /\ m = "close of nil channel"%string) \/
  (p = Closed /\ m = "close of closed channel"%string).

Definition post {A} (p : phase) (r : outcome A) : Prop :=
  match r with Done _ => settled p | Crash m => settled p \/ closing_panic p m end.

Section Proof.
Context {D : Datastore_iface} {DO : DatastoreOps}.
Context `{K8s : Kubernetes} `{EU : ErrUtil} `{Wait : WaitPkg} {WL : WaitPkgLaws}.

Lemma endScalingUp_mon Q :
  (forall r p, post p r -> Q p r) -> mon delta Updated endScalingUp Q.
Proof.
  intros HQ. cbn. intros _ _ [c|]; cbn; [|intros _; apply HQ; by right; left].
  intros [|]; cbn; intros; apply HQ; [done|by right; right].
Qed.

Lemma scaleInferencePool_mon ns gr gvr s nm gp :
  mon delta (Fetched ns gr s) (scaleInferencePool ns (MkScaledObjectData nm gp (int32 1) s) gr gvr) post.
Proof.
  cbn. intros _ _ c _. rewrite decide_True by done. cbn. intros _ upd.
  rewrite decide_True by done.
  assert (Hend : forall (r : outcome bool),
    mon delta Updated endScalingUp (mthen delta (fun _ => of_outcome r) post)).
  { intros r. apply endScalingUp_mon. intros [[]|m] p Hp; [|done].
    destruct r; [done|]. by left. }
  apply mon_defer. destruct upd as [s'|e]; [|apply Hend].
  apply mon_bind; mon_skip. intros [[]|m]; [|apply Hend..].
  cbn -[endScalingUp]. intros t _. apply (Hend (Done true)).
Qed.

Lemma InferencePoolReady_mon pool : mon delta Idle (InferencePoolReady pool) post.
Proof.
  unfold InferencePoolReady. destruct (VerifyPoolObjectAnnotations pool); [|done]. cbn [negb].
  apply mon_bind; mon_skip. intros [[gvr|e]|m]; [|done|by left].
  cbn -[scaleInferencePool InferencePoolPodsReady int32]. intros [s|e]; [|done].
  apply mon_bind. destruct (0 <? Spec_Replicas s).
  - mon_skip. intros [[]|m]; [done|apply scaleInferencePool_mon|by left].
  - apply scaleInferencePool_mon.
Qed.

Lemma MayActivate_mon : mon delta Idle MayActivate post.
Proof.
  apply mon_bind; mon_skip. intros [[p [e|]]|m]; [done| |by left]. cbn [mthen fst snd].
  destruct p as [pool|]; [|by left]. cbn -[isScalingUp InferencePoolReady].
  apply mon_bind; mon_skip. intros [[[] g]|m]; [done| |by left].
  apply mon_bind. eapply mon_mono; [|apply InferencePoolReady_mon].
  intros p' [[]|m] Hp; [|done..]. apply mon_bind; mon_skip.
  intros [[]|m]; [done|by left].
Qed.

(** C1.  The scale-up protocol.  In every run of [MayActivate], over any
    datastore that keeps the promise of its interface and whatever the
    environment answers, the request fetches the scale object, raises
    [scalingUp], publishes a fresh guard and only then sends at most one
    update, which is the fetched object with its replicas set to one, under
    the namespace and resource it was fetched from; and a scale-up that was
    begun is ended (flag lowered, guard closed and forgotten) on every
    return and on every panic, except a panic of closing the guard itself:
    then the flag was lowered, and there was no guard or it was closed
    already. *)
Theorem MayActivate_protocol tr r :
  exec MayActivate tr r -> exists p, accepts delta Idle tr = Some p /\ post p r.
Proof. intros He. eapply mon_exec; [apply MayActivate_mon|done]. Qed.

End Proof.

Lemma MayActivate_protocol_witness :
  exists p, accepts delta Idle (fst (run_with from_zero_env demo_MayActivate)) = Some p /\
    post p (snd (run_with from_zero_env demo_MayActivate)).
Proof.
  apply (@MayActivate_protocol Register.datastore_impl Register.datastore_impl_ops demo_k8s demo_errutil ref_wait ref_wait_laws).
  apply run_with_exec.
Defined.

(** That run is a complete scale-up. *)
Example from_zero_run_finishes :
  accepts delta Idle (fst (run_with from_zero_env demo_MayActivate)) = Some Finished.
Proof. vm_compute. reflexivity. Qed.

End Protocol.
