(* ===== verification/Admission.v ===== *)
(** * Which requests [MayActivate] admits, and on what evidence

    Big-step views of the activator's functions (one constructor per path
    through the code), and from them: a request is admitted only after
    waiting on a guard, after a failed read of the scale object, or after an
    observation that the expected number of replicas is ready; a request
    that waits touches nothing; an admitted request that did not wait leaves
    the deactivator's ticker armed with the pool's delay. *)

From S2P Require Import Prelude GoTime Prog Effects Machine Datastore RequestControl Instances Activator.
#[local] Open Scope go_scope.

Section Admission.
Context `{K8s : Kubernetes} `{EU : ErrUtil} `{Wait : WaitPkg} {WL : WaitPkgLaws}.

(** ** Views *)

Definition nil_deref : string := "invalid memory address or nil pointer dereference".

Definition isScalingUp_trace (b : bool) (g : option chan) : list evt :=
  [Ev OMuLock tt; Ev OScalingUpRead b; Ev OGuardRead g; Ev OMuUnlock tt].

Lemma isScalingUp_exec tr r :
  exec isScalingUp tr r <-> exists b g, tr = isScalingUp_trace b g /\ r = Done (b, g).
Proof.
  cbn. split.
  - intros ([] & ? & -> & b & ? & -> & g & ? & -> & [] & ? & -> & -> & ->). eauto.
  - intros (b & g & -> & ->). eauto 20.
Qed.

(** [MayActivate], path by path. *)
Inductive MayActivate_view : list evt -> outcome (option error) -> Prop :=
| MA_not_synced t :
    exec PoolGet t (Done (None, Some EPoolNotSynced)) ->
    MayActivate_view t (Done (Some EPoolNotSynced))
| MA_nil t :
    exec PoolGet t (Done (None, None)) -> MayActivate_view t (Crash nil_deref)
| MA_wait t p g d :
    exec PoolGet t (Done (Some p, None)) ->
    MayActivate_view
      (t ++ isScalingUp_trace true g ++
       [Ev (OAfter DefaultScaleFromZeroGracePeriod) d; Ev (OSelectGuard d g) tt]) (Done None)
| MA_panic t p g t' m :
    exec PoolGet t (Done (Some p, None)) -> exec (InferencePoolReady p) t' (Crash m) ->
    MayActivate_view (t ++ isScalingUp_trace false g ++ t') (Crash m)
| MA_unready t p g t' :
    exec PoolGet t (Done (Some p, None)) -> exec (InferencePoolReady p) t' (Done false) ->
    MayActivate_view (t ++ isScalingUp_trace false g ++ t') (Done (Some serviceUnavailable))
| MA_ready t p g t' t'' :
    exec PoolGet t (Done (Some p, None)) -> exec (InferencePoolReady p) t' (Done true) ->
    exec (ResetTicker (duration_annotation ScaleDownDelayKey DefaultScaleDownDelay p)) t'' (Done tt) ->
    MayActivate_view (t ++ isScalingUp_trace false g ++ t' ++ t'') (Done None)
| MA_ready_panic t p g t' t'' m :
    exec PoolGet t (Done (Some p, None)) -> exec (InferencePoolReady p) t' (Done true) ->
    exec (ResetTicker (duration_annotation ScaleDownDelayKey DefaultScaleDownDelay p)) t'' (Crash m) ->
    MayActivate_view (t ++ isScalingUp_trace false g ++ t' ++ t'') (Crash m).

Lemma PoolGet_outcome tr r :
  exec PoolGet tr r ->
  r = Done (None, Some EPoolNotSynced) \/ exists p, r = Done (p, None) /\ Ev OPoolRead p ∈ tr.
Proof.
  cbn. intros H. destruct H as ([] & ? & -> & [] & ? & -> & p & ? & -> & [] & ? & -> & H).
  destruct p; cbn in H; split_hyps; [right|by left].
  eexists. split; [done|]. set_solver.
Qed.

Lemma MayActivate_view_exec tr r : MayActivate_view tr r -> exec MayActivate tr r.
Proof.
  assert (Hstart : forall t p g b t' r', exec PoolGet t (Done (Some p, None)) ->
    exec (if b : bool then waitOnGuard g DefaultScaleFromZeroGracePeriod ;; Ret None
          else ready <- InferencePoolReady p ;;
               if negb ready then Ret (Some serviceUnavailable)
               else ResetTicker (duration_annotation ScaleDownDelayKey DefaultScaleDownDelay p) ;; Ret None)
      t' r' ->
    exec MayActivate (t ++ isScalingUp_trace b g ++ t') r').
  { intros t p g b t' r' Hg H. eapply exec_bind_Done; [exact Hg|]. cbn [fst snd deref bind].
    eapply exec_bind_Done; [by apply isScalingUp_exec; eauto|exact H]. }
  intros H. destruct H as [t Hg|t Hg|t p g d Hg|t p g t' m Hg Hr|t p g t' Hg Hr|t p g t' t'' Hg Hr Ht|t p g t' t'' m Hg Hr Ht].
  - rewrite <- (app_nil_r t). by eapply exec_bind_Done.
  - rewrite <- (app_nil_r t). by eapply exec_bind_Done.
  - apply (Hstart _ _ _ true _ _ Hg). cbn. eauto 20.
  - apply (Hstart _ _ _ false _ _ Hg). apply exec_bind. left. eauto.
  - apply (Hstart _ _ _ false _ _ Hg). rewrite <- (app_nil_r t'). by eapply exec_bind_Done.
  - apply (Hstart _ _ _ false _ _ Hg). eapply exec_bind_Done; [exact Hr|]. cbn [negb].
    rewrite <- (app_nil_r t''). by eapply exec_bind_Done.
  - apply (Hstart _ _ _ false _ _ Hg). eapply exec_bind_Done; [exact Hr|]. cbn [negb].
    apply exec_bind. left. eauto.
Qed.

Lemma MayActivate_exec tr r : exec MayActivate tr r -> MayActivate_view tr r.
Proof.
  unfold MayActivate.
  intros [(m & -> & H)|([p e] & t & t1 & -> & Hg & H)]%exec_bind.
  { apply PoolGet_outcome in H as [[=]|(? & [=] & _)]. }
  destruct (PoolGet_outcome _ _ Hg) as [[= -> ->]|(p' & [= -> ->] & _)]; cbn [fst snd] in H.
  { destruct H as [-> ->]. rewrite app_nil_r. by constructor. }
  destruct p' as [p'|]; cbn [deref bind] in H; cycle 1.
  { destruct H as [-> ->]. rewrite app_nil_r. by constructor. }
  apply exec_bind in H as [(m & -> & H)|(a & t2 & t3 & -> & Hs & H)].
  { apply isScalingUp_exec in H as (? & ? & _ & [=]). }
  apply isScalingUp_exec in Hs as (b & g & -> & [= ->]). cbn [fst snd] in H. destruct b.
  - destruct H as (d & ? & -> & [] & ? & -> & -> & ->). by econstructor.
  - apply exec_bind in H as [(m & -> & H)|(a & t4 & t5 & -> & Hr & H)].
    + by econstructor.
    + destruct a; cbn [negb] in H.
      * apply exec_bind in H as [(m & -> & H)|([] & t6 & t7 & -> & Ht & H)].
        -- by eapply MA_ready_panic.
        -- destruct H as [-> ->]. rewrite app_nil_r. by eapply MA_ready.
      * destruct H as [-> ->]. rewrite app_nil_r. by econstructor.
Qed.

(** [InferencePoolReady], path by path. *)
Definition get_event (p : v1.InferencePool) (gvr : GroupVersionResource) (r : res Scale) : evt :=
  Ev (OScaleGet (v1.Namespace p) (GroupResource_of gvr) (annotation p ObjectNameKey)) r.

Definition scale_data (p : v1.InferencePool) (s : Scale) : ScaledObjectData :=
  MkScaledObjectData (annotation p ObjectNameKey) DefaultScaleFromZeroGracePeriod 1 s.

Definition resource_of (p : v1.InferencePool) : go (res GroupVersionResource) :=
  GetResourceForKind (annotation p ObjectApiVersionKey) (annotation p ObjectkindKey).

(** The wait for the replicas the object already has, if it has any. *)
Definition current_ready (p : v1.InferencePool) (gvr : GroupVersionResource) (s : Scale) : go bool :=
  if 0 <? Spec_Replicas s
  then InferencePoolPodsReady (v1.Namespace p) (annotation p ObjectNameKey) (Spec_Replicas s)
         (duration_annotation ScaleFromZeroGracePeriodKey DefaultScaleFromZeroGracePeriod p)
         (GroupResource_of gvr) gvr
  else Ret false.

Inductive InferencePoolReady_view (p : v1.InferencePool) : list evt -> outcome bool -> Prop :=
| IR_unannotated :
    VerifyPoolObjectAnnotations p = false -> InferencePoolReady_view p [] (Done false)
| IR_no_resource t e :
    VerifyPoolObjectAnnotations p = true -> exec (resource_of p) t (Done (Err e)) ->
    InferencePoolReady_view p t (Done false)
| IR_get_failed t gvr e :
    VerifyPoolObjectAnnotations p = true -> exec (resource_of p) t (Done (Ok gvr)) ->
    InferencePoolReady_view p (t ++ [get_event p gvr (Err e)]) (Done true)
| IR_current t gvr s t' :
    VerifyPoolObjectAnnotations p = true -> exec (resource_of p) t (Done (Ok gvr)) ->
    exec (current_ready p gvr s) t' (Done true) ->
    InferencePoolReady_view p (t ++ get_event p gvr (Ok s) :: t') (Done true)
| IR_current_panic t gvr s t' m :
    VerifyPoolObjectAnnotations p = true -> exec (resource_of p) t (Done (Ok gvr)) ->
    exec (current_ready p gvr s) t' (Crash m) ->
    InferencePoolReady_view p (t ++ get_event p gvr (Ok s) :: t') (Crash m)
| IR_scale t gvr s t' t'' r :
    VerifyPoolObjectAnnotations p = true -> exec (resource_of p) t (Done (Ok gvr)) ->
    exec (current_ready p gvr s) t' (Done false) ->
    exec (scaleInferencePool (v1.Namespace p) (scale_data p s) (GroupResource_of gvr) gvr) t'' r ->
    InferencePoolReady_view p (t ++ get_event p gvr (Ok s) :: t' ++ t'') r.

Lemma resource_of_no_panic p t m : ~ exec (resource_of p) t (Crash m).
Proof.
  unfold resource_of, GetResourceForKind. destruct (ParseGroupVersion _); cbn; [|by intros [_ [=]]].
  intros ([] & t' & -> & Hm); by destruct Hm as [_ Hm].
Qed.

Lemma InferencePoolReady_exec p tr r :
  exec (InferencePoolReady p) tr r <-> InferencePoolReady_view p tr r.
Proof.
  unfold InferencePoolReady. destruct (VerifyPoolObjectAnnotations p) eqn:Hv; cbn [negb]; cycle 1.
  { split; [intros [-> ->]; by constructor|inversion 1; subst; try congruence; done]. }
  rewrite exec_bind. split.
  - intros [(m & -> & H)|([gvr|e] & t & t1 & -> & Hg & H)].
    + by apply resource_of_no_panic in H.
    + cbn -[scaleInferencePool InferencePoolPodsReady int32] in H.
      destruct H as ([s|e] & t2 & -> & H).
      * apply exec_bind in H as [(m & -> & H)|(b & t3 & t4 & -> & Hc & H)].
        -- by eapply IR_current_panic.
        -- destruct b; [|by eapply IR_scale].
           destruct H as [-> ->]. rewrite app_nil_r. by eapply IR_current.
      * destruct H as [-> ->]. by eapply IR_get_failed.
    + destruct H as [-> ->]. rewrite app_nil_r. by eapply IR_no_resource.
  - intros H. right. destruct H as [Hn|t e _ Hg|t gvr e _ Hg|t gvr s t' _ Hg Hc|t gvr s t' m _ Hg Hc|t gvr s t' t'' r _ Hg Hc Hs].
    + congruence.
    + exists (Err e), t, []. by rewrite app_nil_r.
    + exists (Ok gvr), t. eexists. split; [done|]. split; [done|]. by exists (Err e), [].
    + exists (Ok gvr), t. eexists. split; [done|]. split; [done|]. exists (Ok s), t'. split; [done|].
      apply (exec_bind (current_ready p gvr s) _). right. exists true, t', []. by rewrite app_nil_r.
    + exists (Ok gvr), t. eexists. split; [done|]. split; [done|]. exists (Ok s), t'. split; [done|].
      apply (exec_bind (current_ready p gvr s) _). left. eauto.
    + exists (Ok gvr), t. eexists. split; [done|]. split; [done|]. exists (Ok s), (t' ++ t''). split; [done|].
      apply (exec_bind (current_ready p gvr s) _). right. exists false, t', t''. done.
Qed.

(** ** Readiness *)

(** The object reports [n] ready replicas, compared as the code does, after
    a conversion of the reported int64 to int32. *)
Definition reports_ready (obj : list (string * any)) (n : Z) : Prop :=
  exists status z, any_index "status" obj = AMap status /\
    any_index "readyReplicas" status = AInt64 z /\ int32 z = n.

(** The trace holds an answer of the API that the target has [n] ready
    replicas. *)
Definition saw_ready (tr : list evt) (gvr : GroupVersionResource) (ns nm : string) (n : Z) : Prop :=
  exists obj, Ev (ODynamicGet gvr ns nm) (Ok obj) ∈ tr /\ reports_ready obj n.

Lemma saw_ready_app_l t t' gvr ns nm n : saw_ready t gvr ns nm n -> saw_ready (t ++ t') gvr ns nm n.
Proof. intros (obj & Hin & H). exists obj. split; [set_solver|done]. Qed.

Lemma saw_ready_app_r t t' gvr ns nm n : saw_ready t' gvr ns nm n -> saw_ready (t ++ t') gvr ns nm n.
Proof. intros (obj & Hin & H). exists obj. split; [set_solver|done]. Qed.

Lemma podsReady_condition_done ns nm n gvr tr :
  exec (podsReady_condition ns nm n gvr) tr (Done (true, None)) -> saw_ready tr gvr ns nm n.
Proof.
  unfold podsReady_condition.
  intros [(m & [=] & _)|([] & t & t' & -> & _ & H)]%exec_bind.
  destruct H as ([obj|e] & t2 & -> & H); [|by destruct H as [_ [=]]].
  apply saw_ready_app_r. exists obj. split; [set_solver|].
  revert H. cbn [bind]. unfold status_readyReplicas.
  destruct (any_index "status" obj) as [| | | | | |st] eqn:Hst; try by intros [_ [=]].
  destruct (any_index "readyReplicas" st) as [| |z| | | |] eqn:Hz; try by intros [_ [=]].
  cbn. destruct (n =? int32 z) eqn:Hn; intros [_ [=]].
  exists st, z. repeat split; [done..|]. lia.
Qed.

Lemma InferencePoolPodsReady_true ns nm n gp gr gvr tr :
  exec (InferencePoolPodsReady ns nm n gp gr gvr) tr (Done true) -> saw_ready tr gvr ns nm n.
Proof.
  unfold InferencePoolPodsReady.
  intros [(m & [=] & _)|(o & t & t' & -> & Hp & [-> [= Ho]])]%exec_bind.
  destruct o; [done|]. rewrite app_nil_r.
  destruct (exec_poll_done _ _ _ (poll_law _ _ _ _) Hp) as (t1 & t2 & -> & Hc).
  apply saw_ready_app_r. by eapply podsReady_condition_done.
Qed.

(** A scale-up that succeeds had its update accepted and saw one ready
    replica. *)
Lemma scaleInferencePool_true ns d gr gvr tr :
  exec (scaleInferencePool ns d gr gvr) tr (Done true) ->
  (exists s', Ev (OScaleUpdate ns gr (set_Replicas (numReplicas d) (scaleObject d))) (Ok s') ∈ tr) /\
  saw_ready tr gvr ns (name d) (numReplicas d).
Proof.
  unfold scaleInferencePool.
  intros [(m & [=] & _)|([] & t & t' & -> & _ & H)]%exec_bind.
  apply exec_defer in H as (t1 & t2 & r1 & -> & H & Hend).
  assert (r1 = Done true) as ->.
  { apply exec_bind in Hend as [(m & [=] & _)|([] & ? & ? & -> & _ & Hr)].
    destruct r1; destruct Hr as [_ Hr]; congruence. }
  destruct H as ([s'|e] & t3 & -> & H); cbn [bind] in H; [|by destruct H as [_ [=]]].
  apply exec_bind in H as [(m & [=] & _)|(b & t4 & t5 & -> & Hp & H)].
  destruct b; [|by destruct H as [_ [=]]].
  apply InferencePoolPodsReady_true in Hp. split; [exists s'; set_solver|].
  apply saw_ready_app_r. rewrite <- app_comm_cons, <- app_assoc.
  destruct Hp as (obj & Hin & Hr). exists obj. split; [set_solver|done].
Qed.

(** ** Admission *)

Definition waited (tr : list evt) : Prop := exists d g, Ev (OSelectGuard d g) tt ∈ tr.

Definition scale_unreadable (tr : list evt) : Prop :=
  exists ns gr nm e, Ev (OScaleGet ns gr nm) (Err e) ∈ tr.

(** The object had replicas, and that many were seen ready. *)
Definition already_up (tr : list evt) : Prop :=
  exists ns nm s gvr, Ev (OScaleGet ns (GroupResource_of gvr) nm) (Ok s) ∈ tr /\
    0 < Spec_Replicas s /\ saw_ready tr gvr ns nm (Spec_Replicas s).

(** The object that was read was scaled to one replica, and one was seen
    ready. *)
Definition scaled_up (tr : list evt) : Prop :=
  exists ns nm s s' gvr, Ev (OScaleGet ns (GroupResource_of gvr) nm) (Ok s) ∈ tr /\
    Ev (OScaleUpdate ns (GroupResource_of gvr) (set_Replicas 1 s)) (Ok s') ∈ tr /\
    saw_ready tr gvr ns nm 1.

Lemma InferencePoolReady_evidence p tr :
  exec (InferencePoolReady p) tr (Done true) ->
  scale_unreadable tr \/ already_up tr \/ scaled_up tr.
Proof.
  intros H%InferencePoolReady_exec.
  inversion H as [| |t gvr e Hv Hg|t gvr s t' Hv Hg Hc| |t gvr s t' t'' r Hv Hg Hc Hs]; subst.
  - left. do 4 eexists. apply elem_of_app. right. by left.
  - right. left. unfold current_ready in Hc. destruct (0 <? Spec_Replicas s) eqn:Hr; [|by destruct Hc as [_ [=]]].
    apply InferencePoolPodsReady_true in Hc. do 4 eexists.
    split; [apply elem_of_app; right; by left|]. split; [lia|].
    apply saw_ready_app_r. by eapply (saw_ready_app_r [_]).
  - right. right. apply scaleInferencePool_true in Hs as [(s' & Hu) Hr].
    do 5 eexists. split; [|split].
    + apply elem_of_app. right. by left.
    + apply elem_of_app. right. right. apply elem_of_app. right. exact Hu.
    + apply saw_ready_app_r. eapply (saw_ready_app_r [_]). apply saw_ready_app_r. exact Hr.
Qed.

(** The two refusals. *)
Lemma MayActivate_refusals tr e :
  exec MayActivate tr (Done (Some e)) -> e = EPoolNotSynced \/ e = serviceUnavailable.
Proof. intros H%MayActivate_exec. inversion H; subst; auto. Qed.

(** The evidence on which a request is admitted. *)
Definition admissible (tr : list evt) : Prop :=
  waited tr \/ scale_unreadable tr \/ already_up tr \/ scaled_up tr.

Lemma MayActivate_evidence tr : exec MayActivate tr (Done None) -> admissible tr.
Proof.
  intros H%MayActivate_exec. inversion H as [| |t p g d Hg| | |t p g t' t'' Hg Hr Ht|]; subst.
  - left. exists d, g. set_solver.
  - right. apply InferencePoolReady_evidence in Hr.
    destruct Hr as [(ns & gr & nm & e & Hin)|[(ns & nm & s & gvr & Hin & Hp & Hs)|(ns & nm & s & s' & gvr & Hg' & Hin & Hs)]].
    + left. exists ns, gr, nm, e. set_solver.
    + right. left. exists ns, nm, s, gvr. split; [set_solver|]. split; [done|].
      by apply saw_ready_app_r, saw_ready_app_r, saw_ready_app_l.
    + right. right. exists ns, nm, s, s', gvr. split; [set_solver|]. split; [set_solver|].
      by apply saw_ready_app_r, saw_ready_app_r, saw_ready_app_l.
Qed.

(** C2.  Admission.  A request that [MayActivate] admits (nil error) waited
    on the guard of a scale-up in progress, or could not read the scale
    object, or saw the target report as many ready replicas as its scale
    asks for, or had an update to one replica accepted and then saw one
    ready; a request that is refused is refused with [errPoolNotSynced] or
    with the ServiceUnavailable error, and nothing else. *)
Theorem MayActivate_admission tr r :
  exec MayActivate tr r ->
  match r with
  | Done None => waited tr \/ scale_unreadable tr \/ already_up tr \/ scaled_up tr
  | Done (Some e) => e = EPoolNotSynced \/ e = serviceUnavailable
  | Crash _ => True
  end.
Proof.
  intros H. destruct r as [[e|]|m]; [by eapply MayActivate_refusals|by apply MayActivate_evidence|done].
Qed.

(** ** Waiting *)

(** What a waiting request may do: read the pool, look at the scale-up in
    progress, wait. *)
Definition quiet (o : op) : bool :=
  pool_reads o || mu_reads o ||
  match o with OAfter _ | OSelectGuard _ _ => true | _ => false end.

(** The answer of a read of [scalingUp]. *)
Definition scaling_read (e : evt) : option bool :=
  match e with Ev OScalingUpRead b => Some b | _ => None end.

(** C27.  Waiting.  A request that finds [scalingUp] set performs no call to
    the Kubernetes API, does not touch the ticker or the scale-up state, and
    is admitted when its wait ends, whether the scale-up succeeded or not;
    its wait is bounded by the default grace period. *)
Theorem MayActivate_waits tr r :
  exec MayActivate tr r -> Ev OScalingUpRead true ∈ tr ->
  r = Done None /\ Forall (fun e => quiet (ev_op e) = true) tr /\
  exists d g, Ev (OAfter DefaultScaleFromZeroGracePeriod) d ∈ tr /\ Ev (OSelectGuard d g) tt ∈ tr.
Proof.
  intros H%MayActivate_exec Hin.
  assert (Hg : forall t q, exec PoolGet t q -> Ev OScalingUpRead true ∉ t).
  { intros t q Hx. by eapply uses_absent; [apply PoolGet_uses| |]. }
  assert (Hr : forall p t q, exec (InferencePoolReady p) t q -> Ev OScalingUpRead true ∉ t).
  { intros p t q Hx. by eapply uses_absent; [apply InferencePoolReady_uses| |]. }
  assert (Ht : forall d t q, exec (ResetTicker d) t q -> Ev OScalingUpRead true ∉ t).
  { intros d t q Hx. by eapply uses_absent; [apply ResetTicker_uses| |]. }
  assert (Hf : forall g, Ev OScalingUpRead true ∉ isScalingUp_trace false g).
  { intros g. unfold isScalingUp_trace. rewrite !elem_of_cons.
    intros [H1|[H1|[H1|[H1|H1]]]]; try (by apply (f_equal scaling_read) in H1). by apply not_elem_of_nil in H1. }
  destruct H as [t Hx|t Hx|t p g d Hx|t p g t' m Hx Hy|t p g t' Hx Hy|t p g t' t'' Hx Hy Hz|t p g t' t'' m Hx Hy Hz];
    try (exfalso; repeat (apply elem_of_app in Hin as [Hin|Hin]);
         first [by eapply Hg|by eapply Hf|by eapply Hr|by eapply Ht]).
  split; [done|]. split.
  - apply Forall_app. split; [|by repeat constructor].
    eapply Forall_impl; [eapply uses_exec; [apply PoolGet_uses|exact Hx]|].
    intros [o x]. unfold quiet. simpl. by intros ->.
  - exists d, g. set_solver.
Qed.

(** ** Re-arming the deactivator *)

Lemma ResetTicker_exec d t r :
  exec (ResetTicker d) t r <->
  if d <=? 0 then t = [Ev OPoolRLock tt; Ev OPoolRUnlock tt] /\ r = Crash "non-positive interval for Ticker.Reset"
  else t = [Ev OPoolRLock tt; Ev (OTickerReset d) tt; Ev OPoolRUnlock tt] /\ r = Done tt.
Proof.
  unfold ResetTicker, TickerReset. destruct (d <=? 0); cbn; split.
  - intros ([] & ? & -> & [] & ? & -> & -> & ->). done.
  - intros [-> ->]. eauto 10.
  - intros ([] & ? & -> & [] & ? & -> & [] & ? & -> & -> & ->). done.
  - intros [-> ->]. eauto 20.
Qed.

(** The scale-down delay of a pool. *)
Definition scaleDownDelay_of (p : v1.InferencePool) : Duration :=
  duration_annotation ScaleDownDelayKey DefaultScaleDownDelay p.

(** An admitted request waited, or re-armed the ticker as the last thing it
    did. *)
Lemma MayActivate_admitted tr : exec MayActivate tr (Done None) -> waited tr \/
  exists p tr', Ev OPoolRead (Some p) ∈ tr /\ 0 < scaleDownDelay_of p /\
    tr = tr' ++ [Ev OPoolRLock tt; Ev (OTickerReset (scaleDownDelay_of p)) tt; Ev OPoolRUnlock tt].
Proof.
  intros H%MayActivate_exec. inversion H as [| |t p g d Hg| | |t p g t' t'' Hg Hr Ht|]; subst.
  - left. exists d, g. set_solver.
  - right. apply ResetTicker_exec in Ht. fold (scaleDownDelay_of p) in *.
    destruct (scaleDownDelay_of p <=? 0) eqn:Hd; [by destruct Ht|]. destruct Ht as [-> _].
    exists p, (t ++ isScalingUp_trace false g ++ t'). split; [|split; [lia|by rewrite <- !app_assoc]].
    apply PoolGet_outcome in Hg as [[=]|(q & [= <-] & Hin)]. set_solver.
Qed.

(** C28.  Re-arming.  The last thing an admitted request does, if it did not
    wait on a guard, is to reset the deactivator's ticker, under the read
    lock, to the scale-down delay of the pool it read from the datastore:
    its annotation or the default; and that delay is positive. *)
Theorem MayActivate_rearms tr :
  exec MayActivate tr (Done None) -> ~ waited tr ->
  exists p tr', Ev OPoolRead (Some p) ∈ tr /\ 0 < scaleDownDelay_of p /\
    tr = tr' ++ [Ev OPoolRLock tt; Ev (OTickerReset (scaleDownDelay_of p)) tt; Ev OPoolRUnlock tt].
Proof. intros H Hw. by destruct (MayActivate_admitted tr H). Qed.

End Admission.

(** ** Concrete runs *)

Lemma MayActivate_admission_witness :
  let tr := fst (run_with from_zero_env demo_MayActivate) in
  exec demo_MayActivate tr (Done None) /\
  (waited tr \/ scale_unreadable tr \/ @already_up demo_k8s tr \/ @scaled_up demo_k8s tr).
Proof.
  intros tr.
  assert (H : exec demo_MayActivate tr (Done None)).
  { pose proof (run_with_exec from_zero_env demo_MayActivate) as H.
    replace (snd (run_with from_zero_env demo_MayActivate)) with (Done (A:=option error) None) in H
      by (vm_compute; reflexivity). exact H. }
  split; [exact H|].
  exact (@MayActivate_admission demo_k8s demo_errutil ref_wait ref_wait_laws tr (Done None) H).
Defined.

Lemma MayActivate_waits_witness :
  let tr := fst (run_with waiting_env demo_MayActivate) in
  let r := snd (run_with waiting_env demo_MayActivate) in
  r = Done None /\ Forall (fun e => quiet (ev_op e) = true) tr /\
  exists d g, Ev (OAfter DefaultScaleFromZeroGracePeriod) d ∈ tr /\ Ev (OSelectGuard d g) tt ∈ tr.
Proof.
  intros tr r.
  apply (@MayActivate_waits demo_k8s demo_errutil ref_wait ref_wait_laws tr r).
  - apply run_with_exec.
  - vm_compute. do 7 right. left.
Defined.

Lemma MayActivate_rearms_witness :
  let tr := fst (run_with from_zero_env demo_MayActivate) in
  exists p tr', Ev OPoolRead (Some p) ∈ tr /\ 0 < scaleDownDelay_of p /\
    tr = tr' ++ [Ev OPoolRLock tt; Ev (OTickerReset (scaleDownDelay_of p)) tt; Ev OPoolRUnlock tt].
Proof.
  intros tr. apply (@MayActivate_rearms demo_k8s demo_errutil ref_wait ref_wait_laws tr).
  - pose proof (run_with_exec from_zero_env demo_MayActivate) as H.
    replace (snd (run_with from_zero_env demo_MayActivate)) with (Done (A:=option error) None) in H
      by (vm_compute; reflexivity). exact H.
  - intros (d & g & Hin). apply (list_elem_of_In) in Hin. vm_compute in Hin.
    repeat (destruct Hin as [Hin|Hin]; [discriminate|]). exact Hin.
Defined.
