(* ===== verification/ActivatorEdges.v ===== *)
(** * Corner cases of the activator

    What the code does where a reader of its comments may expect something
    else: a scale-down delay that does not parse, a target without a status,
    the scale-from-zero grace period, a target with several replicas that
    are slow to get ready, and the width of the replica comparison. *)

From S2P Require Import Prelude GoTime Prog Effects Machine Datastore RequestControl Instances Activator Admission.
#[local] Open Scope go_scope.

Section Edges.
Context `{K8s : Kubernetes} `{EU : ErrUtil} `{Wait : WaitPkg} {WL : WaitPkgLaws}.

(** ** A delay that is not positive *)

(** C39.  A scale-down delay that is not positive, in particular one that
    does not parse (the error of [time.ParseDuration] is dropped and the
    value is zero), makes [Ticker.Reset] panic: no request for such a pool
    is admitted except by waiting on another request's guard, and every
    request that finds the target ready crashes the process. *)
Theorem bad_scale_down_delay_panics p :
  scaleDownDelay_of p <= 0 ->
  (forall tr, exec MayActivate tr (Done None) ->
     (forall q, Ev OPoolRead q ∈ tr -> q = Some p) -> waited tr) /\
  (forall t g t', exec PoolGet t (Done (Some p, None)) -> exec (InferencePoolReady p) t' (Done true) ->
     exec MayActivate (t ++ isScalingUp_trace false g ++ t' ++ [Ev OPoolRLock tt; Ev OPoolRUnlock tt])
       (Crash "non-positive interval for Ticker.Reset")).
Proof.
  intros Hd. split.
  - intros tr He Hp. apply MayActivate_exec in He.
    inversion He as [| |t q g d Hg| | |t q g t' t'' Hg Hr Ht|]; subst; [exists d, g; set_solver|].
    apply PoolGet_outcome in Hg as [[=]|(q' & [= <-] & Hin)].
    assert (q = p) as -> by (specialize (Hp (Some q) ltac:(set_solver)); congruence).
    apply ResetTicker_exec in Ht. fold (scaleDownDelay_of p) in Ht.
    replace (scaleDownDelay_of p <=? 0) with true in Ht by lia. by destruct Ht.
  - intros t g t' Hg Hr. apply MayActivate_view_exec. eapply MA_ready_panic; [done..|].
    apply ResetTicker_exec. fold (scaleDownDelay_of p).
    by replace (scaleDownDelay_of p <=? 0) with true by lia.
Qed.

(** ** A target without a status *)

Definition has_status (obj : list (string * any)) : bool :=
  match any_index "status" obj with AMap _ => true | _ => false end.

(** The event is an answer of the API without a status map. *)
Definition statusless (e : evt) : bool :=
  match e with
  | Ev (ODynamicGet _ _ _) (Ok obj) => negb (has_status obj)
  | _ => false
  end.

Definition seen_statusless (s : bool) (e : evt) : option bool := Some (s || statusless e).

Definition crashes_if_seen {A} (s : bool) (r : outcome A) : Prop :=
  s = true -> exists m, r = Crash m.

Lemma crash_if_seen {A} s m : @crashes_if_seen A s (Crash m).
Proof. intros _. by exists m. Qed.

Lemma seen_false {A} s (a : A) : crashes_if_seen s (Done a) -> s = false.
Proof. destruct s; [|done]. intros H. by destruct (H eq_refl). Qed.

Lemma seen_statusless_accepts tr : forall s s', accepts seen_statusless s tr = Some s' ->
  s' = s || existsb statusless tr.
Proof.
  induction tr as [|e tr IH]; simpl; intros s s' H; [simplify_eq; by rewrite orb_false_r|].
  apply IH in H. by rewrite H, orb_assoc.
Qed.

Lemma InferencePoolPodsReady_statusless ns nm n gp gr gvr :
  mon seen_statusless false (InferencePoolPodsReady ns nm n gp gr gvr) crashes_if_seen.
Proof.
  apply mon_bind.
  eapply (mon_poll seen_statusless (podsReady_condition ns nm n gvr) _ (fun s => s = false));
    [apply poll_law|..|done]; [by intros ? ? ? ->| |by intros ? ? ->].
  intros ? ->. apply mon_bind. eapply mon_uses; [apply ResetTicker_uses|by intros []|].
  intros [[]|m]; [|done]. cbn. intros [obj|e]; [|done]. cbn.
  unfold has_status, status_readyReplicas.
  destruct (any_index "status" obj) as [| | | | | |st]; cbn; try (by intros; eexists).
  destruct (any_index "readyReplicas" st) as [| |z| | | |]; cbn; try done.
  by destruct (n =? int32 z).
Qed.

Lemma scaleInferencePool_statusless ns d gr gvr :
  mon seen_statusless false (scaleInferencePool ns d gr gvr) crashes_if_seen.
Proof.
  apply mon_bind. eapply mon_uses; [apply beginScalingUp_uses|by intros []|].
  intros [[]|m]; [|done]. apply mon_defer. cbn -[endScalingUp InferencePoolPodsReady].
  assert (Hend : forall s' (r : outcome bool), crashes_if_seen s' r ->
    mon seen_statusless s' endScalingUp (mthen seen_statusless (fun _ => of_outcome r) crashes_if_seen)).
  { intros s' r Hc. eapply mon_uses; [apply endScalingUp_uses|by intros []; destruct s'|].
    intros [[]|m]; [by destruct r|apply crash_if_seen]. }
  intros [s'|e]; [|by apply Hend]. apply mon_bind.
  eapply mon_mono; [|apply InferencePoolPodsReady_statusless].
  intros s1 [b|m] Hc; [|by apply Hend]. apply seen_false in Hc as ->.
  destruct b; [|by apply Hend]. cbn -[endScalingUp]. intros t _. by apply (Hend false (Done true)).
Qed.

Lemma InferencePoolReady_statusless pool :
  mon seen_statusless false (InferencePoolReady pool) crashes_if_seen.
Proof.
  unfold InferencePoolReady. destruct (VerifyPoolObjectAnnotations pool); [|done]. cbn [negb].
  apply mon_bind. eapply mon_uses; [apply GetResourceForKind_uses|by intros []|].
  intros [[gvr|e]|m]; [|done..]. cbn -[scaleInferencePool InferencePoolPodsReady int32].
  intros [s|e]; [|done]. apply mon_bind.
  destruct (0 <? Spec_Replicas s); [|apply scaleInferencePool_statusless].
  eapply mon_mono; [|apply InferencePoolPodsReady_statusless].
  intros s1 [b|m] Hc; [|apply crash_if_seen]. apply seen_false in Hc as ->.
  destruct b; [done|apply scaleInferencePool_statusless].
Qed.

Lemma MayActivate_statusless : mon seen_statusless false MayActivate crashes_if_seen.
Proof.
  apply mon_bind. eapply mon_uses; [apply PoolGet_uses|by intros []|].
  intros [[p [e|]]|m]; [done| |done]. cbn [mthen fst snd].
  destruct p as [pool|]; [|done]. cbn [deref bind].
  apply mon_bind. eapply mon_uses; [apply isScalingUp_uses|by intros []|].
  intros [[[] g]|m]; [by cbn|..|done]. cbn [mthen fst snd]. apply mon_bind.
  eapply mon_mono; [|apply InferencePoolReady_statusless].
  intros s1 [b|m] Hc; [|apply crash_if_seen]. apply seen_false in Hc as ->.
  destruct b; [|done]. cbn [negb]. apply mon_bind. eapply mon_uses; [apply ResetTicker_uses|by intros []|].
  intros [[]|m]; done.
Qed.

(** If the API ever answers a poll with an object whose [status] is
    absent (or is not a map), the request crashes the process: the unchecked
    type assertion comes before the check for [readyReplicas]. *)
Theorem missing_status_panics tr r gvr ns nm obj :
  exec MayActivate tr r -> Ev (ODynamicGet gvr ns nm) (Ok obj) ∈ tr -> has_status obj = false ->
  exists m, r = Crash m.
Proof.
  intros He Hin Hs.
  destruct (mon_exec _ _ _ _ _ _ MayActivate_statusless He) as (s' & Ha & Hc).
  apply Hc. apply seen_statusless_accepts in Ha as ->. simpl.
  apply existsb_exists. exists (Ev (ODynamicGet gvr ns nm) (Ok obj)).
  split; [by apply list_elem_of_In|]. simpl. by rewrite Hs.
Qed.

(** ** The grace period *)

(** Two pools that differ at most in the scale-from-zero grace period. *)
Definition same_but_grace_period (p q : v1.InferencePool) : Prop :=
  v1.Namespace p = v1.Namespace q /\
  forall k, k <> ScaleFromZeroGracePeriodKey -> v1.Annotations p !! k = v1.Annotations q !! k.

Lemma same_annotation p q k :
  same_but_grace_period p q -> k <> ScaleFromZeroGracePeriodKey -> annotation p k = annotation q k.
Proof. intros [_ H] Hk. unfold annotation, map_get. by rewrite H. Qed.

Lemma same_verify p q :
  same_but_grace_period p q -> VerifyPoolObjectAnnotations p = VerifyPoolObjectAnnotations q.
Proof. intros [_ H]. unfold VerifyPoolObjectAnnotations. by rewrite !H by done. Qed.

(** Every scale object the trace fetched had no replicas. *)
Definition from_zero (tr : list evt) : Prop :=
  forall ns gr nm s, Ev (OScaleGet ns gr nm) (Ok s) ∈ tr -> Spec_Replicas s <= 0.

Lemma grace_period_ignored_impl p q tr r :
  same_but_grace_period p q -> from_zero tr ->
  exec (InferencePoolReady p) tr r -> exec (InferencePoolReady q) tr r.
Proof.
  intros Hpq Hz. rewrite !InferencePoolReady_exec.
  pose proof (same_verify p q Hpq) as Hv.
  assert (Hres : resource_of p = resource_of q).
  { unfold resource_of. by rewrite (same_annotation p q), (same_annotation p q ObjectkindKey). }
  assert (Hget : forall gvr x, get_event p gvr x = get_event q gvr x).
  { unfold get_event. intros. rewrite (same_annotation p q) by done. by destruct Hpq as [-> _]. }
  assert (Hsd : forall s, scale_data p s = scale_data q s).
  { unfold scale_data. intros. by rewrite (same_annotation p q). }
  assert (Hcur : forall gvr s t t', from_zero (t ++ get_event p gvr (Ok s) :: t') ->
    current_ready p gvr s = current_ready q gvr s).
  { intros gvr s t t' H0. unfold current_ready.
    replace (0 <? Spec_Replicas s) with false; [done|].
    enough (Spec_Replicas s <= 0) by lia. eapply H0. apply elem_of_app. right. left. }
  destruct Hpq as [Hns _]. intros H.
  destruct H as [Hn|t e Hn Hg|t gvr e Hn Hg|t gvr s t' Hn Hg Hc|t gvr s t' m Hn Hg Hc|t gvr s t' t'' r Hn Hg Hc Hs];
    try (erewrite Hcur in Hc by exact Hz); rewrite ?Hget in *; rewrite Hv in Hn; rewrite ?Hres in *.
  - by constructor.
  - by eapply IR_no_resource.
  - by eapply IR_get_failed.
  - by eapply IR_current.
  - by eapply IR_current_panic.
  - rewrite Hns, Hsd in Hs. by eapply IR_scale.
Qed.

(** The annotation scale-from-zero-grace-period has no effect on a
    scale from zero: whatever its value, and whether it is present or not, a
    target without replicas is treated in exactly the same way (the wait
    for its first replica always lasts the default grace period). *)
Theorem grace_period_ignored p q tr r :
  same_but_grace_period p q -> from_zero tr ->
  exec (InferencePoolReady p) tr r <-> exec (InferencePoolReady q) tr r.
Proof.
  intros [Hns Hk] Hz. split; apply grace_period_ignored_impl; [done..|split; [done|] |done].
  intros k Hne. by rewrite Hk.
Qed.

(** ** The comparison of replica counts *)

(** The condition's operations before it reads the target. *)
Definition condition_prefix : list evt :=
  [Ev OPoolRLock tt; Ev (OTickerReset DefaultScaleDownDelay) tt; Ev OPoolRUnlock tt].

(** C40.  The readiness test compares int32 values: a poll whose object
    reports [z] ready replicas is done exactly when [z] and the wanted
    number agree modulo 2^32; within the int32 range that is equality of
    the counts, so surplus ready pods do not count as ready. *)
Theorem readiness_is_equality_mod_2_32 ns nm n gvr obj status z r :
  in_width 32 n ->
  any_index "status" obj = AMap status -> any_index "readyReplicas" status = AInt64 z ->
  exec (podsReady_condition ns nm n gvr)
    (condition_prefix ++ [Ev (ODynamicGet gvr ns nm) (Ok obj)]) r <->
  r = Done (bool_decide ((z - n) mod 2 ^ 32 = 0), None).
Proof.
  intros Hn Hs Hz.
  assert (Hb : bool_decide ((z - n) mod 2 ^ 32 = 0) = (n =? int32 z)).
  { apply Bool.eq_iff_eq_true. rewrite bool_decide_eq_true, Z.eqb_eq.
    rewrite <- (wrap_eq_iff 32 z n), (wrap_small 32 n) by (lia || done). unfold int32. lia. }
  rewrite Hb. cbn. split.
  - intros ([] & ? & [= <-] & [] & ? & [= <-] & [] & ? & [= <-] & [o|e] & ? & H & H').
    + assert (o = obj) as ->.
      { apply (f_equal (fun l => match l with Ev (ODynamicGet _ _ _) (Ok x) :: _ => x | _ => [] end)) in H.
        simpl in H. congruence. }
      cbn in H'. revert H'. unfold status_readyReplicas. rewrite Hs, Hz. cbn.
      destruct (n =? int32 z); by intros [_ ->].
    + apply (f_equal (fun l => match l with Ev (ODynamicGet _ _ _) (Ok x) :: _ => true | _ => false end)) in H.
      by simpl in H.
  - intros ->. do 3 (exists tt; eexists; split; [done|]). exists (Ok obj). eexists. split; [done|].
    cbn. unfold status_readyReplicas. rewrite Hs, Hz. cbn. by destruct (n =? int32 z).
Qed.

End Edges.

(** ** Replicas that are slow to get ready *)

(** Every poll times out. *)
Definition slow_env (n : Z) (o : op) : ans o :=
  match o return ans o with
  | OPollWait _ => true
  | o => demo_env (Some demo_pool) false (Ok (demo_scale n)) (Ok (demo_object 0)) o
  end.

(** A target that already has several replicas, which are not all ready
    within the grace period, is scaled down to one replica by a request that
    was meant to scale it up: the code falls through to the scale from zero
    without looking at the current number again. *)
Theorem slow_replicas_scaled_down n :
  1 < n ->
  exists tr r, exec demo_MayActivate tr r /\
    Ev (OScaleGet "llm-d-sim" (MkGR "apps" "deployments") "decode") (Ok (demo_scale n)) ∈ tr /\
    Ev (OScaleUpdate "llm-d-sim" (MkGR "apps" "deployments") (demo_scale 1)) (Ok (demo_scale 1)) ∈ tr.
Proof.
  intros Hn.
  exists (fst (run_with (slow_env n) demo_MayActivate)), (snd (run_with (slow_env n) demo_MayActivate)).
  split; [apply run_with_exec|].
  destruct n as [|n|n]; [lia| |lia].
  split; apply list_elem_of_In; vm_compute; tauto.
Qed.

(** ** Concrete instances *)

Definition bad_delay_pool : v1.InferencePool := with_annotation ScaleDownDelayKey "120" demo_pool.

Lemma bad_scale_down_delay_panics_witness :
  ParseDuration.parse "120" = None /\
  exists tr, exec demo_MayActivate tr (Crash "non-positive interval for Ticker.Reset").
Proof.
  split; [reflexivity|]. eexists.
  apply (proj2 (@bad_scale_down_delay_panics demo_k8s demo_errutil ref_wait ref_wait_laws
    bad_delay_pool ltac:(vm_compute; discriminate))
    (fst (run_with (demo_env (Some bad_delay_pool) false (Ok (demo_scale 1)) (Ok (demo_object 1))) PoolGet))
    None
    (fst (run_with (demo_env (Some bad_delay_pool) false (Ok (demo_scale 1)) (Ok (demo_object 1)))
       (@InferencePoolReady Register.datastore_impl demo_k8s ref_wait bad_delay_pool)))).
  - apply (run_with_exec (demo_env (Some bad_delay_pool) false (Ok (demo_scale 1)) (Ok (demo_object 1))) PoolGet).
  - apply (run_with_exec (demo_env (Some bad_delay_pool) false (Ok (demo_scale 1)) (Ok (demo_object 1)))
       (@InferencePoolReady Register.datastore_impl demo_k8s ref_wait bad_delay_pool)).
Defined.

Definition no_status_env : forall o, ans o :=
  demo_env (Some demo_pool) false (Ok (demo_scale 0)) (Ok [("kind"%string, AString "Deployment")]).

Lemma missing_status_panics_witness :
  exists m, snd (run_with no_status_env demo_MayActivate) = Crash m.
Proof.
  apply (@missing_status_panics demo_k8s demo_errutil ref_wait ref_wait_laws
    (fst (run_with no_status_env demo_MayActivate)) _
    (MkGVR "apps" "v1" "deployments") "llm-d-sim" "decode" [("kind"%string, AString "Deployment")]).
  - apply run_with_exec.
  - apply list_elem_of_In. vm_compute. tauto.
  - reflexivity.
Defined.

Definition long_grace_pool : v1.InferencePool := with_annotation ScaleFromZeroGracePeriodKey "10m" demo_pool.

Lemma grace_period_ignored_witness :
  let tr := fst (run_with from_zero_env (@InferencePoolReady Register.datastore_impl demo_k8s ref_wait demo_pool)) in
  exec (@InferencePoolReady Register.datastore_impl demo_k8s ref_wait long_grace_pool) tr (Done true).
Proof.
  intros tr.
  assert (H1 : same_but_grace_period demo_pool long_grace_pool).
  { split; [reflexivity|]. intros k Hk. symmetry. by apply lookup_insert_ne. }
  assert (H2 : from_zero tr).
  { intros ns gr nm s Hin. apply list_elem_of_In in Hin. vm_compute in Hin.
    repeat (destruct Hin as [Hin|Hin]; [try discriminate|]); [|destruct Hin].
    apply (f_equal (fun e : evt => match e with Ev (OScaleGet _ _ _) (Ok s) => Spec_Replicas s | _ => 1 end)) in Hin.
    simpl in Hin. lia. }
  assert (H3 : exec (@InferencePoolReady Register.datastore_impl demo_k8s ref_wait demo_pool) tr (Done true)).
  { pose proof (run_with_exec from_zero_env (@InferencePoolReady Register.datastore_impl demo_k8s ref_wait demo_pool)) as H.
    replace (snd (run_with from_zero_env (@InferencePoolReady Register.datastore_impl demo_k8s ref_wait demo_pool)))
      with (Done true) in H by (vm_compute; reflexivity). exact H. }
  exact (proj1 (@grace_period_ignored demo_k8s ref_wait demo_pool long_grace_pool tr (Done true) H1 H2) H3).
Defined.

(** 2^32 + 1 ready replicas count as one. *)
Lemma readiness_is_equality_mod_2_32_witness :
  exec (podsReady_condition "llm-d-sim" "decode" 1 (MkGVR "apps" "v1" "deployments"))
    (condition_prefix ++ [Ev (ODynamicGet (MkGVR "apps" "v1" "deployments") "llm-d-sim" "decode")
       (Ok (demo_object 4294967297))]) (Done (true, None)).
Proof.
  apply (readiness_is_equality_mod_2_32 "llm-d-sim" "decode" 1 (MkGVR "apps" "v1" "deployments")
    (demo_object 4294967297) [("readyReplicas"%string, AInt64 4294967297)] 4294967297).
  - unfold in_width. lia.
  - reflexivity.
  - reflexivity.
  - reflexivity.
Defined.

Lemma slow_replicas_scaled_down_witness :
  exists tr r, exec demo_MayActivate tr r /\
    Ev (OScaleGet "llm-d-sim" (MkGR "apps" "deployments") "decode") (Ok (demo_scale 5)) ∈ tr /\
    Ev (OScaleUpdate "llm-d-sim" (MkGR "apps" "deployments") (demo_scale 1)) (Ok (demo_scale 1)) ∈ tr.
Proof. apply (slow_replicas_scaled_down 5). lia. Defined.
