(* ===== verification/Refusals.v ===== *)
(** * Why [MayActivate] refuses a request

    The other half of file Admission: every refusal has a cause in the run.
    The pool was not synced; or its annotations do not name a target the API
    knows; or the update to one replica was rejected; or it was accepted and
    afterwards the target was seen not ready, or the polling context ended.
    Read backwards: a request for a pool whose target is known to the API,
    whose update is accepted and whose replica is reported ready each time it
    is asked for before the deadline, is not refused. *)

From S2P Require Import Prelude GoTime Prog Effects Machine Datastore RequestControl Instances Activator Admission.
#[local] Open Scope go_scope.

(** [PollUntilContextTimeout] calls the condition each interval until the
    timeout: with room for one interval it returns an error only after a wait
    that found its context ended, or after a call of the condition that was
    not done or failed. *)
Class WaitPkgPersists `{WaitPkg} : Prop := {
  poll_persists interval timeout cond tr e :
    0 < interval <= timeout ->
    exec (PollUntilContextTimeout interval timeout false cond) tr (Done (Some e)) ->
    (exists d, Ev (OPollWait d) true ∈ tr) \/
    (exists t1 t t2 r, tr = t1 ++ t ++ t2 /\ exec cond t (Done r) /\ r <> (true, None))
}.

Lemma poll_n_persists interval cond n : forall tr e,
  exec (poll_n n interval cond) tr (Done (Some e)) -> (n <> 0)%nat ->
  (exists d, Ev (OPollWait d) true ∈ tr) \/
  (exists t1 t t2 r, tr = t1 ++ t ++ t2 /\ exec cond t (Done r) /\ r <> (true, None)).
Proof.
  destruct n as [|n]; [done|]. intros tr e (x & tr' & -> & H) _. cbn [bind] in H. destruct x.
  { left. exists interval. set_solver. }
  apply exec_bind in H as [(m & [=] & _)|(r & t1 & t2 & -> & Hc & H)].
  destruct r as [[] [e'|]]; [|by destruct H as [_ [=]]|..];
    right; exists [Ev (OPollWait interval) false], t1, t2; eexists; (split; [done|]); (split; [exact Hc|done]).
Qed.

Lemma ref_wait_persists : @WaitPkgPersists ref_wait.
Proof.
  split. intros interval timeout cond tr e Hi H. eapply poll_n_persists; [exact H|].
  enough (0 < timeout / interval) by lia. apply Z.div_str_pos. lia.
Qed.

Section Refusals.
Context `{K8s : Kubernetes} `{EU : ErrUtil} `{Wait : WaitPkg} {WL : WaitPkgLaws} {WP : WaitPkgPersists}.

Definition timed_out (tr : list evt) : Prop := exists d, Ev (OPollWait d) true ∈ tr.

(** The API could not show the target, or showed it without [n] ready
    replicas. *)
Definition saw_unready (tr : list evt) (gvr : GroupVersionResource) (ns nm : string) (n : Z) : Prop :=
  exists r, Ev (ODynamicGet gvr ns nm) r ∈ tr /\ (forall obj, r = Ok obj -> ~ reports_ready obj n).

Lemma podsReady_condition_not_done ns nm n gvr tr r :
  exec (podsReady_condition ns nm n gvr) tr (Done r) -> r <> (true, None) -> saw_unready tr gvr ns nm n.
Proof.
  unfold podsReady_condition.
  intros [(m & [=] & _)|([] & t & t' & -> & _ & ([obj|e] & t2 & -> & H))]%exec_bind Hr.
  - exists (Ok obj). split; [set_solver|]. intros ? [= <-] (st & z & Hst & Hz & Hn).
    revert H. cbn [bind]. unfold status_readyReplicas. rewrite Hst, Hz. cbn. rewrite Hn, Z.eqb_refl.
    intros [_ [= ->]]. done.
  - exists (Err e). split; [set_solver|done].
Qed.

Lemma InferencePoolPodsReady_false ns nm n gp gr gvr tr : 1 * Second <= gp ->
  exec (InferencePoolPodsReady ns nm n gp gr gvr) tr (Done false) -> timed_out tr \/ saw_unready tr gvr ns nm n.
Proof.
  intros Hgp. unfold InferencePoolPodsReady.
  intros [(m & [=] & _)|(o & t & t' & -> & Hp & [-> [= Ho]])]%exec_bind. destruct o as [e|]; [|done]. rewrite app_nil_r.
  apply poll_persists in Hp as [[d Hd]|(t1 & t2 & t3 & r & -> & Hc & Hr)]; [left; by exists d| |done].
  right. apply podsReady_condition_not_done in Hc as (o & Hin & Ho'); [|done]. exists o. split; [set_solver|done].
Qed.

(** An update that was rejected, or accepted without effect. *)
Definition update_failed (tr : list evt) (gvr : GroupVersionResource) (ns nm : string) (s : Scale) : Prop :=
  exists t1 t2 r, tr = t1 ++ Ev (OScaleUpdate ns (GroupResource_of gvr) s) r :: t2 /\
    match r with Err _ => True | Ok _ => timed_out t2 \/ saw_unready t2 gvr ns nm (Spec_Replicas s) end.

Lemma update_failed_app t t' gvr ns nm s : update_failed t' gvr ns nm s -> update_failed (t ++ t') gvr ns nm s.
Proof. intros (t1 & t2 & r & -> & H). exists (t ++ t1), t2, r. by rewrite <- app_assoc. Qed.

Lemma scaleInferencePool_false ns d gvr tr : 1 * Second <= scaleGracePeriod d ->
  exec (scaleInferencePool ns d (GroupResource_of gvr) gvr) tr (Done false) ->
  update_failed tr gvr ns (name d) (set_Replicas (numReplicas d) (scaleObject d)).
Proof.
  intros Hgp. unfold scaleInferencePool.
  intros [(m & [=] & _)|([] & t & t' & -> & _ & H)]%exec_bind. apply update_failed_app.
  apply exec_defer in H as (t1 & t2 & r1 & -> & H & Hend).
  assert (r1 = Done false) as ->.
  { apply exec_bind in Hend as [(m & [=] & _)|([] & ? & ? & -> & _ & Hr)].
    destruct r1; destruct Hr as [_ Hr]; congruence. }
  destruct H as ([s'|e] & t3 & -> & H); cbn [bind] in H; exists [], (t3 ++ t2); [exists (Ok s')|by exists (Err e)].
  split; [done|]. apply exec_bind in H as [(m & [=] & _)|(b & t4 & t5 & -> & Hp & H)].
  destruct b.
  { by destruct H as (? & ? & -> & ? & ? & -> & _ & [=]). }
  apply InferencePoolPodsReady_false in Hp as [[d' Hd]|(r & Hin & Hr)]; [|..|done].
  - left. exists d'. set_solver.
  - right. exists r. split; [set_solver|done].
Qed.

(** ** Causes *)

(** The answer to the lookup of the resource of a pool's target. *)
Definition mapping_event (p : v1.InferencePool) (gv : GroupVersion) (r : res GroupVersionResource) : evt :=
  Ev (ORESTMapping (MkGK (gv_Group gv) (annotation p ObjectkindKey)) (gv_Version gv)) r.

(** A pool that does not name a target the API knows. *)
Inductive untargeted (p : v1.InferencePool) (tr : list evt) : Prop :=
| U_unannotated : VerifyPoolObjectAnnotations p = false -> untargeted p tr
| U_bad_version e : ParseGroupVersion (annotation p ObjectApiVersionKey) = Err e -> untargeted p tr
| U_unmapped gv e :
    ParseGroupVersion (annotation p ObjectApiVersionKey) = Ok gv ->
    mapping_event p gv (Err e) ∈ tr -> untargeted p tr.

Lemma resource_of_failed p t tr e : exec (resource_of p) tr (Done (Err e)) -> untargeted p (t ++ tr).
Proof.
  unfold resource_of, GetResourceForKind. destruct (ParseGroupVersion _) as [gv|e'] eqn:Hp; intros Hg.
  - destruct Hg as ([gvr|e'] & t1 & -> & Hg); cbn in Hg; destruct Hg as [-> Hg]; [done|].
    eapply U_unmapped; [exact Hp|]. apply elem_of_app. right. by left.
  - by eapply U_bad_version.
Qed.

(** What can keep the target of a pool from being served. *)
Inductive unserved (p : v1.InferencePool) (tr : list evt) : Prop :=
| U_untargeted : untargeted p tr -> unserved p tr
| U_not_scaled gvr s :
    get_event p gvr (Ok s) ∈ tr ->
    update_failed tr gvr (v1.Namespace p) (annotation p ObjectNameKey) (set_Replicas 1 s) -> unserved p tr.

Lemma InferencePoolReady_false p t tr : exec (InferencePoolReady p) tr (Done false) -> unserved p (t ++ tr).
Proof.
  intros H%InferencePoolReady_exec.
  inversion H as [Hv|t0 e Hv Hg| | | |t0 gvr s t1 t2 r Hv Hg Hc Hs]; subst; [by do 2 constructor| |].
  - constructor. by eapply resource_of_failed.
  - eapply U_not_scaled; [apply elem_of_app; right; apply elem_of_app; right; by left|].
    apply scaleInferencePool_false in Hs; [|done]. apply update_failed_app, update_failed_app.
    by apply (update_failed_app (_ :: t1)).
Qed.

Definition pool_event (p : option v1.InferencePool) : evt := Ev OPoolRead p.

Inductive refusal_cause (tr : list evt) : error -> Prop :=
| RC_not_synced : pool_event None ∈ tr -> refusal_cause tr EPoolNotSynced
| RC_unserved p : pool_event (Some p) ∈ tr -> unserved p tr -> refusal_cause tr serviceUnavailable.

Lemma PoolGet_not_synced tr : exec PoolGet tr (Done (None, Some EPoolNotSynced)) -> pool_event None ∈ tr.
Proof.
  cbn. intros H. destruct H as ([] & ? & -> & [] & ? & -> & p & ? & -> & [] & ? & -> & H).
  destruct p; cbn in H; split_hyps. unfold pool_event. set_solver.
Qed.

Lemma MayActivate_refused tr e : exec MayActivate tr (Done (Some e)) -> refusal_cause tr e.
Proof.
  intros H%MayActivate_exec. inversion H as [t Hg| | | |t p g t' Hg Hr| |]; subst.
  - constructor. by apply PoolGet_not_synced.
  - apply PoolGet_outcome in Hg as [[=]|(q & [= <-] & Hin)].
    apply (RC_unserved _ p); [unfold pool_event; set_solver|]. rewrite app_assoc. by apply InferencePoolReady_false.
Qed.

(** C4.  Every refusal has a cause.  A request that [MayActivate] refuses
    with [errPoolNotSynced] found no pool in the datastore.  One that it
    refuses with ServiceUnavailable read a pool that lacks a target
    annotation, or whose API version does not parse, or whose kind the API
    does not know; or it fetched the target's scale and the update of that
    scale to one replica was rejected; or the update was accepted and, after
    it, the API failed to show the target with one ready replica or the
    polling context ended.  A failed read of the scale is never a cause. *)
Theorem every_refusal_has_a_cause tr e :
  exec MayActivate tr (Done (Some e)) -> refusal_cause tr e.
Proof. apply MayActivate_refused. Qed.

End Refusals.

(** ** A concrete refusal: the replica never becomes ready *)

Definition never_ready_env : forall o, ans o :=
  demo_env (Some demo_pool) false (Ok (demo_scale 0)) (Ok (demo_object 0)).

Lemma every_refusal_has_a_cause_witness :
  let tr := fst (run_with never_ready_env demo_MayActivate) in
  exec demo_MayActivate tr (Done (Some (@serviceUnavailable demo_errutil))) /\
  @refusal_cause demo_k8s demo_errutil tr (@serviceUnavailable demo_errutil).
Proof.
  intros tr.
  assert (H : exec demo_MayActivate tr (Done (Some (@serviceUnavailable demo_errutil)))).
  { pose proof (run_with_exec never_ready_env demo_MayActivate) as H.
    replace (snd (run_with never_ready_env demo_MayActivate)) with (Done (Some (@serviceUnavailable demo_errutil))) in H
      by (vm_compute; reflexivity). exact H. }
  split; [exact H|].
  exact (@every_refusal_has_a_cause demo_k8s demo_errutil ref_wait ref_wait_laws ref_wait_persists tr _ H).
Defined.
