(* ===== verification/Deactivator.v ===== *)
(** * pkg/activator/requestcontrol/deactivator.go

    [MonitorInferencePoolIdleness] waits for the ticker of the datastore and
    scales the target to zero at each tick.  The loop is unrolled [n] times;
    the theorems hold for every [n], that is for every finite run. *)

From S2P Require Import Prelude GoTime Prog Effects Datastore RequestControl Instances Machine.
#[local] Open Scope go_scope.

Section Deactivator.
Context {D : Datastore_iface} `{K8s : Kubernetes}.

(** One round of the [for { select ... }]: [Some] leaves the function,
    [None] goes round again ([continue] included). *)
Definition monitor_round : go (option unit) :=
  sel <- eff OSelectTick ;;
  match sel with
  | SelCtxDone => Ret (Some tt)
  | SelTick =>
      r <- ds_PoolGet ;;
      match snd r with
      | Some err =>
          (* the log call reads pool.Name and pool.Namespace *)
          pool <- deref (fst r) ;; Ret None
      | None =>
          pool <- deref (fst r) ;;
          if negb (VerifyPoolObjectAnnotations pool) then Ret None else
          gvr <- GetResourceForKind (annotation pool ObjectApiVersionKey) (annotation pool ObjectkindKey) ;;
          match gvr with
          | Err _ => Ret None
          | Ok gvr =>
              let gr := GroupResource_of gvr in
              scaleObject <- eff (OScaleGet (v1.Namespace pool) gr (annotation pool ObjectNameKey)) ;;
              match scaleObject with
              | Err _ => Ret None
              | Ok scaleObject =>
                  updated <- eff (OScaleUpdate (v1.Namespace pool) gr (set_Replicas 0 scaleObject)) ;;
                  match updated with
                  | Err _ => Ret None
                  | Ok _ => Ret None
                  end
              end
          end
      end
  end.

Definition MonitorInferencePoolIdleness (n : nat) : go (option unit) :=
  ds_ResetTicker DefaultScaleDownDelay ;;
  defer ds_StopTicker (
    ds_GetTicker ;;
    for_loop n monitor_round).

End Deactivator.

(** ** The scale-down protocol *)

Module Protocol.

(** Between ticks, after a tick, after the scale object was fetched, after
    the context ended, after the ticker was stopped. *)
Inductive phase :=
| Waiting
| Ticked
| Fetched (ns : string) (gr : GroupResource) (s : Scale)
| Cancelled
| Stopped.

Definition delta (p : phase) (e : evt) : option phase :=
  match e with
  | Ev OSelectTick s =>
      match p, s with
      | (Cancelled | Stopped), _ => None
      | _, SelTick => Some Ticked
      | _, SelCtxDone => Some Cancelled
      end
  | Ev (OScaleGet ns gr _) r =>
      match p, r with
      | Ticked, Ok s => Some (Fetched ns gr s)
      | Ticked, Err _ => Some Waiting
      | _, _ => None
      end
  | Ev (OScaleUpdate ns gr s) _ =>
      match p with
      | Fetched ns' gr' s' =>
          if decide (ns = ns' /\ gr = gr' /\ s = set_Replicas 0 s') then Some Waiting else None
      | _ => None
      end
  | Ev OTickerStop _ => match p with Stopped => None | _ => Some Stopped end
  | _ => Some p
  end.

Definition in_loop (p : phase) : Prop :=
  match p with Waiting | Ticked => True | _ => False end.

Section Proof.
Context {D : Datastore_iface} {DO : DatastoreOps} `{K8s : Kubernetes}.

Lemma monitor_round_mon p :
  in_loop p ->
  mon delta p monitor_round (fun p' r =>
    match r with
    | Done None => in_loop p'
    | Done (Some _) => p' = Cancelled
    | Crash _ => p' <> Stopped
    end).
Proof.
  intros Hp. cbn. destruct p; try done;
  (intros []; cbn; [done|]);
  (apply mon_bind; eapply mon_uses; [apply ds_PoolGet_uses|by intros []|];
   intros [[p [e|]]|m]; cbn [mthen fst snd]; [by destruct p| |done];
   destruct p as [pool|]; [|done]; cbn [deref bind];
   destruct (VerifyPoolObjectAnnotations pool); [|done]; cbn [negb];
   unfold GetResourceForKind; destruct (ParseGroupVersion _); [|done]; cbn;
   intros [gvr|e]; [|done]; cbn; intros [s|e]; [|done]; cbn; rewrite decide_True by done;
   by intros []).
Qed.

(** Stopping the ticker, whatever the phase. *)
Lemma StopTicker_mon p : p <> Stopped ->
  mon delta p ds_StopTicker (fun p' r => p' = Stopped /\ r = Done tt).
Proof.
  intros Hp. eapply (mon_simulation stop_delta delta (fun b p' => p' = if b then Stopped else p)); [..|apply ds_StopTicker_stops].
  - intros b p' [o x] b' -> Hd. destruct o; try done; destruct b; simplify_eq/=; eauto.
    destruct p; eauto. done.
  - by intros b p' r -> [-> ->].
  - done.
Qed.

Lemma Monitor_mon n : mon delta Waiting (MonitorInferencePoolIdleness n) (fun p' r => p' = Stopped).
Proof.
  apply mon_bind.
  eapply mon_uses_returns; [apply ds_ResetTicker_uses|by apply ds_ResetTicker_returns|by intros []|].
  assert (Hstop : forall p (r : outcome (option unit)), p <> Stopped ->
    mon delta p ds_StopTicker (mthen delta (fun _ => of_outcome r) (fun p' _ => p' = Stopped))).
  { intros p r Hp. eapply mon_mono; [|by apply StopTicker_mon]. intros p' ? [-> ->]. by destruct r. }
  intros []. apply mon_defer, mon_bind. eapply mon_uses; [apply ds_GetTicker_uses|by intros []|].
  intros [[]|m]; [|by apply Hstop].
  eapply (mon_for_loop delta monitor_round in_loop); [| |done].
  - intros s Hs. eapply mon_mono; [|by apply monitor_round_mon].
    intros p [[[]|]|m] H; [subst; by apply Hstop|done|by apply Hstop].
  - intros s Hs. apply Hstop. by destruct s.
Qed.

(** C17.  The scale-down protocol.  In every run of the deactivator, over any
    datastore that keeps the promise of its interface, a scale object is fetched only after a tick, at most one per tick, and updated
    only right after it was fetched: the update is the fetched object with
    zero replicas, under the namespace and resource it was fetched from.
    Nothing is fetched or updated once the context has ended, and the ticker
    is stopped on every way out, a panic included. *)
Theorem Monitor_protocol n tr r :
  exec (MonitorInferencePoolIdleness n) tr r -> accepts delta Waiting tr = Some Stopped.
Proof.
  intros He. destruct (mon_exec _ _ _ _ _ _ (Monitor_mon n) He) as (p & Ha & ->). done.
Qed.

End Proof.

Definition demo_Monitor (n : nat) : go (option unit) := @MonitorInferencePoolIdleness Register.datastore_impl demo_k8s n.

Definition tick_env : forall o, ans o :=
  demo_env (Some demo_pool) false (Ok (demo_scale 1)) (Ok (demo_object 1)).

Lemma Monitor_protocol_witness :
  accepts delta Waiting (fst (run_with tick_env (demo_Monitor 3))) = Some Stopped /\
  existsb (fun e => match ev_op e with OScaleUpdate _ _ s => Spec_Replicas s =? 0 | _ => false end)
    (fst (run_with tick_env (demo_Monitor 3))) = true.
Proof.
  split.
  - apply (@Monitor_protocol Register.datastore_impl Register.datastore_impl_ops demo_k8s 3 _ (snd (run_with tick_env (demo_Monitor 3)))).
    apply run_with_exec.
  - vm_compute. reflexivity.
Defined.

End Protocol.

(** ** A tick without a pool *)

Section Unsynced.
Context `{K8s : Kubernetes}.

(** The schedule: the deactivator starts, the ticker's period passes, the
    deactivator receives the tick and reads the pool. *)
Definition startup_schedule : list sched :=
  let g := Go some_answer 0%nat in
  replicate 5 g ++ [Elapse DefaultScaleDownDelay] ++ replicate 10 g.

(** If no pool has been synced when the first tick comes, two minutes
    after the start, the deactivator dereferences the nil pool in a log
    call and takes the whole process down. *)
Theorem unsynced_tick_crashes n :
  reachable (Running (init_world 0) [void (MonitorInferencePoolIdleness (S n))])
    (Crashed "invalid memory address or nil pointer dereference").
Proof. apply (run_sched_reachable startup_schedule). vm_compute. reflexivity. Qed.

End Unsynced.
