(* ===== verification/DueTicks.v ===== *)
(** * What the deactivator does at a tick

    The complement of the scale-down protocol of file Deactivator, which says
    what may happen at a tick: here is what does happen.  [tick_updates] is
    the reference: the updates that one tick sends, computed from the pool of
    the datastore and the answers of the API.  A round of the monitor that
    starts with a tick due ends, sends exactly those and leaves everything but
    the ticker as it was. *)

From S2P Require Import Prelude GoTime Prog Effects Machine Datastore RequestControl Instances Deactivator.
#[local] Open Scope go_scope.

Section DueTicks.
Context `{K8s : Kubernetes}.

(** The calls to the API, which the environment [api] answers. *)
Definition is_api (o : op) : bool :=
  match o with ORESTMapping _ _ | OScaleGet _ _ _ | OScaleUpdate _ _ _ => true | _ => false end.

(** Goroutine [i] runs [p] from [w] without interference, the API answering
    as [api] does. *)
Definition runs_under {A} (api : forall o, ans o) (i : tid) (p : go A) (w : world)
    (tr : list evt) (r : outcome A) (w' : world) : Prop :=
  exec p tr r /\ replay i w tr = Some w' /\
  Forall (fun e => is_api (ev_op e) = true -> ev_ans e = api (ev_op e)) tr.

(** The updates of a trace. *)
Definition update (e : evt) : option (string * GroupResource * Scale) :=
  match ev_op e with OScaleUpdate ns gr s => Some (ns, gr, s) | _ => None end.
Definition updates (tr : list evt) : list (string * GroupResource * Scale) := omap update tr.

Definition tick_updates (api : forall o, ans o) (p : v1.InferencePool) : list (string * GroupResource * Scale) :=
  if negb (VerifyPoolObjectAnnotations p) then [] else
  match ParseGroupVersion (annotation p ObjectApiVersionKey) with
  | Err _ => []
  | Ok gv =>
      match api (ORESTMapping (MkGK (gv_Group gv) (annotation p ObjectkindKey)) (gv_Version gv)) : res GroupVersionResource with
      | Err _ => []
      | Ok gvr =>
          let gr := GroupResource_of gvr in
          match api (OScaleGet (v1.Namespace p) gr (annotation p ObjectNameKey)) : res Scale with
          | Err _ => []
          | Ok s => [(v1.Namespace p, gr, set_Replicas 0 s)]
          end
      end
  end.

(** The operations of a round up to the pool. *)
Definition tick_prefix (p : v1.InferencePool) : list evt :=
  [Ev OSelectTick SelTick; Ev OPoolRLock tt; Ev OPoolRLock tt; Ev OPoolRead (Some p); Ev OPoolRUnlock tt;
   Ev OPoolRead (Some p); Ev OPoolRUnlock tt].

(** The rest of a round, from the pool on. *)
Definition after_pool (p : v1.InferencePool) : go (option unit) :=
  if negb (VerifyPoolObjectAnnotations p) then Ret None else
  gvr <- GetResourceForKind (annotation p ObjectApiVersionKey) (annotation p ObjectkindKey) ;;
  match gvr with
  | Err _ => Ret None
  | Ok gvr =>
      let gr := GroupResource_of gvr in
      scaleObject <- eff (OScaleGet (v1.Namespace p) gr (annotation p ObjectNameKey)) ;;
      match scaleObject with
      | Err _ => Ret None
      | Ok scaleObject =>
          updated <- eff (OScaleUpdate (v1.Namespace p) gr (set_Replicas 0 scaleObject)) ;;
          match updated with Err _ => Ret None | Ok _ => Ret None end
      end
  end.

Lemma monitor_round_due i w p tk tr r w' :
  rw_writer (poolMu (ds w)) = NoWriter -> pool (ds w) = Some p -> ctx_done w = false ->
  ticker_recv (now w) (ds_ticker (ds w)) = Some tk ->
  exec monitor_round tr r /\ replay i w tr = Some w' <->
  exists t, tr = tick_prefix p ++ t /\ exec (after_pool p) t r /\ replay i (set_ticker w tk) t = Some w'.
Proof.
  destruct w as [t [[n wr] q tk0] a cl cd le]. simpl. intros -> -> -> Ht. split.
  - intros [H Hr]. cbn -[GetResourceForKind] in H. destruct H as ([] & t1 & -> & H); [done|].
    cbn -[GetResourceForKind] in H, Hr. rewrite Ht in Hr. cbn in Hr.
    destruct H as ([] & ? & -> & [] & ? & -> & q1 & ? & -> & [] & ? & -> & H).
    cbn in Hr. autorewrite with gorw in Hr. cbn in Hr. autorewrite with gorw in Hr. cbn in Hr.
    case_decide; [|done]. subst q1. cbn in Hr. autorewrite with gorw in Hr. cbn in Hr.
    cbn -[GetResourceForKind] in H. destruct H as (q2 & ? & -> & [] & t2 & -> & H).
    cbn in Hr. case_decide; [|done]. subst q2. cbn in Hr. autorewrite with gorw in Hr.
    exists t2. auto.
  - intros (t2 & -> & He & Hr). split.
    + cbn -[GetResourceForKind]. do 2 eexists. split; [done|]. cbn -[GetResourceForKind].
      do 2 (exists tt; eexists; split; [done|]). exists (Some p). eexists. split; [done|].
      exists tt. eexists. split; [done|]. cbn -[GetResourceForKind]. exists (Some p). eexists. split; [done|].
      exists tt. eexists. split; [done|]. exact He.
    + cbn. rewrite Ht. cbn. autorewrite with gorw. cbn. autorewrite with gorw. cbn.
      rewrite decide_True by done. cbn. autorewrite with gorw. cbn. rewrite decide_True by done. cbn.
      autorewrite with gorw. exact Hr.
Qed.

(** The calls to the API change nothing the goroutines share. *)
Lemma after_pool_runs api i p w tr r w' :
  runs_under api i (after_pool p) w tr r w' ->
  r = Done None /\ w' = w /\ updates tr = tick_updates api p.
Proof.
  intros (He & Hr & Ha). unfold after_pool, tick_updates in *.
  destruct (VerifyPoolObjectAnnotations p); cbn [negb] in *; [|by destruct He as [-> ->]; simplify_eq/=].
  unfold GetResourceForKind in He. destruct (ParseGroupVersion _) as [gv|e]; [|by destruct He as [-> ->]; simplify_eq/=].
  destruct He as (m & t1 & -> & He). inversion Ha as [|? ? Hm Ha1]; subst. cbn in Hm. rewrite <- Hm by done.
  destruct m as [gvr|e]; [|by destruct He as [-> ->]; simplify_eq/=].
  destruct He as (g & t2 & -> & He). inversion Ha1 as [|? ? Hg Ha2]; subst. cbn in Hg. rewrite <- Hg by done.
  destruct g as [s|e]; [|by destruct He as [-> ->]; simplify_eq/=].
  destruct He as (u & t3 & -> & He). destruct u; by destruct He as [-> ->]; simplify_eq/=.
Qed.

Lemma after_pool_can_run api i p w :
  exists tr, runs_under api i (after_pool p) w tr (Done None) w.
Proof.
  exists (fst (run_with api (after_pool p))).
  pose proof (run_with_exec api (after_pool p)) as He. revert He. unfold runs_under, after_pool.
  destruct (VerifyPoolObjectAnnotations p); cbn [negb]; [|done].
  unfold GetResourceForKind. destruct (ParseGroupVersion _) as [gv|e]; [|done]. cbn.
  destruct (api (ORESTMapping _ _)) as [gvr|e] eqn:Hm; cbn; [|intros He; split; [exact He|]; by repeat constructor].
  destruct (api (OScaleGet _ _ _)) as [s|e] eqn:Hg; cbn; [|intros He; split; [exact He|]; by repeat constructor].
  destruct (api (OScaleUpdate _ _ _)) as [s'|e] eqn:Hu; cbn;
    (intros He; split; [exact He|]; by repeat constructor).
Qed.

(** C18.  A tick that is due is handled.  When a tick is due, the pool has
    been synced, no writer is about the datastore's lock and the context has
    not ended, a round of the deactivator, run by itself, can complete
    whatever the API answers; and each time it does, it goes round again
    without a panic, has sent exactly the updates of the reference
    [tick_updates] (the target's scale as just read, with zero replicas, when
    the pool names a target that the API resolves and shows; none
    otherwise), and has changed nothing but the ticker, which it has received
    from. *)
Theorem due_tick_is_handled api i w p tk :
  rw_writer (poolMu (ds w)) = NoWriter -> pool (ds w) = Some p -> ctx_done w = false ->
  ticker_recv (now w) (ds_ticker (ds w)) = Some tk ->
  (exists tr, runs_under api i monitor_round w tr (Done None) (set_ticker w tk)) /\
  (forall tr r w', runs_under api i monitor_round w tr r w' ->
     r = Done None /\ w' = set_ticker w tk /\ updates tr = tick_updates api p).
Proof.
  intros Hw Hp Hc Ht. split.
  - destruct (after_pool_can_run api i p (set_ticker w tk)) as (t & He & Hr & Ha).
    exists (tick_prefix p ++ t). unfold runs_under. apply and_assoc. split; [eapply monitor_round_due; eauto|].
    apply Forall_app. split; [by repeat constructor|done].
  - intros tr r w' (He & Hr & Ha).
    destruct (proj1 (monitor_round_due i w p tk tr r w' Hw Hp Hc Ht) (conj He Hr)) as (t & -> & He' & Hr').
    apply Forall_app in Ha as [_ Ha]. by apply (after_pool_runs api i p (set_ticker w tk) t r w').
Qed.

End DueTicks.

(** ** A concrete tick *)

(** A minute after the start, with the pool of the examples. *)
Definition ticked_world : world :=
  set_now (60 * Second) (set_pool (init_world 0) (Some demo_pool)).

Definition tick_api : forall o, ans o := Protocol.tick_env.

(** The deployment is scaled to zero. *)
Lemma due_tick_is_handled_witness :
  exists tk tr, ticker_recv (now ticked_world) (ds_ticker (ds ticked_world)) = Some tk /\
    @runs_under (option unit) tick_api 0%nat (@monitor_round Register.datastore_impl demo_k8s) ticked_world tr (Done None)
      (set_ticker ticked_world tk) /\
    updates tr = [("llm-d-sim"%string, MkGR "apps" "deployments", demo_scale 0)].
Proof.
  destruct (@due_tick_is_handled demo_k8s tick_api 0%nat ticked_world demo_pool
    (Ticker (Some (60 * Second)) 0 (120 * Second)) eq_refl eq_refl eq_refl eq_refl) as [[tr H] Hall].
  exists (Ticker (Some (60 * Second)) 0 (120 * Second)), tr. split; [reflexivity|]. split; [exact H|].
  destruct (Hall tr _ _ H) as (_ & _ & Hu). rewrite Hu. vm_compute. reflexivity.
Defined.
