(* ===== verification/Handlers.v ===== *)
(** * pkg/activator/handlers/server.go

    The Envoy external-processing stream.  [Process] is verified against the
    interface [handlers.Activator] (class [Activator_iface], with the one
    promise it needs: deciding about a request does not use the stream);
    requestcontrol's activator is an instance, for which the responses are
    pinned down further. *)

From S2P Require Import Prelude GoTime Prog Effects Datastore RequestControl Instances Activator Admission.
#[local] Open Scope go_scope.

(** [handlers.Activator] *)
Class Activator_iface := { activator_MayActivate : go (option error) }.

(** [handlers.Datastore]: what the stream may ask of the datastore. *)
Record PoolGetter := { getter_PoolGet : go (option v1.InferencePool * option error) }.

(** [handlers.StreamingServer] *)
Record StreamingServer := MkStreamingServer { ss_datastore : PoolGetter; ss_activator : Activator_iface }.

Definition NewStreamingServer (datastore : PoolGetter) (activator : Activator_iface) : StreamingServer :=
  MkStreamingServer datastore activator.

(** The operations on the stream. *)
Definition stream_op (o : op) : bool :=
  match o with OStreamCtxErr | ORecv | OSend _ => true | _ => false end.

Class ActivatorLaws `{Activator_iface} : Prop := {
  MayActivate_off_stream : uses (fun o => negb (stream_op o)) activator_MayActivate
}.

Section Handlers.
Context `{EU : ErrUtil} `{GS : GrpcStatus}.

Definition continueHeadersResponse : ProcessingResponse := PR_RequestHeaders_CONTINUE.

Definition buildErrResponse (err : error) : res ProcessingResponse :=
  let code := CanonicalCode err in
  let resp :=
    if String.eqb code errutil_InferencePoolResourceExhausted then Some StatusCode_TooManyRequests
    else if String.eqb code errutil_Internal then Some StatusCode_InternalServerError
    else if String.eqb code errutil_ServiceUnavailable then Some StatusCode_ServiceUnavailable
    else if String.eqb code errutil_BadRequest then Some StatusCode_BadRequest
    else if String.eqb code errutil_BadConfiguration then Some StatusCode_NotFound
    else None in
  match resp with
  | None => Err (EStatus (status_Code (Some err)) ("failed to handle request: " +:+ Error err))
  | Some c =>
      if String.eqb (Error err) "" then Ok (PR_ImmediateResponse c "")
      else Ok (PR_ImmediateResponse c (Error err))
  end.

(** [status.Errorf(codes.Unknown, "failed to send response back to Envoy: %v", err)] *)
Definition sendFailed (err : error) : error :=
  EStatus Unknown ("failed to send response back to Envoy: " +:+ Error err).

(** [status.Errorf(codes.Unknown, "cannot receive stream request: %v", err)]:
    [err] is the variable declared before the loop, which nothing assigns. *)
Definition cannotReceive : error := EStatus Unknown "cannot receive stream request: <nil>".

Context (server : StreamingServer).
#[local] Instance server_activator : Activator_iface := ss_activator server.

(** One round of the loop: [Some e] returns [e] from [Process]. *)
Definition process_round : go (option (option error)) :=
  ctxErr <- eff OStreamCtxErr ;;
  match ctxErr with
  | Some e => Ret (Some (Some e))
  | None =>
      received <- eff ORecv ;;
      let recvErr := match received with Err e => Some e | Ok _ => None end in
      if bool_decide (recvErr = Some EEOF) || bool_decide (status_Code recvErr = Canceled)
      then Ret (Some None)
      else
        match received with
        | Err _ => Ret (Some (Some cannotReceive))
        | Ok ProcessingRequest_RequestHeaders =>
            refused <- activator_MayActivate ;;
            match refused with
            | Some err =>
                match buildErrResponse err with
                | Err e => Ret (Some (Some e))
                | Ok resp =>
                    sendErr <- eff (OSend resp) ;;
                    match sendErr with
                    | Some e => Ret (Some (Some (sendFailed e)))
                    | None => Ret (Some None)
                    end
                end
            | None =>
                sendErr <- eff (OSend continueHeadersResponse) ;;
                match sendErr with
                | Some e => Ret (Some (Some (sendFailed e)))
                | None => Ret None
                end
            end
        | Ok _ => Ret None
        end
  end.

(** [Process], for at most [n] rounds: [Some e] is a return of [e], [None]
    that the stream outlived [n] rounds. *)
Definition Process (n : nat) : go (option (option error)) := for_loop n process_round.

(** ** The error table *)

Definition http_table : list (string * StatusCode) :=
  [(errutil_InferencePoolResourceExhausted, StatusCode_TooManyRequests);
   (errutil_Internal, StatusCode_InternalServerError);
   (errutil_ServiceUnavailable, StatusCode_ServiceUnavailable);
   (errutil_BadRequest, StatusCode_BadRequest);
   (errutil_BadConfiguration, StatusCode_NotFound)].

Lemma buildErrResponse_assoc err :
  buildErrResponse err =
  match assoc (CanonicalCode err) http_table with
  | Some c => Ok (PR_ImmediateResponse c (Error err))
  | None => Err (EStatus (status_Code (Some err)) ("failed to handle request: " +:+ Error err))
  end.
Proof.
  unfold buildErrResponse, http_table. cbn [assoc].
  assert (Hb : forall c, (if String.eqb (Error err) "" then Ok (PR_ImmediateResponse c "")
                          else Ok (PR_ImmediateResponse c (Error err))) = Ok (PR_ImmediateResponse c (Error err))).
  { intros c. by destruct (String.eqb_spec (Error err) "") as [->|]. }
  do 5 (match goal with |- context [String.eqb (CanonicalCode err) ?c] =>
          destruct (String.eqb (CanonicalCode err) c); [apply Hb|] end). done.
Qed.

(** C31.  The error table.  Exactly the errors that carry one of the five
    known codes are answered with an immediate HTTP response, the one the
    table gives for the code (429, 500, 503, 400 and 404), with the error's
    text as its body; every other error is turned into a gRPC status error
    of the code [status.Code] gives it. *)
Theorem buildErrResponse_table {EL : ErrUtilLaws} err :
  (forall resp, buildErrResponse err = Ok resp <->
     exists c m st, err = EUtil c m /\ (c, st) ∈ http_table /\
       resp = PR_ImmediateResponse st (Error err)) /\
  (forall e, buildErrResponse err = Err e ->
     e = EStatus (status_Code (Some err)) ("failed to handle request: " +:+ Error err)) /\
  map (fun p => http_status (snd p)) http_table = [429; 500; 503; 400; 404].
Proof.
  rewrite buildErrResponse_assoc. split; [|split; [by destruct (assoc _ _); intros ? [=]|done]].
  intros resp. split.
  - intros H. destruct (assoc (CanonicalCode err) http_table) as [st|] eqn:Ha; [|done].
    assert (Hd : (exists c m, err = EUtil c m) \/ forall c m, err <> EUtil c m)
      by (destruct err; naive_solver).
    destruct Hd as [(c & m & ->)|Hn].
    + rewrite CanonicalCode_EUtil in Ha. apply assoc_Some_elem in Ha. simplify_eq. eauto 10.
    + exfalso. assert (Hc : CanonicalCode err ∉ errutil_codes) by (by apply CanonicalCode_other).
      apply assoc_Some_elem in Ha. apply Hc. apply (list_elem_of_fmap_2 fst) in Ha. done.
  - intros (c & m & st & -> & Hin & ->). rewrite CanonicalCode_EUtil.
    by rewrite (elem_assoc_Some c http_table st errutil_codes_NoDup Hin).
Qed.

(** ** The stream protocol *)

(** Ready for the next message; a request's headers received and not yet
    answered; the stream finished with. *)
Inductive stream_state := Ready | Asked | Ended.

Definition stream_delta (s : stream_state) (e : evt) : option stream_state :=
  match e with
  | Ev OStreamCtxErr x =>
      match s, x with Ready, None => Some Ready | Ready, Some _ => Some Ended | _, _ => None end
  | Ev ORecv x =>
      match s, x with
      | Ready, Ok ProcessingRequest_RequestHeaders => Some Asked
      | Ready, Ok _ => Some Ready
      | Ready, Err _ => Some Ended
      | _, _ => None
      end
  | Ev (OSend PR_RequestHeaders_CONTINUE) x =>
      match s, x with Asked, None => Some Ready | Asked, Some _ => Some Ended | _, _ => None end
  | Ev (OSend (PR_ImmediateResponse _ _)) _ =>
      match s with Asked => Some Ended | _ => None end
  | _ => Some s
  end.

(** How [Process] may leave the stream: between messages if it ran out of
    rounds; finished if it returned; and with an unanswered request only if
    it returns an error that has no HTTP response, or panics. *)
Definition stream_post (s : stream_state) (r : outcome (option (option error))) : Prop :=
  match r with
  | Done None => s = Ready
  | Done (Some None) => s = Ended
  | Done (Some (Some e)) =>
      s = Ended \/ s = Asked /\ exists err, buildErrResponse err = Err e
  | Crash _ => s = Asked
  end.

Lemma process_round_mon {AL : ActivatorLaws} {SL : GrpcStatusLaws} :
  mon stream_delta Ready process_round stream_post.
Proof.
  cbn -[activator_MayActivate bool_decide]. intros [e|]; [by left|].
  intros [req|e]; cbn -[activator_MayActivate bool_decide]; cycle 1.
  { destruct (_ || _); [done|by left]. }
  rewrite status_Code_nil. cbn -[activator_MayActivate].
  destruct req; try done. apply mon_bind.
  eapply mon_uses; [apply MayActivate_off_stream|by intros [] ? ?|].
  intros [[err|]|m]; cbn -[buildErrResponse]; [|by intros [e|]; [left|]|done].
  destruct (buildErrResponse err) as [resp|e] eqn:Hb; [|right; eauto].
  rewrite buildErrResponse_assoc in Hb. destruct (assoc _ _); simplify_eq.
  cbn. intros [e|]; [by left|done].
Qed.

(** C12.  The stream protocol.  In every run of [Process], for any number of
    rounds and whatever Envoy sends: a response is sent only for request
    headers that have just been received, at most one per request; an
    admitted request is answered with CONTINUE and the stream goes on; an
    immediate (error) response is the last thing sent; no other message is
    answered; nothing is received once the stream's context is done, a
    receive failed or an error response was sent. *)
Theorem Process_stream_protocol {AL : ActivatorLaws} {SL : GrpcStatusLaws} n tr r :
  exec (Process n) tr r -> exists s, accepts stream_delta Ready tr = Some s /\ stream_post s r.
Proof.
  intros He. eapply mon_exec; [|exact He].
  eapply (mon_for_loop stream_delta process_round (fun s => s = Ready)); [|by intros ? ->|done].
  intros ? ->. eapply mon_mono; [|apply process_round_mon]. intros s [[[e|]|]|m]; done.
Qed.

(** ** Termination *)

Definition is_recv (e : evt) : bool := match ev_op e with ORecv => true | _ => false end.

Definition count_recv (n : nat) (e : evt) : option nat := Some (if is_recv e then S n else n).

Lemma count_recv_accepts tr : forall n n', accepts count_recv n tr = Some n' ->
  n' = (n + length (filter (fun e => is_recv e = true) tr))%nat.
Proof.
  induction tr as [|e tr IH]; simpl; intros n n' H; [simplify_eq; lia|].
  apply IH in H. rewrite filter_cons. destruct (is_recv e); case_decide; simpl in *; try done; lia.
Qed.

Lemma process_round_recv {AL : ActivatorLaws} n :
  mon count_recv n process_round (fun n' r => r = Done None -> n' = S n).
Proof.
  cbn -[activator_MayActivate bool_decide buildErrResponse]. intros [e|]; [done|].
  intros [req|e]; cbn -[activator_MayActivate bool_decide buildErrResponse]; cycle 1.
  { by destruct (_ || _). }
  destruct (_ || _); [done|]. destruct req; try done. apply mon_bind.
  eapply mon_uses; [apply MayActivate_off_stream|by intros [] ? ?|].
  intros [[err|]|m]; cbn -[buildErrResponse]; [|by intros [e|]|done].
  destruct (buildErrResponse err); [|done]. cbn. by intros [e|].
Qed.

(** C30.  Termination.  [Process] goes round again only after receiving a
    message: with more rounds than messages it has returned or panicked, so
    it does end once the stream does. *)
Theorem Process_terminates {AL : ActivatorLaws} n tr r :
  exec (Process n) tr r ->
  (length (filter (fun e => is_recv e = true) tr) < n)%nat -> r <> Done None.
Proof.
  intros He Hlt ->.
  assert (Hm : forall n k, mon count_recv k (Process n) (fun k' r => r = Done None -> k' = (k + n)%nat)).
  { intros j. induction j as [|j IH]; intros k; unfold Process; cbn [for_loop]; [cbn; lia|].
    apply mon_bind. eapply mon_mono; [|apply process_round_recv].
    intros k' [[e|]|m] Hk; [done| |done]. cbn [mthen]. eapply mon_mono; [|apply IH].
    intros k2 r2 H2 Hr. rewrite (H2 Hr), (Hk eq_refl). lia. }
  destruct (mon_exec _ _ _ _ _ _ (Hm n 0%nat) He) as (k & Ha & Hk).
  apply count_recv_accepts in Ha. specialize (Hk eq_refl). lia.
Qed.

(** ** Receive errors *)

(** A receive error other than EOF or a cancelled stream is reported to
    Envoy with a text that does not depend on it: the message always ends in
    "<nil>", because the format argument is the wrong variable. *)
Theorem receive_error_text_is_lost e r :
  e <> EEOF -> status_Code (Some e) <> Canceled ->
  exec process_round [Ev OStreamCtxErr None; Ev ORecv (Err e)] r <->
  r = Done (Some (Some (EStatus Unknown "cannot receive stream request: <nil>"))).
Proof.
  intros He Hs.
  assert (Hb : bool_decide (Some e = Some EEOF) || bool_decide (status_Code (Some e) = Canceled) = false).
  { apply orb_false_iff. rewrite !bool_decide_eq_false. naive_solver. }
  cbn -[activator_MayActivate bool_decide buildErrResponse]. split.
  - intros ([e'|] & ? & H & H').
    { apply (f_equal (fun l => match l with Ev OStreamCtxErr x :: _ => x | _ => None end)) in H. done. }
    simplify_eq. cbn -[activator_MayActivate bool_decide buildErrResponse] in H'.
    destruct H' as ([req|e2] & t & H2 & H').
    { apply (f_equal (fun l => match l with Ev ORecv (Err _) :: _ => true | _ => false end)) in H2. done. }
    assert (e2 = e) as ->.
    { apply (f_equal (fun l => match l with Ev ORecv (Err x) :: _ => x | _ => EEOF end)) in H2. done. }
    cbn -[activator_MayActivate bool_decide buildErrResponse] in H'. rewrite Hb in H'. by destruct H' as [_ ->].
  - intros ->. exists None. eexists. split; [done|]. exists (Err e). eexists. split; [done|].
    cbn -[bool_decide]. by rewrite Hb.
Qed.

End Handlers.

(** ** With requestcontrol's activator *)

Section WithActivator.
Context `{K8s : Kubernetes} `{EU : ErrUtil} `{GS : GrpcStatus} `{Wait : WaitPkg} {WL : WaitPkgLaws}.

(** [handlers.NewStreamingServer(r.Datastore, r.Activator)]: the datastore
    and the activator of the process. *)
Definition the_server : StreamingServer :=
  NewStreamingServer {| getter_PoolGet := PoolGet |} {| activator_MayActivate := MayActivate |}.

Lemma the_server_laws : @ActivatorLaws (ss_activator the_server).
Proof. constructor. eapply uses_mono; [|apply MayActivate_uses]. ops_sub. Qed.

Lemma buildErrResponse_unavailable {EL : ErrUtilLaws} :
  buildErrResponse serviceUnavailable =
  Ok (PR_ImmediateResponse StatusCode_ServiceUnavailable (Error serviceUnavailable)).
Proof.
  rewrite buildErrResponse_assoc. unfold serviceUnavailable at 1. rewrite CanonicalCode_EUtil.
  erewrite (elem_assoc_Some _ http_table); [done|apply errutil_codes_NoDup|]. unfold http_table. set_solver.
Qed.

Lemma buildErrResponse_not_synced {EL : ErrUtilLaws} {SL : GrpcStatusLaws} :
  buildErrResponse EPoolNotSynced =
  Err (EStatus Unknown ("failed to handle request: " +:+ Error EPoolNotSynced)).
Proof.
  rewrite buildErrResponse_assoc, status_Code_not_synced.
  destruct (assoc (CanonicalCode EPoolNotSynced) http_table) as [st|] eqn:Ha; [|done].
  destruct (CanonicalCode_other EPoolNotSynced ltac:(done)).
  apply assoc_Some_elem, (list_elem_of_fmap_2 fst) in Ha. done.
Qed.

Lemma MayActivate_no_send tr r resp x : exec MayActivate tr r -> Ev (OSend resp) x ∉ tr.
Proof. intros He. by eapply uses_absent; [apply MayActivate_uses| |]. Qed.

(** What Envoy gets.  With the real activator, a request's headers are
    answered with CONTINUE or with HTTP 503, nothing else; when the pool is
    not in the datastore there is no HTTP answer: the stream is ended with
    the gRPC status Unknown. *)
Theorem envoy_responses {EL : ErrUtilLaws} {SL : GrpcStatusLaws} :
  (forall tr r resp x, exec (process_round the_server) tr r -> Ev (OSend resp) x ∈ tr ->
     resp = PR_RequestHeaders_CONTINUE \/
     resp = PR_ImmediateResponse StatusCode_ServiceUnavailable (Error serviceUnavailable)) /\
  (forall t, exec MayActivate t (Done (Some EPoolNotSynced)) ->
     exec (process_round the_server) (Ev OStreamCtxErr None :: Ev ORecv (Ok ProcessingRequest_RequestHeaders) :: t)
       (Done (Some (Some (EStatus Unknown ("failed to handle request: " +:+ Error EPoolNotSynced)))))).
Proof.
  split.
  - intros tr r resp x He Hin. cbn -[MayActivate bool_decide buildErrResponse] in He.
    destruct He as ([e|] & t1 & -> & He); [destruct He as [-> _]; set_solver|].
    destruct He as ([req|e] & t2 & -> & He); cbn -[MayActivate bool_decide buildErrResponse] in He; cycle 1.
    { destruct (_ || _); destruct He as [-> _]; set_solver. }
    destruct (_ || _); [destruct He as [-> _]; set_solver|].
    destruct req; try (destruct He as [He _]; subst t2; set_solver).
    apply exec_bind in He as [(m & -> & He)|(a & t3 & t4 & -> & Ha & He)].
    { apply (MayActivate_no_send _ _ resp x) in He. set_solver. }
    pose proof (MayActivate_no_send _ _ resp x Ha) as Hns.
    assert (Hin' : Ev (OSend resp) x ∈ t4) by set_solver. clear Hin.
    destruct a as [err|]; cycle 1.
    + destruct He as ([e|] & t5 & -> & [-> _]); left;
        apply list_elem_of_singleton in Hin'; by apply (f_equal ev_op) in Hin' as [= ->].
    + apply MayActivate_refusals in Ha as [->| ->].
      * rewrite buildErrResponse_not_synced in He. destruct He as [-> _]. set_solver.
      * rewrite buildErrResponse_unavailable in He.
        destruct He as ([e|] & t5 & -> & [-> _]); right;
        apply list_elem_of_singleton in Hin'; by apply (f_equal ev_op) in Hin' as [= ->].
  - intros t Ht. exists None. eexists. split; [done|].
    exists (Ok ProcessingRequest_RequestHeaders). eexists. split; [done|].
    cbn -[MayActivate buildErrResponse]. rewrite status_Code_nil. cbn -[MayActivate buildErrResponse].
    rewrite <- (app_nil_r t). eapply exec_bind_Done; [exact Ht|].
    cbv beta iota. by rewrite buildErrResponse_not_synced.
Qed.

End WithActivator.

(** ** Concrete streams *)

Definition demo_server : StreamingServer := @the_server demo_k8s demo_errutil ref_wait.

Lemma demo_server_laws : @ActivatorLaws (ss_activator demo_server).
Proof. apply (@the_server_laws demo_k8s demo_errutil ref_wait ref_wait_laws). Qed.

(** Envoy sends request headers for a pool at zero, over and over. *)
Definition headers_env (o : op) : ans o :=
  match o return ans o with
  | OStreamCtxErr => None
  | ORecv => Ok ProcessingRequest_RequestHeaders
  | OSend _ => None
  | o => from_zero_env o
  end.

Definition eof_env (o : op) : ans o :=
  match o return ans o with
  | OStreamCtxErr => None
  | ORecv => Err EEOF
  | o => from_zero_env o
  end.

Definition demo_Process (n : nat) := @Process demo_errutil demo_status demo_server n.

Lemma buildErrResponse_table_witness :
  exists resp, @buildErrResponse demo_errutil demo_status (EUtil "BadRequest" "no model") = Ok resp /\
    resp = PR_ImmediateResponse StatusCode_BadRequest "inference gateway: BadRequest - no model".
Proof.
  eexists. split; [|reflexivity].
  apply (@buildErrResponse_table demo_errutil demo_status demo_errutil_laws (EUtil "BadRequest" "no model")).
  do 3 eexists. split; [reflexivity|]. split; [|reflexivity].
  apply list_elem_of_In. simpl. tauto.
Defined.

Lemma Process_stream_protocol_witness :
  exists s, accepts stream_delta Ready (fst (run_with headers_env (demo_Process 2))) = Some s /\
    @stream_post demo_errutil demo_status s (snd (run_with headers_env (demo_Process 2))).
Proof.
  apply (@Process_stream_protocol demo_errutil demo_status demo_server demo_server_laws demo_status_laws 2).
  apply run_with_exec.
Defined.

Lemma Process_terminates_witness :
  snd (run_with eof_env (demo_Process 2)) <> Done None.
Proof.
  apply (@Process_terminates demo_errutil demo_status demo_server demo_server_laws 2
    (fst (run_with eof_env (demo_Process 2)))).
  - apply run_with_exec.
  - vm_compute. lia.
Defined.

Lemma receive_error_text_is_lost_witness :
  exec (@process_round demo_errutil demo_status demo_server)
    [Ev OStreamCtxErr None; Ev ORecv (Err (ENew "connection reset by peer"))]
    (Done (Some (Some (EStatus Unknown "cannot receive stream request: <nil>")))).
Proof.
  apply (@receive_error_text_is_lost demo_errutil demo_status demo_server (ENew "connection reset by peer"));
    [discriminate|discriminate|reflexivity].
Defined.

Lemma envoy_responses_witness :
  exec (@process_round demo_errutil demo_status demo_server)
    (Ev OStreamCtxErr None :: Ev ORecv (Ok ProcessingRequest_RequestHeaders) ::
     fst (run_with (demo_env None false (Err EEOF) (Err EEOF)) demo_MayActivate))
    (Done (Some (Some (EStatus Unknown
      "failed to handle request: InferencePool is not initialized in data store")))).
Proof.
  apply (proj2 (@envoy_responses demo_k8s demo_errutil demo_status ref_wait ref_wait_laws
    demo_errutil_laws demo_status_laws)).
  apply (run_with_exec (demo_env None false (Err EEOF) (Err EEOF)) demo_MayActivate).
Defined.
