(* ===== verification/Controller.v ===== *)
(** * pkg/activator/controller/inferencepool_reconciler.go

    [Reconcile] copies what the API says about the pool into the datastore.
    It refines an abstract reconciler that maps one observation to an error
    and an update of the stored pool; a sequence of reconciliations leaves
    the datastore at the last observation that could be interpreted. *)

From S2P Require Import Prelude GoTime Prog Effects Machine Datastore RequestControl Instances.
#[local] Open Scope go_scope.

(** [client.Object], as far as the reconciler makes one. *)
Inductive client_object :=
| ObjV1 (p : v1.InferencePool)
| ObjV1alpha2 (p : v1alpha2.InferencePool).

Inductive object_kind := KindV1 | KindV1alpha2.

#[export] Instance object_kind_eq_dec : EqDecision object_kind.
Proof. solve_decision. Defined.

(** [obj.GetDeletionTimestamp().IsZero()] *)
Definition deletionTimestampIsZero (o : client_object) : bool :=
  match o with
  | ObjV1 p => v1.DeletionTimestampIsZero p
  | ObjV1alpha2 p => v1alpha2.DeletionTimestampIsZero p
  end.

(** [InferencePoolReconciler]; its reader is the Kubernetes API. *)
Record InferencePoolReconciler := MkReconciler { rec_Datastore : Datastore_iface; PoolGKNN : GKNN }.

(** The reconciler of the process writes to its one datastore. *)
Definition the_reconciler (gknn : GKNN) : InferencePoolReconciler := MkReconciler Register.datastore_impl gknn.

Section Controller.
Context `{K8s : Kubernetes}.

(** The switch that chooses the object to fetch. *)
Definition object_for_group (group : string) : res object_kind :=
  if String.eqb group v1_GroupName then Ok KindV1
  else if String.eqb group v1alpha2_GroupName then Ok KindV1alpha2
  else Err (ENew ("cannot reconcile InferencePool - unsupported API group: " +:+ group)).

(** [c.Get(ctx, req.NamespacedName, obj)] *)
Definition reader_Get (kind : object_kind) (nn : NamespacedName) : go (res client_object) :=
  match kind with
  | KindV1 =>
      r <- eff (OReaderGetV1 nn) ;;
      Ret (match r with Ok p => Ok (ObjV1 p) | Err e => Err e end)
  | KindV1alpha2 =>
      r <- eff (OReaderGetV1alpha2 nn) ;;
      Ret (match r with Ok p => Ok (ObjV1alpha2 p) | Err e => Err e end)
  end.

(** What [Reconcile] does with the object it got. *)
Definition handle (Datastore : Datastore_iface) (got : res client_object) : go (option error) :=
  match got with
  | Err err =>
      if IsNotFound err then ds_Clear ;; Ret None
      else Ret (Some (EWrap "unable to get InferencePool - " err))
  | Ok obj =>
      if negb (deletionTimestampIsZero obj) then ds_Clear ;; Ret None
      else
        match obj with
        | ObjV1 pool => ds_PoolSet (Some pool) ;; Ret None
        | ObjV1alpha2 pool =>
            match ConvertTo pool with
            | Err err => Ret (Some (EWrap "failed to convert XInferencePool to InferencePool - " err))
            | Ok v1infPool => ds_PoolSet (Some v1infPool) ;; Ret None
            end
        end
  end.

(** [Reconcile]; the [ctrl.Result] is always empty. *)
Definition Reconcile (c : InferencePoolReconciler) (req : NamespacedName) : go (option error) :=
  match object_for_group (gk_Group (gknn_gk (PoolGKNN c))) with
  | Err e => Ret (Some e)
  | Ok kind => got <- reader_Get kind req ;; handle (rec_Datastore c) got
  end.

(** [SetupWithManager]: the type the controller is set up for is handed to
    [complete], the rest of the builder chain, which is controller-runtime's;
    [T] is what doing so yields. *)
Definition SetupWithManager {T} (complete : object_kind -> T) (fail : error -> T) (PoolGKNN : GKNN) : T :=
  let group := gk_Group (gknn_gk PoolGKNN) in
  if String.eqb group v1alpha2_GroupName then complete KindV1alpha2
  else if String.eqb group v1_GroupName then complete KindV1
  else fail (ENew ("unknown group " +:+ group)).

(** ** The abstract reconciler *)

(** What one observation means: the error to report, and the new content of
    the datastore if it changes. *)
Definition interpret (got : res client_object) : option error * option (option v1.InferencePool) :=
  match got with
  | Err e => if IsNotFound e then (None, Some None) else (Some (EWrap "unable to get InferencePool - " e), None)
  | Ok obj =>
      if negb (deletionTimestampIsZero obj) then (None, Some None)
      else match obj with
           | ObjV1 p => (None, Some (Some p))
           | ObjV1alpha2 p =>
               match ConvertTo p with
               | Ok p' => (None, Some (Some p'))
               | Err e => (Some (EWrap "failed to convert XInferencePool to InferencePool - " e), None)
               end
           end
  end.

Definition apply_update (u : option (option v1.InferencePool)) (s : option v1.InferencePool) :
    option v1.InferencePool :=
  match u with Some s' => s' | None => s end.

(** The observation an event records: which type and name of object was asked
    for, and what the API answered. *)
Definition observation (e : evt) : option (object_kind * NamespacedName * res client_object) :=
  match e with
  | Ev (OReaderGetV1 nn) r => Some (KindV1, nn, match r with Ok p => Ok (ObjV1 p) | Err e => Err e end)
  | Ev (OReaderGetV1alpha2 nn) r => Some (KindV1alpha2, nn, match r with Ok p => Ok (ObjV1alpha2 p) | Err e => Err e end)
  | _ => None
  end.

(** The operations that store an update. *)
Definition store_trace (u : option (option v1.InferencePool)) : list evt :=
  match u with
  | None => []
  | Some p => [Ev OPoolLockAnnounce tt; Ev OPoolLockAcquire tt; Ev (OPoolWrite p) tt; Ev OPoolUnlock tt]
  end.

Lemma store_exec p tr r :
  exec (PoolSet p ;; Ret None) tr r <-> tr = store_trace (Some p) /\ r = Done (None : option error).
Proof.
  split.
  - cbn. intros H. split_hyps. repeat match goal with x : unit |- _ => destruct x end. by simplify_eq.
  - intros [-> ->]. cbn. repeat (exists tt; eexists; split; [reflexivity|]). done.
Qed.

Lemma store_replay i u w : Register.idle w ->
  replay i w (store_trace u) = Some (set_pool w (apply_update u (pool (ds w)))).
Proof.
  intros Hw. destruct u as [p|]; cbn; [|by rewrite Register.set_pool_same].
  unfold Register.idle in Hw. rewrite Hw. autorewrite with gorw. cbn. autorewrite with gorw. cbn.
  autorewrite with gorw. cbn. destruct w as [? [] ? ? ? ?]. simpl in *. by subst.
Qed.

Lemma handle_exec got tr r :
  exec (handle Register.datastore_impl got) tr r <-> tr = store_trace (snd (interpret got)) /\ r = Done (fst (interpret got)).
Proof.
  unfold handle, interpret, Clear. destruct got as [o|e].
  - destruct (negb (deletionTimestampIsZero o)); [apply store_exec|].
    destruct o as [p|p]; [apply store_exec|]. by destruct (ConvertTo p); [apply store_exec|].
  - by destruct (IsNotFound e); [apply store_exec|].
Qed.

Lemma reader_Get_exec kind nn tr r :
  exec (reader_Get kind nn) tr r <->
  exists e got, tr = [e] /\ observation e = Some (kind, nn, got) /\ r = Done got.
Proof.
  split.
  - destruct kind; cbn; intros (x & tr' & -> & -> & ->); by do 2 eexists.
  - intros ([o x] & got & -> & Ho & ->).
    destruct o; try discriminate Ho; cbn in Ho; injection Ho as <- <- <-; cbn; by exists x, [].
Qed.

Lemma Reconcile_exec gknn req kind tr r :
  object_for_group (gk_Group (gknn_gk gknn)) = Ok kind ->
  exec (Reconcile (the_reconciler gknn) req) tr r <->
  exists e got, tr = e :: store_trace (snd (interpret got)) /\ observation e = Some (kind, req, got) /\
    r = Done (fst (interpret got)).
Proof.
  intros Hk. unfold Reconcile. cbn [the_reconciler PoolGKNN rec_Datastore]. rewrite Hk.
  rewrite exec_bind. split.
  - intros [(m & -> & H)|(a & t1 & t2 & -> & H & H')].
    + by apply reader_Get_exec in H as (? & ? & _ & _ & [=]).
    + apply reader_Get_exec in H as (e & got & -> & Ho & [= <-]). apply handle_exec in H' as [-> ->]. eauto.
  - intros (e & got & -> & Ho & ->). right. exists got, [e], (store_trace (snd (interpret got))).
    split; [done|]. split; [apply reader_Get_exec; eauto|by apply handle_exec].
Qed.

Lemma observation_replay i e k nn got w tr :
  observation e = Some (k, nn, got) -> replay i w (e :: tr) = replay i w tr.
Proof. destruct e as [o x]. by destruct o. Qed.

(** C15.  Refinement.  Run from a datastore whose lock is free, [Reconcile]
    for a supported group reads the requested object once, under the type of
    the group, reports exactly the error the abstract reconciler gives for
    what was read, and stores exactly what the abstract reconciler says: the
    pool itself, or its conversion, or nothing when it is gone or being
    deleted; an observation that cannot be interpreted leaves the datastore
    untouched.  Conversely every answer of the API has such a run. *)
Theorem Reconcile_refines i gknn req kind w w' tr r :
  Register.idle w -> object_for_group (gk_Group (gknn_gk gknn)) = Ok kind ->
  exec (Reconcile (the_reconciler gknn) req) tr r /\ replay i w tr = Some w' <->
  exists e got, tr = e :: store_trace (snd (interpret got)) /\ observation e = Some (kind, req, got) /\
    r = Done (fst (interpret got)) /\
    w' = set_pool w (apply_update (snd (interpret got)) (pool (ds w))).
Proof.
  intros Hw Hk. rewrite (Reconcile_exec _ _ _ _ _ Hk). split.
  - intros [(e & got & -> & Ho & ->) Hr].
    rewrite (observation_replay _ _ _ _ _ _ _ Ho), store_replay in Hr by done. simplify_eq. eauto 10.
  - intros (e & got & -> & Ho & -> & ->). split; [eauto|].
    by rewrite (observation_replay _ _ _ _ _ _ _ Ho), store_replay.
Qed.

(** An unsupported group is refused without touching the API or the
    datastore. *)
Theorem Reconcile_unsupported_group gknn req tr r :
  gk_Group (gknn_gk gknn) <> v1_GroupName -> gk_Group (gknn_gk gknn) <> v1alpha2_GroupName ->
  exec (Reconcile (the_reconciler gknn) req) tr r <->
  tr = [] /\ r = Done (Some (ENew ("cannot reconcile InferencePool - unsupported API group: " +:+
                                    gk_Group (gknn_gk gknn)))).
Proof.
  intros H1 H2. unfold Reconcile, object_for_group. cbn [the_reconciler PoolGKNN rec_Datastore].
  rewrite (proj2 (String.eqb_neq _ _) H1), (proj2 (String.eqb_neq _ _) H2). done.
Qed.

(** The controller is set up for the type that [Reconcile] fetches, for
    every group, although the two switches test the groups in different
    orders (the two group names differ). *)
Theorem watched_kind_is_fetched_kind {T} (complete : object_kind -> T) fail gknn :
  v1_GroupName <> v1alpha2_GroupName ->
  SetupWithManager complete fail gknn =
  match object_for_group (gk_Group (gknn_gk gknn)) with
  | Ok kind => complete kind
  | Err _ => fail (ENew ("unknown group " +:+ gk_Group (gknn_gk gknn)))
  end.
Proof.
  intros Hne. unfold SetupWithManager, object_for_group.
  destruct (String.eqb_spec (gk_Group (gknn_gk gknn)) v1alpha2_GroupName),
    (String.eqb_spec (gk_Group (gknn_gk gknn)) v1_GroupName); congruence.
Qed.

(** ** Sequences of reconciliations *)

Fixpoint Reconcile_all (gknn : GKNN) (reqs : list NamespacedName) : go (list (option error)) :=
  match reqs with
  | [] => Ret []
  | req :: reqs' =>
      e <- Reconcile (the_reconciler gknn) req ;;
      es <- Reconcile_all gknn reqs' ;;
      Ret (e :: es)
  end.

Definition observe (s : option v1.InferencePool) (got : res client_object) : option v1.InferencePool :=
  apply_update (snd (interpret got)) s.

(** What a run observed, in order. *)
Definition observations (tr : list evt) : list (res client_object) :=
  omap (fun e => snd <$> observation e) tr.

Lemma observations_store u : observations (store_trace u) = [].
Proof. by destruct u. Qed.

Lemma observations_run e k nn got u tr : observation e = Some (k, nn, got) ->
  observations ((e :: store_trace u) ++ tr) = got :: observations tr.
Proof.
  intros Ho. unfold observations. rewrite omap_app. simpl. rewrite Ho. simpl. f_equal.
  fold (observations (store_trace u)). by rewrite observations_store.
Qed.

Lemma replay_app i tr1 tr2 : forall w, replay i w (tr1 ++ tr2) = replay i w tr1 ≫= fun w' => replay i w' tr2.
Proof.
  induction tr1 as [|[o x] tr1 IH]; intros w; simpl; [done|]. destruct (perform i o w x); [apply IH|done].
Qed.

Lemma Reconcile_all_exec i gknn kind reqs : forall w w' tr r,
  Register.idle w -> object_for_group (gk_Group (gknn_gk gknn)) = Ok kind ->
  exec (Reconcile_all gknn reqs) tr r -> replay i w tr = Some w' ->
  length (observations tr) = length reqs /\
  r = Done (map (fun got => fst (interpret got)) (observations tr)) /\
  w' = set_pool w (fold_left observe (observations tr) (pool (ds w))).
Proof.
  induction reqs as [|req reqs IH]; intros w w' tr r Hw Hk; cbn [Reconcile_all].
  - intros [-> ->] [= <-]. cbn. by rewrite Register.set_pool_same.
  - intros [(m & -> & H)|(a & t1 & t2 & -> & H & H')]%exec_bind Hr.
    { by apply (Reconcile_exec _ _ _ _ _ Hk) in H as (? & ? & _ & _ & [=]). }
    apply (Reconcile_exec _ _ _ _ _ Hk) in H as (e & got & -> & Ho & [= ->]).
    rewrite replay_app, (observation_replay _ _ _ _ _ _ _ Ho), store_replay in Hr by done. simpl in Hr.
    rewrite (observations_run _ _ _ _ _ _ Ho).
    apply exec_bind in H' as [(m & -> & H)|(es & t3 & t4 & -> & H & [-> ->])].
    + by destruct (IH _ _ _ _ (Register.set_pool_idle _ _ Hw) Hk H Hr) as (_ & [=] & _).
    + rewrite app_nil_r in *. destruct (IH _ _ _ _ (Register.set_pool_idle _ _ Hw) Hk H Hr) as (Hl & [= ->] & ->).
      simpl. rewrite Hl. done.
Qed.

(** C16.  The last observation wins.  After any sequence of reconciliations,
    run from a datastore whose lock is free, the pool stored is the one the
    abstract reconciler gives for the observations made, in order; so if the
    last observation can be interpreted then, whatever was observed and
    whatever failed before it, the datastore holds exactly what it says and
    [PoolGet] returns that. *)
Theorem last_observation_wins i gknn kind reqs w w' tr r :
  Register.idle w -> object_for_group (gk_Group (gknn_gk gknn)) = Ok kind ->
  exec (Reconcile_all gknn reqs) tr r -> replay i w tr = Some w' ->
  length (observations tr) = length reqs /\
  r = Done (map (fun got => fst (interpret got)) (observations tr)) /\
  pool (ds w') = fold_left observe (observations tr) (pool (ds w)) /\
  (forall got s, last (observations tr) = Some got -> snd (interpret got) = Some s ->
     runs i PoolGet w' (Done (s, if is_nil s then Some EPoolNotSynced else None)) w').
Proof.
  intros Hw Hk He Hr. eapply Reconcile_all_exec in Hr as (Hl & -> & ->); [|done..].
  do 3 (split; [done|]). intros got s Hlast Hs.
  destruct (observations tr) as [|got' gots _] using rev_ind; [done|].
  rewrite last_snoc in Hlast. simplify_eq. apply PoolGet_runs; [cbn; by rewrite Hw|].
  rewrite fold_left_app. cbn. unfold observe at 1 2 3 4. by rewrite Hs.
Qed.

End Controller.

(** ** Concrete reconciliations *)

Definition demo_gknn : GKNN :=
  MkGKNN (MkNN "llm-d-sim" "gaie-sim") (MkGK "inference.networking.k8s.io" "InferencePool").

Definition demo_nn : NamespacedName := MkNN "llm-d-sim" "gaie-sim".

Lemma Reconcile_refines_witness :
  exec (@Reconcile demo_k8s (the_reconciler demo_gknn) demo_nn)
    (Ev (OReaderGetV1 demo_nn) (Ok demo_pool) :: store_trace (Some (Some demo_pool))) (Done None) /\
  replay 0%nat (init_world 0) (Ev (OReaderGetV1 demo_nn) (Ok demo_pool) :: store_trace (Some (Some demo_pool)))
  = Some (set_pool (init_world 0) (Some demo_pool)).
Proof.
  apply (@Reconcile_refines demo_k8s 0%nat demo_gknn demo_nn KindV1 (init_world 0));
    [reflexivity|reflexivity|].
  exists (Ev (OReaderGetV1 demo_nn) (Ok demo_pool)), (Ok (ObjV1 demo_pool)).
  split; [reflexivity|]. split; [reflexivity|]. split; reflexivity.
Defined.

Lemma Reconcile_unsupported_group_witness :
  exec (@Reconcile demo_k8s (the_reconciler (MkGKNN (MkNN "ns" "p") (MkGK "apps" "InferencePool"))) (MkNN "ns" "p")) []
    (Done (Some (ENew "cannot reconcile InferencePool - unsupported API group: apps"))).
Proof.
  apply (@Reconcile_unsupported_group demo_k8s (MkGKNN (MkNN "ns" "p") (MkGK "apps" "InferencePool")));
    [discriminate|discriminate|]. split; reflexivity.
Defined.

Lemma watched_kind_is_fetched_kind_witness :
  @SetupWithManager demo_k8s _ (fun k => Some k) (fun _ => None) demo_gknn = Some KindV1.
Proof.
  rewrite (@watched_kind_is_fetched_kind demo_k8s _ (fun k => Some k) (fun _ => None) demo_gknn);
    [reflexivity|discriminate].
Defined.

(** The pool is read, then a read fails, then the pool is gone. *)
Definition demo_reads : list evt :=
  Ev (OReaderGetV1 demo_nn) (Ok demo_pool) :: store_trace (Some (Some demo_pool)) ++
  Ev (OReaderGetV1 demo_nn) (Err (EApi "Timeout" "try again")) ::
  Ev (OReaderGetV1 demo_nn) (Err (EApi "NotFound" "gone")) :: store_trace (Some None).

Lemma last_observation_wins_witness :
  exists w', replay 0%nat (init_world 0) demo_reads = Some w' /\
    runs 0%nat PoolGet w' (Done (None, Some EPoolNotSynced)) w'.
Proof.
  eexists. split; [reflexivity|].
  eapply (@last_observation_wins demo_k8s 0%nat demo_gknn KindV1 [demo_nn; demo_nn; demo_nn] (init_world 0)
    _ demo_reads) with (got := Err (EApi "NotFound" "gone")) (s := None);
    [reflexivity|reflexivity| |reflexivity|reflexivity|reflexivity].
  cbn. exists (Ok demo_pool). eexists. split; [reflexivity|]. cbn.
  do 4 (exists tt; eexists; split; [reflexivity|]).
  exists (Err (EApi "Timeout" "try again")). eexists. split; [reflexivity|]. cbn.
  exists (Err (EApi "NotFound" "gone")). eexists. split; [reflexivity|]. cbn.
  do 4 (exists tt; eexists; split; [reflexivity|]). split; reflexivity.
Defined.
