(* ===== verification/Health.v ===== *)
(** * cmd/activator/runner/health.go

    The gRPC health service.  [Check] reads the datastore and the leader
    flag; its answers are those of a truth table over three facts: whether
    leader election is enabled, whether the pool has been synced, whether
    this replica is the leader. *)

From S2P Require Import Prelude GoTime Prog Effects Machine Datastore RequestControl Instances Controller.
#[local] Open Scope go_scope.

Definition LivenessCheckService : string := "liveness".
Definition ReadinessCheckService : string := "readiness".

(** [extProcPb.ExternalProcessor_ServiceDesc.ServiceName], of the generated
    Envoy code. *)
Class ExtProcDesc := { ExternalProcessor_ServiceName : string }.

(** It is the full name of a protobuf service, which has a package. *)
Class ExtProcDescLaws `{ExtProcDesc} : Prop := {
  ServiceName_distinct :
    ExternalProcessor_ServiceName ∉ [LivenessCheckService; ReadinessCheckService; ""%string]
}.

(** [healthServer]; the flag [isLeader] it points to is shared with the
    goroutine that waits for the election. *)
Record healthServer := MkHealthServer { hs_datastore : Datastore_iface; leaderElectionEnabled : bool }.

(** The health server of the process asks its one datastore. *)
Definition the_health_server (le : bool) : healthServer := MkHealthServer Register.datastore_impl le.

Section Health.
Context `{EP : ExtProcDesc}.

(** [if !isPassing { log isLeader; return NOT_SERVING }; return SERVING] *)
Definition check_result (isPassing : bool) : go (ServingStatus * option error) :=
  if negb isPassing then eff OLeaderLoad ;; Ret (NOT_SERVING, None)
  else Ret (SERVING, None).

(** [isPassing = isLive && s.isLeader.Load()] *)
Definition live_and_leader (isLive : bool) : go bool :=
  if isLive then eff OLeaderLoad else Ret false.

(** [Check] once it knows whether the pool has synced. *)
Definition check_service (leaderElectionEnabled : bool) (Service : string) (isLive : bool) :
    go (ServingStatus * option error) :=
  if negb leaderElectionEnabled then
    if negb isLive then Ret (NOT_SERVING, None) else Ret (SERVING, None)
  else if String.eqb Service ReadinessCheckService then
    isPassing <- live_and_leader isLive ;; check_result isPassing
  else if String.eqb Service "" then
    isPassing <- live_and_leader isLive ;; check_result isPassing
  else if String.eqb Service LivenessCheckService then
    check_result true
  else if String.eqb Service ExternalProcessor_ServiceName then
    isPassing <- live_and_leader isLive ;; check_result isPassing
  else Ret (SERVICE_UNKNOWN, None).

Definition Check (s : healthServer) (Service : string) : go (ServingStatus * option error) :=
  isLive <- @ds_PoolHasSynced (hs_datastore s) ;;
  check_service (leaderElectionEnabled s) Service isLive.

(** The loop of [List]; the map is built in the order of insertion, a later
    entry for the same key replacing an earlier one. *)
Fixpoint list_services (s : healthServer) (services : list string)
    (statuses : gmap string ServingStatus) : go (gmap string ServingStatus + error) :=
  match services with
  | [] => Ret (inl statuses)
  | service :: services' =>
      r <- Check s service ;;
      match snd r with
      | Some err => Ret (inr err)
      | None => list_services s services' (<[service := fst r]> statuses)
      end
  end.

Definition List_services (leaderElectionEnabled : bool) : list string :=
  if leaderElectionEnabled
  then [ExternalProcessor_ServiceName; LivenessCheckService; ReadinessCheckService]
  else [ExternalProcessor_ServiceName].

Definition List (s : healthServer) : go (gmap string ServingStatus + error) :=
  list_services s (List_services (leaderElectionEnabled s)) ∅.

Definition Watch : option error := Some (EStatus Unimplemented "Watch is not implemented").

(** ** The truth table *)

Definition health (leaderElectionEnabled : bool) (Service : string) (synced leader : bool) : ServingStatus :=
  let serving b := if b : bool then SERVING else NOT_SERVING in
  if negb leaderElectionEnabled then serving synced
  else if bool_decide (Service = LivenessCheckService) then SERVING
  else if bool_decide (Service ∈ [ReadinessCheckService; ""%string; ExternalProcessor_ServiceName])
  then serving (synced && leader)
  else SERVICE_UNKNOWN.

Lemma PoolHasSynced_runs i w r w' : rw_writer (poolMu (ds w)) = NoWriter ->
  runs i PoolHasSynced w r w' <-> r = Done (negb (is_nil (pool (ds w)))) /\ w' = w.
Proof.
  destruct w as [t [[n wr] p tk] a cl cd le]. simpl. intros ->. split.
  - intros H. cbn in H. runs_inv. done.
  - intros [-> ->]. cbn. runs_op tt. runs_op p. runs_op tt. done.
Qed.

Lemma load_runs {A} i w (k : bool -> go A) r w' :
  runs i (Op OLeaderLoad k) w r w' <-> runs i (k (isLeader w)) w r w'.
Proof.
  cbn. split.
  - intros (b & w1 & Hp & H). destruct (Bool.eqb b (isLeader w)) eqn:E; [|done].
    apply eqb_prop in E as ->. by injection Hp as <-.
  - intros H. exists (isLeader w), w. by rewrite eqb_reflx.
Qed.

Lemma passing_runs i isLive w r w' :
  runs i (isPassing <- live_and_leader isLive ;; check_result isPassing) w r w' <->
  r = Done (if isLive && isLeader w then SERVING else NOT_SERVING, None) /\ w' = w.
Proof.
  destruct isLive; cbn [live_and_leader bind eff andb].
  - rewrite load_runs. destruct (isLeader w) eqn:E; cbn [check_result negb bind eff]; [done|by rewrite load_runs].
  - cbn [check_result negb bind eff]. by rewrite load_runs.
Qed.

Lemma check_service_runs i le svc isLive w r w' :
  runs i (check_service le svc isLive) w r w' <->
  r = Done (health le svc isLive (isLeader w), None) /\ w' = w.
Proof.
  unfold check_service, health. destruct le; cbn [negb]; [|by destruct isLive].
  destruct (String.eqb_spec svc ReadinessCheckService) as [->|H1].
  { rewrite passing_runs, bool_decide_eq_false_2, bool_decide_eq_true_2 by (done || set_solver). done. }
  destruct (String.eqb_spec svc "") as [->|H2].
  { rewrite passing_runs, bool_decide_eq_false_2, bool_decide_eq_true_2 by (done || set_solver). done. }
  destruct (String.eqb_spec svc LivenessCheckService) as [->|H3]; [by rewrite bool_decide_eq_true_2|].
  rewrite (bool_decide_eq_false_2 (svc = LivenessCheckService)) by done.
  destruct (String.eqb_spec svc ExternalProcessor_ServiceName) as [->|H4].
  { rewrite passing_runs, bool_decide_eq_true_2 by set_solver. done. }
  rewrite bool_decide_eq_false_2 by set_solver. done.
Qed.

Lemma Check_runs i le svc w r w' : rw_writer (poolMu (ds w)) = NoWriter ->
  runs i (Check (the_health_server le) svc) w r w' <->
  r = Done (health le svc (negb (is_nil (pool (ds w)))) (isLeader w), None) /\ w' = w.
Proof.
  intros Hw. unfold Check. rewrite runs_bind. split.
  - intros [(m & -> & H)|(b & w1 & H & H')].
    + by apply PoolHasSynced_runs in H as [? _].
    + apply PoolHasSynced_runs in H as [[= ->] ->]; [|done]. by apply check_service_runs in H'.
  - intros [-> ->]. right. eexists _, w. split; [by apply PoolHasSynced_runs|by apply check_service_runs].
Qed.

(** C34.  The health table.  [Check], run while no writer holds the
    datastore's lock, returns without an error and without changing anything
    exactly the status of the table: with leader election disabled, SERVING
    for every service name once the pool is synced; with it enabled,
    "liveness" is SERVING unconditionally, the readiness, empty and
    external-processor names are SERVING only on a leader whose pool is
    synced, and any other name is unknown. *)
Theorem Check_truth_table i le svc w r w' :
  rw_writer (poolMu (ds w)) = NoWriter ->
  runs i (Check (the_health_server le) svc) w r w' <->
  w' = w /\ exists st, r = Done (st, None) /\
    st = (if negb le then if is_nil (pool (ds w)) then NOT_SERVING else SERVING
          else if bool_decide (svc = "liveness"%string) then SERVING
          else if bool_decide (svc ∈ ["readiness"%string; ""%string; ExternalProcessor_ServiceName])
          then if negb (is_nil (pool (ds w))) && isLeader w then SERVING else NOT_SERVING
          else SERVICE_UNKNOWN).
Proof.
  intros Hw. rewrite Check_runs by done. unfold health.
  destruct le, (is_nil (pool (ds w))); cbn [negb]; naive_solver.
Qed.

(** ** Listing *)

Lemma list_services_runs i le svcs : forall w r w' m, rw_writer (poolMu (ds w)) = NoWriter ->
  runs i (list_services (the_health_server le) svcs m) w r w' <->
  r = Done (inl (foldl (fun m svc => <[svc := health le svc (negb (is_nil (pool (ds w)))) (isLeader w)]> m) m svcs))
  /\ w' = w.
Proof.
  induction svcs as [|svc svcs IH]; intros w r w' m Hw; [done|]. cbn [list_services foldl].
  rewrite runs_bind. split.
  - intros [(msg & -> & H)|(a & w1 & H & H')].
    + by apply Check_runs in H as [? _].
    + apply Check_runs in H as [[= ->] ->]; [|done]. by apply IH in H'.
  - intros [-> ->]. right. eexists _, w. split; [by apply Check_runs|]. by apply IH.
Qed.

(** C35.  [List] agrees with [Check].  Run while no writer holds the lock,
    [List] never fails and lists exactly the external-processor service, and
    with leader election also "liveness" and "readiness", each with the status
    [Check] reports for it; in particular no listed service is unknown. *)
Theorem List_agrees_with_Check {EL : ExtProcDescLaws} i le w r w' :
  rw_writer (poolMu (ds w)) = NoWriter ->
  runs i (List (the_health_server le)) w r w' ->
  w' = w /\ exists statuses, r = Done (inl statuses) /\
    forall svc,
      (svc ∈ List_services le ->
         exists st, statuses !! svc = Some st /\ st <> SERVICE_UNKNOWN /\
           runs i (Check (the_health_server le) svc) w (Done (st, None)) w) /\
      (svc ∉ List_services le -> statuses !! svc = None).
Proof.
  intros Hw H. apply list_services_runs in H as [-> ->]; [|done]. split; [done|].
  eexists. split; [done|]. pose proof ServiceName_distinct as Hd.
  assert (Hne : ExternalProcessor_ServiceName <> LivenessCheckService /\
    ExternalProcessor_ServiceName <> ReadinessCheckService) by set_solver.
  destruct Hne as [Hl Hr].
  assert (Hk : forall svc, svc ∈ List_services le ->
    health le svc (negb (is_nil (pool (ds w)))) (isLeader w) <> SERVICE_UNKNOWN).
  { intros svc Hsvc. unfold health. destruct le; cbn [negb]; [|by destruct (is_nil _)].
    cbn in Hsvc. case_bool_decide; [done|]. rewrite bool_decide_eq_true_2 by set_solver.
    by destruct (_ && _). }
  intros svc. split.
  - intros Hin. eexists. split; [|split; [by apply Hk|by apply Check_runs]].
    destruct le; cbn in Hin |- *.
    + repeat (apply elem_of_cons in Hin as [->|Hin]); [by simplify_map_eq..|by apply not_elem_of_nil in Hin].
    + apply list_elem_of_singleton in Hin as ->. by simplify_map_eq.
  - intros Hin. destruct le; cbn in Hin |- *; rewrite !lookup_insert_ne by set_solver; done.
Qed.

End Health.

(** ** Concrete checks *)

Definition demo_desc : ExtProcDesc :=
  {| ExternalProcessor_ServiceName := "envoy.service.ext_proc.v3.ExternalProcessor" |}.

Lemma demo_desc_laws : @ExtProcDescLaws demo_desc.
Proof. constructor. set_solver. Qed.

(** A follower whose pool is synced. *)
Definition follower_world : world := set_pool (init_world 0) (Some demo_pool).

Lemma Check_truth_table_witness :
  runs 0%nat (@Check demo_desc (the_health_server true) "readiness") follower_world (Done (NOT_SERVING, None)) follower_world /\
  runs 0%nat (@Check demo_desc (the_health_server true) "liveness") follower_world (Done (SERVING, None)) follower_world.
Proof.
  split; apply (@Check_truth_table demo_desc 0%nat true _ follower_world); try reflexivity;
    (split; [reflexivity|]); eexists; (split; [reflexivity|]); vm_compute; reflexivity.
Defined.

Lemma List_agrees_with_Check_witness :
  match run_alone some_answer 0%nat (@List demo_desc (the_health_server true)) follower_world with
  | Some (Done (inl statuses), _) => exists st, statuses !! "readiness"%string = Some st /\ st <> SERVICE_UNKNOWN
  | _ => False
  end.
Proof.
  assert (Hv : is_nil (run_alone some_answer 0%nat (@List demo_desc (the_health_server true)) follower_world) = false)
    by (vm_compute; reflexivity).
  destruct (run_alone some_answer 0%nat (@List demo_desc (the_health_server true)) follower_world) as [[r w']|] eqn:H;
    [|discriminate Hv].
  destruct (@List_agrees_with_Check demo_desc demo_desc_laws 0%nat true follower_world r w' eq_refl
    (run_alone_runs _ _ _ _ _ _ H)) as (_ & statuses & Hr & Hs).
  rewrite Hr. destruct (proj1 (Hs "readiness"%string)) as (st & Hst & Hk & _); [|exists st; auto].
  apply list_elem_of_In. simpl. tauto.
Defined.
