(* ===== verification/Goroutines.v ===== *)
(** * The goroutines of the process

    Envoy's streams, the deactivator, the worker of the reconciler, the
    health checks and the goroutine that waits for the election, and one walk over their code for any program logic ([Logic]: a predicate on
    programs closed under sequencing and [defer]) that accepts the critical
    sections ([Sections], [MoreSections]).  The files ScaleUpState and
    PoolLock instantiate the walk: with the thread-modular logic of file
    Machine and their invariants, and with the automata of file Prog. *)

From S2P Require Import Prelude GoTime Prog Effects Machine Datastore RequestControl Instances Activator Admission Deactivator Handlers Controller Health.
#[local] Open Scope go_scope.

(** Operations that need no lock: time, the Kubernetes API, the streams and
    health checks, the election and the atomic flag. *)
Definition external (o : op) : bool :=
  match o with
  | OAfter _ | OWaitUntil _ | OSelectGuard _ _ | OSelectTick | OPollWait _
  | ORESTMapping _ _ | OScaleGet _ _ _ | OScaleUpdate _ _ _ | ODynamicGet _ _ _
  | OReaderGetV1 _ | OReaderGetV1alpha2 _ | OStreamCtxErr | ORecv | OSend _
  | OLeaderLoad | OLeaderStore _ | OElected | OHealthSend _ => true
  | _ => false
  end.

(** Of these, the ones that only one goroutine performs: scaling to zero, and
    becoming the leader. *)
Definition restricted (o : op) : bool :=
  match o with OScaleUpdate _ _ s => Spec_Replicas s =? 0 | OLeaderStore _ => true | _ => false end.

(** ... and the ones that set a timer or wait for one. *)
Definition timed (o : op) : bool :=
  match o with OAfter _ | OWaitUntil _ | OSelectGuard _ _ => true | _ => false end.

Definition bad_assertion : string := "interface conversion: interface {} is not map[string]interface {}".

(** ** Program logics *)

Class Logic (ok : forall A, go A -> Prop) : Prop := {
  ok_Ret A (a : A) : ok A (Ret a);
  ok_bind A B (p : go A) (f : A -> go B) : ok A p -> (forall a, ok B (f a)) -> ok B (bind p f);
  ok_defer A (f : go unit) (p : go A) : ok A p -> ok unit f -> ok A (defer f p)
}.

(** An object whose status is no map. *)
Definition no_status (r : res (list (string * any))) : Prop :=
  match r with Ok obj => match any_index "status" obj with AMap _ => False | _ => True end | Err _ => False end.

(** What a logic must know about the parts of the code that a goroutine also
    runs in the middle of a scale-up.  It need accept the failing type
    assertion only after an object without a status. *)
Class Sections (ok : forall A, go A -> Prop) : Prop := {
  external_ok o : external o = true -> restricted o = false -> timed o = false -> ok _ (eff o);
  Sleep_ok : ok _ (Sleep ScaleToZeroRequestRetentionPeriod);
  ResetTicker_ok d : 0 < d -> ok _ (ResetTicker d);
  DynamicGet_ok gvr ns n B (f : _ -> go B) :
    (forall r, (no_status r -> ok B (Panic bad_assertion)) -> ok B (f r)) ->
    ok B (bind (eff (ODynamicGet gvr ns n)) f)
}.

(** ... and about the others.  A logic that accepts dereferencing nil need not
    know that [PoolGet] returns a pool when it returns no error, and it need
    accept re-arming the ticker with a delay that is not positive only after a
    pool with that delay was read. *)
Class MoreSections (ok : forall A, go A -> Prop) : Prop := {
  PoolGet_ok B (f : _ -> go B) :
    (forall p e, (p = None -> e = None -> ok B (Panic nil_deref)) ->
       (forall pool, p = Some pool -> scaleDownDelay_of pool <= 0 -> ok _ (ResetTicker (scaleDownDelay_of pool))) ->
       ok B (f (p, e))) ->
    ok B (bind PoolGet f);
  waitOnGuard_ok g : ok _ (waitOnGuard g DefaultScaleFromZeroGracePeriod);
  PoolHasSynced_ok : ok _ PoolHasSynced;
  GetTicker_ok : ok _ GetTicker;
  StopTicker_ok : ok _ StopTicker;
  isScalingUp_ok : ok _ isScalingUp
}.

(** ... and about the only one that writes the pool. *)
Class PoolWrites (ok : forall A : Type, go A -> Prop) : Prop := { PoolSet_ok p : ok _ (PoolSet p) }.

(** A logic that accepts every re-arming, every wait and every failing
    assertion. *)
Section Plain.
Context {ok : forall A, go A -> Prop} {LG : Logic ok} (Hreset : forall d, ok _ (ResetTicker d)).
Context (Hext : forall o, external o = true -> restricted o = false -> ok _ (eff o)).

Lemma plain_sections : (forall B, ok B (Panic bad_assertion)) -> Sections ok.
Proof.
  intros Hass. split; [by auto| |intros; apply Hreset|].
  - apply ok_bind; [by apply Hext|]. intros t. by apply (Hext (OWaitUntil t)).
  - intros gvr ns n B f Hf. apply ok_bind; [by apply Hext|]. intros r. apply Hf. intros _. apply Hass.
Qed.

Lemma plain_more_sections :
  (forall B (f : _ -> go B), (forall p e, (p = None -> e = None -> ok B (Panic nil_deref)) -> ok B (f (p, e))) ->
     ok B (bind PoolGet f)) ->
  ok _ PoolHasSynced -> ok _ GetTicker -> ok _ StopTicker -> ok _ isScalingUp -> MoreSections ok.
Proof.
  intros Hget H1 H2 H3 H4. split; [| |done..].
  - intros B f Hf. apply Hget. intros p e Hnil. apply Hf; [done|]. intros; apply Hreset.
  - intros g. apply ok_bind; [by apply Hext|]. intros t. by apply (Hext (OSelectGuard t g)).
Qed.

End Plain.

Section Walk.
Context {accepted : forall A, go A -> Prop} {LG : Logic accepted}.
#[local] Abbreviation ok p := (accepted _ p).

Lemma ok_loop {B} (body : go (option B)) n : ok body -> ok (for_loop n body).
Proof.
  intros Hb. induction n as [|n IH]; simpl; [apply ok_Ret|]. apply ok_bind; [done|].
  intros [b|]; [apply ok_Ret|done].
Qed.

Context {LS : Sections accepted}.

Lemma ok_poll cond p : poll_shape cond p -> ok cond -> ok p.
Proof.
  intros Hs Hc. induction Hs as [e|d k _ IH|k He Ht _ IH]; [apply ok_Ret|..].
  - apply (ok_bind _ _ (eff (OPollWait d)) k); [by apply external_ok|done].
  - apply ok_bind; [done|]. intros [b [e|]]; [rewrite He; apply ok_Ret|].
    destruct b; [rewrite Ht; apply ok_Ret|done].
Qed.

Ltac ext := apply ok_bind; [by apply external_ok|].
Ltac ret := apply ok_Ret.

Context `{K8s : Kubernetes} `{EU : ErrUtil} `{GS : GrpcStatus} `{Wait : WaitPkg} {WL : WaitPkgLaws}.

(** What follows the fetch of the object. *)
Lemma status_readyReplicas_ok {B} obj (f : option Z -> go B) :
  (no_status (Ok obj) -> ok (Panic bad_assertion : go B)) -> (forall z, ok (f z)) ->
  ok (bind (status_readyReplicas obj) f).
Proof.
  unfold status_readyReplicas, no_status. intros Hp Hf. destruct (any_index _ _); try by apply Hp.
  destruct (any_index _ _); apply Hf.
Qed.

Lemma InferencePoolPodsReady_ok ns n k gp gr gvr : ok (InferencePoolPodsReady ns n k gp gr gvr).
Proof.
  apply ok_bind; [|intros; ret]. eapply ok_poll; [apply poll_law|].
  apply ok_bind; [by apply ResetTicker_ok|]. intros _. apply DynamicGet_ok. intros [obj|e] Hst; [|ret].
  apply status_readyReplicas_ok; [done|]. intros [z|]; [destruct (_ =? _)|]; ret.
Qed.

(** The part of [scaleInferencePool] between beginning and ending. *)
Definition scale_body (ns : string) (d : ScaledObjectData) (gr : GroupResource)
    (gvr : GroupVersionResource) : go bool :=
  updated <- eff (OScaleUpdate ns gr (set_Replicas (numReplicas d) (scaleObject d))) ;;
  match updated with
  | Err _ => Ret false
  | Ok _ =>
      ready <- InferencePoolPodsReady ns (name d) (numReplicas d) (scaleGracePeriod d) gr gvr ;;
      if ready : bool then Sleep ScaleToZeroRequestRetentionPeriod ;; Ret true else Ret false
  end.

Lemma scaleInferencePool_body ns d gr gvr :
  scaleInferencePool ns d gr gvr = (beginScalingUp ;; defer endScalingUp (scale_body ns d gr gvr)).
Proof. done. Qed.

Lemma scale_body_ok ns d gr gvr : numReplicas d = 1 -> ok (scale_body ns d gr gvr).
Proof.
  intros Hd. apply ok_bind; [apply external_ok; [done|cbn; by rewrite Hd|done]|]. intros [s|e]; [|ret]. apply ok_bind; [apply InferencePoolPodsReady_ok|]. intros []; [|ret].
  apply ok_bind; [apply Sleep_ok|intros; ret].
Qed.

Context {MS : MoreSections accepted}.

Lemma GetResourceForKind_ok a k : ok (GetResourceForKind a k).
Proof.
  unfold GetResourceForKind. destruct (ParseGroupVersion _); [|ret]. ext. intros [|]; ret.
Qed.

Section Requests.
Context (Hscale : forall ns d gr gvr, numReplicas d = 1 -> ok (scaleInferencePool ns d gr gvr)).

Lemma InferencePoolReady_ok pool : ok (InferencePoolReady pool).
Proof.
  unfold InferencePoolReady. destruct (VerifyPoolObjectAnnotations pool); [|ret]. cbn [negb].
  apply ok_bind; [apply GetResourceForKind_ok|]. intros [gvr|e]; [|ret]. ext. intros [s|e]; [|ret].
  apply ok_bind; [destruct (0 <? Spec_Replicas s); [apply InferencePoolPodsReady_ok|ret]|].
  intros []; [ret|by apply Hscale].
Qed.

Lemma MayActivate_ok : ok MayActivate.
Proof.
  apply PoolGet_ok. intros p [e|] Hnil Hdelay; cbn [fst snd]; [ret|].
  destruct p as [pool|]; [|by apply Hnil]. cbn [deref bind].
  apply ok_bind; [apply isScalingUp_ok|]. intros [[] g]; cbn [fst snd].
  - apply ok_bind; [apply waitOnGuard_ok|intros; ret].
  - apply ok_bind; [apply InferencePoolReady_ok|]. intros []; [|ret].
    apply ok_bind; [|intros; ret]. change (ok (ResetTicker (scaleDownDelay_of pool))).
    destruct (decide (scaleDownDelay_of pool <= 0)); [by apply Hdelay|apply ResetTicker_ok; lia].
Qed.

Lemma Process_ok n : ok (@Process EU GS the_server n).
Proof.
  apply ok_loop. unfold process_round.
  ext. intros [e|]; [ret|]. ext. intros r. destruct (_ || _); [ret|].
  destruct r as [[]|e]; try ret. apply ok_bind; [apply MayActivate_ok|].
  intros [err|]; [destruct (buildErrResponse err); [|ret]|]; ext; intros []; ret.
Qed.

End Requests.

Context {PW : PoolWrites accepted}.

Lemma Reconcile_ok g req : ok (Reconcile (the_reconciler g) req).
Proof.
  unfold Reconcile. cbn [the_reconciler PoolGKNN rec_Datastore]. destruct (object_for_group _) as [k|e]; [|ret].
  apply ok_bind; [destruct k; ext; intros; ret|]. unfold handle.
  assert (Hset : forall p, ok (PoolSet p ;; Ret (None : option error))).
  { intros p. apply ok_bind; [apply PoolSet_ok|intros; ret]. }
  intros [obj|e]; [|destruct (IsNotFound e); [apply Hset|ret]].
  destruct (deletionTimestampIsZero obj); cbn [negb]; [|apply Hset].
  destruct obj as [p|p]; [apply Hset|]. destruct (ConvertTo p); [apply Hset|ret].
Qed.

Lemma Reconcile_all_ok g reqs : ok (Reconcile_all g reqs).
Proof.
  induction reqs as [|req reqs IH]; [ret|]. apply ok_bind; [apply Reconcile_ok|]. intros e.
  apply ok_bind; [done|intros; ret].
Qed.

Lemma Monitor_ok n : ok monitor_round -> ok (MonitorInferencePoolIdleness n).
Proof.
  intros Hround. apply ok_bind; [by apply ResetTicker_ok|]. intros _.
  apply ok_defer; [|apply StopTicker_ok]. apply ok_bind; [apply GetTicker_ok|]. intros _. by apply ok_loop.
Qed.

Lemma monitor_round_ok : ok (Panic nil_deref : go (option unit)) ->
  (forall ns gr s, ok (eff (OScaleUpdate ns gr s))) -> ok monitor_round.
Proof.
  intros Hnil Hext. unfold monitor_round. ext. intros []; [ret|]. apply PoolGet_ok.
  intros [pool|] [e|] _ _; cbn [fst snd deref bind]; [ret| |exact Hnil..].
  destruct (VerifyPoolObjectAnnotations pool); [|ret]. cbn [negb].
  apply ok_bind; [apply GetResourceForKind_ok|].
  intros [gvr|e]; [|ret]. ext. intros [s|e]; [|ret]. apply ok_bind; [apply Hext|]. intros []; ret.
Qed.

Section HealthChecks.
Context `{EP : ExtProcDesc}.

Lemma check_result_ok b : ok (check_result b).
Proof. destruct b; [ret|]. ext. intros; ret. Qed.

Lemma live_and_leader_ok b : ok (live_and_leader b).
Proof. destruct b; [|ret]. exact (external_ok OLeaderLoad eq_refl eq_refl eq_refl). Qed.

Lemma Check_ok le svc : ok (Check (the_health_server le) svc).
Proof.
  apply ok_bind; [apply PoolHasSynced_ok|]. intros isLive. unfold check_service.
  assert (Hp : ok (isPassing <- live_and_leader isLive ;; check_result isPassing)).
  { apply ok_bind; [apply live_and_leader_ok|]. intros b. apply check_result_ok. }
  destruct le; cbn [the_health_server leaderElectionEnabled negb]; [|destruct isLive; ret].
  repeat match goal with |- ok (if ?b then _ else _) => destruct b; [done||apply check_result_ok|] end. ret.
Qed.

Lemma list_services_ok le svcs : forall m, ok (list_services (the_health_server le) svcs m).
Proof.
  induction svcs as [|svc svcs IH]; intros m; [ret|]. apply ok_bind; [apply Check_ok|].
  intros [st [e|]]; [ret|apply IH].
Qed.

End HealthChecks.

End Walk.

(** ** The process *)

Section Process.
Context `{K8s : Kubernetes} `{EU : ErrUtil} `{GS : GrpcStatus} `{Wait : WaitPkg} `{EP : ExtProcDesc}.

Definition stream (n : nat) : go unit := void (@Process EU GS the_server n).
Definition deactivator (n : nat) : go unit := void (MonitorInferencePoolIdleness n).
Definition reconciler (g : GKNN) (reqs : list NamespacedName) : go unit := void (Reconcile_all g reqs).

(** The gRPC server runs every health check in a goroutine of its own and
    sends what it returns. *)
Definition health_check (leaderElectionEnabled : bool) (Service : string) : go unit :=
  r <- Check (the_health_server leaderElectionEnabled) Service ;; eff (OHealthSend (fst r)).
Definition health_list (leaderElectionEnabled : bool) : go unit := void (List (the_health_server leaderElectionEnabled)).

(** [go func() { <-mgr.Elected(); isLeader.Store(true); ... }()] *)
Definition elected_goroutine : go unit := eff OElected ;; eff (OLeaderStore true).

(** A stream that outlives [n] rounds, a deactivator that outlives [n] ticks
    and a reconciler with any list of requests: every finite run is one of
    these for some [n]. *)
Inductive goroutine : go unit -> Prop :=
| g_stream n : goroutine (stream n)
| g_deactivator n : goroutine (deactivator n)
| g_reconciler g reqs : goroutine (reconciler g reqs)
| g_check le svc : goroutine (health_check le svc)
| g_list le : goroutine (health_list le)
| g_elected : goroutine elected_goroutine.

(** The goroutines that do not serve requests. *)
Inductive background : go unit -> Prop :=
| b_deactivator n : background (deactivator n)
| b_reconciler g reqs : background (reconciler g reqs)
| b_check le svc : background (health_check le svc)
| b_list le : background (health_list le)
| b_elected : background elected_goroutine.

Context {ok : forall A, go A -> Prop} {LG : Logic ok} {LS : Sections ok} {MS : MoreSections ok} {PW : PoolWrites ok}.
Context {WL : WaitPkgLaws}.

Lemma void_ok {A} (p : go A) : ok A p -> ok unit (void p).
Proof. intros Hp. apply ok_bind; [done|]. intros; apply ok_Ret. Qed.

Lemma stream_ok n :
  (forall ns d gr gvr, numReplicas d = 1 -> ok _ (scaleInferencePool ns d gr gvr)) -> ok _ (stream n).
Proof. intros Hs. by apply void_ok, Process_ok. Qed.

Lemma reconciler_ok g reqs : ok _ (reconciler g reqs).
Proof. apply void_ok, Reconcile_all_ok. Qed.

Lemma health_check_ok le svc : ok _ (health_check le svc).
Proof. apply ok_bind; [apply Check_ok|]. intros r. exact (external_ok (OHealthSend (fst r)) eq_refl eq_refl eq_refl). Qed.

Lemma health_list_ok le : ok _ (health_list le).
Proof. apply void_ok, list_services_ok. Qed.

Lemma elected_ok : ok _ (eff (OLeaderStore true)) -> ok _ elected_goroutine.
Proof. intros Hs. apply ok_bind; [by apply external_ok|]. by intros _. Qed.

Lemma background_rounds t : ok _ monitor_round -> ok _ elected_goroutine -> background t -> ok _ t.
Proof.
  intros Hround Hel []; [by apply void_ok, Monitor_ok|apply reconciler_ok|apply health_check_ok|
    apply health_list_ok|done].
Qed.

Lemma goroutine_rounds t : ok _ monitor_round -> ok _ elected_goroutine ->
  (forall ns d gr gvr, numReplicas d = 1 -> ok _ (scaleInferencePool ns d gr gvr)) -> goroutine t -> ok _ t.
Proof. intros Hround Hel Hs []; [by apply stream_ok|by apply background_rounds; [..|constructor]..]. Qed.

Lemma background_ok t : ok (option unit) (Panic nil_deref) ->
  (forall ns gr s, ok _ (eff (OScaleUpdate ns gr s))) -> ok _ elected_goroutine -> background t -> ok _ t.
Proof.
  intros Hnil Hup Hel. by apply background_rounds; [apply monitor_round_ok|].
Qed.

Lemma goroutine_ok t : ok (option unit) (Panic nil_deref) ->
  (forall ns gr s, ok _ (eff (OScaleUpdate ns gr s))) -> ok _ elected_goroutine ->
  (forall ns d gr gvr, numReplicas d = 1 -> ok _ (scaleInferencePool ns d gr gvr)) -> goroutine t -> ok _ t.
Proof.
  intros Hnil Hup Hel Hs. by apply goroutine_rounds; [apply monitor_round_ok|..].
Qed.

End Process.

(** ** Four logics *)

(** The thread-modular logic of file Machine, for a goroutine that ends
    knowing what it knew, with no bad panic. *)
Section Calm.
Context {L : Type} (I : world -> Prop) (R : tid -> L -> world -> Prop) (bad : string -> Prop).
Context (i : tid) (l : L).

Definition ends_calm {A} (l' : L) (r : outcome A) : Prop :=
  l' = l /\ match r with Done _ => True | Crash m => ~ bad m end.

Definition calm (A : Type) (p : go A) : Prop := thread_ok I R i l p ends_calm.

#[export] Instance calm_logic : Logic calm.
Proof.
  split; [done|..].
  - intros A B p f Hp Hf. apply thread_ok_bind. eapply thread_ok_mono; [|exact Hp].
    intros l' [a|m] [-> Hr]; [apply Hf|done].
  - intros A f p Hp Hf. apply thread_ok_defer. eapply thread_ok_mono; [|exact Hp].
    intros l' r [-> Hr]. eapply thread_ok_mono; [|exact Hf].
    intros l' [[]|m] [-> Hm]; [|done]. by destruct r.
Qed.

Lemma calm_eff o : op_ok I R i l o (fun _ l' => l' = l) -> calm _ (eff o).
Proof. intros Ho. eapply op_ok_mono; [|exact Ho]. by intros x l' ->. Qed.

(** A program made of operations that tell the goroutine nothing. *)
Lemma calm_uses {A} N (p : go A) :
  uses N p -> panics (fun m => ~ bad m) p ->
  (forall o, N o = true -> op_ok I R i l o (fun _ l' => l' = l)) -> calm _ p.
Proof. intros Hu Hp HN. by eapply thread_ok_uses. Qed.

(** [PoolGet], for a logic to which it says nothing. *)
Lemma calm_PoolGet N {B} (f : _ -> go B) :
  (forall o, N o = true -> op_ok I R i l o (fun _ l' => l' = l)) ->
  (forall o, pool_reads o = true -> N o = true) -> ~ bad nil_deref ->
  (forall p e, (p = None -> e = None -> calm B (Panic nil_deref)) -> calm B (f (p, e))) ->
  calm B (bind PoolGet f).
Proof.
  intros HN Hsub Hnil Hf. apply ok_bind; [|intros [p e]; by apply Hf].
  apply (calm_uses N); [eapply uses_mono; [exact Hsub|apply PoolGet_uses]| |done].
  cbn. by intros ? ? [] ?.
Qed.

Lemma calm_no_bad {A} (p : go A) : calm A p -> thread_ok I R i l p (no_bad bad).
Proof. apply thread_ok_mono. by intros l' [a|m] [_ ?]. Qed.

End Calm.

(** A safety automaton, for programs that end in the state they begin in. *)
Section Balanced.
Context {S : Type} (delta : S -> evt -> option S) (s : S).

Definition balanced (A : Type) (p : go A) : Prop := mon delta s p (fun s' _ => s' = s).

#[export] Instance balanced_logic : Logic balanced.
Proof.
  split; [done|..].
  - intros A B p f Hp Hf. apply mon_bind. eapply mon_mono; [|exact Hp].
    intros s' [a|m] ->; [apply Hf|done].
  - intros A f p Hp Hf. apply mon_defer. eapply mon_mono; [|exact Hp].
    intros s' r ->. eapply mon_mono; [|exact Hf]. intros s' [[]|m] ->; [|done]. by destruct r.
Qed.

End Balanced.

(** A safety automaton, for programs it accepts from any state. *)
Section Anywhere.
Context {S : Type} (delta : S -> evt -> option S).

Definition anywhere (A : Type) (p : go A) : Prop := forall s, mon delta s p (fun _ _ => True).

#[export] Instance anywhere_logic : Logic anywhere.
Proof.
  split; [done|..].
  - intros A B p f Hp Hf s. apply mon_bind. eapply mon_mono; [|apply Hp].
    intros s' [a|m] _; [apply Hf|done].
  - intros A f p Hp Hf s. apply mon_defer. eapply mon_mono; [|apply Hp].
    intros s' r _. eapply mon_mono; [|apply Hf]. intros s2 [[]|m] _; [|done]. by destruct r.
Qed.

End Anywhere.

(** An automaton that is left when an event excuses what follows: a program
    that ends in the state it begins in and does not panic badly, unless it
    left the automaton. *)
Section Unless.
Context {S : Type} (delta : S -> evt -> option S).

Definition leaving (s : option S) (e : evt) : option (option S) :=
  Some (match s with Some s => delta s e | None => None end).

Lemma mon_left {A} (p : go A) (Q : option S -> outcome A -> Prop) : (forall r, Q None r) -> mon leaving None p Q.
Proof. intros HQ. induction p as [a|m|o k IH]; simpl; auto. Qed.

(** Leaving happens at an event. *)
Lemma accepts_left evs : forall s, accepts leaving (Some s) evs = Some None ->
  exists e1 e e2 s1, evs = e1 ++ e :: e2 /\ accepts delta s e1 = Some s1 /\ delta s1 e = None.
Proof.
  induction evs as [|e evs IH]; intros s; [done|]. cbn. destruct (delta s e) as [s1|] eqn:Hd.
  - intros (e1 & e' & e2 & s2 & -> & Ha & Hl)%IH. exists (e :: e1), e', e2, s2. cbn. by rewrite Hd.
  - intros _. by exists [], e, evs, s.
Qed.

Section Bad.
Context (bad : string -> Prop) (s : S).

Definition fair {A} (s' : option S) (r : outcome A) : Prop :=
  s' = None \/ (s' = Some s /\ match r with Done _ => True | Crash m => ~ bad m end).

Definition unless (A : Type) (p : go A) : Prop := mon leaving (Some s) p fair.

Lemma mon_left_fair {A} (p : go A) : mon leaving None p fair.
Proof. apply mon_left. by left. Qed.

#[export] Instance unless_logic : Logic unless.
Proof.
  split; [by right|..].
  - intros A B p f Hp Hf. apply mon_bind. eapply mon_mono; [|exact Hp].
    intros s' [a|m] [->|[-> Hr]]; [apply mon_left_fair|apply Hf|by left|by right].
  - intros A f p Hp Hf. apply mon_defer. eapply mon_mono; [|exact Hp].
    intros s' r [->|[-> Hr]].
    + apply mon_left. intros [[]|m]; [|by left]. destruct r; by left.
    + eapply mon_mono; [|exact Hf]. intros s2 [[]|m] [->|[-> Hm]]; [|by destruct r; right|by left|by right].
      destruct r; by left.
Qed.

Lemma unless_panic {A} m : ~ bad m -> unless A (Panic m).
Proof. by right. Qed.

Lemma unless_op {A} o (k : ans o -> go A) :
  (forall x s', delta s (Ev o x) = Some s' -> mon leaving (Some s') (k x) fair) -> unless A (Op o k).
Proof.
  intros Hk x. cbn. destruct (delta s (Ev o x)) as [s'|] eqn:Hd; [by apply Hk|apply mon_left_fair].
Qed.

(** Operations that the automaton ignores, or that leave it. *)
Lemma unless_uses {A} N (p : go A) : uses N p -> panics (fun m => ~ bad m) p ->
  (forall o x s', N o = true -> delta s (Ev o x) = Some s' -> s' = s) -> unless A p.
Proof.
  intros Hu Hp HN. induction p as [a|m|o k IH]; [by right|by right|]. destruct Hu as [Ho Hk].
  apply unless_op. intros x s' Hd. apply HN in Hd as ->; [|done]. by apply IH.
Qed.

End Bad.
End Unless.

(** ** Running a schedule *)

(** [n] steps of goroutine [i]. *)
Definition burst (env : forall o, ans o) (i : tid) (n : nat) : list sched := replicate n (Go env i).
Arguments burst env (i n)%_nat_scope.

Definition demo_stream (n : nat) : go unit := @stream demo_k8s demo_errutil demo_status ref_wait n.
Definition demo_reconciler (reqs : list NamespacedName) : go unit := @reconciler demo_k8s demo_gknn reqs.
Definition demo_deactivator (n : nat) : go unit := @deactivator demo_k8s n.
Definition demo_check : go unit := @health_check demo_desc true "readiness".
