(* ===== verification/ScaleUpState.v ===== *)
(** * The scale-up state under concurrency

    The flag [scalingUp] and the channel [guard] of the activator, in the
    interleavings of any number of goroutines of the process (file
    Goroutines).  The mutex keeps the two fields consistent; it does not
    keep two requests from scaling up at the same time, and then the second
    to finish closes a nil channel. *)

From S2P Require Import Prelude GoTime Prog Effects Machine Datastore RequestControl Instances Activator Admission Deactivator Handlers Controller Health Goroutines.
#[local] Open Scope go_scope.

(** ** The scale-up state *)

Module Guard.

(** What [scalingUpAndGuardMu] protects, whenever it is free: a scale-up is
    marked as in progress exactly when there is a guard, and the guard is an
    open channel. *)
Definition consistent (b : bool) (g : option chan) (w : world) : Prop :=
  match b, g with
  | true, Some c => closed w !! c = Some false
  | false, None => True
  | _, _ => False
  end.

Definition guard_open (w : world) : Prop :=
  forall c, guard (act w) = Some c -> closed w !! c = Some false.

Definition Inv (w : world) : Prop :=
  scalingUpAndGuardMu (act w) = None -> consistent (scalingUp (act w)) (guard (act w)) w.

(** Where a goroutine is in a critical section of the mutex. *)
Inductive local :=
| Out                         (* not inside *)
| Inside                      (* inside, the protected state consistent *)
| Raised                      (* beginScalingUp: flag set *)
| Made (c : chan)             (* beginScalingUp: new channel *)
| Lowered                     (* endScalingUp: flag cleared *)
| LoweredRead (g : option chan)  (* endScalingUp: guard read *)
| Shut.                       (* endScalingUp: guard closed *)

Definition Knows (i : tid) (l : local) (w : world) : Prop :=
  match l with
  | Out => scalingUpAndGuardMu (act w) <> Some i
  | _ => scalingUpAndGuardMu (act w) = Some i /\
      match l with
      | Inside => consistent (scalingUp (act w)) (guard (act w)) w
      | Raised => scalingUp (act w) = true
      | Made c => scalingUp (act w) = true /\ closed w !! c = Some false
      | Lowered => scalingUp (act w) = false /\ guard_open w
      | LoweredRead g => scalingUp (act w) = false /\ guard (act w) = g /\ guard_open w
      | Shut => scalingUp (act w) = false
      | Out => True
      end
  end.

Definition closed_twice (m : string) : Prop := m = "close of closed channel"%string.

(** Operations that leave the scale-up state and the channels alone. *)
Definition elsewhere (o : op) : bool :=
  match o with
  | OMuLock | OMuUnlock | OScalingUpWrite _ | OGuardWrite _ | OMakeChan | OClose _ => false
  | _ => true
  end.

Abbreviation ok := (thread_ok Inv Knows).

Lemma elsewhere_act i o w x w' : elsewhere o = true -> perform i o w x = Some w' ->
  act w' = act w /\ closed w' = closed w.
Proof.
  destruct o; intros Ho H; try discriminate Ho; perform_cases H; done.
Qed.

Lemma Knows_act i l w w' : act w' = act w -> closed w' = closed w -> Knows i l w -> Knows i l w'.
Proof.
  intros Ha Hc. destruct l; simpl; unfold consistent, guard_open; by rewrite Ha, ?Hc.
Qed.

Lemma elsewhere_ok i l o : elsewhere o = true -> op_ok Inv Knows i l o (fun _ l' => l' = l).
Proof.
  intros Ho w x w' HI HR Hp. destruct (elsewhere_act _ _ _ _ _ Ho Hp) as [Ha Hc].
  split; [|split].
  - unfold Inv, consistent in *. by rewrite Ha, Hc.
  - intros j l' _. by apply Knows_act.
  - exists l. split; [by eapply Knows_act|done].
Qed.

(** Inside the critical section no other goroutine knows anything about the
    protected state. *)
Lemma others_out i w : scalingUpAndGuardMu (act w) = Some i ->
  forall j l w', j <> i -> Knows j l w -> scalingUpAndGuardMu (act w') <> Some j -> Knows j l w'.
Proof. intros Hm j l w' Hne HR Hm'. destruct l; [done|..]; destruct HR as [HR _]; congruence. Qed.

Ltac inside HR :=
  let Hm := fresh "Hm" in
  pose proof (proj1 HR) as Hm;
  split; [intros Hnone; cbn in Hnone; congruence|split;
    [intros j l' Hne Hj; eapply others_out; [exact Hm|done|exact Hj|cbn; congruence]|]].

Lemma lock_ok i : op_ok Inv Knows i Out OMuLock (fun _ l' => l' = Inside).
Proof.
  intros w [] w' HI HR Hp. cbn in Hp. destruct (scalingUpAndGuardMu (act w)) eqn:Hm; [done|].
  simplify_eq. split; [|split].
  - intros Hn. done.
  - intros j l Hne Hj. destruct l; cbn in *; [congruence|..]; destruct Hj; congruence.
  - exists Inside. split; [|done]. split; [done|]. exact (HI Hm).
Qed.

Lemma unlock_ok i : op_ok Inv Knows i Inside OMuUnlock (fun _ l' => l' = Out).
Proof.
  intros w [] w' HI [Hm Hc] Hp. cbn in Hp. rewrite Hm in Hp. simplify_eq. split; [|split].
  - intros _. exact Hc.
  - intros j l Hne Hj. destruct l; cbn in *; [done|..]; destruct Hj; congruence.
  - exists Out. done.
Qed.

Lemma raise_ok i : op_ok Inv Knows i Inside (OScalingUpWrite true) (fun _ l' => l' = Raised).
Proof.
  intros w [] w' HI HR Hp. cbn in Hp. simplify_eq. inside HR.
  exists Raised. by destruct HR.
Qed.

Lemma make_ok i : op_ok Inv Knows i Raised OMakeChan (fun c l' => l' = Made c).
Proof.
  intros w c w' HI HR Hp. cbn in Hp. case_decide; [|done]. simplify_eq. inside HR.
  eexists. split; [|done]. destruct HR as [? Hs]. split; [done|]. split; [done|].
  cbn. by rewrite list_lookup_middle.
Qed.

Lemma publish_ok i c : op_ok Inv Knows i (Made c) (OGuardWrite (Some c)) (fun _ l' => l' = Inside).
Proof.
  intros w [] w' HI HR Hp. cbn in Hp. simplify_eq. inside HR.
  exists Inside. split; [|done]. destruct HR as (? & Hs & Hc). split; [done|]. cbn. by rewrite Hs.
Qed.

Lemma lower_ok i : op_ok Inv Knows i Inside (OScalingUpWrite false) (fun _ l' => l' = Lowered).
Proof.
  intros w [] w' HI HR Hp. cbn in Hp. simplify_eq. inside HR.
  exists Lowered. split; [|done]. destruct HR as [? Hs]. split; [done|]. split; [done|].
  intros c Hc. cbn in *. unfold consistent in Hs. rewrite Hc in Hs. by destruct (scalingUp (act w)).
Qed.

Lemma read_guard_ok i : op_ok Inv Knows i Lowered OGuardRead (fun g l' => l' = LoweredRead g).
Proof.
  intros w g w' HI HR Hp. cbn in Hp. case_decide; [|done]. simplify_eq. inside HR.
  eexists. split; [|done]. by destruct HR as (? & ? & ?).
Qed.

Lemma close_ok i c : op_ok Inv Knows i (LoweredRead (Some c)) (OClose c) (fun ok l' => ok = true /\ l' = Shut).
Proof.
  intros w ok w' HI HR Hp. destruct HR as (Hm & Hs & Hg & Ho). pose proof (Ho c Hg) as Hc.
  cbn in Hp. unfold is_closed in Hp. rewrite Hc in Hp. destruct ok; simplify_eq/=.
  assert (HR : Knows i Shut w) by done. inside HR. by exists Shut.
Qed.

Lemma forget_ok i : op_ok Inv Knows i Shut (OGuardWrite None) (fun _ l' => l' = Inside).
Proof.
  intros w [] w' HI HR Hp. cbn in Hp. simplify_eq. inside HR.
  exists Inside. split; [|done]. destruct HR as [? Hs]. split; [done|]. cbn. by rewrite Hs.
Qed.

(** A goroutine that found no guard while ending leaves the state consistent. *)
Lemma unlock_nil_ok i : op_ok Inv Knows i (LoweredRead None) OMuUnlock (fun _ l' => l' = Out).
Proof.
  intros w [] w' HI HR Hp. destruct HR as (Hm & Hs & Hg & Ho). cbn in Hp. rewrite Hm in Hp. simplify_eq.
  split; [|split].
  - intros _. cbn. by rewrite Hs, Hg.
  - intros j l Hne Hj. destruct l; cbn in *; [done|..]; destruct Hj; congruence.
  - exists Out. done.
Qed.

(** ** The three critical sections *)

Lemma guard_beginScalingUp i (Q : local -> outcome unit -> Prop) : Q Out (Done tt) -> ok i Out beginScalingUp Q.
Proof.
  intros HQ. cbn.
  eapply op_ok_mono; [|apply lock_ok]. intros _ ? ->.
  eapply op_ok_mono; [|apply raise_ok]. intros _ ? ->.
  eapply op_ok_mono; [|apply make_ok]. intros c ? ->.
  eapply op_ok_mono; [|apply publish_ok]. intros [] ? ->.
  eapply op_ok_mono; [|apply unlock_ok]. intros _ ? ->. done.
Qed.

Lemma guard_endScalingUp i (Q : local -> outcome unit -> Prop) :
  Q Out (Done tt) -> Q Out (Crash "close of nil channel") -> ok i Out endScalingUp Q.
Proof.
  intros HQ HQ'. cbn.
  eapply op_ok_mono; [|apply lock_ok]. intros _ ? ->.
  eapply op_ok_mono; [|apply lower_ok]. intros _ ? ->.
  eapply op_ok_mono; [|apply read_guard_ok]. intros g ? ->.
  destruct g as [c|]; cbn.
  - eapply op_ok_mono; [|apply close_ok]. intros ? ? [-> ->]. cbn.
    eapply op_ok_mono; [|apply forget_ok]. intros [] ? ->.
    eapply op_ok_mono; [|apply unlock_ok]. intros _ ? ->. done.
  - eapply op_ok_mono; [|apply unlock_nil_ok]. by intros _ ? ->.
Qed.

Lemma isScalingUp_ok i Q : (forall r, Q Out (Done r)) -> ok i Out isScalingUp Q.
Proof.
  intros HQ. cbn.
  eapply op_ok_mono; [|apply lock_ok]. intros _ ? ->.
  eapply op_ok_mono; [|by apply elsewhere_ok]. intros b ? ->.
  eapply op_ok_mono; [|by apply elsewhere_ok]. intros g ? ->.
  eapply op_ok_mono; [|apply unlock_ok]. intros _ ? ->. done.
Qed.

(** ** The goroutines *)

Section Goroutines.
Context `{K8s : Kubernetes} `{EU : ErrUtil} `{GS : GrpcStatus} `{Wait : WaitPkg} {WL : WaitPkgLaws} `{EP : ExtProcDesc}.

#[local] Abbreviation calm i := (calm Inv Knows closed_twice i Out).

Ltac neutral :=
  apply (calm_uses _ _ _ _ _ elsewhere);
    [eapply uses_mono; [|by auto with golib]; ops_sub| |intros o; apply elsewhere_ok].

Lemma guard_external i o : external o = true -> calm i _ (eff o).
Proof. intros Ho. apply calm_eff, elsewhere_ok. by destruct o. Qed.

Lemma guard_ResetTicker i d : calm i _ (ResetTicker d).
Proof. neutral. unfold ResetTicker, TickerReset. by destruct (d <=? 0). Qed.

#[local] Instance guard_sections i : Sections (calm i).
Proof. apply (plain_sections (guard_ResetTicker i)); [intros o Ho _; by apply guard_external|done]. Qed.

#[local] Instance guard_more_sections i : MoreSections (calm i).
Proof.
  apply (plain_more_sections (guard_ResetTicker i)); [intros o Ho _; by apply guard_external| |by neutral..|by apply isScalingUp_ok].
  intros B f. apply (calm_PoolGet _ _ _ _ _ elsewhere); [intros o; apply elsewhere_ok|ops_sub|done].
Qed.

#[local] Instance guard_pool_writes i : PoolWrites (calm i).
Proof. split. intros p. by neutral. Qed.

Lemma guard_scaleInferencePool i ns d gr gvr :
  numReplicas d = 1 -> calm i _ (scaleInferencePool ns d gr gvr).
Proof.
  intros Hd. rewrite scaleInferencePool_body. apply ok_bind; [by apply guard_beginScalingUp|]. intros _.
  apply ok_defer; [|by apply guard_endScalingUp]. by apply scale_body_ok.
Qed.

Lemma guard_pool_ok t0 ts c :
  Forall goroutine ts -> reachable (Running (init_world t0) ts) c -> pool_ok Inv Knows closed_twice c.
Proof.
  intros Hts Hr. eapply pool_invariant; [..|exact Hr]; try done; [by intros ? []..|].
  split; [done|]. intros i t Hi. exists Out. split; [done|].
  apply calm_no_bad, goroutine_ok; [done|intros; by apply guard_external|by apply elected_ok, guard_external|
    apply guard_scaleInferencePool|].
  by apply (Forall_lookup_1 _ _ _ _ Hts Hi).
Qed.

(** C5.  The scale-up state.  In every state reachable by any number of
    goroutines of the process in any interleaving, whenever
    [scalingUpAndGuardMu] is free: [scalingUp] is set exactly when there is a
    guard, and the guard is a channel that is still open, so a request that
    finds a scale-up in progress always has something to wait for; and no
    goroutine ever panics by closing a channel twice. *)
Theorem scale_up_state_consistent t0 ts c :
  Forall goroutine ts -> reachable (Running (init_world t0) ts) c ->
  match c with
  | Running w _ => scalingUpAndGuardMu (act w) = None ->
      (scalingUp (act w) = true <-> guard (act w) <> None) /\
      (forall ch, guard (act w) = Some ch -> closed w !! ch = Some false)
  | Crashed m => m <> "close of closed channel"%string
  end.
Proof.
  intros Hts Hr. pose proof (guard_pool_ok _ _ _ Hts Hr) as H.
  destruct c as [w ts'|m]; [|exact H]. destruct H as [HI _]. intros Hm. specialize (HI Hm).
  unfold consistent in HI. destruct (scalingUp (act w)), (guard (act w)); naive_solver.
Qed.

End Goroutines.

(** The pool is read from the API; every other answer leads to a scale-up
    whose update fails. *)
Definition conflict_env (o : op) : ans o :=
  match o return ans o with
  | OReaderGetV1 _ => Ok demo_pool
  | OScaleUpdate _ _ _ => Err (EApi "Conflict" "the object has been modified")
  | o => headers_env o
  end.

Definition two_streams : proc :=
  Running (init_world 0) [demo_stream 1; demo_stream 1; demo_reconciler [demo_nn]].

(** Both streams find no scale-up in progress, then both begin one. *)
Definition both_begin : list sched :=
  burst conflict_env 2 5 ++ burst conflict_env 0 14 ++ burst conflict_env 1 14 ++
  burst conflict_env 0 5 ++ burst conflict_env 1 5.

(** The invariant in the middle of the two scale-ups: the second guard is
    the one in place. *)
Lemma scale_up_state_consistent_witness :
  match run_sched both_begin two_streams with
  | Some (Running w _) => scalingUp (act w) = true /\ closed w !! 1%nat = Some false
  | _ => False
  end.
Proof.
  assert (Hv : match run_sched both_begin two_streams with
    | Some (Running w _) => act w = MkActivator true (Some 1%nat) None | _ => False end)
    by (vm_compute; reflexivity).
  destruct (run_sched both_begin two_streams) as [c|] eqn:Hc; [|exact Hv].
  pose proof (@scale_up_state_consistent demo_k8s demo_errutil demo_status ref_wait ref_wait_laws demo_desc 0
    [demo_stream 1; demo_stream 1; demo_reconciler [demo_nn]] c
    ltac:(repeat constructor) (run_sched_reachable both_begin two_streams c Hc)) as H.
  destruct c as [w ts|m]; [|exact Hv]. rewrite Hv in *. split; [reflexivity|].
  apply (proj2 (H eq_refl)). reflexivity.
Defined.

(** C23.  Overlapping scale-ups end the process.  Two requests that arrive
    before either has begun to scale up both find [scalingUp] unset (the test
    and [beginScalingUp] are separate critical sections), both begin, and the
    second guard replaces the first; the first to end closes and forgets that
    guard, and the second to end closes a nil channel: starting from the
    initial state, with the pool set by the reconciler, the process reaches
    the panic "close of nil channel". *)
Theorem overlapping_scale_ups_crash : reachable two_streams (Crashed "close of nil channel").
Proof.
  apply (run_sched_reachable (both_begin ++ burst conflict_env 0 7 ++ burst conflict_env 1 6)).
  vm_compute. reflexivity.
Qed.

End Guard.

(** ** One stream at a time *)

Module OneStream.
Section OneStream.
Context (s : tid).

(** What the only stream knows: it is not scaling up; it made a channel; it
    published it. *)
Inductive local :=
| Down
| Made (c : chan)
| Up (c : chan).

Definition Knows (i : tid) (l : local) (w : world) : Prop :=
  i = s ->
  match l with
  | Down => True
  | Made c => closed w !! c = Some false
  | Up c => guard (act w) = Some c /\ closed w !! c = Some false
  end.

Definition any_world (w : world) : Prop := True.

Abbreviation ok := (thread_ok any_world Knows).

Definition guard_panic (m : string) : Prop :=
  m = "close of nil channel"%string \/ m = "close of closed channel"%string.

(** Operations that keep the guard and the channels. *)
Definition keeps (o : op) : bool :=
  match o with OGuardWrite _ | OMakeChan | OClose _ => false | _ => true end.

Lemma keeps_perform i o w x w' : keeps o = true -> perform i o w x = Some w' ->
  guard (act w') = guard (act w) /\ closed w' = closed w.
Proof.
  destruct o; intros Ho H; try discriminate Ho; perform_cases H; done.
Qed.

Lemma keeps_ok i l o : keeps o = true -> op_ok any_world Knows i l o (fun _ l' => l' = l).
Proof.
  intros Ho w x w' _ HR Hp. destruct (keeps_perform _ _ _ _ _ Ho Hp) as [Hg Hc].
  split; [done|]. split.
  - intros j l' _ Hj Hs. specialize (Hj Hs). by rewrite Hg, Hc.
  - exists l. split; [|done]. intros Hs. specialize (HR Hs). by rewrite Hg, Hc.
Qed.

Lemma foreign i j l w : i = s -> j <> i -> Knows j l w.
Proof. intros -> Hne ->. done. Qed.

Lemma own_make_ok : op_ok any_world Knows s Down OMakeChan (fun c l' => l' = Made c).
Proof.
  intros w c w' _ _ Hp. cbn in Hp. case_decide; [|done]. simplify_eq.
  split; [done|]. split; [intros; by eapply foreign|]. eexists. split; [|done].
  intros _. cbn. by rewrite list_lookup_middle.
Qed.

Lemma own_publish_ok c : op_ok any_world Knows s (Made c) (OGuardWrite (Some c)) (fun _ l' => l' = Up c).
Proof.
  intros w x w' _ HR Hp. cbn in Hp. simplify_eq. specialize (HR eq_refl).
  split; [done|]. split; [intros; by eapply foreign|]. by exists (Up c).
Qed.

Lemma own_read_ok c : op_ok any_world Knows s (Up c) OGuardRead (fun g l' => g = Some c /\ l' = Up c).
Proof.
  intros w g w' _ HR Hp. cbn in Hp. case_decide; [|done]. simplify_eq. destruct (HR eq_refl) as [Hg Hc].
  split; [done|]. split; [intros; by eapply foreign|]. by exists (Up c).
Qed.

Lemma own_close_ok c : op_ok any_world Knows s (Up c) (OClose c) (fun b l' => b = true /\ l' = Down).
Proof.
  intros w b w' _ HR Hp. destruct (HR eq_refl) as [Hg Hc]. cbn in Hp. unfold is_closed in Hp.
  rewrite Hc in Hp. destruct b; simplify_eq/=.
  split; [done|]. split; [intros; by eapply foreign|]. by exists Down.
Qed.

Lemma own_forget_ok : op_ok any_world Knows s Down (OGuardWrite None) (fun _ l' => l' = Down).
Proof.
  intros w b w' _ _ Hp. split; [done|]. split; [intros; by eapply foreign|]. by exists Down.
Qed.

Lemma own_beginScalingUp (Q : local -> outcome unit -> Prop) :
  (forall c, Q (Up c) (Done tt)) -> ok s Down beginScalingUp Q.
Proof.
  intros HQ. cbn.
  eapply op_ok_mono; [|by apply keeps_ok]. intros _ ? ->.
  eapply op_ok_mono; [|by apply keeps_ok]. intros _ ? ->.
  eapply op_ok_mono; [|apply own_make_ok]. intros c ? ->.
  eapply op_ok_mono; [|apply own_publish_ok]. intros [] ? ->.
  eapply op_ok_mono; [|by apply keeps_ok]. intros _ ? ->. done.
Qed.

Lemma own_endScalingUp c (Q : local -> outcome unit -> Prop) :
  Q Down (Done tt) -> ok s (Up c) endScalingUp Q.
Proof.
  intros HQ. cbn.
  eapply op_ok_mono; [|by apply keeps_ok]. intros _ ? ->.
  eapply op_ok_mono; [|by apply keeps_ok]. intros _ ? ->.
  eapply op_ok_mono; [|apply own_read_ok]. intros g ? [-> ->]. cbn.
  eapply op_ok_mono; [|apply own_close_ok]. intros ? ? [-> ->]. cbn.
  eapply op_ok_mono; [|apply own_forget_ok]. intros [] ? ->.
  eapply op_ok_mono; [|by apply keeps_ok]. intros _ ? ->. done.
Qed.

#[local] Abbreviation calm i l := (calm any_world Knows guard_panic i l).

Ltac neutral :=
  apply (calm_uses _ _ _ _ _ keeps);
    [eapply uses_mono; [|by auto with golib]; ops_sub| |intros o; apply keeps_ok].

Lemma not_guard_panic m : m <> "close of nil channel"%string -> m <> "close of closed channel"%string ->
  ~ guard_panic m.
Proof. by intros ? ? []. Qed.

Lemma own_external i l o : external o = true -> calm i l _ (eff o).
Proof. intros Ho. apply calm_eff, keeps_ok. by destruct o. Qed.

Lemma own_ResetTicker i l d : calm i l _ (ResetTicker d).
Proof.
  neutral. unfold ResetTicker, TickerReset.
  destruct (d <=? 0); [cbn; intros; by apply not_guard_panic|done].
Qed.

#[local] Instance one_stream_sections i l : Sections (calm i l).
Proof.
  apply (plain_sections (own_ResetTicker i l)); [intros o Ho _; by apply own_external|].
  split; [done|by apply not_guard_panic].
Qed.

#[local] Instance one_stream_more_sections i l : MoreSections (calm i l).
Proof.
  apply (plain_more_sections (own_ResetTicker i l)); [intros o Ho _; by apply own_external| |by neutral..]. intros B f.
  apply (calm_PoolGet _ _ _ _ _ keeps); [intros o; apply keeps_ok|ops_sub|by apply not_guard_panic].
Qed.

#[local] Instance one_stream_pool_writes i l : PoolWrites (calm i l).
Proof. split. intros p. by neutral. Qed.

Context `{K8s : Kubernetes} `{EU : ErrUtil} `{GS : GrpcStatus} `{Wait : WaitPkg} {WL : WaitPkgLaws} `{EP : ExtProcDesc}.

Lemma own_scaleInferencePool ns d gr gvr :
  numReplicas d = 1 -> calm s Down _ (scaleInferencePool ns d gr gvr).
Proof.
  intros Hd. rewrite scaleInferencePool_body. apply thread_ok_bind, own_beginScalingUp. intros c.
  apply thread_ok_defer. eapply thread_ok_mono; [|by apply (scale_body_ok (accepted := calm s (Up c)))].
  intros l r [-> Hr]. apply own_endScalingUp. by destruct r.
Qed.

(** One stream at a time is safe.  When a single goroutine serves
    requests, whatever it does and however the other goroutines
    interleave with it, ending a scale-up never panics: every guard that is
    closed is the one this stream published, and is still open. *)
Theorem one_stream_guard_safe t0 ts n c :
  ts !! s = Some (stream n) -> (forall j t, ts !! j = Some t -> j <> s -> background t) ->
  reachable (Running (init_world t0) ts) c ->
  c <> Crashed "close of nil channel" /\ c <> Crashed "close of closed channel".
Proof.
  intros Hs Hb Hr.
  assert (H : pool_ok any_world Knows guard_panic c).
  { eapply pool_invariant; [..|exact Hr]; try done.
    split; [done|]. intros i t Hi. exists Down. split; [done|].
    apply calm_no_bad. destruct (decide (i = s)) as [->|Hne].
    - rewrite Hs in Hi. injection Hi as <-. apply stream_ok, own_scaleInferencePool.
    - apply background_ok; [split; [done|by apply not_guard_panic]|intros; by apply own_external|
      by apply elected_ok, own_external|by eapply Hb]. }
  destruct c as [w ts'|m]; [done|]. simpl in H. unfold guard_panic in H. split; intros [= ->]; tauto.
Qed.

End OneStream.

(** A stream, a reconciler and a deactivator, up to the end of a scale-up. *)
Lemma one_stream_guard_safe_witness :
  match run_sched (burst Guard.conflict_env 1 5 ++ burst Guard.conflict_env 0 26)
    (Running (init_world 0) [demo_stream 1; demo_reconciler [demo_nn]; demo_deactivator 1]) with
  | Some c => c <> Crashed "close of nil channel" /\ c <> Crashed "close of closed channel"
  | None => False
  end.
Proof.
  set (c0 := Running (init_world 0) [demo_stream 1; demo_reconciler [demo_nn]; demo_deactivator 1]).
  set (ss := burst Guard.conflict_env 1 5 ++ burst Guard.conflict_env 0 26).
  assert (Hv : is_nil (run_sched ss c0) = false) by (vm_compute; reflexivity).
  destruct (run_sched ss c0) as [c|] eqn:Hc; [|discriminate Hv].
  apply (@one_stream_guard_safe 0%nat demo_k8s demo_errutil demo_status ref_wait ref_wait_laws demo_desc 0
    [demo_stream 1; demo_reconciler [demo_nn]; demo_deactivator 1] 1); [reflexivity| |].
  - intros [|[|[|j]]] t Hj Hne; [by destruct Hne|..|discriminate Hj].
    + change (Some (demo_reconciler [demo_nn]) = Some t) in Hj.
      rewrite <- (Some_inj _ _ Hj). apply b_reconciler.
    + change (Some (demo_deactivator 1) = Some t) in Hj.
      rewrite <- (Some_inj _ _ Hj). apply b_deactivator.
  - exact (run_sched_reachable _ _ _ Hc).
Defined.

End OneStream.
