(* ===== verification/PoolLock.v ===== *)
(** * The locks under concurrency

    Three results about [datastore.poolMu] and [Activator.scalingUpAndGuardMu].
    Every goroutine accesses the fields a lock protects only while holding
    it, holds no lock while it waits for anything outside the process, and
    releases every lock on every exit.  The two reads of [PoolGet] see the
    same pool.  But [PoolGet] takes the read lock twice, and a writer that
    comes in between blocks the process for ever. *)

From S2P Require Import Prelude GoTime Prog Effects Machine Datastore RequestControl Instances Activator Admission Deactivator Handlers Controller Health Goroutines.
#[local] Open Scope go_scope.

(** ** Lock discipline *)

Module Discipline.

(** The locks a goroutine holds: read locks of [poolMu], its write lock
    (announced or acquired), and [scalingUpAndGuardMu]. *)
Inductive write_lock := WNone | WAnnounced | WHeld.
Record held := MkHeld { h_reads : nat; h_write : write_lock; h_mu : bool }.

Definition none_held : held := MkHeld 0 WNone false.

(** The events allowed while holding locks: each shared field under its lock
    ([pool] and [ticker] under [poolMu], written only under the write lock;
    [scalingUp] and [guard] under [scalingUpAndGuardMu]), one lock at a time,
    nothing external under any lock. *)
Definition delta (h : held) (e : evt) : option held :=
  match ev_op e, h with
  | OPoolRLock, MkHeld n WNone false => Some (MkHeld (S n) WNone false)
  | OPoolRUnlock, MkHeld (S n) WNone false => Some (MkHeld n WNone false)
  | OPoolLockAnnounce, MkHeld 0 WNone false => Some (MkHeld 0 WAnnounced false)
  | OPoolLockAcquire, MkHeld 0 WAnnounced false => Some (MkHeld 0 WHeld false)
  | OPoolUnlock, MkHeld 0 WHeld false => Some none_held
  | (OPoolRead | OTickerReset _ | OTickerStop), MkHeld (S _) WNone false => Some h
  | OPoolWrite _, MkHeld 0 WHeld false => Some h
  | OMuLock, MkHeld 0 WNone false => Some (MkHeld 0 WNone true)
  | OMuUnlock, MkHeld 0 WNone true => Some none_held
  | (OScalingUpRead | OScalingUpWrite _ | OGuardRead | OGuardWrite _ | OMakeChan | OClose _),
      MkHeld 0 WNone true => Some h
  | o, MkHeld 0 WNone false => if external o then Some h else None
  | _, _ => None
  end.

Abbreviation ok := (balanced delta none_held).

Lemma discipline_external o : external o = true -> ok _ (eff o).
Proof. by destruct o. Qed.

Lemma discipline_ResetTicker d : ok _ (ResetTicker d).
Proof. unfold ResetTicker, TickerReset. by destruct (d <=? 0). Qed.

#[local] Instance discipline_sections : Sections ok.
Proof. apply (plain_sections discipline_ResetTicker); [intros o Ho _; by apply discipline_external|done]. Qed.

#[local] Instance discipline_more_sections : MoreSections ok.
Proof.
  apply (plain_more_sections discipline_ResetTicker); [intros o Ho _; by apply discipline_external| |done..].
  intros B f Hf. apply ok_bind; [|intros [p e]; by apply Hf]. cbn. by intros ? ? [] ?.
Qed.

#[local] Instance discipline_pool_writes : PoolWrites ok.
Proof. done. Qed.

Lemma discipline_endScalingUp : ok _ endScalingUp.
Proof. cbn. intros _ _ [c|]; cbn; [|done]. by intros []. Qed.

Section Discipline.
Context `{K8s : Kubernetes} `{EU : ErrUtil} `{GS : GrpcStatus} `{Wait : WaitPkg} {WL : WaitPkgLaws} `{EP : ExtProcDesc}.

Lemma discipline_scaleInferencePool ns d gr gvr : numReplicas d = 1 -> ok _ (scaleInferencePool ns d gr gvr).
Proof.
  intros Hd. rewrite scaleInferencePool_body. apply ok_bind; [done|]. intros _.
  apply ok_defer; [by apply scale_body_ok|apply discipline_endScalingUp].
Qed.

Lemma goroutine_disciplined t : goroutine t -> ok _ t.
Proof. by apply goroutine_ok; [..|apply discipline_scaleInferencePool]. Qed.

(** C6.  Lock discipline.  In every run of every goroutine of the process,
    whatever it is answered and however it ends, a panic included: the pool
    and the ticker are accessed only under [poolMu], the pool is written only
    under its write lock, [scalingUp] and [guard] are accessed only under
    [scalingUpAndGuardMu], so there is no data race on them; the two locks are
    never held together; no lock is held while the goroutine sleeps, polls,
    calls the Kubernetes API or uses the stream; and at the end every lock has
    been released as often as it was taken. *)
Theorem locks_disciplined t tr r :
  goroutine t -> exec t tr r -> accepts delta none_held tr = Some none_held.
Proof.
  intros Ht He. destruct (mon_exec _ _ _ _ _ _ (goroutine_disciplined t Ht) He) as (h & Ha & ->). done.
Qed.

End Discipline.

Lemma locks_disciplined_witness :
  accepts delta none_held (fst (run_with headers_env (demo_stream 2))) = Some none_held /\
  length (fst (run_with headers_env (demo_stream 2))) = 74%nat.
Proof.
  split; [|vm_compute; reflexivity].
  apply (@locks_disciplined demo_k8s demo_errutil demo_status ref_wait ref_wait_laws demo_desc (demo_stream 2) _
    (snd (run_with headers_env (demo_stream 2)))); [apply g_stream|apply run_with_exec].
Defined.

End Discipline.

(** ** The two reads of [PoolGet] *)

Module PoolRead.

(** The lock excludes readers and a writer. *)
Definition Inv (w : world) : Prop :=
  match rw_writer (poolMu (ds w)) with WriterInside _ => rw_readers (poolMu (ds w)) = [] | _ => True end.

(** What a goroutine knows: nothing; that it holds [S n] read locks, and
    perhaps that there is a pool; that it is the writer. *)
Inductive local := Free | Reading (n : nat) (synced : bool) | Writing.

Definition Knows (i : tid) (l : local) (w : world) : Prop :=
  match l with
  | Free => True
  | Reading n synced =>
      (n < holds i (rw_readers (poolMu (ds w))))%nat /\ (synced = true -> pool (ds w) <> None)
  | Writing => rw_writer (poolMu (ds w)) = WriterInside i
  end.

(** Operations that leave the lock and the pool alone. *)
Definition aside (o : op) : bool :=
  match o with
  | OPoolRLock | OPoolRUnlock | OPoolLockAnnounce | OPoolLockAcquire | OPoolUnlock | OPoolWrite _ => false
  | _ => true
  end.

Lemma aside_perform i o w x w' : aside o = true -> perform i o w x = Some w' ->
  poolMu (ds w') = poolMu (ds w) /\ pool (ds w') = pool (ds w).
Proof.
  destruct o; intros Ho H; try discriminate Ho; perform_cases H; done.
Qed.

Lemma Knows_same i l w w' : poolMu (ds w') = poolMu (ds w) -> pool (ds w') = pool (ds w) ->
  Knows i l w -> Knows i l w'.
Proof. intros Hm Hp. destruct l; simpl; by rewrite ?Hm, ?Hp. Qed.

Lemma aside_ok i l o : aside o = true -> op_ok Inv Knows i l o (fun _ l' => l' = l).
Proof.
  intros Ho w x w' HI HR Hp. destruct (aside_perform _ _ _ _ _ Ho Hp) as [Hm Hpl].
  split; [|split].
  - unfold Inv in *. by rewrite Hm.
  - intros j l' _. by apply Knows_same.
  - exists l. split; [by eapply Knows_same|done].
Qed.

(** A step of the lock: destruct the lock and what the others know. *)
Ltac lock_step w Hp :=
  destruct w as [t [[rs wr] p tk] a cl cd le]; cbn in Hp;
  unfold rw_RLock, rw_RUnlock, rw_Announce, rw_Acquire, rw_Unlock in Hp; cbn in Hp;
  repeat match type of Hp with
  | context [match ?x with _ => _ end] => destruct x eqn:?; cbn in Hp; try discriminate Hp
  end; simplify_eq.

(** What the readers other than [i] know survives a change of [i]. *)
Lemma rlock_ok i l : op_ok Inv Knows i l OPoolRLock
  (fun _ l' => l' = match l with Reading n b => Reading (S n) b | _ => Reading 0 false end).
Proof.
  intros w [] w' HI HR Hp. lock_step w Hp. split; [done|]. split.
  - intros j [|n b|] Hne; cbn; [done| |done]. rewrite decide_False by done. done.
  - eexists. split; [|reflexivity]. destruct l as [|n b|]; cbn in *; [| |done].
    + split; [case_decide; lia|done].
    + rewrite decide_True by done. destruct HR. split; [lia|done].
Qed.

Lemma runlock_ok i n b : op_ok Inv Knows i (Reading n b) OPoolRUnlock
  (fun _ l' => l' = match n with O => Free | S n' => Reading n' b end).
Proof.
  intros w [] w' HI HR Hp. lock_step w Hp. split; [|split].
  - unfold Inv in *. cbn in *. destruct wr; try done. by rewrite HI.
  - intros j [|n' b'|] Hne; cbn; [done| |done]. by rewrite holds_remove_ne.
  - eexists. split; [|reflexivity]. destruct n as [|n]; cbn in *; [done|].
    rewrite holds_remove_eq. destruct HR. split; [lia|done].
Qed.

Lemma read_ok i n b : op_ok Inv Knows i (Reading n b) OPoolRead
  (fun p l' => l' = Reading n (negb (is_nil p)) /\ (b = true -> p <> None)).
Proof.
  intros w p w' HI HR Hp. cbn in Hp. case_decide as Hpool; [|done]. simplify_eq.
  split; [done|]. split; [done|]. eexists. split; [|split; [reflexivity|apply HR]].
  split; [apply HR|]. by destruct (pool (ds w')).
Qed.

Lemma announce_ok i : op_ok Inv Knows i Free OPoolLockAnnounce (fun _ l' => l' = Free).
Proof.
  intros w [] w' HI HR Hp. lock_step w Hp. split; [done|]. split; [|by exists Free].
  by intros j [|n b|] Hne.
Qed.

Lemma acquire_ok i : op_ok Inv Knows i Free OPoolLockAcquire (fun _ l' => l' = Writing).
Proof.
  intros w [] w' HI HR Hp. lock_step w Hp. split; [done|]. split; [|by exists Writing].
  intros j [|n b|] Hne; cbn; [done|lia|done].
Qed.

Lemma write_ok i p : op_ok Inv Knows i Writing (OPoolWrite p) (fun _ l' => l' = Writing).
Proof.
  intros w [] w' HI HR Hp. cbn in Hp. simplify_eq. split; [done|]. split; [|by exists Writing].
  intros j [|n b|] Hne; cbn; [done| |done]. unfold Inv in HI. rewrite HR in HI. rewrite HI. cbn. lia.
Qed.

Lemma wunlock_ok i : op_ok Inv Knows i Writing OPoolUnlock (fun _ l' => l' = Free).
Proof.
  intros w [] w' HI HR Hp. lock_step w Hp. split; [done|]. split; [|by exists Free].
  intros j [|n b|] Hne; cbn in *; [done|done|congruence].
Qed.

(** ** The critical sections *)

Definition is_nil_deref (m : string) : Prop := m = nil_deref.

Section Logic.
Context (bad : string -> Prop) (Hbad : forall m, bad m -> is_nil_deref m).
Abbreviation ok := (calm Inv Knows bad).

Lemma not_bad m : m <> nil_deref -> ~ bad m.
Proof. by intros Hm ?%Hbad. Qed.

(** [PoolGet] never returns neither a pool nor an error. *)
Lemma PoolGet_never_nil_nil i (Q : local -> outcome (option v1.InferencePool * option error) -> Prop) :
  (forall p e, (p = None -> e <> None) -> Q Free (Done (p, e))) -> thread_ok Inv Knows i Free PoolGet Q.
Proof.
  intros HQ. cbn.
  eapply op_ok_mono; [|apply rlock_ok]. intros _ ? ->.
  eapply op_ok_mono; [|apply rlock_ok]. intros _ ? ->.
  eapply op_ok_mono; [|apply read_ok]. intros p ? [-> _].
  eapply op_ok_mono; [|apply runlock_ok]. intros _ ? ->. destruct p as [p|]; cbn.
  - eapply op_ok_mono; [|apply read_ok]. intros p' ? [-> Hp'].
    eapply op_ok_mono; [|apply runlock_ok]. intros _ ? ->. apply HQ. intros ->. by destruct (Hp' eq_refl).
  - eapply op_ok_mono; [|apply runlock_ok]. intros _ ? ->. by apply HQ.
Qed.

(** A section that takes the read lock once. *)
Lemma rlocked_ok i {A} (p : go A) : uses aside p -> panics (fun m => ~ bad m) p ->
  ok i Free _ (eff OPoolRLock ;; defer (eff OPoolRUnlock) p).
Proof.
  intros Hu Hp. cbn. eapply op_ok_mono; [|apply rlock_ok]. intros _ ? ->. apply thread_ok_defer.
  eapply thread_ok_mono; [|apply (calm_uses Inv Knows bad i (Reading 0 false) aside p Hu Hp);
    intros o; apply aside_ok].
  intros l r [-> Hr]. cbn. eapply op_ok_mono; [|apply runlock_ok]. intros _ ? ->. by destruct r.
Qed.

Lemma pool_ResetTicker i d : ok i Free _ (ResetTicker d).
Proof. unfold ResetTicker, TickerReset. by apply rlocked_ok; destruct (d <=? 0); [| |apply not_bad|]. Qed.

Lemma pool_external i o : external o = true -> ok i Free _ (eff o).
Proof. intros Ho. apply calm_eff, aside_ok. by destruct o. Qed.

#[local] Instance pool_sections i : Sections (ok i Free).
Proof.
  apply (plain_sections (pool_ResetTicker i)); [intros o Ho _; by apply pool_external|].
  split; [done|by apply not_bad].
Qed.

#[local] Instance pool_writes i : PoolWrites (ok i Free).
Proof.
  split. intros p. cbn. eapply op_ok_mono; [|apply announce_ok]. intros _ ? ->.
  eapply op_ok_mono; [|apply acquire_ok]. intros _ ? ->.
  eapply op_ok_mono; [|apply write_ok]. intros [] ? ->.
  eapply op_ok_mono; [|apply wunlock_ok]. by intros _ ? ->.
Qed.

#[local] Instance pool_more_sections i : MoreSections (ok i Free).
Proof.
  apply (plain_more_sections (pool_ResetTicker i)); [intros o Ho _; by apply pool_external|..].
  - intros B f Hf. apply thread_ok_bind, PoolGet_never_nil_nil. intros p e Hpe. apply Hf.
    intros Hp He. by destruct (Hpe Hp).
  - by apply rlocked_ok.
  - by apply rlocked_ok.
  - by apply rlocked_ok.
  - eapply (calm_uses _ _ _ _ _ aside); [|by cbn|intros o; apply aside_ok].
    eapply uses_mono; [|apply isScalingUp_uses]. ops_sub.
Qed.

Section Walked.
Context `{K8s : Kubernetes} `{EU : ErrUtil} `{GS : GrpcStatus} `{Wait : WaitPkg} {WL : WaitPkgLaws} `{EP : ExtProcDesc}.

Lemma pool_scaleInferencePool i ns d gr gvr :
  numReplicas d = 1 -> ok i Free _ (scaleInferencePool ns d gr gvr).
Proof.
  intros Hd. rewrite scaleInferencePool_body.
  apply ok_bind; [|intros _; apply ok_defer; [by apply scale_body_ok|]].
  - apply (calm_uses _ _ _ _ _ aside); [|by cbn|intros o; apply aside_ok].
    eapply uses_mono; [|apply beginScalingUp_uses]. ops_sub.
  - apply (calm_uses _ _ _ _ _ aside); [| |intros o; apply aside_ok].
    + eapply uses_mono; [|apply endScalingUp_uses]. ops_sub.
    + cbn. intros _ _ [c|]; cbn; [|intros _; by apply not_bad]. intros []; cbn; [done|intros _; by apply not_bad].
Qed.

Lemma pool_stream_ok i n : ok i Free _ (stream n).
Proof. apply stream_ok, pool_scaleInferencePool. Qed.

Lemma pool_reconciler_ok i g reqs : ok i Free _ (reconciler g reqs).
Proof. apply reconciler_ok. Qed.

Lemma pool_health_check_ok i le svc : ok i Free _ (health_check le svc).
Proof. apply health_check_ok. Qed.

Lemma pool_health_list_ok i le : ok i Free _ (health_list le).
Proof. apply health_list_ok. Qed.

Lemma pool_elected_ok i : ok i Free _ elected_goroutine.
Proof. by apply elected_ok, calm_eff, aside_ok. Qed.

Lemma pool_goroutine_ok i t : ~ bad nil_deref -> goroutine t -> ok i Free _ t.
Proof.
  intros Hnil. apply goroutine_ok; [done|..].
  - intros ns gr s. by apply calm_eff, aside_ok.
  - apply pool_elected_ok.
  - apply pool_scaleInferencePool.
Qed.

End Walked.
End Logic.

Section Theorems.
Context `{K8s : Kubernetes} `{EU : ErrUtil} `{GS : GrpcStatus} `{Wait : WaitPkg} {WL : WaitPkgLaws} `{EP : ExtProcDesc}.

(** [PoolGet] under concurrency.  With any number of streams,
    reconcilers and health checks in any interleaving, no goroutine ever dereferences a nil
    pool: [PoolGet] tests for the pool and reads it in two steps, but the read
    lock keeps a reconciler from clearing the pool in between, so it returns a
    pool whenever it returns no error. *)
Theorem pool_read_is_atomic t0 ts c :
  Forall (fun t => (exists n, t = stream n) \/ (exists g reqs, t = reconciler g reqs) \/
                   (exists le svc, t = health_check le svc)) ts ->
  reachable (Running (init_world t0) ts) c ->
  c <> Crashed "invalid memory address or nil pointer dereference".
Proof.
  intros Hts Hr ->.
  assert (H : pool_ok Inv Knows is_nil_deref (Crashed nil_deref)); [|by apply H].
  eapply pool_invariant; [..|exact Hr]; try done; [by intros ? []..|].
  split; [done|]. intros i t Hi. exists Free. split; [done|]. apply calm_no_bad.
  destruct (Forall_lookup_1 _ _ _ _ Hts Hi) as [(n & ->)|[(g & reqs & ->)|(le & svc & ->)]].
  - by apply pool_stream_ok.
  - by apply pool_reconciler_ok.
  - by apply pool_health_check_ok.
Qed.

End Theorems.

(** A stream reads the pool while the reconciler sets it, reads it again
    while the reconciler is about to clear it. *)
Definition gone_env (o : op) : ans o :=
  match o return ans o with
  | OReaderGetV1 _ => Err (EApi "NotFound" "gone")
  | o => headers_env o
  end.

Definition set_env (o : op) : ans o :=
  match o return ans o with
  | OReaderGetV1 _ => Ok demo_pool
  | o => headers_env o
  end.

Lemma pool_read_is_atomic_witness :
  match run_sched (burst set_env 1 5 ++ burst set_env 0 6 ++ burst gone_env 1 1 ++ burst set_env 2 3 ++ burst gone_env 1 1 ++ burst set_env 0 2)
    (Running (init_world 0) [demo_stream 1; demo_reconciler [demo_nn; demo_nn]; demo_check]) with
  | Some c => c <> Crashed "invalid memory address or nil pointer dereference"
  | None => False
  end.
Proof.
  set (c0 := Running (init_world 0) [demo_stream 1; demo_reconciler [demo_nn; demo_nn]; demo_check]).
  set (ss := burst set_env 1 5 ++ burst set_env 0 6 ++ burst gone_env 1 1 ++ burst set_env 2 3 ++ burst gone_env 1 1 ++ burst set_env 0 2).
  assert (Hv : is_nil (run_sched ss c0) = false) by (vm_compute; reflexivity).
  destruct (run_sched ss c0) as [c|] eqn:Hc; [|discriminate Hv].
  apply (@pool_read_is_atomic demo_k8s demo_errutil demo_status ref_wait ref_wait_laws demo_desc 0
    [demo_stream 1; demo_reconciler [demo_nn; demo_nn]; demo_check]).
  - constructor; [left; by exists 1%nat|]. constructor; [|constructor; [|constructor]].
    + right. left. by exists demo_gknn, [demo_nn; demo_nn].
    + right. right. by exists true, "readiness"%string.
  - exact (run_sched_reachable _ _ _ Hc).
Defined.

End PoolRead.

(** ** The deadlock *)

Module Deadlock.

(** No goroutine can ever step again, whatever time passes and even if the
    process is asked to stop. *)
Definition stuck (w : world) (ts : list (go unit)) : Prop :=
  forall i t b, ts !! i = Some t -> blocked i (set_ctx_done b w) t.

Definition later (w : world) (c : proc) (ts : list (go unit)) : Prop :=
  exists t b, c = Running (set_now t (set_ctx_done b w)) ts.

Lemma stuck_step w ts c l c' : stuck w ts -> later w c ts -> step c l c' -> later w c' ts.
Proof.
  intros Hs (t & b & ->) Hst. inversion Hst as [i w0 ts0 t0 l0 w' t' Hi Ht| | |i w0 ts0 m Hi]; subst.
  - exfalso. specialize (Hs i t0 b Hi). destruct t0 as [| |o k]; [done..|]. simpl in Ht, Hs.
    destruct Ht as (x & _ & Hp & _). by rewrite (Hs x t) in Hp.
  - by exists (now (set_now t (set_ctx_done b w)) + d), b.
  - by exists t, true.
  - exfalso. by specialize (Hs i _ b Hi).
Qed.

Lemma stuck_forever w ts c : stuck w ts -> reachable (Running w ts) c -> later w c ts.
Proof.
  intros Hs [ls H]. assert (Hl : later w (Running w ts) ts).
  { exists (now w), (ctx_done w). by destruct w. }
  revert Hl. generalize (Running w ts) H. clear H. intros c0 H.
  induction H as [|c0 l c1 ls c2 Hst _ IH]; [done|]. intros Hl. apply IH. by eapply stuck_step.
Qed.

(** A request inside [PoolGet], between its two read locks; then a
    reconciliation asks for the write lock; then the deactivator starts. *)
Definition deadlock_schedule : list sched :=
  burst PoolRead.set_env 0 3 ++ burst PoolRead.set_env 1 2.

Definition three_goroutines : list (go unit) :=
  [demo_stream 1; demo_reconciler [demo_nn]; demo_deactivator 1].

(** What the goroutines are about to do. *)
Definition next_op (t : go unit) : option op := match t with Op o _ => Some o | _ => None end.

Definition summary (c : option proc) : option (rwmutex * list (option op)) :=
  match c with Some (Running w ts) => Some (poolMu (ds w), map next_op ts) | _ => None end.

(** With a writer pending and a reader inside, neither lock can be taken. *)
Lemma blocked_on_poolMu i j k w t o rs : poolMu (ds w) = RW (j :: rs) (WriterPending k) ->
  next_op t = Some o -> o = OPoolRLock \/ o = OPoolLockAcquire -> blocked i w t.
Proof.
  destruct t as [| |o' f]; [done..|]. intros Hm [= ->] Ho x t'.
  destruct Ho as [-> | ->]; cbn; by rewrite Hm.
Qed.

(** C24.  Deadlock.  From the initial state, with one stream, the reconciler
    and the deactivator, the process reaches a state in which none of them
    ever makes another step, whatever time passes and even when it is asked to
    stop: the stream waits for the read lock that [PoolHasSynced] takes while
    [PoolGet] holds it, because the reconciler is waiting to write; the
    reconciler waits for the stream to release its first read lock; the
    deactivator waits behind the reconciler. *)
Theorem recursive_read_lock_deadlocks :
  exists w ts, reachable (Running (init_world 0) three_goroutines) (Running w ts) /\
    length ts = 3%nat /\
    (forall i t, ts !! i = Some t -> exists o k, t = Op o k) /\
    (forall c, reachable (Running w ts) c -> exists w', c = Running w' ts).
Proof.
  assert (Hv : summary (run_sched deadlock_schedule (Running (init_world 0) three_goroutines)) =
    Some (RW [0%nat] (WriterPending 1%nat), [Some OPoolRLock; Some OPoolLockAcquire; Some OPoolRLock]))
    by (vm_compute; reflexivity).
  destruct (run_sched deadlock_schedule (Running (init_world 0) three_goroutines)) as [[w ts|m]|] eqn:Hc;
    [|done..].
  exists w, ts. split; [by apply (run_sched_reachable _ _ _ Hc)|].
  clear Hc. cbn in Hv. injection Hv as Hm Hts.
  assert (Hn : forall i t, ts !! i = Some t ->
    exists o, next_op t = Some o /\ (o = OPoolRLock \/ o = OPoolLockAcquire)).
  { intros i t Hi. apply (f_equal (fun l => l !! i)) in Hts. rewrite list_lookup_fmap, Hi in Hts.
    destruct i as [|[|[|i]]]; cbn in Hts; simplify_eq; eauto. }
  split; [by apply (f_equal length) in Hts; rewrite length_map in Hts|]. split.
  - intros i t Hi. destruct (Hn i t Hi) as (o & Ho & _). destruct t; simplify_eq/=; eauto.
  - intros c Hr. apply stuck_forever in Hr as (t & b & ->); [eauto|].
    intros i t b Hi. destruct (Hn i t Hi) as (o & Ho & Hoo). by eapply blocked_on_poolMu.
Qed.

End Deadlock.
