(* ===== verification/Progress.v ===== *)
(** * Where the process can be stuck

    Every goroutine follows the lock discipline of file PoolLock, so that the
    locks it holds can be read off its history.  A goroutine that is not
    waiting for something outside the process can then be kept waiting for
    ever in one way only: some goroutine holds a read lock of the datastore and
    asks for it again while a writer is waiting
    ([deadlock_needs_recursive_read]).  File PoolLock shows that this
    happens. *)

From S2P Require Import Prelude GoTime Prog Effects Machine Datastore RequestControl Instances Activator Admission Deactivator Handlers Controller Health Goroutines PoolLock.
#[local] Open Scope go_scope.
Import PoolLock.Discipline.

(** ** What a goroutine holds, in the world *)

Record link (w : world) (i : tid) (h : held) : Prop := Link {
  l_reads : holds i (rw_readers (poolMu (ds w))) = h_reads h;
  l_mu : scalingUpAndGuardMu (act w) = Some i <-> h_mu h = true;
  l_pending : rw_writer (poolMu (ds w)) = WriterPending i <-> h_write h = WAnnounced;
  l_inside : rw_writer (poolMu (ds w)) = WriterInside i <-> h_write h = WHeld
}.

(** Goroutine [j] holds or awaits something. *)
Definition involved (w : world) (j : tid) : Prop :=
  (0 < holds j (rw_readers (poolMu (ds w))))%nat \/ scalingUpAndGuardMu (act w) = Some j \/
  rw_writer (poolMu (ds w)) = WriterPending j \/ rw_writer (poolMu (ds w)) = WriterInside j.

Definition linked (w : world) (ts : list (go unit)) : Prop :=
  (forall i t, ts !! i = Some t -> exists h, link w i h /\ mon delta h t (fun h' _ => h' = none_held)) /\
  (forall j, involved w j -> is_Some (ts !! j)).

(** Operations on the two locks. *)
Definition lock_op (o : op) : bool :=
  match o with
  | OPoolRLock | OPoolRUnlock | OPoolLockAnnounce | OPoolLockAcquire | OPoolUnlock | OMuLock | OMuUnlock => true
  | _ => false
  end.

Lemma lockless_perform i o w x w' : lock_op o = false -> perform i o w x = Some w' ->
  poolMu (ds w') = poolMu (ds w) /\ scalingUpAndGuardMu (act w') = scalingUpAndGuardMu (act w).
Proof. destruct o; intros Ho H; try discriminate Ho; perform_cases H; done. Qed.

Lemma lockless_delta o x h h' : lock_op o = false -> delta h (Ev o x) = Some h' -> h' = h.
Proof.
  destruct h as [n [] []]; destruct o; intros Ho H; try discriminate Ho; cbn in H; repeat split_match_in H; done.
Qed.

(** The changes a lock operation makes, for its goroutine and for the others. *)
Definition keeps_linked (i : tid) (w w' : world) (h' : held) : Prop :=
  link w' i h' /\ (forall j hj, j <> i -> link w j hj -> link w' j hj) /\
  (forall j, j <> i -> involved w' j -> involved w j).

Lemma same_locks i w w' h : poolMu (ds w') = poolMu (ds w) ->
  scalingUpAndGuardMu (act w') = scalingUpAndGuardMu (act w) -> link w i h -> keeps_linked i w w' h.
Proof.
  intros Hm Ha Hl.
  assert (E : forall j hj, link w j hj -> link w' j hj).
  { intros j hj [? ? ? ?]. by split; rewrite ?Hm, ?Ha. }
  split; [auto|]. split; [auto|]. intros j _. unfold involved. by rewrite Hm, Ha.
Qed.

(** Reads of the lists of readers, then logic. *)
Ltac link_solve :=
  repeat match goal with
  | H : link _ _ _ |- _ => destruct H; cbn in *
  | |- link _ _ _ => split; cbn in *
  end; unfold involved in *; cbn in *;
  rewrite ?holds_remove_eq, ?holds_remove_ne in * by congruence;
  repeat case_decide; simplify_eq/=; first [lia|intuition congruence].

Lemma lock_perform i o w x w' h h' : lock_op o = true -> link w i h -> delta h (Ev o x) = Some h' ->
  perform i o w x = Some w' -> keeps_linked i w w' h'.
Proof.
  intros Ho Hl Hd Hp. destruct o; try discriminate Ho; destruct h as [n wl mu]; cbn in Hd;
    repeat split_match_in Hd; simplify_eq.
  all: destruct Hl as [Hr Hmu Hpe Hin]; cbn in *.
  all: destruct w as [t [[rs wr] p tk] [su g m] cl cd le]; cbn in Hp;
    unfold rw_RLock, rw_RUnlock, rw_Announce, rw_Acquire, rw_Unlock in Hp; cbn in Hp;
    repeat match type of Hp with
    | context [match ?x with _ => _ end] => destruct x eqn:?; cbn in Hp; try discriminate Hp
    end; simplify_eq; cbn in *.
  all: split; [|split; intros]; link_solve.
Qed.

Lemma link_perform i o w x w' h h' : link w i h -> delta h (Ev o x) = Some h' ->
  perform i o w x = Some w' -> keeps_linked i w w' h'.
Proof.
  intros Hl Hd Hp. destruct (lock_op o) eqn:Ho; [by eapply lock_perform|].
  apply lockless_delta in Hd as ->; [|done]. destruct (lockless_perform _ _ _ _ _ Ho Hp). by apply same_locks.
Qed.

Lemma linked_same w w' ts : poolMu (ds w') = poolMu (ds w) ->
  scalingUpAndGuardMu (act w') = scalingUpAndGuardMu (act w) -> linked w ts -> linked w' ts.
Proof.
  intros Hm Ha [Hts Hin]. split.
  - intros i t Hi. destruct (Hts i t Hi) as (h & Hl & Hb). exists h. split; [|done].
    exact (proj1 (same_locks i w w' h Hm Ha Hl)).
  - intros j Hj. apply Hin. unfold involved in *. by rewrite Hm, Ha in Hj.
Qed.

Lemma linked_step w ts l w' ts' : linked w ts -> step (Running w ts) l (Running w' ts') -> linked w' ts'.
Proof.
  intros Hlk Hst. inversion Hst as [i w0 ts0 t l0 w1 t' Hi Ht| | |]; subst; [|by eapply linked_same; [..|exact Hlk]..].
  destruct Hlk as [Hts Hin].
  destruct t as [| |o k]; [done..|]. destruct Ht as (x & -> & Hp & ->).
  destruct (Hts i _ Hi) as (h & Hl & Hm). specialize (Hm x). destruct (delta h (Ev o x)) as [h'|] eqn:Hd; [|done].
  destruct (link_perform _ _ _ _ _ _ _ Hl Hd Hp) as (Hl' & Hother & Hinv).
  assert (Hlen : (i < length ts)%nat) by by eapply lookup_lt_Some. split.
  - intros j t Hj. destruct (decide (j = i)) as [->|Hne].
    + rewrite list_lookup_insert_eq in Hj by done. injection Hj as <-. eauto.
    + rewrite list_lookup_insert_ne in Hj by done. destruct (Hts j t Hj) as (hj & Hlj & Hmj). eauto.
  - intros j Hj. destruct (decide (j = i)) as [->|Hne]; [by rewrite list_lookup_insert_eq|].
    rewrite list_lookup_insert_ne by done. auto.
Qed.

(** ** Who can move *)

(** Goroutine [j] can perform an operation inside the process. *)
Definition can_move (w : world) (ts : list (go unit)) (j : tid) : Prop :=
  exists o k x w', ts !! j = Some (Op o k) /\ external o = false /\ perform j o w x = Some w'.

(** A goroutine that is not about to take a lock can move. *)
Definition takes_lock (o : op) : bool :=
  match o with OPoolRLock | OPoolLockAnnounce | OPoolLockAcquire | OMuLock => true | _ => false end.

Lemma release_enabled i o w h x : link w i h -> delta h (Ev o x) <> None -> external o = false -> takes_lock o = false ->
  exists y w', perform i o w y = Some w'.
Proof.
  intros [Hr Hmu Hpe Hin] Hd He Ht. destruct h as [n wl mu]; destruct o; try discriminate He; try discriminate Ht; cbn in *.
  - destruct n as [|n]; [by destruct wl, mu|]. exists tt. unfold rw_RUnlock. rewrite Hr. by eexists.
  - destruct wl; try (by destruct n, mu). exists tt. unfold rw_Unlock. rewrite (proj2 Hin eq_refl).
    rewrite decide_True by done. by eexists.
  - exists (pool (ds w)). rewrite decide_True by done. by eexists.
  - exists tt. by eexists.
  - exists tt. by eexists.
  - exists tt. by eexists.
  - destruct mu; [|by destruct n, wl]. exists tt. rewrite (proj2 Hmu eq_refl). by eexists.
  - exists (scalingUp (act w)). rewrite eqb_reflx. by eexists.
  - exists tt. by eexists.
  - exists (guard (act w)). rewrite decide_True by done. by eexists.
  - exists tt. by eexists.
  - exists (length (closed w)). rewrite decide_True by done. by eexists.
  - exists (negb (is_closed w c)). rewrite eqb_reflx. by eexists.
Qed.

(** A goroutine that holds something is at an operation, allowed there. *)
Lemma holder_at w ts j : linked w ts -> involved w j ->
  exists h o k, link w j h /\ ts !! j = Some (Op o k) /\ delta h (Ev o (some_answer o)) <> None /\ h <> none_held.
Proof.
  intros [Hts Hin] Hj. destruct (Hin j Hj) as [t Ht]. destruct (Hts j t Ht) as (h & Hl & Hm).
  assert (Hne : h <> none_held).
  { intros ->. destruct Hl as [Hr Hmu Hpe Hi]. cbn in *. unfold involved in Hj. rewrite Hr in Hj.
    destruct Hj as [Hj|[Hj|[Hj|Hj]]]; [lia|apply Hmu in Hj|apply Hpe in Hj|apply Hi in Hj]; done. }
  destruct t as [a|m|o k]; [by cbn in Hm; subst..|]. exists h, o, k. split; [done|]. split; [done|]. split; [|done].
  specialize (Hm (some_answer o)). by destruct (delta h _).
Qed.

(** What a goroutine inside a critical section may do next. *)
Lemma mu_next h o x : h_mu h = true -> delta h (Ev o x) <> None -> external o = false /\ takes_lock o = false.
Proof. destruct h as [[|n] [] []]; intros [=]; by destruct o. Qed.

Lemma write_next h o x : h_write h = WHeld -> delta h (Ev o x) <> None -> external o = false /\ takes_lock o = false.
Proof. destruct h as [[|n] [] []]; intros [=]; by destruct o. Qed.

Lemma announced_next h o x : h_write h = WAnnounced -> delta h (Ev o x) <> None -> o = OPoolLockAcquire.
Proof. destruct h as [[|n] [] []]; intros [=]; by destruct o. Qed.

Lemma reading_next h o x : (0 < h_reads h)%nat -> delta h (Ev o x) <> None ->
  external o = false /\ (takes_lock o = false \/ o = OPoolRLock).
Proof. destruct h as [[|n] [] []]; cbn; intros Hn; [lia..| | | | | |]; destruct o; cbn; auto; try done. Qed.

(** Take a lock only when it holds none (or is the announced writer). *)
Lemma taking_next h o x : takes_lock o = true -> delta h (Ev o x) <> None -> o <> OPoolRLock ->
  h = none_held \/ (o = OPoolLockAcquire /\ h = MkHeld 0 WAnnounced false).
Proof. destruct h as [[|n] [] []]; intros Ht Hd Hne; destruct o; cbn in *; try done; auto. Qed.

Lemma can_move_intro w ts j h o k x : link w j h -> ts !! j = Some (Op o k) -> delta h (Ev o x) <> None ->
  external o = false -> takes_lock o = false -> can_move w ts j.
Proof.
  intros Hl Hj Hd He Ht. destruct (release_enabled _ _ _ _ _ Hl Hd He Ht) as (y & w' & Hp). by exists o, k, y, w'.
Qed.

(** The holder of the mutex, and the writer inside, can move. *)
Lemma mu_holder_moves w ts j : linked w ts -> scalingUpAndGuardMu (act w) = Some j -> can_move w ts j.
Proof.
  intros Hlk Hj. destruct (holder_at w ts j Hlk) as (h & o & k & Hl & Ht & Hd & _); [by right; left|].
  destruct (mu_next h o _ ltac:(by apply (l_mu _ _ _ Hl)) Hd). by eapply can_move_intro.
Qed.

Lemma writer_moves w ts j : linked w ts -> rw_writer (poolMu (ds w)) = WriterInside j -> can_move w ts j.
Proof.
  intros Hlk Hj. destruct (holder_at w ts j Hlk) as (h & o & k & Hl & Ht & Hd & _); [by do 3 right|].
  destruct (write_next h o _ ltac:(by apply (l_inside _ _ _ Hl)) Hd). by eapply can_move_intro.
Qed.

(** A goroutine inside with a read lock asks for it again behind a writer that
    waits for it. *)
Definition recursive_read (w : world) (ts : list (go unit)) : Prop :=
  exists r kr j kj, ts !! r = Some (Op OPoolRLock kr) /\ (0 < holds r (rw_readers (poolMu (ds w))))%nat /\
    rw_writer (poolMu (ds w)) = WriterPending j /\ ts !! j = Some (Op OPoolLockAcquire kj).

(** A writer that is waiting or inside: someone can move, or a reader is
    waiting for itself. *)
Lemma behind_writer w ts : linked w ts -> rw_writer (poolMu (ds w)) <> NoWriter ->
  (exists j, can_move w ts j) \/ recursive_read w ts.
Proof.
  intros Hlk Hw. destruct (rw_writer (poolMu (ds w))) as [|j|j] eqn:Hwr; [done| |left; exists j; by apply writer_moves].
  destruct (holder_at w ts j Hlk) as (h & o & k & Hl & Ht & Hd & _); [by do 2 right; left|].
  apply announced_next in Hd as ->; [|by apply (l_pending _ _ _ Hl)].
  destruct (rw_readers (poolMu (ds w))) as [|r rs] eqn:Hrs.
  - left. exists j, OPoolLockAcquire, k, tt. eexists. split; [done|]. split; [done|]. cbn. unfold rw_Acquire.
    rewrite Hwr, Hrs, decide_True by done. reflexivity.
  - assert (Hr : (0 < holds r (rw_readers (poolMu (ds w))))%nat) by (rewrite Hrs; cbn; rewrite decide_True by done; lia).
    destruct (holder_at w ts r Hlk) as (hr & or & kr & Hlr & Htr & Hdr & _); [by left|].
    destruct (reading_next hr or _ ltac:(by rewrite <- (l_reads _ _ _ Hlr)) Hdr) as [He [Hn| ->]].
    + left. exists r. by eapply can_move_intro.
    + right. exists r, kr, j, k. done.
Qed.

Lemma stuck_or_moves w ts i o k : linked w ts -> ts !! i = Some (Op o k) -> external o = false ->
  (exists j, can_move w ts j) \/ recursive_read w ts.
Proof.
  intros Hlk Hi He. destruct (proj1 Hlk i _ Hi) as (h & Hl & Hm). specialize (Hm (some_answer o)).
  assert (Hd : delta h (Ev o (some_answer o)) <> None) by by destruct (delta h _). clear Hm.
  destruct (takes_lock o) eqn:Ht; [|left; exists i; by eapply can_move_intro].
  destruct (decide (rw_writer (poolMu (ds w)) = NoWriter)) as [Hn|Hn]; [|by apply behind_writer]. left.
  assert (Hmove : (exists w', perform i o w (some_answer o) = Some w') -> exists j, can_move w ts j).
  { intros [w' Hp]. by exists i, o, k, (some_answer o), w'. }
  destruct o; try discriminate Ht.
  - apply Hmove. cbn. unfold rw_RLock. rewrite Hn. by eexists.
  - apply Hmove. cbn. unfold rw_Announce. rewrite Hn. by eexists.
  - destruct (taking_next h _ _ Ht Hd ltac:(done)) as [-> | [_ ->]]; [by cbn in Hd|].
    pose proof (proj2 (l_pending _ _ _ Hl) eq_refl). congruence.
  - destruct (scalingUpAndGuardMu (act w)) as [j|] eqn:Hj; [exists j; by apply mu_holder_moves|].
    apply Hmove. cbn. rewrite Hj. by eexists.
Qed.

Section Deadlocks.
Context `{K8s : Kubernetes} `{EU : ErrUtil} `{GS : GrpcStatus} `{Wait : WaitPkg} {WL : WaitPkgLaws} `{EP : ExtProcDesc}.

Lemma reachable_linked t0 ts w ts' : Forall goroutine ts ->
  reachable (Running (init_world t0) ts) (Running w ts') -> linked w ts'.
Proof.
  intros Hts [ls Hs]. eapply (steps_invariant linked); [apply linked_step|exact Hs|]. split.
  - intros i t Hi. exists none_held. split; [by split|].
    apply Discipline.goroutine_disciplined. by apply (Forall_lookup_1 _ _ _ _ Hts Hi).
  - intros j. unfold involved. cbn. intros [H|[H|[H|H]]]; [lia|done..].
Qed.

(** C8.  Deadlock.  In every state reached by any goroutines of the process in
    any interleaving, if a goroutine is not waiting for something outside the
    process (a clock, a tick, the API, a stream), then either some goroutine
    can perform its next operation inside the process now, or a goroutine that
    holds the read lock of the datastore is asking for it again while a writer
    is waiting for that lock: the recursive read of [PoolGet] is the only way
    to deadlock, and without a writer there is none. *)
Theorem deadlock_needs_recursive_read t0 ts w ts' i o k :
  Forall goroutine ts -> reachable (Running (init_world t0) ts) (Running w ts') ->
  ts' !! i = Some (Op o k) -> external o = false ->
  (exists j o' k' x w', ts' !! j = Some (Op o' k') /\ external o' = false /\ perform j o' w x = Some w') \/
  (exists r kr j kj, ts' !! r = Some (Op OPoolRLock kr) /\ (0 < holds r (rw_readers (poolMu (ds w))))%nat /\
     rw_writer (poolMu (ds w)) = WriterPending j /\ ts' !! j = Some (Op OPoolLockAcquire kj)).
Proof. intros Hts Hr Hi He. eapply stuck_or_moves; [by eapply reachable_linked|exact Hi|exact He]. Qed.

End Deadlocks.

(** At the deadlock of file PoolLock: nobody moves, so it is the recursive
    read. *)
Lemma deadlock_needs_recursive_read_witness :
  match run_sched Deadlock.deadlock_schedule (Running (init_world 0) Deadlock.three_goroutines) with
  | Some (Running w ts) => (exists j, can_move w ts j) \/ recursive_read w ts
  | _ => False
  end.
Proof.
  assert (Hv : Deadlock.summary (run_sched Deadlock.deadlock_schedule
      (Running (init_world 0) Deadlock.three_goroutines)) =
    Some (RW [0%nat] (WriterPending 1%nat), [Some OPoolRLock; Some OPoolLockAcquire; Some OPoolRLock]))
    by (vm_compute; reflexivity).
  destruct (run_sched Deadlock.deadlock_schedule (Running (init_world 0) Deadlock.three_goroutines))
    as [[w ts|m]|] eqn:Hc; [|discriminate Hv..].
  destruct ts as [|t ts]; [discriminate Hv|]. destruct t as [a|m|o k]; [discriminate Hv..|].
  assert (Ho : o = OPoolRLock) by (cbn in Hv; injection Hv; intros; assumption).
  apply (@deadlock_needs_recursive_read demo_k8s demo_errutil demo_status ref_wait ref_wait_laws demo_desc 0
    Deadlock.three_goroutines w (Op o k :: ts) 0%nat o k).
  - constructor; [apply g_stream|]. constructor; [apply g_reconciler|]. constructor; [apply g_deactivator|constructor].
  - exact (run_sched_reachable _ _ _ Hc).
  - reflexivity.
  - rewrite Ho. reflexivity.
Defined.
