(* ===== verification/Traces.v ===== *)
(** * Runs of the process and the events of one goroutine

    What a run, a list of labels, says about its goroutines and about the
    shared state: the events of a goroutine are accepted by the automata that
    accept its program ([mon_steps]); what is in a shared variable was there
    at the beginning or was written by a step of the run ([field_written]). *)

From S2P Require Import Prelude GoTime Prog Effects Machine.
#[local] Open Scope go_scope.

(** The events of goroutine [i]. *)
Definition events_of (i : tid) (ls : list label) : list evt :=
  omap (fun l => match l with LOp j e => if decide (j = i) then Some e else None | _ => None end) ls.

Lemma events_of_app i ls1 ls2 : events_of i (ls1 ++ ls2) = events_of i ls1 ++ events_of i ls2.
Proof. apply omap_app. Qed.

(** An event of a goroutine is a label of the run. *)
Lemma events_of_split i e : forall ls e1 e2, events_of i ls = e1 ++ e :: e2 ->
  exists ls1 ls2, ls = ls1 ++ LOp i e :: ls2 /\ events_of i ls1 = e1 /\ events_of i ls2 = e2.
Proof.
  induction ls as [|l ls IH]; intros e1 e2 H; [by destruct e1|].
  assert (Hskip : events_of i (l :: ls) = events_of i ls -> exists ls1 ls2,
    l :: ls = ls1 ++ LOp i e :: ls2 /\ events_of i ls1 = e1 /\ events_of i ls2 = e2).
  { intros Hs. rewrite Hs in H. destruct (IH e1 e2 H) as (ls1 & ls2 & -> & He1 & He2).
    exists (l :: ls1), ls2. split; [done|]. split; [|done].
    change (l :: ls1) with ([l] ++ ls1). rewrite events_of_app.
    replace (events_of i [l]) with (@nil evt); [done|].
    change (events_of i ([l] ++ (ls1 ++ LOp i e :: ls2)) = events_of i (ls1 ++ LOp i e :: ls2)) in Hs.
    rewrite events_of_app in Hs. destruct (events_of i [l]) eqn:E; [done|].
    apply (f_equal length) in Hs. rewrite length_app in Hs. simpl in Hs. lia. }
  destruct l as [j e'|d| |j]; [|by apply Hskip..].
  destruct (decide (j = i)) as [->|Hne]; [|apply Hskip; cbn; by rewrite decide_False].
  cbn in H. rewrite decide_True in H by done. destruct e1 as [|e1' e1]; simpl in H; injection H as -> H.
  - exists [], ls. done.
  - destruct (IH e1 e2 H) as (ls1 & ls2 & -> & He1 & He2).
    exists (LOp i e1' :: ls1), ls2. split; [done|]. split; [|done]. cbn. rewrite decide_True by done. by f_equal.
Qed.

(** An event of goroutine [i] occurs in the run. *)
Lemma elem_of_events i e ls : LOp i e ∈ ls -> e ∈ events_of i ls.
Proof.
  intros H. apply list_elem_of_omap. exists (LOp i e). split; [done|]. by rewrite decide_True.
Qed.

Lemma events_of_elem i e ls : e ∈ events_of i ls -> LOp i e ∈ ls.
Proof.
  intros H. apply list_elem_of_omap in H as ([j e'|d| |j] & Hin & He); try done.
  case_decide; [|done]. by simplify_eq.
Qed.

(** ** Runs *)

Lemma crashed_steps m ls c : steps (Crashed m) ls c -> ls = [] /\ c = Crashed m.
Proof. inversion 1 as [|? ? ? ? ? Hst]; [done|inversion Hst]. Qed.

(** The number of goroutines does not change. *)
Lemma steps_length w ts ls w' ts' : steps (Running w ts) ls (Running w' ts') -> length ts' = length ts.
Proof.
  intros Hs. apply (steps_invariant (fun _ ts1 => length ts1 = length ts)) with (ls := ls) (w := w) (ts := ts) (w' := w'); [|done|done].
  intros w1 ts1 l w2 ts2 Hl Hst. inversion Hst; subst; [by rewrite length_insert|done..].
Qed.

(** A goroutine without events stays where it is. *)
Lemma steps_silent i c ls c' : steps c ls c' -> forall w ts w' ts', c = Running w ts -> c' = Running w' ts' ->
  events_of i ls = [] -> ts' !! i = ts !! i.
Proof.
  induction 1 as [c|c l c1 ls c2 Hst Hrest IH]; intros w ts w' ts' -> Hc' He; [by simplify_eq|].
  destruct c1 as [w1 ts1|m]; [|by apply crashed_steps in Hrest as [-> ->]].
  change (l :: ls) with ([l] ++ ls) in He. rewrite events_of_app in He. apply app_nil in He as [Hl He].
  rewrite (IH _ _ _ _ eq_refl Hc' He). inversion Hst as [j w0 ts0 t l0 w2 t' Hj Ht| | |]; subst; [|done..].
  destruct t as [| |o k]; [done..|]. destruct Ht as (x & -> & _). cbn in Hl. case_decide; [done|].
  by rewrite list_lookup_insert_ne.
Qed.

(** A run that crashes ends with the panic of a goroutine. *)
Lemma steps_crash_inv w ts ls m : steps (Running w ts) ls (Crashed m) ->
  exists ls' i w' ts', ls = ls' ++ [LPanic i] /\ steps (Running w ts) ls' (Running w' ts') /\
    ts' !! i = Some (Panic m).
Proof.
  remember (Running w ts) as c eqn:Hc. remember (Crashed m) as c' eqn:Hc'. intros Hs. revert w ts Hc.
  induction Hs as [c|c l c1 ls c2 Hst Hr IH]; intros w ts Hc; [by subst|]. subst.
  destruct c1 as [w1 ts1|m1].
  - destruct (IH eq_refl w1 ts1 eq_refl) as (ls' & i & w' & ts' & -> & Hs' & Hi).
    exists (l :: ls'), i, w', ts'. split; [done|]. split; [by econstructor|done].
  - apply crashed_steps in Hr as [-> [= ->]]. inversion Hst as [| | |i w0 ts0 m0 Hi]; subst.
    exists [], i, w, ts. split; [done|]. split; [constructor|done].
Qed.

Lemma steps_app_inv ls1 ls2 : forall c c', steps c (ls1 ++ ls2) c' ->
  exists c1, steps c ls1 c1 /\ steps c1 ls2 c'.
Proof.
  induction ls1 as [|l ls1 IH]; simpl; intros c c' H; [exists c; split; [constructor|done]|].
  inversion H as [|? ? c1 ? ? Hst Hrest]; subst. destruct (IH _ _ Hrest) as (c2 & ? & ?).
  exists c2. split; [by econstructor|done].
Qed.

Lemma steps_snoc_inv c ls l c' : steps c (ls ++ [l]) c' -> exists c1, steps c ls c1 /\ step c1 l c'.
Proof.
  intros (c1 & H1 & H2)%steps_app_inv. inversion H2 as [|? ? ? ? ? Hst Hr]; subst.
  inversion Hr; subst. eauto.
Qed.

(** The step of a goroutine performs its event. *)
Lemma step_performs c i o x c' : step c (LOp i (Ev o x)) c' ->
  exists w ts k w', c = Running w ts /\ ts !! i = Some (Op o k) /\ perform i o w x = Some w' /\
    c' = Running w' (<[i := k x]> ts).
Proof.
  intros Hst. inversion Hst as [j w ts t l w' t' Hj Ht| | |]; subst. destruct t as [| |o' k]; [done..|].
  destruct Ht as (y & Hl & Hp & ->). assert (i = j) as <- by congruence.
  assert (E : Ev o' y = Ev o x) by congruence.
  assert (H : forall e, Ev o' y = e -> exists k' w1, ts !! i = Some (Op (ev_op e) k') /\
    perform i (ev_op e) w (ev_ans e) = Some w1 /\
    Running w' (<[i := k y]> ts) = Running w1 (<[i := k' (ev_ans e)]> ts)) by (intros ? <-; eauto).
  destruct (H _ E) as (k' & w1 & ? & ? & ?). eauto 10.
Qed.

(** A goroutine that performs something is one of the process. *)
Lemma steps_thread i e c ls c' : steps c ls c' -> forall w ts,
  c = Running w ts -> LOp i e ∈ ls -> is_Some (ts !! i).
Proof.
  induction 1 as [c|c l c1 ls c2 Hst Hrest IH]; intros w ts -> Hin; [by apply not_elem_of_nil in Hin|].
  inversion Hst as [j w0 ts0 t0 l0 w' t' Hj Ht| | |j w0 ts0 m Hj]; subst.
  - apply elem_of_cons in Hin as [Hl|Hin].
    + destruct t0 as [| |o k]; [done..|]. destruct Ht as (x & Hl' & _).
      assert (i = j) as -> by congruence. by eexists.
    + specialize (IH _ _ eq_refl Hin). rewrite lookup_lt_is_Some, length_insert in IH. by apply lookup_lt_is_Some.
  - apply elem_of_cons in Hin as [?|Hin]; [done|by eapply IH].
  - apply elem_of_cons in Hin as [?|Hin]; [done|by eapply IH].
  - apply elem_of_cons in Hin as [?|Hin]; [done|]. apply crashed_steps in Hrest as [-> _].
    by apply not_elem_of_nil in Hin.
Qed.

(** ** The trace of one goroutine *)

(** An automaton that accepts a goroutine's program accepts its events in
    every interleaving, and still accepts what is left of the program. *)
Lemma mon_steps {S} (delta : S -> evt -> option S) i c ls c' : steps c ls c' -> forall w ts t s Q,
  c = Running w ts -> ts !! i = Some t -> mon delta s t Q ->
  exists s', accepts delta s (events_of i ls) = Some s' /\
    forall w' ts', c' = Running w' ts' -> exists t', ts' !! i = Some t' /\ mon delta s' t' Q.
Proof.
  induction 1 as [c|c l c1 ls c2 Hst Hrest IH]; intros w ts t s Q -> Hi Hm.
  { exists s. split; [done|]. intros w' ts' [= <- <-]. eauto. }
  inversion Hst as [j w0 ts0 t0 l0 w' t' Hj Ht| | |j w0 ts0 m Hj]; subst; cbn; try (by eapply IH).
  - destruct t0 as [| |o k]; [done..|]. destruct Ht as (x & -> & Hp & ->). cbn.
    case_decide as Hji; [subst j|].
    + rewrite Hi in Hj. injection Hj as ->. specialize (Hm x). cbn.
      destruct (delta s (Ev o x)) as [s1|]; [|done].
      eapply IH; [done|apply list_lookup_insert_eq; by eapply lookup_lt_Some|exact Hm].
    + eapply IH; [done| |exact Hm]. by rewrite list_lookup_insert_ne.
  - apply crashed_steps in Hrest as [-> ->]. by exists s.
Qed.

(** The events of a goroutine are the beginning of a run of its program. *)
Lemma steps_exec i c ls c' : steps c ls c' -> forall w ts t,
  c = Running w ts -> ts !! i = Some t -> exists tr r, exec t (events_of i ls ++ tr) r.
Proof.
  induction 1 as [c|c l c1 ls c2 Hst Hrest IH]; intros w ts t -> Hi; [by apply (exec_total t some_answer)|].
  inversion Hst as [j w0 ts0 t0 l0 w' t' Hj Ht| | |j w0 ts0 m Hj]; subst; cbn; try (by eapply IH).
  - destruct t0 as [| |o k]; [done..|]. destruct Ht as (x & -> & Hp & ->). cbn. case_decide as Hji; [subst j|].
    + rewrite Hi in Hj. injection Hj as ->.
      destruct (IH _ _ (k x) eq_refl) as (tr & r & He); [apply list_lookup_insert_eq; by eapply lookup_lt_Some|].
      exists tr, r. cbn. eauto.
    + eapply IH; [done|]. by rewrite list_lookup_insert_ne.
  - apply crashed_steps in Hrest as [-> ->]. by apply (exec_total t some_answer).
Qed.

(** ** Shared variables *)

Section Field.
Context {X : Type} (field : world -> X) (writes : X -> op -> Prop).
Hypothesis field_perform : forall i o w x w', perform i o w x = Some w' ->
  field w' = field w \/ writes (field w') o.
Hypothesis field_time : forall w t, field (set_now t w) = field w.
Hypothesis field_cancel : forall w, field (set_ctx_done true w) = field w.

Lemma field_written c ls c' : steps c ls c' -> forall w ts w' ts', c = Running w ts -> c' = Running w' ts' ->
  field w' = field w \/ exists j o x, LOp j (Ev o x) ∈ ls /\ writes (field w') o.
Proof.
  induction 1 as [c|c l c1 ls c2 Hst Hrest IH]; intros w ts w' ts' -> Hc'.
  { injection Hc' as <- <-. by left. }
  destruct c1 as [w1 ts1|m]; [|by apply crashed_steps in Hrest as [-> ->]].
  destruct (IH _ _ _ _ eq_refl Hc') as [He|(j & o & x & Hin & Hw)];
    [|right; exists j, o, x; split; [by right|done]].
  rewrite He. inversion Hst as [j w0 ts0 t0 l0 w2 t' Hj Ht| | |]; subst; [|left; auto..].
  destruct t0 as [| |o k]; [done..|]. destruct Ht as (x & -> & Hp & _).
  destruct (field_perform _ _ _ _ _ Hp) as [Hf|Hw]; [by left|]. right. exists j, o, x. split; [by left|done].
Qed.

(** What an operation finds in the variable, and was not there at the
    beginning, was written. *)
Lemma found_written (v : X) o (y : ans o) w ts ls i c :
  (forall w1 w2, perform i o w1 y = Some w2 -> field w1 = v) -> field w <> v ->
  steps (Running w ts) (ls ++ [LOp i (Ev o y)]) c ->
  exists j o' x, LOp j (Ev o' x) ∈ ls /\ writes v o'.
Proof.
  intros Hread Hne (c1 & Hs & Hst)%steps_snoc_inv.
  apply step_performs in Hst as (w1 & ts1 & k & w2 & -> & _ & Hperf & _). apply Hread in Hperf as <-.
  destruct (field_written _ _ _ Hs _ _ _ _ eq_refl eq_refl) as [He|(j & o' & x & Hin & Hw)]; [congruence|eauto 10].
Qed.

End Field.

Definition writes_pool (p : option v1.InferencePool) (o : op) : Prop := o = OPoolWrite p.
Definition writes_leader (b : bool) (o : op) : Prop := o = OLeaderStore b.
Definition writes_flag (b : bool) (o : op) : Prop := o = OScalingUpWrite b.

Lemma pool_perform i o w x w' : perform i o w x = Some w' ->
  pool (ds w') = pool (ds w) \/ writes_pool (pool (ds w')) o.
Proof. destruct o; intros H; perform_cases H; cbn; auto. by right. Qed.

Lemma isLeader_perform i o w x w' : perform i o w x = Some w' ->
  isLeader w' = isLeader w \/ writes_leader (isLeader w') o.
Proof. destruct o; intros H; perform_cases H; cbn; auto. by right. Qed.

Lemma scalingUp_perform i o w x w' : perform i o w x = Some w' ->
  scalingUp (act w') = scalingUp (act w) \/ writes_flag (scalingUp (act w')) o.
Proof. destruct o; intros H; perform_cases H; cbn; auto. by right. Qed.

(** A pool that is read was written. *)
Lemma read_pool_written w ts ls i p c : pool (ds w) = None ->
  steps (Running w ts) (ls ++ [LOp i (Ev OPoolRead (Some p))]) c ->
  exists j, LOp j (Ev (OPoolWrite (Some p)) tt) ∈ ls.
Proof.
  intros Hp Hs. apply (found_written _ _ pool_perform ltac:(done) ltac:(done) (Some p)) in Hs
    as (j & o & x & Hin & Hw); [|intros w1 w2; cbn; by case_decide|by rewrite Hp].
  unfold writes_pool, writes_leader, writes_flag in Hw. subst o. destruct x. eauto.
Qed.

(** A leadership that is read was stored. *)
Lemma leader_load_stored w ts ls i c : isLeader w = false ->
  steps (Running w ts) (ls ++ [LOp i (Ev OLeaderLoad true)]) c ->
  exists j, LOp j (Ev (OLeaderStore true) tt) ∈ ls.
Proof.
  intros Hp Hs. apply (found_written _ _ isLeader_perform ltac:(done) ltac:(done) true) in Hs
    as (j & o & x & Hin & Hw); [|intros w1 w2; cbn; by destruct (isLeader w1)|by rewrite Hp].
  unfold writes_pool, writes_leader, writes_flag in Hw. subst o. destruct x. eauto.
Qed.

(** A flag that is found raised was raised. *)
Lemma flag_raised w ts ls i c : scalingUp (act w) = false ->
  steps (Running w ts) (ls ++ [LOp i (Ev OScalingUpRead true)]) c ->
  exists j, LOp j (Ev (OScalingUpWrite true) tt) ∈ ls.
Proof.
  intros Hp Hs. apply (found_written _ _ scalingUp_perform ltac:(done) ltac:(done) true) in Hs
    as (j & o & x & Hin & Hw); [|intros w1 w2; cbn; by destruct (scalingUp (act w1))|by rewrite Hp].
  unfold writes_pool, writes_leader, writes_flag in Hw. subst o. destruct x. eauto.
Qed.
