(* ===== verification/Verdicts.v ===== *)
(** * The answer to Envoy is the verdict of [MayActivate]

    Each message that a stream sends follows, in the events of its goroutine,
    the headers of a request and a complete run of [MayActivate], of which it
    is the answer; in every interleaving ([stream_sends]). *)

From S2P Require Import Prelude GoTime Prog Effects Machine Datastore RequestControl Instances Activator Admission Refusals Deactivator Handlers Controller Health Goroutines Traces.
#[local] Open Scope go_scope.

(** An event that is not among the first ones of a trace is its last. *)
Lemma last_event (l1 l2 t : list evt) e e' :
  l1 ++ e :: l2 = t ++ [e'] -> e ∉ t -> l1 = t /\ l2 = [] /\ e = e'.
Proof.
  revert t. induction l1 as [|a l1 IH]; intros [|b t] H Hn; simplify_eq/=; [done|set_solver|by destruct l1|].
  destruct (IH t) as (-> & -> & ->); [done|set_solver|done].
Qed.

Definition asked : list evt := [Ev OStreamCtxErr None; Ev ORecv (Ok ProcessingRequest_RequestHeaders)].

Lemma exec_void {A} (p : go A) tr r : exec (void p) tr r -> exists r', exec p tr r'.
Proof.
  intros [(m & -> & H)|(a & t1 & t2 & -> & H & [-> _])]%exec_bind; [by eauto|]. rewrite app_nil_r. eauto.
Qed.

Section Verdicts.
Context `{K8s : Kubernetes} `{EU : ErrUtil} `{GS : GrpcStatus} `{Wait : WaitPkg} {WL : WaitPkgLaws}.

(** The answer to a request that [MayActivate] decided with [v]. *)
Definition answers (v : option error) (resp : ProcessingResponse) : Prop :=
  match v with
  | None => resp = continueHeadersResponse
  | Some err => buildErrResponse err = Ok resp
  end.

Lemma process_round_sends l1 resp x l2 r :
  exec (process_round the_server) (l1 ++ Ev (OSend resp) x :: l2) r ->
  exists t v, l1 = asked ++ t /\ exec MayActivate t (Done v) /\ answers v resp.
Proof.
  intros He. cbn -[MayActivate bool_decide buildErrResponse] in He.
  destruct He as ([e1|] & t1 & H1 & He).
  { destruct He as [-> _]. by destruct l1 as [|? []]. }
  destruct He as ([req|e1] & t2 & -> & He); cbn -[MayActivate bool_decide buildErrResponse] in He; cycle 1.
  { destruct (_ || _); destruct He as [-> _]; by destruct l1 as [|? [|? []]]. }
  destruct (_ || _); [destruct He as [-> _]; by destruct l1 as [|? [|? []]]|].
  assert (Hnil : t2 <> []) by (intros ->; by destruct l1 as [|? [|? []]]).
  destruct req; try by destruct He as [? _].
  destruct l1 as [|a1 [|a2 l1]]; [done..|].
  pose proof (f_equal (take 2) H1) as Ha12. pose proof (f_equal (drop 2) H1) as H2.
  change ([a1; a2] = asked) in Ha12. change (l1 ++ Ev (OSend resp) x :: l2 = t2) in H2. subst t2. clear H1 Hnil.
  apply exec_bind in He as [(m & -> & He)|(v & t3 & t4 & H3 & Ha & He)].
  { destruct (MayActivate_no_send _ _ resp x He). set_solver. }
  assert (Hend : forall resp' x', t4 = [Ev (OSend resp') x'] -> l1 = t3 /\ resp' = resp).
  { intros resp' x' ->. apply last_event in H3 as (-> & _ & Heq); [|by apply (MayActivate_no_send _ _ _ _ Ha)].
    split; [done|]. by apply (f_equal ev_op) in Heq as [= ->]. }
  assert (Hmust : t4 <> []).
  { intros ->. rewrite app_nil_r in H3. subst t3. destruct (MayActivate_no_send _ _ resp x Ha). set_solver. }
  exists l1, v. split; [by rewrite <- Ha12|]. destruct v as [err|]; cbn [answers].
  - destruct (buildErrResponse err) as [resp'|e'] eqn:Hb; [|by destruct He as [? _]].
    destruct He as (x' & t5 & -> & He).
    assert (t5 = []) as -> by (by destruct x'; destruct He). by destruct (Hend _ _ eq_refl) as [-> ->].
  - destruct He as (x' & t5 & -> & He).
    assert (t5 = []) as -> by (by destruct x'; destruct He). by destruct (Hend _ _ eq_refl) as [-> <-].
Qed.

Lemma process_sends n : forall l1 resp x l2 r,
  exec (Process the_server n) (l1 ++ Ev (OSend resp) x :: l2) r ->
  exists l0 t v, l1 = l0 ++ asked ++ t /\ exec MayActivate t (Done v) /\ answers v resp.
Proof.
  induction n as [|n IH]; intros l1 resp x l2 r; unfold Process; cbn [for_loop].
  { intros [H _]. by destruct l1. }
  intros [(m & -> & H)|(c & t1 & t2 & Ht & H1 & H2)]%exec_bind.
  { exists []. by apply (process_round_sends l1 resp x l2 (Crash m)). }
  apply app_eq_inv in Ht as [(k & -> & ->)|(k & -> & Hk)].
  - destruct c as [c|]; [destruct H2 as [H2 _]; by destruct k|].
    destruct (IH k resp x l2 r H2) as (l0 & t & v & -> & Hj). exists (t1 ++ l0), t, v. by rewrite <- app_assoc.
  - destruct k as [|e' k]; cbn [app] in Hk.
    + subst t2. destruct c as [c|]; [by destruct H2|].
      destruct (IH [] resp x l2 r H2) as (l0 & t & v & Hl & _). by destruct l0.
    + assert (e' = Ev (OSend resp) x) as -> by congruence. exists []. by eapply process_round_sends.
Qed.

(** ** In every interleaving *)

Lemma stream_sends w ts ls1 i n resp x ls2 c :
  ts !! i = Some (stream n) ->
  steps (Running w ts) (ls1 ++ LOp i (Ev (OSend resp) x) :: ls2) c ->
  exists l0 t v, events_of i ls1 = l0 ++ asked ++ t /\ exec MayActivate t (Done v) /\ answers v resp.
Proof.
  intros Hi Hs. destruct (steps_exec i _ _ _ Hs _ _ _ eq_refl Hi) as (tr & r & He).
  rewrite events_of_app in He. cbn in He. rewrite decide_True in He by done.
  rewrite <- app_assoc in He. apply exec_void in He as [r' He]. by eapply process_sends.
Qed.

(** CONTINUE is sent only to a request that was admitted. *)
Lemma answers_continue v : answers v PR_RequestHeaders_CONTINUE -> v = None.
Proof. destruct v as [err|]; [|done]. cbn. rewrite buildErrResponse_assoc. by destruct (assoc _ _). Qed.

End Verdicts.
