(* ===== verification/IdleTicks.v ===== *)
(** * Scaling to zero under concurrency

    The ticker of the datastore is shared: every goroutine re-arms it and the
    deactivator waits for it.  A scale-down is sent only after a tick of its
    own, a tick comes only once the period of the last re-arming has passed,
    and an admitted request that did not wait has re-armed the ticker. *)

From S2P Require Import Prelude GoTime Prog Effects Machine Datastore RequestControl Instances Activator Admission Refusals Deactivator Handlers Controller Health Goroutines Traces Verdicts.
#[local] Open Scope go_scope.

(** ** Labels *)

(** The time that passes along a sequence of steps. *)
Definition elapsed (ls : list label) : Z :=
  foldr (fun l n => match l with LTime d => d + n | _ => n end) 0 ls.

(** The ticker is re-armed. *)
Definition rearms (l : label) : bool :=
  match l with LOp _ (Ev (OTickerReset _) _) => true | _ => false end.

(** ** The shared ticker *)

(** Since it was armed with [d] at time [t], the ticker was at most received
    from or stopped. *)
Definition armed (t d : Z) (w : world) : Prop :=
  t_armed (ds_ticker (ds w)) = t /\ ticker_inv (ds_ticker (ds w)) /\
  (t_period (ds_ticker (ds w)) = Some d \/ t_period (ds_ticker (ds w)) = None).

Lemma perform_ticker i o w x w' : perform i o w x = Some w' -> rearms (LOp i (Ev o x)) = false ->
  now w' = now w /\
  (ds_ticker (ds w') = ds_ticker (ds w) \/ ds_ticker (ds w') = ticker_Stop (ds_ticker (ds w)) \/
   ticker_recv (now w) (ds_ticker (ds w)) = Some (ds_ticker (ds w'))).
Proof.
  destruct o; intros H Hr; try discriminate Hr; perform_cases H; cbn; auto.
Qed.

Lemma armed_step t d c l c' : step c l c' -> forall w ts w' ts',
  c = Running w ts -> c' = Running w' ts' -> rearms l = false -> armed t d w ->
  now w' = now w + elapsed [l] /\ armed t d w'.
Proof.
  intros Hst w ts w' ts' -> -> Hl (Ha & Hi & Hp).
  inversion Hst as [j w0 ts0 t0 l0 w1 t1 Hj Ht| | |]; subst; [|cbn; by rewrite ?Z.add_0_r..].
  destruct t0 as [| |o k]; [done..|]. destruct Ht as (x & -> & Hperf & _).
  destruct (perform_ticker _ _ _ _ _ Hperf Hl) as [Hn Htk]. rewrite Hn. cbn. split; [lia|].
  destruct Htk as [He|[He|He]].
  - unfold armed. by rewrite He.
  - unfold armed. rewrite He. cbn. split; [done|]. split; [apply ticker_Stop_inv|auto].
  - destruct (ticker_recv_due _ _ _ Hi He) as (p & Hp' & _ & Ha').
    split; [congruence|]. split; [by eapply ticker_recv_inv|].
    unfold ticker_recv in He. rewrite Hp' in He. destruct (_ <=? _); [|done].
    injection He as He. rewrite <- He. cbn. rewrite Hp' in Hp. naive_solver.
Qed.

Lemma elapsed_cons l ls : elapsed (l :: ls) = elapsed [l] + elapsed ls.
Proof. unfold elapsed. destruct l; simpl; lia. Qed.

Lemma armed_steps t d c ls c' : steps c ls c' -> forall w ts w' ts',
  c = Running w ts -> c' = Running w' ts' -> Forall (fun l => rearms l = false) ls -> armed t d w ->
  now w' = now w + elapsed ls /\ armed t d w'.
Proof.
  induction 1 as [c|c l c1 ls c2 Hst Hrest IH]; intros w ts w' ts' -> Hc' Hf Ha.
  - injection Hc' as -> ->. cbn. split; [lia|done].
  - inversion Hf as [|? ? Hl Hf']; subst. destruct c1 as [w1 ts1|m]; cycle 1.
    { inversion Hrest as [|? ? ? ? ? Hst']; subst; inversion Hst'. }
    destruct (armed_step _ _ _ _ _ Hst _ _ _ _ eq_refl eq_refl Hl Ha) as [Hn Ha1].
    destruct (IH _ _ _ _ eq_refl eq_refl Hf' Ha1) as [Hn' Ha']. split; [|done].
    rewrite elapsed_cons. lia.
Qed.

(** A tick comes no sooner than the period of the last arming. *)
Lemma tick_due t d w ts ls j c : armed t d w -> t = now w -> Forall (fun l => rearms l = false) ls ->
  steps (Running w ts) (ls ++ [LOp j (Ev OSelectTick SelTick)]) c -> d <= elapsed ls.
Proof.
  intros Ha -> Hf (c1 & Hs1 & Hs2)%steps_app_inv.
  inversion Hs2 as [|? ? c2 ? ? Hst _]; subst.
  inversion Hst as [i w1 ts1 t1 l1 w2 t2 Hi Ht| | |]; subst.
  destruct (armed_steps _ _ _ _ _ Hs1 _ _ _ _ eq_refl eq_refl Hf Ha) as [Hn (Harm & Hinv & Hper)].
  destruct t1 as [| |o k]; [done..|]. destruct Ht as (x & Hl & Hperf & _).
  assert (He : Ev OSelectTick SelTick = Ev o x) by congruence.
  change (perform i (ev_op (Ev o x)) w1 (ev_ans (Ev o x)) = Some w2) in Hperf. rewrite <- He in Hperf.
  cbn in Hperf. destruct (ticker_recv (now w1) (ds_ticker (ds w1))) as [tk|] eqn:Hr; [|done].
  destruct (ticker_recv_due _ _ _ Hinv Hr) as (p & Hp & Hdue & _).
  destruct Hper as [Hper|Hper]; rewrite Hper in Hp; simplify_eq. lia.
Qed.

(** ** The goroutines and the ticker *)

(** Whether a tick was received that has not led to a scale-down yet; a
    re-arming has a positive period, and a scale-down needs a tick. *)
Definition tick_delta (ticked : bool) (e : evt) : option bool :=
  match e with
  | Ev OSelectTick SelTick => Some true
  | Ev (OTickerReset d) _ => if 0 <? d then Some ticked else None
  | Ev (OScaleUpdate _ _ s) _ => if Spec_Replicas s =? 0 then (if ticked then Some false else None) else Some ticked
  | _ => Some ticked
  end.

Abbreviation ok := (anywhere tick_delta).

Lemma ResetTicker_ticks d : ok _ (ResetTicker d).
Proof.
  unfold ResetTicker, TickerReset. destruct (d <=? 0) eqn:E; [done|]. intros s. cbn.
  replace (0 <? d) with true by lia. done.
Qed.

Lemma external_ticks o : external o = true -> restricted o = false -> ok _ (eff o).
Proof. intros Ho Hz s. destruct o; try done; [by intros []|]. cbn in *. by rewrite Hz. Qed.

#[local] Instance ticks_sections : Sections ok.
Proof. by apply (plain_sections ResetTicker_ticks external_ticks). Qed.

#[local] Instance ticks_more_sections : MoreSections ok.
Proof.
  apply (plain_more_sections ResetTicker_ticks external_ticks); [|done..].
  intros B f Hf. apply ok_bind; [|intros [p e]; by apply Hf]. cbn. by intros ? ? ? [] ?.
Qed.

#[local] Instance ticks_pool_writes : PoolWrites ok.
Proof. done. Qed.

Section Goroutines.
Context `{K8s : Kubernetes} `{EU : ErrUtil} `{GS : GrpcStatus} `{Wait : WaitPkg} {WL : WaitPkgLaws} `{EP : ExtProcDesc}.

Lemma scaleInferencePool_ticks ns d gr gvr : numReplicas d = 1 -> ok _ (scaleInferencePool ns d gr gvr).
Proof.
  intros Hd. rewrite scaleInferencePool_body. apply ok_bind; [done|]. intros _.
  apply ok_defer; [by apply scale_body_ok|]. intros s. cbn. intros _ _ [c|]; cbn; [|done]. by intros [].
Qed.

Lemma monitor_round_ticks : ok _ monitor_round.
Proof.
  intros s. cbn -[PoolGet GetResourceForKind]. intros []; [done|].
  apply mon_bind; mon_skip. intros [[[pool|] [e|]]|m]; try done.
  cbn -[GetResourceForKind]. destruct (VerifyPoolObjectAnnotations pool); [|done]. cbn -[GetResourceForKind].
  apply mon_bind; mon_skip. intros [[gvr|e]|m]; try done. cbn. intros [sc|e]; [|done]. cbn. by intros [].
Qed.

Lemma goroutine_ticks t : goroutine t -> ok _ t.
Proof.
  by apply goroutine_rounds; [apply monitor_round_ticks|apply elected_ok|apply scaleInferencePool_ticks].
Qed.

(** Neither a tick nor a scale-down. *)
Definition between (e : evt) : bool :=
  match e with
  | Ev OSelectTick SelTick => false
  | Ev (OScaleUpdate _ _ s) _ => negb (Spec_Replicas s =? 0)
  | _ => true
  end.

(** The tick of a scale-down: the last one, not used by another scale-down. *)
Lemma accepts_to_zero ns gr s x evs : forall b b',
  Spec_Replicas s = 0 -> accepts tick_delta b (evs ++ [Ev (OScaleUpdate ns gr s) x]) = Some b' ->
  (b = true /\ Forall (fun e => between e = true) evs) \/
  exists e1 e2, evs = e1 ++ Ev OSelectTick SelTick :: e2 /\ Forall (fun e => between e = true) e2.
Proof.
  induction evs as [|e evs IH]; intros b b' Hs H.
  - cbn in H. rewrite Hs in H. destruct b; [by left|done].
  - cbn [app accepts] in H. destruct (tick_delta b e) as [b1|] eqn:Hd; [|done].
    destruct (IH b1 b' Hs H) as [[-> Hf]|(e1 & e2 & -> & Hf)]; [|right; by exists (e :: e1), e2].
    destruct (between e) eqn:Hb.
    + left. split; [|by constructor].
      destruct e as [o y]. destruct o; cbn in Hd, Hb; repeat split_match_in Hd; by simplify_eq.
    + destruct e as [o y]. destruct o; try discriminate Hb; cbn in Hd, Hb.
      * destruct y; [done|]. right. by exists [], evs.
      * destruct (Spec_Replicas _ =? 0); [|done]. by destruct b.
Qed.

(** A re-arming has a positive period. *)
Lemma accepts_reset d x evs : forall b b',
  accepts tick_delta b evs = Some b' -> Ev (OTickerReset d) x ∈ evs -> 0 < d.
Proof.
  induction evs as [|e evs IH]; intros b b' H Hin; [by apply not_elem_of_nil in Hin|].
  cbn [accepts] in H. destruct (tick_delta b e) as [b1|] eqn:Hd; [|done].
  apply elem_of_cons in Hin as [<-|Hin]; [|by eapply IH]. cbn in Hd. destruct (0 <? d) eqn:E; [lia|done].
Qed.

Lemma goroutine_accepts t0 ts ls c i e :
  Forall goroutine ts -> steps (Running (init_world t0) ts) ls c -> LOp i e ∈ ls ->
  exists b, accepts tick_delta false (events_of i ls) = Some b.
Proof.
  intros Hts Hst Hin. destruct (steps_thread _ _ _ _ _ Hst _ _ eq_refl Hin) as [t Hi].
  assert (Ht : goroutine t) by by apply (Forall_lookup_1 _ _ _ _ Hts Hi).
  destruct (mon_steps tick_delta i _ _ _ Hst _ _ t false _ eq_refl Hi (goroutine_ticks t Ht false))
    as (b & Hb & _). by exists b.
Qed.

(** Re-arming arms. *)
Lemma reset_step c j d c' : 0 < d -> step c (LOp j (Ev (OTickerReset d) tt)) c' ->
  exists w ts, c' = Running w ts /\ armed (now w) d w.
Proof.
  intros Hd Hst. inversion Hst as [i w1 ts1 t1 l1 w2 t2 Hi Ht| | |]; subst.
  destruct t1 as [| |o k]; [done..|]. destruct Ht as (x & Hl & Hperf & _).
  assert (He : Ev (OTickerReset d) tt = Ev o x) by congruence.
  change (perform i (ev_op (Ev o x)) w1 (ev_ans (Ev o x)) = Some w2) in Hperf. rewrite <- He in Hperf.
  cbn in Hperf. injection Hperf as <-. eexists. eexists. split; [done|].
  split; [done|]. split; [by apply ticker_Reset_inv|by left].
Qed.

(** At a tick the period of the last re-arming has passed. *)
Lemma tick_after_period t0 ts ls1 i ls2 c la j d lb :
  Forall goroutine ts -> steps (Running (init_world t0) ts) (ls1 ++ LOp i (Ev OSelectTick SelTick) :: ls2) c ->
  ls1 = la ++ LOp j (Ev (OTickerReset d) tt) :: lb -> Forall (fun l => rearms l = false) lb -> d <= elapsed lb.
Proof.
  intros Hts Hst -> Hlb.
  assert (Hd : 0 < d).
  { assert (Hj : LOp j (Ev (OTickerReset d) tt) ∈
      (la ++ LOp j (Ev (OTickerReset d) tt) :: lb) ++ LOp i (Ev OSelectTick SelTick) :: ls2) by set_solver.
    destruct (goroutine_accepts _ _ _ _ _ _ Hts Hst Hj) as [b' Hb'].
    by eapply accepts_reset; [exact Hb'|apply elem_of_events]. }
  rewrite <- !app_assoc in Hst. apply steps_app_inv in Hst as (c1 & _ & Hst).
  inversion Hst as [|? ? c2 ? ? Hreset Hrest]; subst.
  destruct (reset_step _ _ _ _ Hd Hreset) as (w & ts' & -> & Ha).
  rewrite cons_middle, app_assoc in Hrest. apply steps_app_inv in Hrest as (c3 & Hrest & _).
  by eapply tick_due.
Qed.

Lemma elapsed_app la lb : elapsed (la ++ lb) = elapsed la + elapsed lb.
Proof. induction la as [|l la IH]; [done|]. cbn [app]. rewrite elapsed_cons, IH, (elapsed_cons l la). lia. Qed.

(** An admitted request waited for a scale-up, or it re-armed the ticker with
    the delay of the pool it had read, and a tick that comes after it, with no
    re-arming in between, comes no sooner than that. *)
Definition admission_defers (j : tid) (la : list label) (lb : list label) : Prop :=
  exists l0 t, events_of j la = l0 ++ asked ++ t /\ exec MayActivate t (Done None) /\
    (waited t \/
     exists p la1 la2, pool_event (Some p) ∈ t /\
       la = la1 ++ LOp j (Ev (OTickerReset (scaleDownDelay_of p)) tt) :: la2 /\
       events_of j la2 = [Ev OPoolRUnlock tt] /\
       (Forall (fun l => rearms l = false) (la2 ++ lb) -> scaleDownDelay_of p <= elapsed (la2 ++ lb))).

Lemma admitted_defers t0 ts la j n y lb i ls2 c :
  Forall goroutine ts -> ts !! j = Some (stream n) ->
  steps (Running (init_world t0) ts)
    ((la ++ LOp j (Ev (OSend PR_RequestHeaders_CONTINUE) y) :: lb) ++ LOp i (Ev OSelectTick SelTick) :: ls2) c ->
  admission_defers j la lb.
Proof.
  intros Hts Hj Hst. pose proof Hst as Hst'. rewrite <- app_assoc in Hst.
  destruct (stream_sends _ _ _ _ _ _ _ _ _ Hj Hst) as (l0 & t & v & Hl & Hm & Ha).
  apply answers_continue in Ha as ->. exists l0, t. split; [done|]. split; [done|].
  destruct (MayActivate_admitted t Hm) as [Hw|(p & tr' & Hp & _ & ->)]; [by left|]. right.
  change (tr' ++ [Ev OPoolRLock tt; Ev (OTickerReset (scaleDownDelay_of p)) tt; Ev OPoolRUnlock tt])
    with (tr' ++ [Ev OPoolRLock tt] ++ Ev (OTickerReset (scaleDownDelay_of p)) tt :: [Ev OPoolRUnlock tt]) in Hl.
  rewrite !app_assoc in Hl. apply events_of_split in Hl as (la1 & la2 & -> & _ & Hl2).
  exists p, la1, la2. split; [done|]. split; [done|]. split; [done|]. intros Hf.
  apply Forall_app in Hf as [Hf1 Hf2].
  rewrite <- (app_assoc la1) in Hst'. cbn [app] in Hst'.
  pose proof (tick_after_period _ _ _ _ _ _ _ _ _ _ Hts Hst' eq_refl) as Hd.
  rewrite elapsed_app in Hd |- *. rewrite elapsed_cons in Hd. cbn [elapsed foldr] in Hd.
  etrans; [apply Hd|by rewrite Z.add_0_l]. apply Forall_app. split; [done|]. by constructor.
Qed.

(** C7.  Scaling to zero.  In every interleaving of any goroutines of the
    process from the initial state, a goroutine sends an update to zero
    replicas only after receiving a tick, which no other scale-down has used:
    since that tick it received no other one and sent no other update to zero.
    When it received the tick, at least the period with which any goroutine
    last re-armed the ticker had passed since it did.  And every request that
    had been answered with CONTINUE by then had either waited for a scale-up
    in progress, or re-armed the ticker with the scale-down delay of the pool
    it had read, as the last thing [MayActivate] did; so that, unless some
    goroutine re-armed the ticker since, at least that delay had passed. *)
Theorem scale_to_zero_after_idle_period t0 ts ls i ns gr s x c :
  Forall goroutine ts -> Spec_Replicas s = 0 ->
  steps (Running (init_world t0) ts) (ls ++ [LOp i (Ev (OScaleUpdate ns gr s) x)]) c ->
  exists ls1 ls2, ls = ls1 ++ LOp i (Ev OSelectTick SelTick) :: ls2 /\
    Forall (fun e => between e = true) (events_of i ls2) /\
    (forall la j d lb, ls1 = la ++ LOp j (Ev (OTickerReset d) tt) :: lb ->
       Forall (fun l => rearms l = false) lb -> d <= elapsed lb) /\
    (forall la j n y lb, ts !! j = Some (stream n) ->
       ls1 = la ++ LOp j (Ev (OSend PR_RequestHeaders_CONTINUE) y) :: lb -> admission_defers j la lb).
Proof.
  intros Hts Hs Hst.
  destruct (goroutine_accepts _ _ _ _ i (Ev (OScaleUpdate ns gr s) x) Hts Hst ltac:(set_solver)) as [b Hb].
  rewrite events_of_app in Hb. cbn in Hb. rewrite decide_True in Hb by done.
  destruct (accepts_to_zero _ _ _ _ _ _ _ Hs Hb) as [[[=] _]|(e1 & e2 & He & Hf)].
  apply events_of_split in He as (ls1 & ls2 & -> & _ & <-). exists ls1, ls2. split; [done|]. split; [done|].
  rewrite <- app_assoc in Hst. split.
  - intros la j d lb. by eapply tick_after_period.
  - intros la j n y lb Hj ->. by eapply admitted_defers.
Qed.

End Goroutines.

(** The reconciler sets the pool; the deactivator arms the ticker, receives
    the tick when it is due, and scales the target to zero. *)
Definition idle_env (o : op) : ans o :=
  match o return ans o with
  | OReaderGetV1 _ => Ok demo_pool
  | OScaleGet _ _ _ => Ok (demo_scale 1)
  | o => headers_env o
  end.

Definition idle_process : list (go unit) := [demo_deactivator 1; demo_reconciler [demo_nn]].

Definition idle_schedule : list sched :=
  burst idle_env 1 5 ++ burst idle_env 0 5 ++ [Elapse DefaultScaleDownDelay] ++ burst idle_env 0 10.

(** The same with a request that is served before. *)
Definition served_then_idle : list (go unit) := [demo_deactivator 1; demo_reconciler [demo_nn]; demo_stream 1].

Definition served_then_idle_schedule : list sched :=
  burst idle_env 1 5 ++ burst idle_env 0 5 ++ [Elapse Second] ++ burst idle_env 2 23 ++
  [Elapse DefaultScaleDownDelay] ++ burst idle_env 0 10.

Definition is_continue (l : label) : bool :=
  match l with LOp _ (Ev (OSend PR_RequestHeaders_CONTINUE) _) => true | _ => false end.

Lemma scale_to_zero_after_idle_period_witness :
  exists ls1 ls2 ns gr s x,
    run_labels served_then_idle_schedule (Running (init_world 0) served_then_idle) =
      (ls1 ++ LOp 0%nat (Ev OSelectTick SelTick) :: ls2) ++ [LOp 0%nat (Ev (OScaleUpdate ns gr s) x)] /\
    existsb is_continue (run_labels served_then_idle_schedule (Running (init_world 0) served_then_idle)) = true /\
    Forall (fun e => between e = true) (events_of 0%nat ls2) /\
    (forall la j d lb, ls1 = la ++ LOp j (Ev (OTickerReset d) tt) :: lb ->
       Forall (fun l => rearms l = false) lb -> d <= elapsed lb) /\
    (forall la y lb, ls1 = la ++ LOp 2%nat (Ev (OSend PR_RequestHeaders_CONTINUE) y) :: lb ->
       @admission_defers demo_k8s demo_errutil ref_wait 2%nat la lb).
Proof.
  set (c0 := Running (init_world 0) served_then_idle).
  assert (Hv : is_nil (run_sched served_then_idle_schedule c0) = false) by (vm_compute; reflexivity).
  destruct (run_sched served_then_idle_schedule c0) as [c|] eqn:Hc; [|discriminate Hv].
  pose proof (run_sched_steps _ _ _ Hc) as Hst.
  set (s := demo_scale 0). set (ns := v1.Namespace demo_pool). set (gr := MkGR "apps" "deployments").
  set (ls := removelast (run_labels served_then_idle_schedule c0)).
  assert (Hls : run_labels served_then_idle_schedule c0 = ls ++ [LOp 0%nat (Ev (OScaleUpdate ns gr s) (Ok s))])
    by (vm_compute; reflexivity).
  assert (Hk : existsb is_continue (run_labels served_then_idle_schedule c0) = true) by (vm_compute; reflexivity).
  rewrite Hls in Hst.
  destruct (@scale_to_zero_after_idle_period demo_k8s demo_errutil demo_status ref_wait ref_wait_laws demo_desc 0
    served_then_idle ls 0%nat ns gr s (Ok s) c ltac:(repeat constructor) eq_refl Hst) as (ls1 & ls2 & Hl & Hb & Hp & Ha).
  exists ls1, ls2, ns, gr, s, (Ok s). split; [rewrite Hls, Hl; reflexivity|].
  split; [exact Hk|]. split; [exact Hb|]. split; [exact Hp|].
  intros la y lb. exact (Ha la 2%nat 1%nat y lb eq_refl).
Defined.

(** ** A tick that was already received *)

Module LateTick.

(** One replica, ready. *)
Definition busy_env (o : op) : ans o :=
  match o return ans o with
  | OReaderGetV1 _ => Ok demo_pool
  | OStreamCtxErr => None
  | ORecv => Ok ProcessingRequest_RequestHeaders
  | OSend _ => None
  | o => demo_env None false (Ok (demo_scale 1)) (Ok (demo_object 1)) o
  end.

Definition goroutines : list (go unit) := [demo_stream 1; demo_deactivator 1; demo_reconciler [demo_nn]].

(** The pool is synced, the deactivator starts and receives a tick; then a
    request is served from beginning to end; then the deactivator goes on. *)
Definition schedule : list sched :=
  burst busy_env 2 5 ++ burst busy_env 1 5 ++ [Elapse (120 * Second)] ++ burst busy_env 1 1 ++
  burst busy_env 0 23 ++ burst busy_env 1 9.

Definition labels : list label := run_labels schedule (Running (init_world 0) goroutines).

Definition scaled_away : Scale := set_Replicas 0 (demo_scale 1).

Lemma labels_shape : labels =
  take 11 labels ++ LOp 1%nat (Ev OSelectTick SelTick) :: take 20 (drop 12 labels) ++
  LOp 0%nat (Ev (OTickerReset DefaultScaleDownDelay) tt) :: LOp 0%nat (Ev OPoolRUnlock tt) ::
  LOp 0%nat (Ev (OSend PR_RequestHeaders_CONTINUE) None) :: take 8 (drop 35 labels) ++
  [LOp 1%nat (Ev (OScaleUpdate "llm-d-sim" (MkGR "apps" "deployments") scaled_away) (Ok scaled_away))].
Proof. vm_compute. reflexivity. Qed.

(** A tick received. *)
Definition is_tick (l : label) : bool :=
  match l with LOp _ (Ev OSelectTick SelTick) => true | _ => false end.

Lemma no_tick_between : existsb is_tick (take 20 (drop 12 labels) ++ take 8 (drop 35 labels)) = false.
Proof. vm_compute. reflexivity. Qed.

(** C26.  Admitting a request does not stop a scale-down whose tick was
    already received: the process has a run in which the deactivator receives
    a tick, then a request is found to have a ready replica, re-arms the
    ticker with the full delay and is answered with CONTINUE, and then the
    deactivator, without another tick, scales the target of that request to
    zero. *)
Theorem admission_does_not_stop_scale_down :
  exists la lb lc s c,
    steps (Running (init_world 0) goroutines)
      (la ++ LOp 1%nat (Ev OSelectTick SelTick) :: lb ++
       LOp 0%nat (Ev (OTickerReset DefaultScaleDownDelay) tt) :: LOp 0%nat (Ev OPoolRUnlock tt) ::
       LOp 0%nat (Ev (OSend PR_RequestHeaders_CONTINUE) None) :: lc ++
       [LOp 1%nat (Ev (OScaleUpdate "llm-d-sim" (MkGR "apps" "deployments") s) (Ok s))]) c /\
    (LOp 1%nat (Ev OSelectTick SelTick) ∉ lb ++ lc) /\ s = set_Replicas 0 (demo_scale 1).
Proof.
  assert (Hv : is_nil (run_sched schedule (Running (init_world 0) goroutines)) = false) by (vm_compute; reflexivity).
  destruct (run_sched schedule (Running (init_world 0) goroutines)) as [c|] eqn:Hc; [|discriminate Hv].
  apply run_sched_steps in Hc. fold labels in Hc. rewrite labels_shape in Hc.
  eexists _, _, _, scaled_away, c. split; [exact Hc|]. split; [|reflexivity].
  intros Hin%list_elem_of_In. pose proof no_tick_between as Hn.
  rewrite (proj2 (existsb_exists _ _)) in Hn; [discriminate Hn|].
  exact (ex_intro _ _ (conj Hin eq_refl)).
Qed.

End LateTick.

(** ** The delay of the annotation *)

Module ShortDelay.

(** A pool whose target may be scaled down only after ten idle minutes. *)
Definition patient_pool : v1.InferencePool := with_annotation ScaleDownDelayKey "10m" demo_pool.

(** The target has one replica; updates to one replica conflict. *)
Definition env (polled_out : bool) (ready : Z) (o : op) : ans o :=
  match o return ans o with
  | OReaderGetV1 _ => Ok patient_pool
  | OPollWait _ => polled_out
  | ODynamicGet _ _ _ => Ok (demo_object ready)
  | OScaleUpdate _ _ s => if Spec_Replicas s =? 1 then Err (EApi "Conflict" "the object has been modified") else Ok s
  | o => LateTick.busy_env o
  end.

Definition goroutines : list (go unit) :=
  [demo_stream 1; demo_stream 1; demo_deactivator 1; demo_reconciler [demo_nn]].

(** The pool is synced and the deactivator starts; a request is admitted; a
    second request polls once, in vain, and is refused; two minutes later the
    deactivator receives a tick. *)
Definition schedule : list sched :=
  burst (env false 1) 3 5 ++ burst (env false 1) 2 5 ++ burst (env false 1) 0 23 ++
  burst (env false 0) 1 18 ++ burst (env true 0) 1 15 ++ [Elapse (120 * Second)] ++ burst (env false 1) 2 10.

Definition labels : list label := run_labels schedule (Running (init_world 0) goroutines).

Definition between : list label := take 43 (drop 33 labels).

Lemma short_labels_shape : labels =
  take 30 labels ++ LOp 0%nat (Ev (OTickerReset (600 * Second)) tt) :: LOp 0%nat (Ev OPoolRUnlock tt) ::
  LOp 0%nat (Ev (OSend PR_RequestHeaders_CONTINUE) None) :: between ++
  [LOp 2%nat (Ev (OScaleUpdate "llm-d-sim" (MkGR "apps" "deployments") LateTick.scaled_away) (Ok LateTick.scaled_away))].
Proof. vm_compute. reflexivity. Qed.

Lemma between_elapsed : elapsed between = 120 * Second.
Proof. vm_compute. reflexivity. Qed.

(** A request that is not admitted shortens the delay of one that was.
    Readiness polls re-arm the ticker with the default delay and not with the
    delay of the pool, and only an admission sets that again.  So the process
    has a run in which a request for a pool with a scale-down delay of ten
    minutes is admitted and the ticker armed with ten minutes, a second
    request then polls and is refused, and two minutes later the target is
    scaled to zero. *)
Theorem refused_request_shortens_delay :
  scaleDownDelay_of patient_pool = 600 * Second /\
  exists la lb c s,
    steps (Running (init_world 0) goroutines)
      (la ++ LOp 0%nat (Ev (OTickerReset (600 * Second)) tt) :: LOp 0%nat (Ev OPoolRUnlock tt) ::
       LOp 0%nat (Ev (OSend PR_RequestHeaders_CONTINUE) None) :: lb ++
       [LOp 2%nat (Ev (OScaleUpdate "llm-d-sim" (MkGR "apps" "deployments") s) (Ok s))]) c /\
    elapsed lb = 120 * Second /\ s = set_Replicas 0 (demo_scale 1).
Proof.
  split; [vm_compute; reflexivity|].
  assert (Hv : is_nil (run_sched schedule (Running (init_world 0) goroutines)) = false) by (vm_compute; reflexivity).
  destruct (run_sched schedule (Running (init_world 0) goroutines)) as [c|] eqn:Hc; [|discriminate Hv].
  apply run_sched_steps in Hc. fold labels in Hc. rewrite short_labels_shape in Hc.
  eexists _, between, c, LateTick.scaled_away. split; [exact Hc|]. split; [apply between_elapsed|reflexivity].
Qed.

End ShortDelay.
