(* ===== verification/Readiness.v ===== *)
(** * High availability: readiness and replicas that are not the leader

    With leader election a replica reports itself ready only after it was
    elected and its pool was synced, in every interleaving of its goroutines
    ([ready_replica_was_elected]).  A replica that is not elected has no
    reconciler, so its pool stays unknown; its deactivator runs all the same,
    and the first tick it receives is its end ([unelected_replica_crashes]). *)

From S2P Require Import Prelude GoTime Prog Effects Machine Datastore RequestControl Instances Activator Admission Deactivator Handlers Controller Health Goroutines Traces.
#[local] Open Scope go_scope.

(** ** Becoming the leader *)

Module Election.

(** The flag is stored only after the election. *)
Definition delta (elected : bool) (e : evt) : option bool :=
  match ev_op e with
  | OElected => Some true
  | OLeaderStore _ => if elected then Some elected else None
  | _ => Some elected
  end.

Abbreviation ok := (anywhere delta).

Lemma election_ResetTicker d : ok _ (ResetTicker d).
Proof. unfold ResetTicker, TickerReset. by destruct (d <=? 0). Qed.

Lemma election_external o : external o = true -> restricted o = false -> ok _ (eff o).
Proof. intros Ho Hr s. by destruct o. Qed.

#[local] Instance election_sections : Sections ok.
Proof. by apply (plain_sections election_ResetTicker election_external). Qed.

#[local] Instance election_more_sections : MoreSections ok.
Proof.
  apply (plain_more_sections election_ResetTicker election_external); [|done..]. intros B f Hf. apply ok_bind; [|intros [p e]; by apply Hf]. cbn. by intros ? ? ? [] ?.
Qed.

#[local] Instance election_pool_writes : PoolWrites ok.
Proof. done. Qed.

Section Goroutines.
Context `{K8s : Kubernetes} `{EU : ErrUtil} `{GS : GrpcStatus} `{Wait : WaitPkg} {WL : WaitPkgLaws} `{EP : ExtProcDesc}.

Lemma election_scaleInferencePool ns d gr gvr : numReplicas d = 1 -> ok _ (scaleInferencePool ns d gr gvr).
Proof.
  intros Hd. rewrite scaleInferencePool_body. apply ok_bind; [done|]. intros _.
  apply ok_defer; [by apply scale_body_ok|]. intros s. cbn. intros _ _ [c|]; cbn; [|done]. by intros [].
Qed.

Lemma goroutine_election t : goroutine t -> ok _ t.
Proof. by apply goroutine_ok; [..|apply election_scaleInferencePool]. Qed.

(** A stored flag had an election before it. *)
Lemma accepts_store x evs : forall b b', accepts delta b evs = Some b' ->
  Ev (OLeaderStore true) x ∈ evs -> b = true \/ exists y, Ev OElected y ∈ evs.
Proof.
  induction evs as [|[o y] evs IH]; intros b b' H Hin; [by apply not_elem_of_nil in Hin|].
  cbn [accepts] in H. destruct (delta b (Ev o y)) as [b1|] eqn:Hd; [|done].
  apply elem_of_cons in Hin as [E|Hin].
  - left. rewrite <- E in Hd. cbn in Hd. by destruct b.
  - destruct (IH _ _ H Hin) as [->|(z & Hz)]; [|right; exists z; by right].
    destruct o; cbn in Hd; simplify_eq; auto; [left; by destruct b|]. right. exists y. by left.
Qed.

Lemma stored_after_election t0 ts ls c j : Forall goroutine ts -> steps (Running (init_world t0) ts) ls c ->
  LOp j (Ev (OLeaderStore true) tt) ∈ ls -> LOp j (Ev OElected tt) ∈ ls.
Proof.
  intros Hts Hst Hin. destruct (steps_thread _ _ _ _ _ Hst _ _ eq_refl Hin) as [t Hj].
  assert (Ht : goroutine t) by by apply (Forall_lookup_1 _ _ _ _ Hts Hj).
  destruct (mon_steps delta j _ _ _ Hst _ _ t false _ eq_refl Hj (goroutine_election t Ht false)) as (b & Hb & _).
  destruct (accepts_store tt _ _ _ Hb) as [[=]|([] & He)]; [by apply elem_of_events|]. by apply events_of_elem.
Qed.

End Goroutines.
End Election.

(** ** Reporting readiness *)

Module Ready.

(** What a health check has seen: a pool, the leader flag set. *)
Definition delta (s : bool * bool) (e : evt) : option (bool * bool) :=
  match e with
  | Ev OPoolRead p => Some (negb (is_nil p), snd s)
  | Ev OLeaderLoad b => Some (fst s, b)
  | Ev (OHealthSend SERVING) _ => if fst s && snd s then Some s else None
  | _ => Some s
  end.

Section Check.
Context `{EP : ExtProcDesc}.

(** [Check] reports SERVING, for any service but liveness, only after seeing
    both. *)
Lemma health_check_mon svc : svc <> LivenessCheckService ->
  mon delta (false, false) (health_check true svc) (fun _ _ => True).
Proof.
  intros Hne. cbn -[check_service]. intros _ p _. apply mon_bind.
  assert (Hpass : mon delta (negb (is_nil p), false)
    (isPassing <- live_and_leader (negb (is_nil p)) ;; check_result isPassing)
    (mthen delta (fun r => eff (OHealthSend (fst r))) (fun _ _ => True))).
  { destruct p as [p|]; cbn; [|by intros []]. by intros []; cbn. }
  unfold check_service. cbn [negb].
  destruct (String.eqb svc ReadinessCheckService); [done|]. destruct (String.eqb svc ""); [done|].
  destruct (String.eqb_spec svc LivenessCheckService); [done|].
  destruct (String.eqb svc ExternalProcessor_ServiceName); [done|]. done.
Qed.

End Check.

Lemma accepts_serving x evs : forall s s', accepts delta s (evs ++ [Ev (OHealthSend SERVING) x]) = Some s' ->
  (fst s = true \/ exists p, Ev OPoolRead (Some p) ∈ evs) /\ (snd s = true \/ Ev OLeaderLoad true ∈ evs).
Proof.
  induction evs as [|[o y] evs IH]; intros [s1 s2] s' H.
  - cbn in H. by destruct s1, s2; auto.
  - cbn [app accepts] in H. destruct (delta (s1, s2) (Ev o y)) as [[b1 b2]|] eqn:Hd; [|done].
    destruct (IH _ _ H) as [H1 H2]. cbn [fst snd] in *.
    assert (Hp : b1 = true -> s1 = true \/ exists p, Ev o y = Ev OPoolRead (Some p)).
    { intros ->. destruct o; cbn in Hd; repeat split_match_in Hd; simplify_eq; auto.
      destruct y as [p|]; [right; by exists p|done]. }
    assert (Hl : b2 = true -> s2 = true \/ Ev o y = Ev OLeaderLoad true).
    { intros ->. destruct o; cbn in Hd; repeat split_match_in Hd; simplify_eq; auto. }
    split.
    + destruct H1 as [->|(p & Hin)]; [|right; exists p; by right].
      destruct (Hp eq_refl) as [->|(p & ->)]; [by left|]. right. exists p. by left.
    + destruct H2 as [->|Hin]; [|right; by right]. destruct (Hl eq_refl) as [->| ->]; [by left|right; by left].
Qed.

End Ready.

(** The run up to a label. *)
Lemma steps_upto c ls l c' : steps c ls c' -> l ∈ ls ->
  exists la lb c1, ls = la ++ l :: lb /\ steps c (la ++ [l]) c1.
Proof.
  intros Hs (la & lb & ->)%list_elem_of_split. exists la, lb.
  change (l :: lb) with ([l] ++ lb) in Hs. rewrite app_assoc in Hs.
  apply steps_app_inv in Hs as (c1 & ? & _). eauto.
Qed.

Section Readiness.
Context `{K8s : Kubernetes} `{EU : ErrUtil} `{GS : GrpcStatus} `{Wait : WaitPkg} {WL : WaitPkgLaws} `{EP : ExtProcDesc}.

(** C19.  Readiness.  With leader election, in every interleaving of any
    goroutines of the process from the initial state: when a health check of
    any service other than "liveness" is answered with SERVING, this replica
    has been elected, the election was recorded in the flag, and the
    reconciler has stored a pool. *)
Theorem ready_replica_was_elected t0 ts ls i svc x c :
  Forall goroutine ts -> ts !! i = Some (health_check true svc) -> svc <> LivenessCheckService ->
  steps (Running (init_world t0) ts) (ls ++ [LOp i (Ev (OHealthSend SERVING) x)]) c ->
  (exists j, LOp j (Ev OElected tt) ∈ ls /\ LOp j (Ev (OLeaderStore true) tt) ∈ ls) /\
  (exists j p, LOp j (Ev (OPoolWrite (Some p)) tt) ∈ ls).
Proof.
  intros Hts Hi Hne Hst.
  destruct (mon_steps Ready.delta i _ _ _ Hst _ _ _ _ _ eq_refl Hi (Ready.health_check_mon svc Hne)) as (s & Ha & _).
  rewrite events_of_app in Ha. cbn in Ha. rewrite decide_True in Ha by done.
  destruct (Ready.accepts_serving _ _ _ _ Ha) as [[[=]|(p & Hp)] [[=]|Hl]].
  apply events_of_elem in Hp, Hl. apply steps_app_inv in Hst as (c1 & Hst & _). split.
  - destruct (steps_upto _ _ _ _ Hst Hl) as (la & lb & c2 & -> & Hpre).
    destruct (leader_load_stored (init_world t0) _ _ _ _ eq_refl Hpre) as [j Hj].
    exists j. split; [|set_solver]. eapply Election.stored_after_election; [done|exact Hst|set_solver].
  - destruct (steps_upto _ _ _ _ Hst Hp) as (la & lb & c2 & -> & Hpre).
    destruct (read_pool_written (init_world t0) _ _ _ _ _ eq_refl Hpre) as [j Hj].
    exists j, p. set_solver.
Qed.

End Readiness.

(** Elected, synced, asked. *)
Definition ready_goroutines : list (go unit) := [demo_check; elected_goroutine; demo_reconciler [demo_nn]].

Definition ready_env (o : op) : ans o :=
  match o return ans o with OReaderGetV1 _ => Ok demo_pool | o => some_answer o end.

Definition ready_schedule : list sched := burst ready_env 1 2 ++ burst ready_env 2 5 ++ burst ready_env 0 4.

Lemma ready_replica_was_elected_witness :
  let ls := run_labels ready_schedule (Running (init_world 0) ready_goroutines) in
  (exists j, LOp j (Ev OElected tt) ∈ ls /\ LOp j (Ev (OLeaderStore true) tt) ∈ ls) /\
  (exists j p, LOp j (Ev (OPoolWrite (Some p)) tt) ∈ ls).
Proof.
  intros ls.
  assert (Hv : match run_sched (ready_schedule ++ burst ready_env 0 1) (Running (init_world 0) ready_goroutines) with
    | Some (Running w _) => isLeader w = true | _ => False end) by (vm_compute; reflexivity).
  destruct (run_sched (ready_schedule ++ burst ready_env 0 1) (Running (init_world 0) ready_goroutines))
    as [c|] eqn:Hc; [|destruct Hv]. clear Hv.
  apply (@ready_replica_was_elected demo_k8s demo_errutil demo_status ref_wait ref_wait_laws demo_desc 0
    ready_goroutines ls 0%nat "readiness" tt c).
  - repeat constructor.
  - reflexivity.
  - discriminate.
  - apply run_sched_steps in Hc. exact Hc.
Defined.

(** ** A replica that is not elected *)

Module Follower.

(** Its goroutines: the manager starts no controller before the election. *)
Inductive unelected `{K8s : Kubernetes} `{EU : ErrUtil} `{GS : GrpcStatus} `{Wait : WaitPkg} `{EP : ExtProcDesc} :
    go unit -> Prop :=
| u_stream n : unelected (stream n)
| u_deactivator n : unelected (deactivator n)
| u_check le svc : unelected (health_check le svc)
| u_list le : unelected (health_list le).

(** *** None of them writes the pool *)

Definition no_write (_ : unit) (e : evt) : option unit :=
  match ev_op e with OPoolWrite _ => None | _ => Some tt end.

Abbreviation ok := (anywhere no_write).

Lemma follower_ResetTicker d : ok _ (ResetTicker d).
Proof. unfold ResetTicker, TickerReset. by destruct (d <=? 0). Qed.

Lemma follower_external o : external o = true -> restricted o = false -> ok _ (eff o).
Proof. intros Ho Hr s. by destruct o. Qed.

#[local] Instance follower_sections : Sections ok.
Proof. by apply (plain_sections follower_ResetTicker follower_external). Qed.

#[local] Instance follower_more_sections : MoreSections ok.
Proof.
  apply (plain_more_sections follower_ResetTicker follower_external); [|done..]. intros B f Hf. apply ok_bind; [|intros [p e]; by apply Hf]. cbn. by intros ? ? ? [] ?.
Qed.

Lemma accepts_no_write p x evs : forall s s', accepts no_write s evs = Some s' -> Ev (OPoolWrite p) x ∉ evs.
Proof.
  induction evs as [|e evs IH]; intros s s' H; [apply not_elem_of_nil|]. cbn [accepts] in H.
  destruct (no_write s e) eqn:Hd; [|done]. apply not_elem_of_cons. split; [intros <-; done|by eapply IH].
Qed.

(** *** After a tick *)

(** No tick yet; the context ended; a tick, with at most [n] operations to
    come; a pool was read. *)
Inductive phase := Waiting | Cancelled | Doomed (n : nat) | Synced.

#[local] Instance phase_eq_dec : EqDecision phase.
Proof. solve_decision. Defined.

Definition on_the_way_out (o : op) : bool :=
  match o with OPoolRLock | OPoolRUnlock | OPoolRead | OTickerStop => true | _ => false end.

Definition delta (p : phase) (e : evt) : option phase :=
  match p, e with
  | Synced, _ => Some Synced
  | _, Ev OPoolRead (Some _) => Some Synced
  | Waiting, Ev OSelectTick SelTick => Some (Doomed 8)
  | Waiting, Ev OSelectTick SelCtxDone => Some Cancelled
  | Waiting, _ => Some Waiting
  | Cancelled, _ => if on_the_way_out (ev_op e) then Some Cancelled else None
  | Doomed (S n), _ => if on_the_way_out (ev_op e) then Some (Doomed n) else None
  | Doomed O, _ => None
  end.

(** After a tick without a pool, nothing but the panic. *)
Definition doomed {A} (p : phase) (r : outcome A) : Prop :=
  match p with Doomed _ => r = Crash nil_deref | _ => True end.

Lemma synced_anything {A} (q : go A) (Q : phase -> outcome A -> Prop) :
  (forall r, Q Synced r) -> mon delta Synced q Q.
Proof. intros HQ. induction q as [a|m|o k IH]; cbn; auto. Qed.

Section Proofs.
Context `{K8s : Kubernetes} `{EU : ErrUtil} `{GS : GrpcStatus} `{Wait : WaitPkg} {WL : WaitPkgLaws} `{EP : ExtProcDesc}.

Lemma follower_scaleInferencePool ns d gr gvr : numReplicas d = 1 -> ok _ (scaleInferencePool ns d gr gvr).
Proof.
  intros Hd. rewrite scaleInferencePool_body. apply ok_bind; [done|]. intros _.
  apply ok_defer; [by apply scale_body_ok|]. intros s. cbn. intros _ _ [c|]; cbn; [|done]. by intros [].
Qed.

Lemma unelected_writes_nothing t : unelected t -> ok _ t.
Proof.
  intros []; [by apply stream_ok, follower_scaleInferencePool|by apply void_ok, Monitor_ok, monitor_round_ok|
    apply health_check_ok|apply health_list_ok].
Qed.

Lemma PoolGet_doomed : mon delta (Doomed 8) PoolGet (fun p r =>
  p = Synced \/ (p = Doomed 3 /\ r = Done (None, Some EPoolNotSynced))).
Proof. cbn. intros _ _ [p|]; cbn; auto. Qed.

Lemma monitor_round_doomed : mon delta Waiting monitor_round (fun p r =>
  p = Synced \/ match r with
  | Done (Some _) => p = Cancelled
  | Done None => False
  | Crash m => p = Doomed 3 /\ m = nil_deref
  end).
Proof.
  cbn -[GetResourceForKind PoolGet]. intros []; [by right|]. apply mon_bind.
  eapply mon_mono; [|apply PoolGet_doomed]. intros s r [->|[-> ->]]; [|by right].
  destruct r; [apply synced_anything|]; by left.
Qed.

Lemma deactivator_doomed n : mon delta Waiting (deactivator n) doomed.
Proof.
  apply mon_bind, mon_bind. apply (mon_mono _ _ _ (fun p r => p = Waiting /\ exists u, r = Done u)).
  2:{ cbn -[TickerReset Z.leb]. unfold TickerReset. change (DefaultScaleDownDelay <=? 0) with false. cbn. eauto. }
  intros ? ? [-> [u ->]]. apply mon_defer, mon_bind.
  apply (mon_mono _ _ _ (fun p r => p = Waiting /\ exists u, r = Done u)); [|cbn; eauto]. intros ? ? [-> [u' ->]].
  destruct n as [|n]; [by cbn|]. cbn [for_loop mthen]. apply mon_bind. eapply mon_mono; [|apply monitor_round_doomed].
  intros p r [->|Hr].
  - assert (Hs : forall r : outcome (option unit), mon delta Synced StopTicker
      (mthen delta (fun _ => of_outcome r) (mthen delta (fun _ => Ret tt) doomed))).
    { intros r'. apply synced_anything. intros [[]|m]; [|done]. by destruct r'. }
    destruct r as [c|m]; [by apply synced_anything|apply Hs].
  - destruct r as [[b|]|m]; [subst; by cbn|done|destruct Hr as [-> ->]; by cbn].
Qed.

(** *** The theorem *)

Lemma accepts_synced evs : forall s, s <> Synced -> accepts delta s evs = Some Synced ->
  exists p, Ev OPoolRead (Some p) ∈ evs.
Proof.
  induction evs as [|e evs IH]; intros s Hs H; [by injection H as ->|]. cbn [accepts] in H.
  destruct (delta s e) as [s1|] eqn:Hd; [|done]. destruct (decide (s1 = Synced)) as [->|Hne].
  - destruct e as [o x]. destruct o; try (destruct s as [| |[]|]; cbn in Hd; repeat split_match_in Hd; done).
    destruct x as [p|]; [exists p; by left|]. by destruct s as [| |[]|]; cbn in Hd.
  - destruct (IH s1 Hne H) as [p Hp]. exists p. by right.
Qed.

Lemma synced_absorbs evs : accepts delta Synced evs = Some Synced.
Proof. by induction evs. Qed.

(** No goroutine of such a replica ever reads a pool. *)
Lemma no_pool_read t0 ts ls c i p : Forall unelected ts -> steps (Running (init_world t0) ts) ls c ->
  Ev OPoolRead (Some p) ∈ events_of i ls -> False.
Proof.
  intros Hts Hst Hp%events_of_elem. destruct (steps_upto _ _ _ _ Hst Hp) as (la & lb & c2 & -> & Hpre).
  destruct (read_pool_written (init_world t0) _ _ _ _ _ eq_refl Hpre) as [j Hj].
  assert (Hj' : LOp j (Ev (OPoolWrite (Some p)) tt) ∈ la ++ LOp i (Ev OPoolRead (Some p)) :: lb) by set_solver.
  destruct (steps_thread _ _ _ _ _ Hst _ _ eq_refl Hj') as [t Ht].
  assert (Hu : unelected t) by by apply (Forall_lookup_1 _ _ _ _ Hts Ht).
  destruct (mon_steps no_write j _ _ _ Hst _ _ t tt _ eq_refl Ht (unelected_writes_nothing t Hu tt)) as (b & Hb & _).
  eapply accepts_no_write; [exact Hb|]. by apply elem_of_events.
Qed.

(** Once doomed, at most [n] more operations. *)
Lemma accepts_doomed evs : forall n s, accepts delta (Doomed n) evs = Some s -> s <> Synced ->
  (length evs <= n)%nat /\ Forall (fun e => on_the_way_out (ev_op e) = true) evs /\ exists m, s = Doomed m.
Proof.
  induction evs as [|e evs IH]; intros n s H Hs.
  { injection H as <-. split; [cbn; lia|]. split; [constructor|eauto]. }
  cbn [accepts] in H. destruct (delta (Doomed n) e) as [s1|] eqn:Hd; [|done].
  assert (Hs1 : s1 = Synced \/ exists m, n = S m /\ s1 = Doomed m /\ on_the_way_out (ev_op e) = true).
  { destruct e as [o x], n as [|n]; destruct o; cbn in Hd; repeat split_match_in Hd; simplify_eq; eauto. }
  destruct Hs1 as [->|(m & -> & -> & Ho)].
  - by rewrite synced_absorbs in H; simplify_eq.
  - destruct (IH _ _ H Hs) as (Hl & Hf & Hm). split; [cbn; lia|]. split; [by constructor|done].
Qed.

Lemma accepts_tick e1 e2 s s' : accepts delta s (e1 ++ Ev OSelectTick SelTick :: e2) = Some s' -> s' <> Synced ->
  accepts delta (Doomed 8) e2 = Some s'.
Proof.
  intros H Hs. rewrite accepts_app in H. destruct (accepts delta s e1) as [s1|]; [|done]. cbn in H.
  destruct s1 as [| |[]|]; cbn in H; try done. by rewrite synced_absorbs in H; simplify_eq.
Qed.

(** C25.  A replica that is not elected does not survive its first tick.  In
    every interleaving of the goroutines of a replica without a reconciler
    (streams, deactivators, health checks), a deactivator that has received a
    tick performs at most eight more operations, all of them on the lock of
    the datastore and its ticker, makes no call of the Kubernetes API, never
    returns, and ends in the panic of a nil dereference. *)
Theorem unelected_replica_crashes t0 ts i n la lb c :
  Forall unelected ts -> ts !! i = Some (deactivator n) ->
  steps (Running (init_world t0) ts) (la ++ LOp i (Ev OSelectTick SelTick) :: lb) c ->
  (length (events_of i lb) <= 8)%nat /\
  Forall (fun e => on_the_way_out (ev_op e) = true) (events_of i lb) /\
  match c with
  | Running _ ts' => exists t, ts' !! i = Some t /\
      (t = Panic "invalid memory address or nil pointer dereference" \/ exists o k, t = Op o k)
  | Crashed _ => True
  end.
Proof.
  intros Hts Hi Hst.
  destruct (mon_steps delta i _ _ _ Hst _ _ _ _ _ eq_refl Hi (deactivator_doomed n)) as (s & Ha & Hres).
  assert (Hs : s <> Synced).
  { intros ->. destruct (accepts_synced _ Waiting ltac:(done) Ha) as [p Hp]. by eapply no_pool_read. }
  rewrite events_of_app in Ha. cbn in Ha. rewrite decide_True in Ha by done.
  apply accepts_tick in Ha; [|done]. destruct (accepts_doomed _ _ _ Ha Hs) as (Hl & Hf & m & ->).
  split; [done|]. split; [done|]. destruct c as [w ts'|]; [|done].
  destruct (Hres _ _ eq_refl) as (t & Ht & Hm). exists t. split; [done|].
  destruct t as [a|msg|o k]; [by cbn in Hm|cbn in Hm; injection Hm as ->; by left|eauto].
Qed.

End Proofs.

(** A follower that has answered a health check, two minutes later. *)
Definition follower_goroutines : list (go unit) := [demo_deactivator 3; demo_check].

Definition follower_before : list sched := burst some_answer 1 5 ++ burst some_answer 0 5 ++ [Elapse (120 * Second)].
Definition follower_after : list sched := burst some_answer 0 8.

Lemma unelected_replica_crashes_witness :
  let c0 := Running (init_world 0) follower_goroutines in
  let ls := run_labels (follower_before ++ burst some_answer 0 1 ++ follower_after) c0 in
  let lb := drop 12 ls in
  (length (events_of 0%nat lb) <= 8)%nat /\
  match run_sched (follower_before ++ burst some_answer 0 1 ++ follower_after) c0 with
  | Some (Running _ ts') => exists t, ts' !! 0%nat = Some t /\
      (t = Panic "invalid memory address or nil pointer dereference" \/ exists o k, t = Op o k)
  | _ => False
  end.
Proof.
  intros c0 ls lb.
  assert (Hv : match run_sched (follower_before ++ burst some_answer 0 1 ++ follower_after) c0 with
    | Some (Running w _) => now w = 120 * Second | _ => False end) by (vm_compute; reflexivity).
  destruct (run_sched (follower_before ++ burst some_answer 0 1 ++ follower_after) c0) as [c|] eqn:Hc; [|destruct Hv].
  destruct (@unelected_replica_crashes demo_k8s demo_errutil demo_status ref_wait ref_wait_laws demo_desc 0
    follower_goroutines 0%nat 3 (take 11 ls) lb c) as (Hl & _ & Hend).
  - constructor; [apply u_deactivator|]. constructor; [apply u_check|constructor].
  - reflexivity.
  - apply run_sched_steps in Hc. exact Hc.
  - split; [exact Hl|]. destruct c as [w ts'|m]; [exact Hend|destruct Hv].
Defined.

End Follower.
