(* ===== verification/Crashes.v ===== *)
(** * Why the process crashes

    Every panic of a goroutine ends the process.  This file traces each panic
    that can be reached back to the events of the run that led to it: a tick
    without a pool, a pool whose scale-down delay is not positive, an object
    without a status, or two scale-ups at the same time.  There are no
    others. *)

From S2P Require Import Prelude GoTime Prog Effects Machine Datastore RequestControl Instances Activator Admission Deactivator Handlers Controller Health Goroutines ScaleUpState PoolLock Traces.
#[local] Open Scope go_scope.

Definition bad_interval : string := "non-positive interval for Ticker.Reset".
Definition close_nil : string := "close of nil channel".
Definition close_closed : string := "close of closed channel".

#[export] Instance no_status_dec r : Decision (no_status r).
Proof. destruct r as [obj|e]; [|right; tauto]. cbn. destruct (any_index _ _); (left; exact I) || (right; tauto). Defined.

(** The goroutine that panicked, and what it did before. *)
Lemma crash_left {S} (delta : S -> evt -> option S) bad s w ts ls w' ts' i t m :
  steps (Running w ts) ls (Running w' ts') -> ts !! i = Some t -> ts' !! i = Some (Panic m) ->
  unless delta bad s unit t -> bad m ->
  exists e1 e e2 s1, events_of i ls = e1 ++ e :: e2 /\ accepts delta s e1 = Some s1 /\ delta s1 e = None.
Proof.
  intros Hs Hi Hp Hu Hm.
  destruct (mon_steps (leaving delta) i _ _ _ Hs _ _ t (Some s) _ eq_refl Hi Hu) as (s' & Ha & Hr).
  destruct (Hr _ _ eq_refl) as (t' & Ht' & Hmon). rewrite Hp in Ht'. injection Ht' as <-.
  destruct Hmon as [->|[_ Hb]]; [|done]. by apply accepts_left.
Qed.

(** ** The event behind a panic *)

Module Blame.

(** What a goroutine is told just before it panics with [m], sooner or
    later. *)
Definition cause (m : string) (e : evt) : bool :=
  match e with
  | Ev OPoolRead None => bool_decide (m = nil_deref)
  | Ev OPoolRead (Some p) => bool_decide (m = bad_interval /\ scaleDownDelay_of p <= 0)
  | Ev (ODynamicGet _ _ _) r => bool_decide (m = bad_assertion /\ no_status r)
  | Ev OGuardRead None => bool_decide (m = close_nil)
  | Ev (OClose _) false => bool_decide (m = close_closed)
  | _ => false
  end.

Section Message.
Context (m : string).

Definition blameless (_ : unit) (e : evt) : option unit := if cause m e then None else Some tt.

Abbreviation ok := (unless blameless (eq m) tt).

Lemma blame_uses {A} N (p : go A) : uses N p -> panics (fun m' => m <> m') p -> ok A p.
Proof. intros Hu Hp. eapply unless_uses; [exact Hu|done|]. by intros o x [] _ _. Qed.

Lemma blame_eff o : ok _ (eff o).
Proof. by apply (blame_uses (fun _ => true)). Qed.

(** An operation, whose answer may be the cause. *)
Lemma blame_op {A} o (k : ans o -> go A) : (forall x, cause m (Ev o x) = false -> ok A (k x)) -> ok A (Op o k).
Proof.
  intros Hk. apply unless_op. unfold blameless. intros x [] Hx. apply Hk. by destruct (cause m (Ev o x)).
Qed.

#[local] Instance blame_sections : Sections ok.
Proof.
  split; [intros; apply blame_eff|by apply (blame_uses (fun _ => true))|..].
  - intros d Hd. unfold ResetTicker, TickerReset. replace (d <=? 0) with false by lia.
    by apply (blame_uses (fun _ => true)).
  - intros gvr ns n B f Hf. apply blame_op. intros r Hr. apply Hf. intros Hn. apply unless_panic. intros ->.
    cbn in Hr. by rewrite bool_decide_eq_false in Hr; destruct Hr.
Qed.

Lemma blame_late d : m <> bad_interval -> ok _ (ResetTicker d).
Proof.
  intros Hm. apply (blame_uses ticker_resets); [apply ResetTicker_uses|].
  unfold ResetTicker, TickerReset. by destruct (d <=? 0); cbn.
Qed.

Lemma blame_PoolGet {B} (f : _ -> go B) :
  (forall p e, cause m (Ev OPoolRead p) = false -> ok B (f (p, e))) -> ok B (bind PoolGet f).
Proof.
  intros Hf. cbn -[unless]. do 2 (apply blame_op; intros _ _). apply blame_op. intros p Hp. apply blame_op; intros _ _.
  destruct p as [p|]; cbn -[unless]; [|apply blame_op; intros _ _; by apply Hf].
  apply blame_op. intros q Hq. apply blame_op; intros _ _. by apply Hf.
Qed.

Lemma blame_no_pool : cause m (Ev OPoolRead None) = false -> m <> nil_deref.
Proof. cbn. by rewrite bool_decide_eq_false. Qed.

#[local] Instance blame_more_sections : MoreSections ok.
Proof.
  split; [|intros; by apply (blame_uses (fun _ => true))..]. intros B f Hf. apply blame_PoolGet. intros p e Hp. apply Hf.
  - intros -> _. by apply unless_panic, blame_no_pool.
  - intros pool -> Hd. apply blame_late. intros ->. cbn in Hp. by rewrite bool_decide_eq_false in Hp; destruct Hp.
Qed.

#[local] Instance blame_pool_writes : PoolWrites ok.
Proof. split. intros p. by apply (blame_uses (fun _ => true)). Qed.

Lemma blame_endScalingUp : ok _ endScalingUp.
Proof.
  cbn -[unless]. do 2 (apply blame_op; intros _ _). apply blame_op. intros [c|] Hg; cbn -[unless].
  - apply blame_op. intros [] Hc; cbn -[unless]; [by apply (blame_uses (fun _ => true))|].
    apply blame_op; intros _ _. apply unless_panic. intros ->. by cbn in Hc; rewrite bool_decide_eq_false in Hc.
  - apply blame_op; intros _ _. apply unless_panic. intros ->. by cbn in Hg; rewrite bool_decide_eq_false in Hg.
Qed.

Section Goroutines.
Context `{K8s : Kubernetes} `{EU : ErrUtil} `{GS : GrpcStatus} `{Wait : WaitPkg} {WL : WaitPkgLaws} `{EP : ExtProcDesc}.

Lemma blame_scaleInferencePool ns d gr gvr : numReplicas d = 1 -> ok _ (scaleInferencePool ns d gr gvr).
Proof.
  intros Hd. rewrite scaleInferencePool_body. apply ok_bind; [by apply (blame_uses (fun _ => true))|]. intros _.
  apply ok_defer; [by apply scale_body_ok|apply blame_endScalingUp].
Qed.

Lemma blame_round : ok _ monitor_round.
Proof.
  apply blame_op. intros [] _; [by right|]. apply blame_PoolGet. intros [pool|] [e|] Hp; [by right| |..].
  2, 3: by apply unless_panic, blame_no_pool.
  cbn [fst snd deref bind]. destruct (VerifyPoolObjectAnnotations pool); [|by right]. cbn [negb].
  apply ok_bind; [apply GetResourceForKind_ok|]. intros [gvr|e]; [|by right].
  apply blame_op. intros [s|e] _; [|by right]. apply blame_op. by intros [] _; right.
Qed.

Lemma goroutine_blame t : goroutine t -> ok _ t.
Proof. apply goroutine_rounds; [apply blame_round|apply elected_ok, blame_eff|apply blame_scaleInferencePool]. Qed.

End Goroutines.
End Message.
End Blame.

(** ** A nil pool *)

Module NilPool.

(** The deactivator reads the pool only after a tick. *)
Definition ticked_first (ticked : bool) (e : evt) : option bool :=
  match e with
  | Ev OSelectTick SelTick => Some true
  | Ev OPoolRead _ => if ticked then Some ticked else None
  | _ => Some ticked
  end.

Abbreviation ok := (anywhere ticked_first).

Lemma accepts_read p e2 e1 : forall b b', accepts ticked_first b (e1 ++ Ev OPoolRead p :: e2) = Some b' ->
  b = true \/ exists a c, e1 = a ++ Ev OSelectTick SelTick :: c.
Proof.
  induction e1 as [|e e1 IH]; intros b b'; cbn [app accepts].
  - cbn. destruct b; [by left|done].
  - destruct (ticked_first b e) as [b1|] eqn:Hd; [|done]. intros [->|(a & c & ->)]%IH; [|right; by exists (e :: a), c].
    destruct e as [o x]. destruct o; cbn in Hd; repeat split_match_in Hd; simplify_eq; auto.
    right. by exists [], e1.
Qed.

Section Goroutines.
Context `{K8s : Kubernetes} `{EU : ErrUtil} `{GS : GrpcStatus} `{Wait : WaitPkg} {WL : WaitPkgLaws} `{EP : ExtProcDesc}.

Lemma round_ticked_first : ok _ monitor_round.
Proof.
  intros b. cbn -[PoolGet GetResourceForKind]. intros []; [done|].
  apply mon_bind. apply (mon_mono _ _ _ (fun s _ => s = true)); [|by cbn; intros _ _ []; cbn].
  intros s [[[pool|] [e|]]|m] ->; try done. cbn -[GetResourceForKind].
  destruct (VerifyPoolObjectAnnotations pool); [|done]. cbn -[GetResourceForKind].
  apply mon_bind; mon_skip. intros [[gvr|e]|m]; try done. cbn. intros [sc|e]; [|done]. cbn. by intros [].
Qed.

Lemma deactivator_ticked_first n : ok _ (deactivator n).
Proof.
  apply void_ok, ok_bind; [done|]. intros _. apply ok_defer; [|done]. apply ok_bind; [done|]. intros _.
  apply ok_loop, round_ticked_first.
Qed.

(** A goroutine that dereferences a nil pool is a deactivator. *)
Lemma nil_deref_deactivator t0 ts ls w ts' i t :
  Forall goroutine ts -> steps (Running (init_world t0) ts) ls (Running w ts') ->
  ts !! i = Some t -> ts' !! i = Some (Panic nil_deref) -> exists n, t = deactivator n.
Proof.
  intros Hts Hs Ht Hi.
  assert (Hcase : (exists n, t = deactivator n) \/
    calm PoolRead.Inv PoolRead.Knows PoolRead.is_nil_deref i PoolRead.Free _ t).
  { destruct (Forall_lookup_1 _ _ _ _ Hts Ht); [right|left; eauto|right..];
      [by apply PoolRead.pool_stream_ok|by apply PoolRead.pool_reconciler_ok|by apply PoolRead.pool_health_check_ok|
       by apply PoolRead.pool_health_list_ok|by apply PoolRead.pool_elected_ok]. }
  destruct Hcase as [?|Hcalm]; [done|]. exfalso.
  set (Post := fun j (_ : PoolRead.local) (r : outcome unit) => j = i -> r <> Crash nil_deref).
  assert (H : threads_ok PoolRead.Inv PoolRead.Knows Post w ts').
  { eapply threads_ok_steps; [..|exact Hs|]; try done; [by intros ? []..|].
    split; [done|]. intros j u Hj. exists PoolRead.Free. split; [done|]. destruct (decide (j = i)) as [E|Hne]; [subst j|].
    - assert (Some t = Some u) as [= <-] by exact (eq_trans (eq_sym Ht) Hj). eapply thread_ok_mono; [|exact Hcalm].
      intros l [x|m] [_ Hr] _; [done|]. by intros [= ->].
    - eapply thread_ok_mono; [intros l r _ E; by destruct (Hne E)|].
      apply (@PoolRead.pool_goroutine_ok (fun _ => False) ltac:(done) K8s EU GS Wait WL EP); [tauto|exact (Forall_lookup_1 _ _ _ _ Hts Hj)]. }
  destruct H as [_ H]. destruct (H i _ Hi) as (l & _ & Hp). by apply (Hp eq_refl).
Qed.

End Goroutines.
End NilPool.

(** ** Overlapping scale-ups *)

Module Overlap.

(** The guard this goroutine published and has not closed.  Reading no guard
    while having one leaves the automaton. *)
Definition delta (mine : option chan) (e : evt) : option (option chan) :=
  match e with
  | Ev (OGuardWrite g) _ => Some g
  | Ev (OClose _) _ => Some None
  | Ev OGuardRead None => match mine with Some _ => None | None => Some mine end
  | _ => Some mine
  end.

Abbreviation ok := (unless delta (eq close_nil)).

(** Operations that keep it. *)
Definition keeps (o : op) : bool := match o with OGuardWrite _ | OClose _ => false | _ => true end.

Lemma overlap_uses {A} s N (p : go A) : uses N p -> (forall o, N o = true -> keeps o = true) ->
  panics (fun m => close_nil <> m) p -> ok s A p.
Proof.
  intros Hu HN Hp. eapply unless_uses; [exact Hu|done|]. intros o x s' Ho Hd. apply HN in Ho.
  destruct o; try discriminate Ho; cbn in Hd; repeat split_match_in Hd; by simplify_eq.
Qed.

Ltac neutral := eapply overlap_uses; [by auto with golib|ops_sub|].

Lemma overlap_ResetTicker s d : ok s _ (ResetTicker d).
Proof. neutral. unfold ResetTicker, TickerReset. by destruct (d <=? 0); cbn. Qed.

Lemma overlap_external s o : external o = true -> ok s _ (eff o).
Proof. intros Ho. by apply (overlap_uses s external); [..|intros []|]. Qed.

#[local] Instance overlap_sections s : Sections (ok s).
Proof.
  apply (plain_sections (overlap_ResetTicker s)); [intros o Ho _; by apply overlap_external|].
  intros B. by apply unless_panic.
Qed.

#[local] Instance overlap_more_sections s : MoreSections (ok s).
Proof.
  apply (plain_more_sections (overlap_ResetTicker s)); [intros o Ho _; by apply overlap_external| |by neutral..]. intros B f Hf.
  apply ok_bind; [neutral; by cbn; intros ? ? []|]. intros [p e]. apply Hf. intros _ _. by apply unless_panic.
Qed.

#[local] Instance overlap_pool_writes s : PoolWrites (ok s).
Proof. split. intros p. by neutral. Qed.

(** From no guard to a guard, and back. *)
Lemma overlap_begin (Q : option (option chan) -> outcome unit -> Prop) :
  (forall c, Q (Some (Some c)) (Done tt)) -> mon (leaving delta) (Some None) beginScalingUp Q.
Proof. intros HQ. cbn. by intros _ _ c [] _. Qed.

Lemma overlap_end c (Q : option (option chan) -> outcome unit -> Prop) :
  (forall r, Q None r) -> (forall r, r <> Crash close_nil -> Q (Some None) r) ->
  mon (leaving delta) (Some (Some c)) endScalingUp Q.
Proof.
  intros HN HQ. cbn. intros _ _ [g|]; cbn; [|intros []; apply HN]. intros []; cbn; [intros [] []|intros []]; by apply HQ.
Qed.

Section Goroutines.
Context `{K8s : Kubernetes} `{EU : ErrUtil} `{GS : GrpcStatus} `{Wait : WaitPkg} {WL : WaitPkgLaws} `{EP : ExtProcDesc}.

Lemma overlap_scaleInferencePool ns d gr gvr : numReplicas d = 1 -> ok None _ (scaleInferencePool ns d gr gvr).
Proof.
  intros Hd. rewrite scaleInferencePool_body. apply mon_bind, overlap_begin. intros c. apply mon_defer.
  eapply mon_mono; [|apply (scale_body_ok (accepted := ok (Some c))); done].
  intros s r [->|[-> Hr]].
  - apply mon_left. intros [[]|m]; [|by left]. destruct r; by left.
  - apply overlap_end.
    + intros [[]|m]; [|by left]. destruct r; by left.
    + intros [[]|m] Hm; [|by right; split; [|intros <-]]. destruct r; by right.
Qed.

Lemma goroutine_overlap t : goroutine t -> ok None _ t.
Proof.
  apply goroutine_ok; [by apply unless_panic|intros; by apply overlap_external|
    by apply elected_ok, overlap_external|apply overlap_scaleInferencePool].
Qed.

End Goroutines.

Definition guard_write (e : evt) : bool := match ev_op e with OGuardWrite _ => true | _ => false end.

(** The guard it has is the last it published. *)
Lemma accepts_published evs : forall s c, accepts delta s evs = Some (Some c) ->
  (s = Some c /\ existsb guard_write evs = false) \/
  exists a b, evs = a ++ Ev (OGuardWrite (Some c)) tt :: b /\ existsb guard_write b = false.
Proof.
  induction evs as [|e evs IH]; intros s c; cbn [accepts]; [intros [= ->]; by left|].
  destruct (delta s e) as [s1|] eqn:Hd; [|done].
  intros [[-> He]|(a & b & -> & Hb)]%IH; [|right; by exists (e :: a), b].
  destruct (guard_write e) eqn:Hg.
  - right. exists [], evs. split; [|done]. destruct e as [[] x]; try discriminate Hg. destruct x. by injection Hd as ->.
  - left. cbn. rewrite Hg. split; [|done]. destruct e as [o x].
    destruct o; cbn in Hd; repeat split_match_in Hd; by simplify_eq.
Qed.

Definition writes_guard (g : option chan) (o : op) : Prop := o = OGuardWrite g.

Lemma guard_perform i o w x w' : perform i o w x = Some w' ->
  guard (act w') = guard (act w) \/ writes_guard (guard (act w')) o.
Proof. destruct o; intros H; perform_cases H; cbn; auto. by right. Qed.

(** A guard that was published and is not there any more was forgotten. *)
Lemma guard_forgotten c0 i j c l c1 :
  steps c0 (LOp i (Ev (OGuardWrite (Some c)) tt) :: l ++ [LOp j (Ev OGuardRead None)]) c1 ->
  exists k, LOp k (Ev (OGuardWrite None) tt) ∈ l.
Proof.
  intros Hs. inversion Hs as [|? ? c2 ? ? Hst Hr]; subst.
  apply step_performs in Hst as (w & ts & k & w' & -> & _ & Hp & ->). cbn in Hp. injection Hp as <-.
  apply steps_snoc_inv in Hr as (c3 & Hr & Hst).
  apply step_performs in Hst as (w3 & ts3 & k3 & w4 & -> & _ & Hp & ->). cbn in Hp. case_decide as Hg; [|done].
  destruct (field_written _ _ guard_perform ltac:(done) ltac:(done) _ _ _ Hr _ _ _ _ eq_refl eq_refl)
    as [He|(n & o & x & Hin & Hw)]; [cbn in He; congruence|].
  rewrite <- Hg in Hw. unfold writes_guard in Hw. subst o. destruct x. eauto.
Qed.

End Overlap.

(** ** The causes *)

(** Why goroutine [i] of [ts] panics with a message after the steps [ls]. *)
Inductive crash_cause `{K8s : Kubernetes} (ts : list (go unit)) (ls : list label) (i : tid) : string -> Prop :=
| cc_no_pool n l1 l2 l3 :                 (* a tick before the pool was synced *)
    ts !! i = Some (deactivator n) ->
    ls = l1 ++ LOp i (Ev OSelectTick SelTick) :: l2 ++ LOp i (Ev OPoolRead None) :: l3 ->
    crash_cause ts ls i "invalid memory address or nil pointer dereference"
| cc_delay p :                            (* a pool with a bad scale-down delay *)
    LOp i (Ev OPoolRead (Some p)) ∈ ls -> scaleDownDelay_of p <= 0 ->
    crash_cause ts ls i "non-positive interval for Ticker.Reset"
| cc_status gvr ns n obj :                (* an object without a status *)
    LOp i (Ev (ODynamicGet gvr ns n) (Ok obj)) ∈ ls ->
    (forall status, any_index "status" obj <> AMap status) ->
    crash_cause ts ls i "interface conversion: interface {} is not map[string]interface {}"
| cc_overlap c j l1 l2 l3 :               (* another scale-up ended during this one *)
    ls = l1 ++ LOp i (Ev (OGuardWrite (Some c)) tt) :: l2 ++ LOp i (Ev OGuardRead None) :: l3 ->
    j <> i -> LOp j (Ev (OGuardWrite None) tt) ∈ l2 ->
    crash_cause ts ls i "close of nil channel".

Section Causes.
Context `{K8s : Kubernetes} `{EU : ErrUtil} `{GS : GrpcStatus} `{Wait : WaitPkg} {WL : WaitPkgLaws} `{EP : ExtProcDesc}.
Context (t0 : Z) (ts : list (go unit)) (Hts : Forall goroutine ts).
Context (ls : list label) (w : world) (ts' : list (go unit)).
Context (Hs : steps (Running (init_world t0) ts) ls (Running w ts')).
Context (i : tid) (t : go unit) (Hi : ts !! i = Some t).

Lemma goroutine_i : goroutine t.
Proof. by apply (Forall_lookup_1 _ _ _ _ Hts Hi). Qed.

(** The event to blame. *)
Lemma blamed m : ts' !! i = Some (Panic m) ->
  exists e1 e e2, events_of i ls = e1 ++ e :: e2 /\ Blame.cause m e = true.
Proof.
  intros Hp. destruct (crash_left _ _ _ _ _ _ _ _ _ _ _ Hs Hi Hp (Blame.goroutine_blame m t goroutine_i) eq_refl)
    as (e1 & e & e2 & s1 & He & _ & Hd). exists e1, e, e2. split; [done|].
  unfold Blame.blameless in Hd. by destruct (Blame.cause m e).
Qed.

Lemma nil_pool_cause : ts' !! i = Some (Panic nil_deref) -> crash_cause ts ls i nil_deref.
Proof.
  intros Hp. destruct (blamed _ Hp) as (e1 & e & e2 & He & Hc).
  destruct (NilPool.nil_deref_deactivator _ _ _ _ _ _ _ Hts Hs Hi Hp) as [n ->].
  assert (E : e = Ev OPoolRead None).
  { destruct e as [o x]. destruct o; cbn in Hc; try discriminate Hc; repeat split_match_in Hc;
      apply bool_decide_eq_true in Hc; (done || by destruct Hc). }
  subst e. destruct (mon_steps NilPool.ticked_first i _ _ _ Hs _ _ _ false _ eq_refl Hi
    (NilPool.deactivator_ticked_first n false)) as (b & Ha & _).
  rewrite He in Ha. apply NilPool.accepts_read in Ha as [[=]|(a & c & ->)].
  apply events_of_split in He as (la & l3 & -> & Ha & _). apply events_of_split in Ha as (l1 & l2 & -> & _ & _).
  apply (cc_no_pool _ _ _ n l1 l2 l3); [done|]. by rewrite <- app_assoc.
Qed.

Lemma overlap_cause : ts' !! i = Some (Panic close_nil) -> crash_cause ts ls i close_nil.
Proof.
  intros Hp. destruct (crash_left _ _ _ _ _ _ _ _ _ _ _ Hs Hi Hp (Overlap.goroutine_overlap t goroutine_i) eq_refl)
    as (e1 & e & e2 & s1 & He & Ha & Hd).
  assert (E : e = Ev OGuardRead None /\ exists c, s1 = Some c).
  { destruct e as [o x]. destruct o; cbn in Hd; repeat split_match_in Hd; simplify_eq; eauto. }
  destruct E as [-> [c ->]]. apply Overlap.accepts_published in Ha as [[[=] _]|(a & b & -> & Hb)].
  apply events_of_split in He as (la & l3 & E1 & Ha & _). apply events_of_split in Ha as (l1 & l2 & -> & _ & Hl2).
  assert (Hls : ls = l1 ++ (LOp i (Ev (OGuardWrite (Some c)) tt) :: l2 ++ [LOp i (Ev OGuardRead None)]) ++ l3).
  { rewrite E1. cbn. rewrite <- !app_assoc. done. }
  pose proof Hs as Hs1. rewrite Hls in Hs1. apply steps_app_inv in Hs1 as (c1 & _ & Hs1). apply steps_app_inv in Hs1 as (c2 & Hs1 & _).
  destruct (Overlap.guard_forgotten _ _ _ _ _ _ Hs1) as [j Hj].
  apply (cc_overlap _ _ _ c j l1 l2 l3); [|intros ->|done].
  - rewrite Hls. cbn. by rewrite <- app_assoc.
  - apply elem_of_events in Hj. rewrite Hl2 in Hj.
    assert (existsb Overlap.guard_write b = true); [|congruence].
    apply existsb_exists. exists (Ev (OGuardWrite None) tt). split; [by apply list_elem_of_In|done].
Qed.

Lemma never_closed_twice : ts' !! i <> Some (Panic close_closed).
Proof.
  intros Hp. assert (H : pool_ok Guard.Inv Guard.Knows Guard.closed_twice (Crashed close_closed)); [|by apply H].
  apply (Guard.guard_pool_ok t0 ts); [done|]. exists (ls ++ [LPanic i]). eapply steps_app; [exact Hs|].
  econstructor; [by apply step_panic|constructor].
Qed.

Lemma panic_cause m : ts' !! i = Some (Panic m) -> crash_cause ts ls i m.
Proof.
  intros Hp. destruct (blamed _ Hp) as (e1 & e & e2 & He & Hc).
  assert (Hin : LOp i e ∈ ls) by (apply events_of_elem; rewrite He; set_solver).
  destruct e as [o x]. destruct o; cbn in Hc; try discriminate Hc.
  - destruct x as [p|]; apply bool_decide_eq_true in Hc; [|subst; by apply nil_pool_cause].
    destruct Hc as [-> Hd]. by apply (cc_delay _ _ _ p).
  - destruct x; [done|]. apply bool_decide_eq_true in Hc as ->. by apply overlap_cause.
  - destruct x; [done|]. apply bool_decide_eq_true in Hc as ->. by destruct never_closed_twice.
  - apply bool_decide_eq_true in Hc as [-> Hn]. destruct x as [obj|e]; [|done].
    eapply (cc_status _ _ _ _ _ _ obj); [done|]. intros st Hst. unfold no_status in Hn. by rewrite Hst in Hn.
Qed.

End Causes.

Section Crash.
Context `{K8s : Kubernetes} `{EU : ErrUtil} `{GS : GrpcStatus} `{Wait : WaitPkg} {WL : WaitPkgLaws} `{EP : ExtProcDesc}.

(** C9.  Every crash has one of four causes.  If any goroutines of the
    process, in any interleaving from the initial state and whatever they are
    answered, reach a crash, then its last step is the panic of a goroutine,
    and either that goroutine is the deactivator, which received a tick and
    then found no pool; or it had read a pool whose scale-down delay is not
    positive; or it had fetched an object whose status is not a map; or it had
    published a guard and found none when it ended its scale-up, because
    another goroutine ended a scale-up in between.  The process crashes for no
    other reason, and with no other message. *)
Theorem every_crash_has_a_cause t0 ts ls m :
  Forall goroutine ts -> steps (Running (init_world t0) ts) ls (Crashed m) ->
  exists ls' i, ls = ls' ++ [LPanic i] /\ crash_cause ts ls' i m.
Proof.
  intros Hts (ls' & i & w & ts' & -> & Hs & Hp)%steps_crash_inv. exists ls', i. split; [done|].
  destruct (lookup_lt_is_Some_2 ts i) as [t Ht]; [|by eapply panic_cause].
  rewrite <- (steps_length _ _ _ _ _ Hs). by eapply lookup_lt_Some.
Qed.

End Crash.

(** The crash of two overlapping scale-ups (file ScaleUpState). *)
Definition overlapping : list sched :=
  Guard.both_begin ++ burst Guard.conflict_env 0 7 ++ burst Guard.conflict_env 1 6.

Lemma every_crash_has_a_cause_witness :
  exists ls' i, run_labels overlapping Guard.two_streams = ls' ++ [LPanic i] /\
    @crash_cause demo_k8s [demo_stream 1; demo_stream 1; demo_reconciler [demo_nn]] ls' i "close of nil channel".
Proof.
  assert (Hv : run_sched overlapping Guard.two_streams = Some (Crashed "close of nil channel"))
    by (vm_compute; reflexivity).
  apply (@every_crash_has_a_cause demo_k8s demo_errutil demo_status ref_wait ref_wait_laws demo_desc 0
    [demo_stream 1; demo_stream 1; demo_reconciler [demo_nn]]).
  - repeat constructor.
  - exact (run_sched_steps overlapping Guard.two_streams _ Hv).
Defined.
