(* ===== verification/Provenance.v ===== *)
(** * Where an update of the scale comes from

    End to end: every update that a goroutine sends to the API is the scale
    object it fetched, with the replicas set to zero or one, of the target
    that the annotations of a pool name; that pool was read from the
    datastore, where a reconciler had stored it because the API had shown it
    the pool. *)

From S2P Require Import Prelude GoTime Prog Effects Machine Datastore RequestControl Instances Activator Admission Deactivator Handlers Controller Health Goroutines Traces IdleTicks.
#[local] Open Scope go_scope.

(** ** From the pool to the update *)

Module Target.
Section Target.
Context `{K8s : Kubernetes}.

(** The annotations of the pool name the kind [gk] in version [v]. *)
Definition names_kind (p : v1.InferencePool) (gk : GroupKind) (v : string) : bool :=
  match ParseGroupVersion (annotation p ObjectApiVersionKey) with
  | Ok gv => bool_decide (gk = MkGK (gv_Group gv) (annotation p ObjectkindKey) /\ v = gv_Version gv)
  | Err _ => false
  end.

(** ... and, [gvr] being the resource of that kind, the object [nm]. *)
Definition names_object (p : v1.InferencePool) (gvr : GroupVersionResource) (ns : string) (gr : GroupResource)
    (nm : string) : bool :=
  bool_decide (ns = v1.Namespace p /\ gr = GroupResource_of gvr /\ nm = annotation p ObjectNameKey).

(** What a goroutine has found out: nothing, a pool, the resource of its
    target, the scale object of its target. *)
Inductive phase :=
| Start
| Read (p : v1.InferencePool)
| Mapped (p : v1.InferencePool) (gvr : GroupVersionResource)
| Fetched (p : v1.InferencePool) (gvr : GroupVersionResource) (ns : string) (gr : GroupResource) (s : Scale).

Definition delta (ph : phase) (e : evt) : option phase :=
  match e with
  | Ev OPoolRead r => Some (match r with Some p => Read p | None => Start end)
  | Ev (ORESTMapping gk v) r =>
      match ph with
      | Read p => if names_kind p gk v
                  then Some (match r with Ok gvr => Mapped p gvr | Err _ => Start end) else None
      | _ => None
      end
  | Ev (OScaleGet ns gr nm) r =>
      match ph with
      | Mapped p gvr => if names_object p gvr ns gr nm
                        then Some (match r with Ok s => Fetched p gvr ns gr s | Err _ => Start end) else None
      | _ => None
      end
  | Ev (OScaleUpdate ns gr s) _ =>
      match ph with
      | Fetched p gvr ns' gr' s0 =>
          if bool_decide (ns = ns' /\ gr = gr' /\ (s = set_Replicas 0 s0 \/ s = set_Replicas 1 s0))
          then Some Start else None
      | _ => None
      end
  | _ => Some ph
  end.

(** The events that led to a phase, in their order. *)
Definition explained (evs : list evt) (ph : phase) : Prop :=
  match ph with
  | Start => True
  | Read p => exists e1 e2, evs = e1 ++ Ev OPoolRead (Some p) :: e2
  | Mapped p gvr => exists e1 e2 gk v e3, names_kind p gk v = true /\
      evs = e1 ++ Ev OPoolRead (Some p) :: e2 ++ Ev (ORESTMapping gk v) (Ok gvr) :: e3
  | Fetched p gvr ns gr s => exists e1 e2 gk v e3 nm e4, names_kind p gk v = true /\
      names_object p gvr ns gr nm = true /\
      evs = e1 ++ Ev OPoolRead (Some p) :: e2 ++ Ev (ORESTMapping gk v) (Ok gvr) :: e3 ++
            Ev (OScaleGet ns gr nm) (Ok s) :: e4
  end.

(** Nothing that is explained is forgotten. *)
Lemma explained_snoc evs ph e : explained evs ph -> explained (evs ++ [e]) ph.
Proof.
  destruct ph as [|p|p gvr|p gvr ns gr s]; [done|..].
  - intros (e1 & e2 & ->). exists e1, (e2 ++ [e]). by rewrite <- app_assoc.
  - intros (e1 & e2 & gk & v & e3 & Hn & ->). exists e1, e2, gk, v, (e3 ++ [e]). split; [done|].
    by rewrite <- !app_assoc; cbn; rewrite <- app_assoc.
  - intros (e1 & e2 & gk & v & e3 & nm & e4 & Hn & Ho & ->). exists e1, e2, gk, v, e3, nm, (e4 ++ [e]).
    split; [done|]. split; [done|]. by rewrite <- !app_assoc; cbn; rewrite <- !app_assoc; cbn; rewrite <- app_assoc.
Qed.

Lemma explained_step evs ph e ph' : explained evs ph -> delta ph e = Some ph' -> explained (evs ++ [e]) ph'.
Proof.
  intros Hx Hd. destruct e as [o x].
  destruct o; try (injection Hd as <-; by apply explained_snoc); cbn in Hd.
  - destruct x as [p|]; injection Hd as <-; [|done]. by exists evs, [].
  - destruct ph as [|p| |]; try done. destruct (names_kind p gk version) eqn:Hn; [|done].
    destruct x as [gvr|]; injection Hd as <-; [|done]. destruct Hx as (e1 & e2 & ->).
    exists e1, e2, gk, version, []. split; [done|]. by rewrite <- app_assoc.
  - destruct ph as [| |p gvr|]; try done. destruct (names_object _ _ _ _ _) eqn:Hn; [|done].
    destruct x as [s|]; injection Hd as <-; [|done]. destruct Hx as (e1 & e2 & gk & v & e3 & Hk & ->).
    exists e1, e2, gk, v, e3. eexists. exists []. split; [exact Hk|]. split; [exact Hn|]. by rewrite <- !app_assoc; cbn; rewrite <- app_assoc.
  - destruct ph; try done. destruct (bool_decide _); [|done]. by injection Hd as <-.
Qed.

Lemma accepts_explained evs : forall ph, accepts delta Start evs = Some ph -> explained evs ph.
Proof.
  induction evs as [|e evs IH] using rev_ind; intros ph; [by intros [= <-]|]. rewrite accepts_app.
  destruct (accepts delta Start evs) as [ph1|]; [|done]. cbn. destruct (delta ph1 e) eqn:Hd; [|done].
  intros [= <-]. eapply explained_step; [by apply IH|done].
Qed.

(** *** The goroutines *)

(** Operations that need no phase. *)
Definition free (o : op) : bool :=
  match o with ORESTMapping _ _ | OScaleGet _ _ _ | OScaleUpdate _ _ _ => false | _ => true end.

Abbreviation ok := (anywhere delta).

Lemma free_ok {A} (p : go A) : uses free p -> ok A p.
Proof.
  intros Hu. induction p as [a|m|o k IH]; [done..|]. destruct Hu as [Ho Hk]. intros s x.
  assert (Hd : is_Some (delta s (Ev o x))) by (destruct o; try discriminate Ho; by eexists).
  destruct Hd as [s' ->]. by apply IH.
Qed.

(** Operations that keep the phase. *)
Definition keeps (o : op) : bool := free o && match o with OPoolRead => false | _ => true end.

Lemma keeps_mon {A} s N (p : go A) (Q : phase -> outcome A -> Prop) : uses N p ->
  (forall o, N o = true -> keeps o = true) -> (forall r, Q s r) -> mon delta s p Q.
Proof. intros Hu HN HQ. eapply mon_uses; [exact Hu| |done]. intros o x Ho. apply HN in Ho. by destruct o. Qed.

Ltac keep := eapply keeps_mon; [by auto with golib|ops_sub|].

(** A pool that [PoolGet] returns is the one read last. *)
Lemma PoolGet_read s : mon delta s PoolGet (fun s' r =>
  forall p e, r = Done (Some p, e) -> s' = Read p).
Proof. cbn. intros _ _ [p|] _; cbn; [|done]. by intros [q|] _; cbn; intros ? ? [= <- <-]. Qed.

(** Looking up the resource of the target of a pool. *)
Lemma GetResourceForKind_mapped p :
  mon delta (Read p) (GetResourceForKind (annotation p ObjectApiVersionKey) (annotation p ObjectkindKey))
    (fun s' r => forall gvr, r = Done (Ok gvr) -> s' = Mapped p gvr).
Proof.
  unfold GetResourceForKind. destruct (ParseGroupVersion _) as [gv|e] eqn:Hp; [|done]. cbn.
  unfold names_kind. rewrite Hp, bool_decide_eq_true_2 by done. by intros [gvr|e]; cbn; intros ? [= ->].
Qed.

Lemma eff_free o : free o = true -> ok _ (eff o).
Proof. intros Ho. by apply free_ok. Qed.

Section Requests.
Context `{EU : ErrUtil} `{GS : GrpcStatus} `{Wait : WaitPkg} {WL : WaitPkgLaws} `{EP : ExtProcDesc}.

Lemma scale_body_free ns d gr gvr upd : uses free (defer endScalingUp
  (match upd : res Scale with
   | Err _ => Ret false
   | Ok _ =>
       ready <- InferencePoolPodsReady ns (name d) (numReplicas d) (scaleGracePeriod d) gr gvr ;;
       if ready : bool then Sleep ScaleToZeroRequestRetentionPeriod ;; Ret true else Ret false
   end)).
Proof.
  apply uses_defer; [unfold endScalingUp, close_chan; uses_tac|]. destruct upd as [s|e]; [|done].
  apply uses_bind; [uses_by InferencePoolPodsReady_uses|]. intros []; uses_tac.
Qed.

Lemma scaleInferencePool_target p gvr' ns gr gvr nm gp s :
  mon delta (Fetched p gvr' ns gr s) (scaleInferencePool ns (MkScaledObjectData nm gp (int32 1) s) gr gvr) (fun _ _ => True).
Proof.
  cbn -[endScalingUp InferencePoolPodsReady]. intros _ _ c _ _ upd.
  rewrite bool_decide_eq_true_2 by auto. apply free_ok.
  exact (scale_body_free ns (MkScaledObjectData nm gp (int32 1) s) gr gvr upd).
Qed.

Lemma InferencePoolReady_target p : mon delta (Read p) (InferencePoolReady p) (fun _ _ => True).
Proof.
  unfold InferencePoolReady. destruct (VerifyPoolObjectAnnotations p); [|done]. cbn [negb].
  apply mon_bind. eapply mon_mono; [|apply GetResourceForKind_mapped]. intros s' [[gvr|e]|m] Hr; try done.
  rewrite (Hr gvr eq_refl). cbn -[scaleInferencePool InferencePoolPodsReady int32]. unfold names_object.
  rewrite bool_decide_eq_true_2 by done. intros [s|e]; [|done]. apply mon_bind. destruct (0 <? Spec_Replicas s).
  - keep. intros [[]|m]; [done|apply scaleInferencePool_target|done].
  - apply scaleInferencePool_target.
Qed.

Lemma MayActivate_target : ok _ MayActivate.
Proof.
  intros s. apply mon_bind. eapply mon_mono; [|apply PoolGet_read]. intros s' [[[p|] [e|]]|m] Hr; try done.
  rewrite (Hr p None eq_refl). cbn -[isScalingUp InferencePoolReady ResetTicker].
  apply mon_bind. keep. intros [[[] g]|m]; [| |done].
  - by apply (free_ok (waitOnGuard g DefaultScaleFromZeroGracePeriod ;; Ret None)).
  - apply mon_bind. eapply mon_mono; [|apply InferencePoolReady_target]. intros s2 [[]|m] _; try done.
    apply (free_ok (ResetTicker _ ;; Ret None)). apply uses_bind; [uses_by ResetTicker_uses|done].
Qed.

Lemma stream_target n : ok _ (stream n).
Proof.
  apply void_ok, ok_loop. unfold process_round. apply ok_bind; [by apply eff_free|]. intros [e|]; [done|].
  apply ok_bind; [by apply eff_free|]. intros r. destruct (_ || _); [done|]. destruct r as [[]|e]; try done.
  apply ok_bind; [apply MayActivate_target|].
  intros [err|]; [destruct (buildErrResponse err); [|done]|]; (apply ok_bind; [by apply eff_free|by intros []]).
Qed.

Lemma monitor_round_target : ok _ monitor_round.
Proof.
  apply ok_bind; [by apply eff_free|]. intros []; [done|]. intros s. apply mon_bind.
  eapply mon_mono; [|apply PoolGet_read]. intros s' [[[p|] [e|]]|m] Hr; try done. rewrite (Hr p None eq_refl).
  cbn -[GetResourceForKind]. destruct (VerifyPoolObjectAnnotations p); [|done]. cbn [negb].
  apply mon_bind. eapply mon_mono; [|apply GetResourceForKind_mapped]. intros s2 [[gvr|e]|m] Hg; try done.
  rewrite (Hg gvr eq_refl). cbn. unfold names_object. rewrite bool_decide_eq_true_2 by done.
  intros [sc|e]; [|done]. cbn. rewrite bool_decide_eq_true_2 by auto. by intros [].
Qed.

Lemma deactivator_target n : ok _ (deactivator n).
Proof.
  apply void_ok, ok_bind; [apply free_ok; uses_by ResetTicker_uses|]. intros _.
  apply ok_defer; [|apply free_ok; uses_tac]. apply ok_bind; [apply free_ok; uses_tac|]. intros _.
  apply ok_loop, monitor_round_target.
Qed.

Lemma reconciler_target g reqs : ok _ (reconciler g reqs).
Proof.
  apply void_ok. induction reqs as [|req reqs IH]; [done|]. apply ok_bind; [|intros e; by apply ok_bind].
  apply free_ok. unfold Reconcile. cbn [the_reconciler PoolGKNN rec_Datastore]. destruct (object_for_group _) as [k|e]; [|done].
  apply uses_bind; [destruct k; uses_tac|]. intros got. unfold handle. uses_tac.
Qed.

Lemma Check_target le svc : ok _ (Check (the_health_server le) svc).
Proof.
  apply free_ok, uses_bind; [uses_tac|]. intros isLive. unfold check_service, live_and_leader, check_result. uses_tac.
Qed.

Lemma goroutine_target t : goroutine t -> ok _ t.
Proof.
  intros [n|n|g reqs|le svc|le|]; [apply stream_target|apply deactivator_target|apply reconciler_target|..].
  - apply ok_bind; [apply Check_target|]. intros r. by apply eff_free.
  - apply void_ok. unfold List. cbn [the_health_server leaderElectionEnabled]. generalize (∅ : gmap string ServingStatus).
    induction (List_services le) as [|svc svcs IH]; intros m; [done|].
    apply ok_bind; [apply Check_target|]. intros [st [e|]]; [done|apply IH].
  - by apply free_ok.
Qed.

End Requests.
End Target.
End Target.

(** ** From the API to the datastore *)

Module Stored.
Section Stored.
Context `{K8s : Kubernetes}.

(** The last observation of the API. *)
Definition delta (seen : option (res client_object)) (e : evt) : option (option (res client_object)) :=
  match observation e with
  | Some (_, _, got) => Some (Some got)
  | None =>
      match ev_op e, seen with
      | OPoolWrite u, Some got => if bool_decide (snd (interpret got) = Some u) then Some seen else None
      | OPoolWrite _, None => None
      | _, _ => Some seen
      end
  end.

Lemma accepts_seen evs : forall s got, accepts delta s evs = Some (Some got) ->
  s = Some got \/ exists e k nn, e ∈ evs /\ observation e = Some (k, nn, got).
Proof.
  induction evs as [|e evs IH]; intros s got; cbn [accepts]; [intros [= ->]; by left|].
  destruct (delta s e) as [s1|] eqn:Hd; [|done].
  intros [->|(e' & k & nn & Hin & Ho)]%IH; [|right; exists e', k, nn; split; [by right|done]].
  unfold delta in Hd. destruct (observation e) as [[[k nn] got']|] eqn:Ho.
  - injection Hd as ->. right. exists e, k, nn. split; [by left|done].
  - left. repeat split_match_in Hd; by simplify_eq.
Qed.

(** What is written was observed. *)
Lemma accepts_write u e1 e2 s : accepts delta None (e1 ++ Ev (OPoolWrite u) tt :: e2) = Some s ->
  exists e k nn got, e ∈ e1 /\ observation e = Some (k, nn, got) /\ snd (interpret got) = Some u.
Proof.
  rewrite accepts_app. destruct (accepts delta None e1) as [[got|]|] eqn:H1; [|done..]. cbn.
  destruct (bool_decide _) eqn:Hb; [|done]. intros _. apply bool_decide_eq_true in Hb.
  apply accepts_seen in H1 as [[=]|(e & k & nn & Hin & Ho)]. eauto 10.
Qed.

Abbreviation ok := (anywhere delta).

Lemma stored_ResetTicker d : ok _ (ResetTicker d).
Proof. unfold ResetTicker, TickerReset. by destruct (d <=? 0). Qed.

Lemma stored_external o : external o = true -> ok _ (eff o).
Proof. intros Ho s. destruct o; try discriminate Ho; by destruct s. Qed.

#[local] Instance stored_sections : Sections ok.
Proof. apply (plain_sections stored_ResetTicker); [intros o Ho _; by apply stored_external|done]. Qed.

#[local] Instance stored_more_sections : MoreSections ok.
Proof.
  apply (plain_more_sections stored_ResetTicker); [intros o Ho _; by apply stored_external| |done..].
  intros B f Hf. apply ok_bind; [|intros [p e]; by apply Hf]. cbn. by intros ? ? ? [] ?.
Qed.

(** Storing what was observed. *)
Lemma PoolSet_stored got u (e : option error) : snd (interpret got) = Some u ->
  mon delta (Some got) (PoolSet u ;; Ret e) (fun _ _ => True).
Proof. intros Hu. cbn. intros _ _ _. by rewrite bool_decide_eq_true_2. Qed.

Lemma handle_stored got : mon delta (Some got) (handle Register.datastore_impl got) (fun _ _ => True).
Proof.
  assert (H : forall u, snd (interpret got) = Some u -> forall e : option error,
    mon delta (Some got) (PoolSet u ;; Ret e) (fun _ _ => True)) by (intros; by apply PoolSet_stored).
  unfold interpret in H. unfold handle, Clear. destruct got as [obj|e].
  - destruct (negb _); [by apply H|]. destruct obj as [p|p]; [by apply H|]. destruct (ConvertTo p); [by apply H|done].
  - destruct (IsNotFound e); [by apply H|done].
Qed.

Lemma Reconcile_stored g req : ok _ (Reconcile (the_reconciler g) req).
Proof.
  intros s. unfold Reconcile. cbn [the_reconciler PoolGKNN rec_Datastore]. destruct (object_for_group _) as [k|e]; [|done].
  destruct k; cbn -[handle]; intros r; destruct r; apply handle_stored.
Qed.

Section Goroutines.
Context `{EU : ErrUtil} `{GS : GrpcStatus} `{Wait : WaitPkg} {WL : WaitPkgLaws} `{EP : ExtProcDesc}.

Lemma stored_scaleInferencePool ns d gr gvr : numReplicas d = 1 -> ok _ (scaleInferencePool ns d gr gvr).
Proof.
  intros Hd. rewrite scaleInferencePool_body. apply ok_bind; [done|]. intros _.
  apply ok_defer; [by apply scale_body_ok|]. intros s. cbn. intros _ _ [c|]; cbn; [|done]. by intros [].
Qed.

Lemma goroutine_stored t : goroutine t -> ok _ t.
Proof.
  intros [n|n|g reqs|le svc|le|]; [by apply stream_ok, stored_scaleInferencePool| | |apply health_check_ok|
    apply health_list_ok|by apply elected_ok, stored_external].
  - apply void_ok, Monitor_ok, monitor_round_ok; [done|]. intros. by apply stored_external.
  - apply void_ok. induction reqs as [|req reqs IH]; [done|].
    apply ok_bind; [apply Reconcile_stored|]. intros e. by apply ok_bind.
Qed.

End Goroutines.
End Stored.
End Stored.

(** ** End to end *)

Section Provenance.
Context `{K8s : Kubernetes} `{EU : ErrUtil} `{GS : GrpcStatus} `{Wait : WaitPkg} {WL : WaitPkgLaws} `{EP : ExtProcDesc}.

(** The API had shown the pool to the goroutine that stored it. *)
Definition pool_observed (p : v1.InferencePool) (ls : list label) : Prop :=
  exists j l1 l2 e k nn got, ls = l1 ++ LOp j (Ev (OPoolWrite (Some p)) tt) :: l2 /\ LOp j e ∈ l1 /\
    observation e = Some (k, nn, got) /\ snd (interpret got) = Some (Some p).

(** A pool that was stored had been observed by the goroutine that stored it,
    and so had a pool that was read. *)
Lemma written_pool_observed t0 ts ls j p c : Forall goroutine ts ->
  steps (Running (init_world t0) ts) ls c -> LOp j (Ev (OPoolWrite (Some p)) tt) ∈ ls -> pool_observed p ls.
Proof.
  intros Hts Hs Hj. pose proof Hj as He.
  destruct (steps_thread _ _ _ _ _ Hs _ _ eq_refl Hj) as [t Ht].
  destruct (mon_steps Stored.delta j _ _ _ Hs _ _ t None _ eq_refl Ht
    (Stored.goroutine_stored t (Forall_lookup_1 _ _ _ _ Hts Ht) None)) as (s & Ha & _).
  apply elem_of_events, list_elem_of_split in He as (e1 & e2 & He). rewrite He in Ha.
  apply Stored.accepts_write in Ha as (e & k & nn & got & Hin & Ho & Hi).
  apply events_of_split in He as (l1 & l2 & -> & <- & _). exists j, l1, l2, e, k, nn, got.
  split; [done|]. split; [by apply events_of_elem|done].
Qed.

Lemma read_pool_observed t0 ts ls i p c : Forall goroutine ts ->
  steps (Running (init_world t0) ts) (ls ++ [LOp i (Ev OPoolRead (Some p))]) c -> pool_observed p ls.
Proof.
  intros Hts Hs. destruct (read_pool_written (init_world t0) _ _ _ _ _ eq_refl Hs) as [j Hj].
  apply steps_app_inv in Hs as (c1 & Hs & _). by eapply written_pool_observed.
Qed.

(** C10.  Every update has its origin.  In every interleaving of any
    goroutines of the process, when one of them sends an update of a scale,
    that goroutine had, in this order, read a pool from the datastore, asked
    for the resource of the kind that the annotations of this pool name,
    fetched, in the namespace of the pool and under that resource, the scale
    object that the pool names, and sends that very object with its replicas
    set to zero or one; and the pool had been stored by a goroutine that had
    been shown it by the API (converted, for the older version, and not being
    deleted).  Nothing is ever scaled that no observed pool names. *)
Theorem every_update_has_its_origin t0 ts ls i ns gr s x c :
  Forall goroutine ts ->
  steps (Running (init_world t0) ts) (ls ++ [LOp i (Ev (OScaleUpdate ns gr s) x)]) c ->
  exists p gk v gvr nm s0 l1 l2 l3 l4,
    ls = l1 ++ LOp i (Ev OPoolRead (Some p)) :: l2 ++ LOp i (Ev (ORESTMapping gk v) (Ok gvr)) :: l3 ++
         LOp i (Ev (OScaleGet ns gr nm) (Ok s0)) :: l4 /\
    Target.names_kind p gk v = true /\ Target.names_object p gvr ns gr nm = true /\
    (s = set_Replicas 0 s0 \/ s = set_Replicas 1 s0) /\
    exists j la lb e k nn got, l1 = la ++ LOp j (Ev (OPoolWrite (Some p)) tt) :: lb /\ LOp j e ∈ la /\
      observation e = Some (k, nn, got) /\ snd (interpret got) = Some (Some p).
Proof.
  intros Hts Hs. destruct (steps_thread i (Ev (OScaleUpdate ns gr s) x) _ _ _ Hs _ _ eq_refl ltac:(set_solver)) as [t Ht].
  destruct (mon_steps Target.delta i _ _ _ Hs _ _ t Target.Start _ eq_refl Ht
    (Target.goroutine_target t (Forall_lookup_1 _ _ _ _ Hts Ht) Target.Start)) as (ph & Ha & _).
  rewrite events_of_app, accepts_app in Ha. destruct (accepts _ _ (events_of i ls)) as [ph1|] eqn:H1; [|done].
  cbn in Ha. rewrite decide_True in Ha by done. cbn in Ha.
  destruct ph1 as [| | |p gvr ns' gr' s0]; try done. destruct (bool_decide _) eqn:Hb; [|done].
  apply bool_decide_eq_true in Hb as (<- & <- & Hr).
  apply Target.accepts_explained in H1 as (e1 & e2 & gk & v & e3 & nm & e4 & Hk & Ho & He).
  apply events_of_split in He as (l1 & la & -> & _ & He). apply events_of_split in He as (l2 & lb & -> & _ & He).
  apply events_of_split in He as (l3 & l4 & -> & _ & _).
  exists p, gk, v, gvr, nm, s0, l1, l2, l3, l4. split; [done|]. split; [done|]. split; [done|]. split; [done|].
  rewrite <- app_assoc in Hs. cbn in Hs. rewrite cons_middle, app_assoc in Hs.
  apply steps_app_inv in Hs as (c1 & Hs & _). by eapply read_pool_observed.
Qed.

End Provenance.

(** The scale-down of file IdleTicks. *)
Lemma every_update_has_its_origin_witness :
  exists p s0 l1 l2, run_labels idle_schedule (Running (init_world 0) idle_process) =
    (l1 ++ LOp 0%nat (Ev OPoolRead (Some p)) :: l2) ++
      [LOp 0%nat (Ev (OScaleUpdate "llm-d-sim" (MkGR "apps" "deployments") (demo_scale 0)) (Ok (demo_scale 0)))] /\
    (demo_scale 0 = set_Replicas 0 s0 \/ demo_scale 0 = set_Replicas 1 s0) /\
    exists j, LOp j (Ev (OPoolWrite (Some p)) tt) ∈ l1.
Proof.
  set (c0 := Running (init_world 0) idle_process).
  assert (Hv : is_nil (run_sched idle_schedule c0) = false) by (vm_compute; reflexivity).
  destruct (run_sched idle_schedule c0) as [c|] eqn:Hc; [|discriminate Hv].
  pose proof (run_sched_steps _ _ _ Hc) as Hst.
  set (s := demo_scale 0). set (gr := MkGR "apps" "deployments").
  set (ls := removelast (run_labels idle_schedule c0)).
  assert (Hls : run_labels idle_schedule c0 = ls ++ [LOp 0%nat (Ev (OScaleUpdate "llm-d-sim" gr s) (Ok s))])
    by (vm_compute; reflexivity).
  rewrite Hls in Hst.
  destruct (@every_update_has_its_origin demo_k8s demo_errutil demo_status ref_wait ref_wait_laws demo_desc 0
    idle_process ls 0%nat "llm-d-sim" gr s (Ok s) c ltac:(repeat constructor) Hst)
    as (p & gk & v & gvr & nm & s0 & l1 & l2 & l3 & l4 & Hl & _ & _ & Hs & j & la & lb & e & k & nn & got & -> & _).
  exists p, s0, (la ++ LOp j (Ev (OPoolWrite (Some p)) tt) :: lb),
    (l2 ++ LOp 0%nat (Ev (ORESTMapping gk v) (Ok gvr)) :: l3 ++ LOp 0%nat (Ev (OScaleGet "llm-d-sim" gr nm) (Ok s0)) :: l4).
  split; [exact (eq_trans Hls (f_equal (fun l => l ++ [LOp 0%nat (Ev (OScaleUpdate "llm-d-sim" gr s) (Ok s))]) Hl))|].
  split; [exact Hs|]. exists j. apply elem_of_app. right. by left.
Defined.
