(* ===== verification/Answers.v ===== *)
(** * What an answer to Envoy says about the pool

    The composition of the stream, the activator, the datastore and the
    reconciler, in every interleaving: each message sent to Envoy is the verdict
    of the run of [MayActivate] before it (file Verdicts), and that run holds
    the reason for it.  CONTINUE is sent on the evidence of file Admission,
    HTTP 503 for a cause of file Refusals; the pool it is about had been shown
    by the API, and a scale-up that was waited for had been begun. *)

From S2P Require Import Prelude GoTime Prog Effects Machine Datastore RequestControl Instances Activator Admission Refusals Deactivator Handlers Controller Health Goroutines Traces Verdicts IdleTicks Provenance.
#[local] Open Scope go_scope.

Section Answers.
Context `{K8s : Kubernetes} `{EU : ErrUtil} `{GS : GrpcStatus} `{Wait : WaitPkg} {WL : WaitPkgLaws}.

(** ** The verdict has a reason *)

Context {WP : WaitPkgPersists} {EL : ErrUtilLaws} {SL : GrpcStatusLaws}.

(** The run [t] of [MayActivate] justifies the answer. *)
Definition justifies (t : list evt) (resp : ProcessingResponse) : Prop :=
  match resp with
  | PR_RequestHeaders_CONTINUE => admissible t
  | PR_ImmediateResponse StatusCode_ServiceUnavailable body =>
      body = Error serviceUnavailable /\ exists p, pool_event (Some p) ∈ t /\ unserved p t
  | PR_ImmediateResponse _ _ => False
  end.

Lemma answers_justified t v resp : exec MayActivate t (Done v) -> answers v resp -> justifies t resp.
Proof.
  intros He. destruct v as [err|]; cbn; [|intros ->; by apply MayActivate_evidence].
  destruct (MayActivate_refusals _ _ He) as [->| ->]; [by rewrite buildErrResponse_not_synced|].
  rewrite buildErrResponse_unavailable. intros [= <-]. split; [done|].
  apply MayActivate_refused in He. inversion He; subst. eauto.
Qed.

Lemma MayActivate_waited t r : exec MayActivate t r -> waited t -> Ev OScalingUpRead true ∈ t.
Proof.
  intros H%MayActivate_exec (d & g & Hin).
  assert (Hg : forall t' q, exec PoolGet t' q -> Ev (OSelectGuard d g) tt ∉ t').
  { intros t' q Hx. by eapply uses_absent; [apply PoolGet_uses| |]. }
  assert (Hr : forall p t' q, exec (InferencePoolReady p) t' q -> Ev (OSelectGuard d g) tt ∉ t').
  { intros p t' q Hx. by eapply uses_absent; [apply InferencePoolReady_uses| |]. }
  assert (Ht : forall d' t' q, exec (ResetTicker d') t' q -> Ev (OSelectGuard d g) tt ∉ t').
  { intros d' t' q Hx. by eapply uses_absent; [apply ResetTicker_uses| |]. }
  assert (Hs : forall b g', Ev (OSelectGuard d g) tt ∉ isScalingUp_trace b g').
  { intros b g'. eapply uses_absent; [apply isScalingUp_uses|apply isScalingUp_exec; eauto|done]. }
  destruct H; try (exfalso; repeat (apply elem_of_app in Hin as [Hin|Hin]);
    first [by eapply Hg|by eapply Hs|by eapply Hr|by eapply Ht]).
  unfold isScalingUp_trace. set_solver.
Qed.

(** ** In every interleaving *)

Lemma pool_observed_app p ls ls' : pool_observed p ls -> pool_observed p (ls ++ ls').
Proof.
  intros (j & l1 & l2 & e & k & nn & got & -> & H). exists j, l1, (l2 ++ ls'), e, k, nn, got.
  by rewrite <- app_assoc.
Qed.

(** What the run [t] found in the shared state was put there: the pool by a
    reconciler that the API had shown it, a raised flag by a scale-up. *)
Definition grounded (ls : list label) (t : list evt) : Prop :=
  (forall p, pool_event (Some p) ∈ t -> pool_observed p ls) /\
  (waited t -> exists j, LOp j (Ev (OScalingUpWrite true) tt) ∈ ls).

Context `{EP : ExtProcDesc}.

Lemma MayActivate_grounded t0 ts ls c i t r : Forall goroutine ts ->
  steps (Running (init_world t0) ts) ls c -> exec MayActivate t r ->
  (forall e, e ∈ t -> e ∈ events_of i ls) -> grounded ls t.
Proof.
  intros Hts Hs He Hsub.
  assert (Hpre : forall e, e ∈ t -> exists l1 l2 c1, ls = l1 ++ l2 /\
    steps (Running (init_world t0) ts) (l1 ++ [LOp i e]) c1).
  { intros e Hin. apply Hsub, events_of_elem, list_elem_of_split in Hin as (l1 & l2 & Hl).
    rewrite Hl, cons_middle, app_assoc in Hs. apply steps_app_inv in Hs as (c1 & Hs & _).
    exists l1, (LOp i e :: l2), c1. done. }
  split.
  - intros p (l1 & l2 & c1 & -> & Hs1)%Hpre. apply pool_observed_app. by eapply read_pool_observed.
  - intros Hw. destruct (Hpre _ (MayActivate_waited _ _ He Hw)) as (l1 & l2 & c1 & -> & Hs1).
    destruct (flag_raised (init_world t0) _ _ _ _ eq_refl Hs1) as [j Hj]. exists j. set_solver.
Qed.

Lemma MayActivate_off_stream_events t r :
  exec MayActivate t r -> Forall (fun e => stream_op (ev_op e) = false) t.
Proof.
  intros He. eapply Forall_impl; [exact (uses_exec _ _ _ _ MayActivate_uses He)|].
  intros [o x]. cbn. by destruct o.
Qed.

(** C3.  Answers are justified.  In every interleaving of any goroutines of
    the process, a message that a stream sends to Envoy comes right after, in
    the events of that goroutine, the headers of one request and one complete
    run of [MayActivate], which received and sent nothing itself; the message
    is the answer to the verdict of this run, and this run holds the reason.
    CONTINUE: the run waited for a scale-up in progress, could not read the
    scale, or saw as many ready replicas as the target's scale asks for, of
    its own or after its accepted update to one.  HTTP 503 with the
    ServiceUnavailable text: the pool it read does not name a target known to
    the API, or the update to one replica was rejected or did not make the
    target ready in time.  No other message is ever sent.  The pool it read
    had been stored by a reconciler to which the API had shown it, and the
    scale-up it waited for had been begun. *)
Theorem answers_are_justified t0 ts ls1 i n resp x ls2 c :
  Forall goroutine ts -> ts !! i = Some (stream n) ->
  steps (Running (init_world t0) ts) (ls1 ++ LOp i (Ev (OSend resp) x) :: ls2) c ->
  exists l0 t v, events_of i ls1 = l0 ++ asked ++ t /\
    exec MayActivate t (Done v) /\ Forall (fun e => stream_op (ev_op e) = false) t /\
    answers v resp /\ justifies t resp /\ grounded ls1 t.
Proof.
  intros Hts Hi Hs. destruct (stream_sends _ _ _ _ _ _ _ _ _ Hi Hs) as (l0 & t & v & Hl & Hm & Ha).
  apply steps_app_inv in Hs as (c1 & Hs & _). exists l0, t, v. split; [done|]. split; [done|].
  split; [by eapply MayActivate_off_stream_events|]. split; [done|]. split; [by eapply answers_justified|].
  eapply MayActivate_grounded; [done..|]. intros e Hin. rewrite Hl. set_solver.
Qed.

End Answers.

(** ** A concrete process: the reconciler stores the pool, then a request is
    answered with CONTINUE *)

Definition served_process : list (go unit) := [demo_stream 1; demo_reconciler [demo_nn]].

Definition served_schedule : list sched := burst LateTick.busy_env 1 5 ++ burst LateTick.busy_env 0 23.

Lemma answers_are_justified_witness :
  exists ls1 l0 t v,
    run_labels served_schedule (Running (init_world 0) served_process) =
      ls1 ++ [LOp 0%nat (Ev (OSend PR_RequestHeaders_CONTINUE) None)] /\
    events_of 0%nat ls1 = l0 ++ asked ++ t /\
    exec demo_MayActivate t (Done v) /\ Forall (fun e => stream_op (ev_op e) = false) t /\
    @answers demo_errutil demo_status v PR_RequestHeaders_CONTINUE /\
    @justifies demo_k8s demo_errutil t PR_RequestHeaders_CONTINUE /\ @grounded demo_k8s ls1 t.
Proof.
  set (c0 := Running (init_world 0) served_process).
  assert (Hv : is_nil (run_sched served_schedule c0) = false) by (vm_compute; reflexivity).
  destruct (run_sched served_schedule c0) as [c|] eqn:Hc; [|discriminate Hv].
  pose proof (run_sched_steps _ _ _ Hc) as Hst.
  set (ls1 := removelast (run_labels served_schedule c0)).
  assert (Hls : run_labels served_schedule c0 = ls1 ++ [LOp 0%nat (Ev (OSend PR_RequestHeaders_CONTINUE) None)])
    by (vm_compute; reflexivity).
  rewrite Hls in Hst.
  destruct (@answers_are_justified demo_k8s demo_errutil demo_status ref_wait ref_wait_laws ref_wait_persists
    demo_errutil_laws demo_status_laws demo_desc 0 served_process ls1 0%nat 1 PR_RequestHeaders_CONTINUE None [] c
    ltac:(repeat constructor) eq_refl Hst) as (l0 & t & v & H).
  exists ls1, l0, t, v. split; [exact Hls|exact H].
Defined.
