(* ===== verification/Origins.v ===== *)
(** * Where the shared state comes from

    The invariant of the memory the goroutines share, in terms of the run that
    led to it: the pool in the datastore, the period of the ticker and the
    leader flag are what some goroutine put there, and it had reason to
    ([shared_state_has_its_origin]). *)

From S2P Require Import Prelude GoTime Prog Effects Machine Datastore RequestControl Instances Activator Admission Refusals Deactivator Handlers Controller Health Goroutines Traces Verdicts IdleTicks Readiness Provenance Answers.
#[local] Open Scope go_scope.

(** ** With which periods the ticker is re-armed *)

Module Rearm.

(** The last pool read; a re-arming uses the default delay or the delay of
    that pool. *)
Definition delta (seen : option v1.InferencePool) (e : evt) : option (option v1.InferencePool) :=
  match e with
  | Ev OPoolRead p => Some p
  | Ev (OTickerReset d) _ =>
      if bool_decide (d = DefaultScaleDownDelay \/ d = default 0 (scaleDownDelay_of <$> seen) /\ seen <> None)
      then Some seen else None
  | _ => Some seen
  end.

Lemma accepts_rearm d x evs : forall s s', accepts delta s evs = Some s' -> Ev (OTickerReset d) x ∈ evs ->
  d = DefaultScaleDownDelay \/
  exists p, (s = Some p \/ pool_event (Some p) ∈ evs) /\ d = scaleDownDelay_of p.
Proof.
  induction evs as [|[o y] evs IH]; intros s s' H Hin; [by apply not_elem_of_nil in Hin|].
  cbn [accepts] in H. destruct (delta s (Ev o y)) as [s1|] eqn:Hd; [|done].
  apply elem_of_cons in Hin as [E|Hin].
  - rewrite <- E in Hd. cbn in Hd. case_bool_decide as Hb; [|done]. destruct Hb as [->|[-> Hs]]; [by left|].
    right. destruct s as [p|]; [|done]. exists p. auto.
  - destruct (IH _ _ H Hin) as [->|(p & [->|Hp] & ->)]; [by left| |right; exists p; split; [right; by right|done]].
    right. exists p. split; [|done]. destruct o; cbn in Hd; repeat split_match_in Hd; simplify_eq; auto.
    right. by left.
Qed.

Abbreviation ok := (anywhere delta).

(** Operations that re-arm with the default delay at most, and of these the
    ones that do not read the pool. *)
Definition by_default (o : op) : bool :=
  match o with OTickerReset d => bool_decide (d = DefaultScaleDownDelay) | _ => true end.
Definition blind (o : op) : bool := by_default o && match o with OPoolRead => false | _ => true end.

Lemma by_default_ok {A} (p : go A) : uses by_default p -> ok A p.
Proof.
  intros Hu. induction p as [a|m|o k IH]; [done..|]. destruct Hu as [Ho Hk]. intros s x.
  assert (Hd : is_Some (delta s (Ev o x))).
  { destruct o; try by eexists. cbn in *. apply bool_decide_eq_true in Ho as ->.
    rewrite bool_decide_eq_true_2 by auto. by eexists. }
  destruct Hd as [s' ->]. by apply IH.
Qed.

Lemma blind_mon {A} s (p : go A) (Q : _ -> outcome A -> Prop) :
  uses blind p -> (forall r, Q s r) -> mon delta s p Q.
Proof.
  intros Hu HQ. eapply mon_uses; [exact Hu| |done]. intros o x Ho. destruct o; try done.
  apply andb_true_iff in Ho as [Ho _]. apply bool_decide_eq_true in Ho as ->. cbn. by rewrite bool_decide_eq_true_2 by auto.
Qed.

Ltac blind_by H := eapply uses_mono; [|apply H]; ops_sub.

Section Requests.
Context `{K8s : Kubernetes} `{EU : ErrUtil} `{GS : GrpcStatus} `{Wait : WaitPkg} {WL : WaitPkgLaws} `{EP : ExtProcDesc}.

Lemma ResetTicker_default_blind : uses blind (ResetTicker DefaultScaleDownDelay).
Proof. by cbn. Qed.

Lemma InferencePoolPodsReady_blind ns n k gp gr gvr : uses blind (InferencePoolPodsReady ns n k gp gr gvr).
Proof.
  apply uses_bind; [|done]. eapply uses_poll; [apply poll_law|done|]. unfold podsReady_condition.
  apply uses_bind; [apply ResetTicker_default_blind|intros _]. apply uses_bind; [done|]. intros [obj|e]; [|done].
  apply uses_bind; [apply status_readyReplicas_uses|]. uses_tac.
Qed.

Lemma scaleInferencePool_blind ns d gr gvr : uses blind (scaleInferencePool ns d gr gvr).
Proof.
  apply uses_bind; [blind_by beginScalingUp_uses|intros _]. apply uses_defer; [blind_by endScalingUp_uses|].
  apply uses_bind; [done|]. intros [s|e]; [|done].
  apply uses_bind; [apply InferencePoolPodsReady_blind|]. intros []; uses_tac.
Qed.

Lemma InferencePoolReady_blind pool : uses blind (InferencePoolReady pool).
Proof.
  unfold InferencePoolReady. destruct (VerifyPoolObjectAnnotations pool); [|done]. cbn [negb].
  apply uses_bind; [blind_by GetResourceForKind_uses|].
  intros [gvr|e]; [|done]. apply uses_bind; [done|]. intros [s|e]; [|done]. apply uses_bind.
  - destruct (0 <? Spec_Replicas s); [apply InferencePoolPodsReady_blind|done].
  - intros []; [done|apply scaleInferencePool_blind].
Qed.

(** A pool that [PoolGet] returns is the one read last. *)
Lemma PoolGet_seen s : mon delta s PoolGet (fun s' r => forall p e, r = Done (Some p, e) -> s' = Some p).
Proof. cbn. intros _ _ [p|] _; cbn; [|done]. by intros [q|] _; cbn; intros ? ? [= <- <-]. Qed.

Lemma ResetTicker_seen p : mon delta (Some p) (ResetTicker (scaleDownDelay_of p)) (fun _ _ => True).
Proof.
  unfold ResetTicker, TickerReset. cbn. intros _. destruct (_ <=? 0); cbn; [done|].
  rewrite bool_decide_eq_true_2 by auto. done.
Qed.

Lemma MayActivate_rearm : ok _ MayActivate.
Proof.
  intros s. apply mon_bind. eapply mon_mono; [|apply PoolGet_seen]. intros s' [[[p|] [e|]]|m] Hr; try done.
  rewrite (Hr p None eq_refl). cbn -[isScalingUp InferencePoolReady ResetTicker].
  apply mon_bind. apply blind_mon; [blind_by isScalingUp_uses|]. intros [[[] g]|m]; [done| |done].
  apply mon_bind, blind_mon; [apply InferencePoolReady_blind|]. intros [[]|m]; [|done..].
  apply mon_bind. eapply mon_mono; [|apply ResetTicker_seen]. by intros ? [].
Qed.

Lemma eff_by_default o : by_default o = true -> ok _ (eff o).
Proof. intros Ho. by apply by_default_ok. Qed.

Lemma stream_rearm n : ok _ (stream n).
Proof.
  apply void_ok, ok_loop. unfold process_round. apply ok_bind; [by apply eff_by_default|]. intros [e|]; [done|].
  apply ok_bind; [by apply eff_by_default|]. intros r. destruct (_ || _); [done|]. destruct r as [[]|e]; try done.
  apply ok_bind; [apply MayActivate_rearm|].
  intros [err|]; [destruct (buildErrResponse err); [|done]|]; (apply ok_bind; [by apply eff_by_default|by intros []]).
Qed.

Lemma deactivator_rearm n : ok _ (deactivator n).
Proof.
  apply void_ok. apply ok_bind; [by apply by_default_ok|]. intros _. apply ok_defer; [|by apply by_default_ok].
  apply ok_bind; [by apply by_default_ok|]. intros _. apply ok_loop. apply by_default_ok. unfold monitor_round.
  apply uses_bind; [done|]. intros []; [done|]. apply uses_bind; [blind_by PoolGet_uses|].
  intros [[p|] [e|]]; try done. cbn [fst snd deref bind]. destruct (VerifyPoolObjectAnnotations p); [|done]. cbn [negb].
  apply uses_bind; [blind_by GetResourceForKind_uses|]. intros [gvr|e]; [|done]. uses_tac.
Qed.

Lemma reconciler_rearm g reqs : ok _ (reconciler g reqs).
Proof.
  apply void_ok. induction reqs as [|req reqs IH]; [done|]. apply ok_bind; [|intros e; by apply ok_bind].
  apply by_default_ok. unfold Reconcile. cbn [the_reconciler PoolGKNN rec_Datastore].
  destruct (object_for_group _) as [k|e]; [|done].
  apply uses_bind; [destruct k; uses_tac|]. intros got. unfold handle. uses_tac.
Qed.

Lemma Check_rearm le svc : ok _ (Check (the_health_server le) svc).
Proof.
  apply by_default_ok, uses_bind; [uses_tac|]. intros isLive.
  unfold check_service, live_and_leader, check_result. uses_tac.
Qed.

Lemma goroutine_rearm t : goroutine t -> ok _ t.
Proof.
  intros [n|n|g reqs|le svc|le|]; [apply stream_rearm|apply deactivator_rearm|apply reconciler_rearm|..].
  - apply ok_bind; [apply Check_rearm|]. intros r. by apply eff_by_default.
  - apply void_ok. unfold List. cbn [the_health_server leaderElectionEnabled]. generalize (∅ : gmap string ServingStatus).
    induction (List_services le) as [|svc svcs IH]; intros m; [done|].
    apply ok_bind; [apply Check_rearm|]. intros [st [e|]]; [done|apply IH].
  - by apply by_default_ok.
Qed.

End Requests.
End Rearm.

(** ** The shared variables *)

Definition period (w : world) : option Duration := t_period (ds_ticker (ds w)).

Definition writes_period (d : option Duration) (o : op) : Prop :=
  match d with Some d => o = OTickerReset d | None => o = OTickerStop end.

Lemma period_perform i o w x w' : perform i o w x = Some w' ->
  period w' = period w \/ writes_period (period w') o.
Proof.
  destruct o; intros H; perform_cases H; cbn; auto; [by right..|]. left. unfold period.
  match goal with H : ticker_recv _ _ = Some _ |- _ => unfold ticker_recv in H; rename H into Ht end.
  destruct (t_period _) eqn:E; [|done]. destruct (_ <=? _); [|done]. injection Ht as <-. done.
Qed.

Section Origins.
Context `{K8s : Kubernetes} `{EU : ErrUtil} `{GS : GrpcStatus} `{Wait : WaitPkg} {WL : WaitPkgLaws} `{EP : ExtProcDesc}.

(** The delays with which the ticker may be armed after the run [ls]. *)
Definition known_delay (ls : list label) (d : Duration) : Prop :=
  d = DefaultScaleDownDelay \/ exists p, pool_observed p ls /\ d = scaleDownDelay_of p.

Lemma rearm_origin t0 ts ls c j d : Forall goroutine ts -> steps (Running (init_world t0) ts) ls c ->
  LOp j (Ev (OTickerReset d) tt) ∈ ls -> 0 < d /\ known_delay ls d.
Proof.
  intros Hts Hst Hin. split.
  { destruct (goroutine_accepts _ _ _ _ _ _ Hts Hst Hin) as [b Hb].
    by eapply accepts_reset; [exact Hb|apply elem_of_events]. }
  destruct (steps_thread _ _ _ _ _ Hst _ _ eq_refl Hin) as [t Hj].
  assert (Ht : goroutine t) by by apply (Forall_lookup_1 _ _ _ _ Hts Hj).
  destruct (mon_steps Rearm.delta j _ _ _ Hst _ _ t None _ eq_refl Hj (Rearm.goroutine_rearm t Ht None)) as (s & Hs & _).
  apply elem_of_events in Hin.
  destruct (Rearm.accepts_rearm _ _ _ _ _ Hs Hin) as [->|(p & [[=]|Hp] & ->)]; [by left|]. right.
  exists p. split; [|done]. apply events_of_elem in Hp.
  destruct (steps_upto _ _ _ _ Hst Hp) as (la & lb & c1 & -> & Hpre).
  apply pool_observed_app. by eapply read_pool_observed.
Qed.


End Origins.

