(* ===== verification/Waiting.v ===== *)
(** * Waiting for a timer or a guard

    A request that finds a scale-up in progress waits for its guard, a request
    that has scaled up sleeps.  Both waits end: the deadline is at most a
    minute away, time does not go back and a closed channel stays closed. *)

From S2P Require Import Prelude GoTime Prog Effects Machine Datastore RequestControl Instances Activator Admission Deactivator Handlers Controller Health Goroutines ScaleUpState PoolLock Traces.
#[local] Open Scope go_scope.

(** ** What does not go back *)

Lemma perform_now i o w x w' : perform i o w x = Some w' -> now w' = now w.
Proof. destruct o; intros H; perform_cases H; done. Qed.

Lemma perform_closed i o w x w' c : perform i o w x = Some w' -> is_closed w c = true -> is_closed w' c = true.
Proof.
  destruct o; intros H; perform_cases H; try done; unfold is_closed; cbn; intros Hc.
  - by destruct (closed w !! c) eqn:E; [rewrite (lookup_app_l_Some _ _ _ _ E)|].
  - destruct (decide (c = c0)) as [->|Hne]; [|by rewrite list_lookup_insert_ne].
    destruct (closed w !! c0) eqn:E; [|done]. rewrite list_lookup_insert_eq; [done|by eapply lookup_lt_Some].
Qed.

Lemma steps_monotone w ts ls w' ts' : steps (Running w ts) ls (Running w' ts') ->
  now w <= now w' /\ forall c, is_closed w c = true -> is_closed w' c = true.
Proof.
  intros Hs. apply (steps_invariant (fun w1 _ => now w <= now w1 /\ forall c, is_closed w c = true -> is_closed w1 c = true))
    with (w := w) (ts := ts) (ls := ls) (ts' := ts'); [|done|split; [lia|done]].
  intros w1 ts1 l w2 ts2 [Hn Hc] Hst. inversion Hst as [i w0 ts0 t l0 w3 t' Hi Ht| | |]; subst.
  - destruct t as [| |o k]; [done..|]. destruct Ht as (x & _ & Hp & _).
    rewrite (perform_now _ _ _ _ _ Hp). split; [done|]. intros c H. by eapply perform_closed; [|apply Hc].
  - cbn. split; [lia|done].
  - done.
Qed.

(** ** Deadlines *)

(** The last deadline, and that it was at most a minute away. *)
Definition delta (deadline : option Z) (e : evt) : option (option Z) :=
  match e with
  | Ev (OAfter d) t => if d <=? DefaultScaleFromZeroGracePeriod then Some (Some t) else None
  | Ev (OWaitUntil t) _ | Ev (OSelectGuard t _) _ => if decide (deadline = Some t) then Some deadline else None
  | _ => Some deadline
  end.

(** Operations that wait, and until when. *)
Definition waits_until (o : op) : option Z :=
  match o with OWaitUntil t | OSelectGuard t _ => Some t | _ => None end.

Lemma delta_waits s o x t : waits_until o = Some t -> delta s (Ev o x) <> None -> s = Some t.
Proof. destruct o; try done; cbn; intros [= ->]; by case_decide. Qed.

Lemma accepts_deadline evs : forall s t, accepts delta s evs = Some (Some t) ->
  s = Some t \/ exists d, Ev (OAfter d) t ∈ evs /\ d <= DefaultScaleFromZeroGracePeriod.
Proof.
  induction evs as [|e evs IH]; intros s t; cbn [accepts]; [intros [= ->]; by left|].
  destruct (delta s e) as [s1|] eqn:Hd; [|done].
  intros [->|(d & Hin & Hle)]%IH; [|right; exists d; split; [by right|done]].
  destruct e as [o x]. destruct o; cbn in Hd; repeat split_match_in Hd; simplify_eq; auto.
  right. exists d. split; [by left|lia].
Qed.

Abbreviation ok := (anywhere delta).

Lemma wait_ResetTicker d : ok _ (ResetTicker d).
Proof. unfold ResetTicker, TickerReset. by destruct (d <=? 0). Qed.

Lemma wait_external o : external o = true -> timed o = false -> ok _ (eff o).
Proof. intros Ho Ht s. by destruct o. Qed.

#[local] Instance wait_sections : Sections ok.
Proof.
  split; [intros; by apply wait_external| |intros; apply wait_ResetTicker|].
  - intros s t. cbn -[decide]. intros _. by rewrite decide_True.
  - intros gvr ns n B f Hf. apply ok_bind; [by apply wait_external|]. intros r. by apply Hf.
Qed.

#[local] Instance wait_more_sections : MoreSections ok.
Proof.
  split; [| |done..].
  - intros B f Hf. apply ok_bind; [cbn; by intros ? ? ? [] ?|].
    intros [p e]. apply Hf; [done|]. intros; apply wait_ResetTicker.
  - intros g s t. cbn -[decide]. intros _. by rewrite decide_True.
Qed.

#[local] Instance wait_pool_writes : PoolWrites ok.
Proof. done. Qed.

Section Goroutines.
Context `{K8s : Kubernetes} `{EU : ErrUtil} `{GS : GrpcStatus} `{Wait : WaitPkg} {WL : WaitPkgLaws} `{EP : ExtProcDesc}.

Lemma wait_scaleInferencePool ns d gr gvr : numReplicas d = 1 -> ok _ (scaleInferencePool ns d gr gvr).
Proof.
  intros Hd. rewrite scaleInferencePool_body. apply ok_bind; [done|]. intros _.
  apply ok_defer; [by apply scale_body_ok|]. intros s. cbn. intros _ _ [c|]; cbn; [|done]. by intros [].
Qed.

Lemma goroutine_waits t : goroutine t -> ok _ t.
Proof. by apply goroutine_ok; [..|apply wait_scaleInferencePool]. Qed.

(** The deadline of a wait is at most a minute away. *)
Lemma deadline_near t0 ts ls w ts' i o k t : Forall goroutine ts ->
  steps (Running (init_world t0) ts) ls (Running w ts') -> ts' !! i = Some (Op o k) -> waits_until o = Some t ->
  t <= now w + DefaultScaleFromZeroGracePeriod.
Proof.
  intros Hts Hs Hi Ho. destruct (lookup_lt_is_Some_2 ts i) as [p Hp].
  { rewrite <- (steps_length _ _ _ _ _ Hs). by eapply lookup_lt_Some. }
  destruct (mon_steps delta i _ _ _ Hs _ _ p None _ eq_refl Hp
    (goroutine_waits p (Forall_lookup_1 _ _ _ _ Hts Hp) None)) as (s & Ha & Hr).
  destruct (Hr _ _ eq_refl) as (t' & Ht' & Hm). assert (Some t' = Some (Op o k)) as [= ->] by exact (eq_trans (eq_sym Ht') Hi).
  specialize (Hm (some_answer o)). assert (s = Some t) as ->.
  { eapply delta_waits; [exact Ho|]. intros E. by rewrite E in Hm. }
  apply accepts_deadline in Ha as [[=]|(d & Hin & Hd)].
  apply events_of_elem, list_elem_of_split in Hin as (l1 & l2 & ->).
  apply steps_app_inv in Hs as (c1 & _ & Hs). inversion Hs as [|? ? c2 ? ? Hst Hrest]; subst.
  apply step_performs in Hst as (w1 & ts1 & k1 & w2 & -> & _ & Hperf & ->).
  cbn in Hperf. unfold guard_on in Hperf. destruct (t =? now w1 + d) eqn:E; [|done]. injection Hperf as <-.
  apply steps_monotone in Hrest as [Hn _]. lia.
Qed.

(** C21.  No request waits for ever.  In every interleaving of any goroutines
    of the process, a goroutine that sleeps, or waits for the guard of a
    scale-up, can go on as soon as a minute has passed since any moment at
    which it was seen waiting, or the guard it waits for has been closed; and
    it can still go on at every later moment until it does. *)
Theorem waits_are_bounded t0 ts ls1 w1 ts1 i o k t ls2 w2 ts2 ls3 w3 ts3 :
  Forall goroutine ts -> steps (Running (init_world t0) ts) ls1 (Running w1 ts1) ->
  ts1 !! i = Some (Op o k) -> waits_until o = Some t ->
  steps (Running w1 ts1) ls2 (Running w2 ts2) ->
  (now w1 + 60 * Second <= now w2 \/ exists c, o = OSelectGuard t (Some c) /\ is_closed w2 c = true) ->
  steps (Running w2 ts2) ls3 (Running w3 ts3) -> events_of i (ls2 ++ ls3) = [] ->
  ts3 !! i = Some (Op o k) /\ exists x, perform i o w3 x = Some w3.
Proof.
  intros Hts Hs1 Hi Ho Hs2 Hcase Hs3 He.
  split; [etrans; [|exact Hi]; eapply steps_silent; [eapply steps_app; [exact Hs2|exact Hs3]|done..]|].
  pose proof (deadline_near _ _ _ _ _ _ _ _ _ Hts Hs1 Hi Ho) as Hd. unfold DefaultScaleFromZeroGracePeriod in Hd.
  apply steps_monotone in Hs3 as [Hn Hc]. destruct Hcase as [Hle|(c & -> & Hcl)].
  - destruct o; try done; injection Ho as ->; exists tt; cbn; by replace (t <=? now w3) with true by lia.
  - exists tt. cbn. by rewrite (Hc c Hcl), orb_true_r.
Qed.

End Goroutines.

(** A burst has the events of its goroutine only. *)
Lemma events_of_burst env i j n : i <> j -> forall c, events_of i (run_labels (burst env j n) c) = [].
Proof.
  intros Hne. induction n as [|n IH]; intros c; [done|]. cbn [burst replicate run_labels].
  match goal with |- events_of i (?l :: ?r) = [] => change (events_of i ([l] ++ r) = []) end.
  rewrite events_of_app. apply app_nil. split.
  - destruct c as [w ts|m]; cbn; [|done]. destruct (ts !! j) as [[]|]; cbn; [done|done| |done]. by rewrite decide_False.
  - destruct (run_one _ c); [apply IH|done].
Qed.

(** A request begins a scale-up, another finds it and waits; then the first
    closes the guard. *)
Definition finds : list sched := burst Guard.conflict_env 2 5 ++ burst Guard.conflict_env 0 19 ++ burst Guard.conflict_env 1 13.
Definition ends : list sched := burst Guard.conflict_env 0 5.

Definition waiting_summary (c : option proc) : option (list (option op) * Z * list bool) :=
  match c with Some (Running w ts) => Some (map Deadlock.next_op ts, now w, closed w) | _ => None end.

Definition found : option proc := run_sched finds Guard.two_streams.

Lemma waits_are_bounded_witness :
  match found with
  | Some (Running w1 ts1) =>
      match run_sched ends (Running w1 ts1) with
      | Some (Running w2 ts2) => exists x, perform 1%nat (OSelectGuard (60 * Second) (Some 0%nat)) w2 x = Some w2
      | _ => False
      end
  | _ => False
  end.
Proof.
  assert (Hv : waiting_summary found = Some ([Some (OScaleUpdate "llm-d-sim" (MkGR "apps" "deployments") (demo_scale 1));
    Some (OSelectGuard (60 * Second) (Some 0%nat)); None], 0, [false])) by (vm_compute; reflexivity).
  assert (Hv2 : match found with Some c => waiting_summary (run_sched ends c) | None => None end =
    Some ([Some (OGuardWrite None); Some (OSelectGuard (60 * Second) (Some 0%nat)); None], 0, [true])) by (vm_compute; reflexivity).
  destruct found as [[w1 ts1|m]|] eqn:H1; [|discriminate Hv..].
  destruct (run_sched ends (Running w1 ts1)) as [[w2 ts2|m]|] eqn:H2; [|discriminate Hv2..].
  injection Hv as Hts _ _. injection Hv2 as _ _ Hcl.
  destruct ts1 as [|u0 [|u1 us]]; [discriminate Hts..|]. destruct u1 as [a|m|o k]; [discriminate Hts..|].
  injection Hts as _ Ho _.
  refine (proj2 (@waits_are_bounded demo_k8s demo_errutil demo_status ref_wait ref_wait_laws demo_desc 0
    [demo_stream 1; demo_stream 1; demo_reconciler [demo_nn]] (run_labels finds Guard.two_streams) w1 (u0 :: Op o k :: us)
    1%nat (OSelectGuard (60 * Second) (Some 0%nat)) (eq_rect o (fun o => ans o -> go unit) k _ Ho) (60 * Second)
    (run_labels ends (Running w1 (u0 :: Op o k :: us))) w2 ts2 [] w2 ts2 _ _ _ eq_refl _ _ _ _)).
  - repeat constructor.
  - exact (run_sched_steps finds Guard.two_streams _ H1).
  - destruct Ho. reflexivity.
  - exact (run_sched_steps _ _ _ H2).
  - right. exists 0%nat. split; [reflexivity|]. unfold is_closed. rewrite Hcl. reflexivity.
  - constructor.
  - rewrite app_nil_r. apply events_of_burst. discriminate.
Defined.
