(* ===== verification/Races.v ===== *)
(** * Data races

    The fields that several goroutines share and that are not atomic: the
    pool, the flag and the guard.  The discipline of every goroutine (file
    PoolLock) and the locks together exclude that two goroutines are about to
    access the same field at the same time, one of them writing it. *)

From S2P Require Import Prelude GoTime Prog Effects Machine Datastore RequestControl Instances Activator Admission Deactivator Handlers Controller Health Goroutines ScaleUpState PoolLock Progress.
#[local] Open Scope go_scope.
Import Discipline.

Inductive field := FPool | FScalingUp | FGuard.

(** The field an operation accesses, and whether it writes it. *)
Definition access (o : op) : option (field * bool) :=
  match o with
  | OPoolRead => Some (FPool, false)
  | OPoolWrite _ => Some (FPool, true)
  | OScalingUpRead => Some (FScalingUp, false)
  | OScalingUpWrite _ => Some (FScalingUp, true)
  | OGuardRead => Some (FGuard, false)
  | OGuardWrite _ => Some (FGuard, true)
  | _ => None
  end.

(** What the discipline says of a goroutine that is about to access a field. *)
Lemma access_held h o x f b : delta h (Ev o x) <> None -> access o = Some (f, b) ->
  match f with
  | FPool => if b then h_write h = WHeld else (0 < h_reads h)%nat
  | _ => h_mu h = true
  end.
Proof.
  destruct h as [[|n] [] []]; destruct o; cbn; intros Hd [= <- <-]; cbn; done || lia.
Qed.

Section Races.
Context `{K8s : Kubernetes} `{EU : ErrUtil} `{GS : GrpcStatus} `{Wait : WaitPkg} {WL : WaitPkgLaws} `{EP : ExtProcDesc}.

Lemma about_to_access w ts i o k f b : linked w ts -> ts !! i = Some (Op o k) -> access o = Some (f, b) ->
  match f with
  | FPool => if b then rw_writer (poolMu (ds w)) = WriterInside i else (0 < holds i (rw_readers (poolMu (ds w))))%nat
  | _ => scalingUpAndGuardMu (act w) = Some i
  end.
Proof.
  intros Hlk Hi Ha. destruct (proj1 Hlk i _ Hi) as (h & Hl & Hm). specialize (Hm (some_answer o)).
  assert (Hd : delta h (Ev o (some_answer o)) <> None) by by destruct (delta h _).
  pose proof (access_held _ _ _ _ _ Hd Ha) as H. destruct f; [destruct b|..].
  - by apply (l_inside _ _ _ Hl).
  - by rewrite (l_reads _ _ _ Hl).
  - by apply (l_mu _ _ _ Hl).
  - by apply (l_mu _ _ _ Hl).
Qed.

(** The lock of the datastore excludes readers and a writer. *)
Lemma reachable_exclusive t0 ts w ts' : Forall goroutine ts ->
  reachable (Running (init_world t0) ts) (Running w ts') -> PoolRead.Inv w.
Proof.
  intros Hts [ls Hs].
  assert (H : threads_ok PoolRead.Inv PoolRead.Knows (fun _ _ _ => True) w ts'); [|apply H].
  eapply threads_ok_steps; [..|exact Hs|]; try done; [by intros ? []..|].
  split; [done|]. intros i t Hi. exists PoolRead.Free. split; [done|].
  eapply thread_ok_mono; [|apply (@PoolRead.pool_goroutine_ok (fun _ => False) ltac:(done) K8s EU GS Wait WL EP);
    [tauto|exact (Forall_lookup_1 _ _ _ _ Hts Hi)]]. done.
Qed.

(** C22.  No data races.  In every state reached by any goroutines of the
    process in any interleaving, no two goroutines are about to access the
    same one of the fields [pool], [scalingUp] and [guard] with one of the
    accesses a write. *)
Theorem no_data_race t0 ts w ts' i j oi ki oj kj f bi bj :
  Forall goroutine ts -> reachable (Running (init_world t0) ts) (Running w ts') ->
  ts' !! i = Some (Op oi ki) -> ts' !! j = Some (Op oj kj) -> i <> j ->
  access oi = Some (f, bi) -> access oj = Some (f, bj) -> bi = false /\ bj = false.
Proof.
  intros Hts Hr Hi Hj Hne Hai Haj. pose proof (reachable_linked _ _ _ _ Hts Hr) as Hlk.
  pose proof (reachable_exclusive _ _ _ _ Hts Hr) as Hex. unfold PoolRead.Inv in Hex.
  pose proof (about_to_access _ _ _ _ _ _ _ Hlk Hi Hai) as H1.
  pose proof (about_to_access _ _ _ _ _ _ _ Hlk Hj Haj) as H2.
  destruct f; [|congruence..]. destruct bi, bj; [congruence|..|done].
  - rewrite H1 in Hex. rewrite Hex in H2. cbn in H2. lia.
  - rewrite H2 in Hex. rewrite Hex in H1. cbn in H1. lia.
Qed.

End Races.

(** Two requests about to read the pool. *)
Definition both_read : list sched := burst Guard.conflict_env 0 4 ++ burst Guard.conflict_env 1 4.

Definition reading : option proc := run_sched both_read Guard.two_streams.

Lemma no_data_race_witness :
  match reading with
  | Some (Running w (Op o0 _ :: Op o1 _ :: _)) =>
      exists f b0 b1, access o0 = Some (f, b0) /\ access o1 = Some (f, b1) /\ b0 = false /\ b1 = false
  | _ => False
  end.
Proof.
  assert (Hv : match reading with Some (Running w ts) => map Deadlock.next_op (take 2 ts) | _ => [] end =
    [Some OPoolRead; Some OPoolRead]) by (vm_compute; reflexivity).
  destruct reading as [[w ts|m]|] eqn:Hc; [|discriminate Hv..].
  destruct ts as [|[|m0|o0 k0] [|[|m1|o1 k1] us]]; try discriminate Hv. injection Hv as H0 H1.
  assert (A0 : access o0 = Some (FPool, false)) by (rewrite H0; reflexivity).
  assert (A1 : access o1 = Some (FPool, false)) by (rewrite H1; reflexivity).
  exists FPool, false, false. split; [exact A0|]. split; [exact A1|].
  exact (@no_data_race demo_k8s demo_errutil demo_status ref_wait ref_wait_laws demo_desc 0
    [demo_stream 1; demo_stream 1; demo_reconciler [demo_nn]] w (Op o0 k0 :: Op o1 k1 :: us) 0%nat 1%nat o0 k0 o1 k1
    FPool false false ltac:(repeat constructor) (run_sched_reachable both_read Guard.two_streams _ Hc)
    eq_refl eq_refl ltac:(discriminate) A0 A1).
Defined.
