(* ===== verification/Linearizable.v ===== *)
(** * The datastore is linearizable

    The methods of the datastore take locks and read and write its fields in
    several steps, at which other goroutines interleave.  This file shows that
    nobody can tell: every run of the process is matched by a run in which
    each method call is a single step, the step of the two plain variables of
    file Datastore, taken at one of the operations of that call.  The argument
    is a simulation between the machine and a machine whose calls are
    atomic. *)

From S2P Require Import Prelude GoTime Prog Effects Machine Datastore RequestControl Instances Activator Admission Deactivator Handlers Controller Health Goroutines PoolLock Traces.
#[local] Open Scope go_scope.
Import Register.

(** ** Programs up to their continuations

    Two programs that perform the same operations and continue in the same
    way are equal for all purposes, but not as Rocq functions. *)

Section Pointwise.
Context {op' : Type} {ans' : op' -> Type}.

Fixpoint peq {A} (p q : prog ans' A) : Prop :=
  match p with
  | Ret a => q = Ret a
  | Panic m => q = Panic m
  | Op o k => exists k', q = Op o k' /\ forall x, peq (k x) (k' x)
  end.

Lemma peq_refl {A} (p : prog ans' A) : peq p p.
Proof. induction p as [a|m|o k IH]; cbn; eauto. Qed.

Lemma peq_trans {A} (p : prog ans' A) : forall q r, peq p q -> peq q r -> peq p r.
Proof.
  induction p as [a|m|o k IH]; cbn; intros q r.
  - by intros ->.
  - by intros ->.
  - intros (k1 & -> & H1) (k2 & -> & H2). eauto.
Qed.

Lemma peq_sym {A} (p : prog ans' A) : forall q, peq p q -> peq q p.
Proof.
  induction p as [a|m|o k IH]; cbn; intros q; [by intros ->..|]. intros (k1 & -> & H1). cbn. eauto.
Qed.

#[global] Instance peq_equivalence A : Equivalence (@peq A).
Proof. split; [intros p; apply peq_refl|intros p q; apply peq_sym|intros p q r; apply peq_trans]. Qed.

(** Run [p], then go on with its outcome, a panic included. *)
Fixpoint catch {A B} (p : prog ans' A) (k : outcome A -> prog ans' B) : prog ans' B :=
  match p with
  | Ret a => k (Done a)
  | Panic m => k (Crash m)
  | Op o f => Op o (fun x => catch (f x) k)
  end.

(** Sequencing and deferring, of programs that are equal, and of [catch]. *)
Lemma bind_peq {A B} (p : prog ans' A) (f : A -> prog ans' B) : forall q, peq p q -> peq (bind p f) (bind q f).
Proof. induction p as [a|m|o k IH]; cbn; intros q; [intros ->; apply peq_refl|by intros ->|]. intros (k' & -> & H). eexists. split; [reflexivity|]. intros x. apply IH, H. Qed.

Lemma defer_peq {A} (f : prog ans' unit) (p : prog ans' A) : forall q, peq p q -> peq (defer f p) (defer f q).
Proof. induction p as [a|m|o k IH]; cbn; intros q; [intros ->; apply peq_refl..|]. intros (k' & -> & H). eexists. split; [reflexivity|]. intros x. apply IH, H. Qed.

Lemma bind_as_catch {A B} (p : prog ans' A) (f : A -> prog ans' B) :
  peq (catch p (fun r => match r with Done a => f a | Crash m => Panic m end)) (bind p f).
Proof. induction p as [a|m|o k IH]; cbn; [apply peq_refl|done|]. eexists. split; [reflexivity|]. exact IH. Qed.

Lemma bind_catch {A B C} (p : prog ans' A) (k : outcome A -> prog ans' B) (f : B -> prog ans' C) :
  peq (catch p (fun r => bind (k r) f)) (bind (catch p k) f).
Proof. induction p as [a|m|o k' IH]; cbn; [apply peq_refl..|]. eexists. split; [reflexivity|]. exact IH. Qed.

Lemma defer_catch {A B} (f : prog ans' unit) (p : prog ans' A) (k : outcome A -> prog ans' B) :
  peq (catch p (fun r => defer f (k r))) (defer f (catch p k)).
Proof. induction p as [a|m|o k' IH]; cbn; [apply peq_refl..|]. eexists. split; [reflexivity|]. exact IH. Qed.

End Pointwise.

(** ** The atomic machine *)

(** Operations of the datastore's methods. *)
Definition inside (o : op) : bool :=
  match o with
  | OPoolRLock | OPoolRUnlock | OPoolLockAnnounce | OPoolLockAcquire | OPoolUnlock
  | OPoolRead | OPoolWrite _ | OTickerReset _ | OTickerStop => true
  | _ => false
  end.

(** Running a method and going on with its outcome. *)
Definition method {A} (c : cmd) (k : outcome reply -> go A) : go A := catch (call (D := datastore_impl) c) k.

(** Code that uses the datastore through its methods only. *)
Inductive structured {A : Type} : go A -> Prop :=
| s_ret a : structured (Ret a)
| s_panic m : structured (Panic m)
| s_op o k : inside o = false -> (forall x, structured (k x)) -> structured (Op o k)
| s_call c k p : (forall r, structured (k r)) -> peq (method c k) p -> structured p.

Inductive alabel :=
| ALabel (l : label)
| ACall (i : tid) (c : cmd) (r : outcome reply).

(** A method call is one step, of the two variables. *)
Inductive astep : proc -> alabel -> proc -> Prop :=
| a_op i w ts o k x w' :
    ts !! i = Some (Op o k) -> inside o = false -> perform i o w x = Some w' ->
    astep (Running w ts) (ALabel (LOp i (Ev o x))) (Running w' (<[i := k x]> ts))
| a_call i w ts t c k r s :
    ts !! i = Some t -> peq (method c k) t -> spec_step (now w) c (abs_of w) = (r, s) ->
    astep (Running w ts) (ACall i c r) (Running (set_abs w s) (<[i := k r]> ts))
| a_time w ts d : 0 <= d ->
    astep (Running w ts) (ALabel (LTime d)) (Running (set_now (now w + d) w) ts)
| a_cancel w ts :
    astep (Running w ts) (ALabel LCancel) (Running (set_ctx_done true w) ts)
| a_panic i w ts m :
    ts !! i = Some (Panic m) -> astep (Running w ts) (ALabel (LPanic i)) (Crashed m).

Inductive asteps : proc -> list alabel -> proc -> Prop :=
| as_refl c : asteps c [] c
| as_step c l c' ls c'' : astep c l c' -> asteps c' ls c'' -> asteps c (l :: ls) c''.

(** How the steps correspond: a step outside the datastore is the same step; a
    step inside is nothing, or the call its goroutine is in. *)
Inductive linearizes : list label -> list alabel -> Prop :=
| l_nil : linearizes [] []
| l_same l ls als : (forall i e, l = LOp i e -> inside (ev_op e) = false) ->
    linearizes ls als -> linearizes (l :: ls) (ALabel l :: als)
| l_silent i e ls als : inside (ev_op e) = true -> linearizes ls als -> linearizes (LOp i e :: ls) als
| l_point i e c r ls als : inside (ev_op e) = true -> linearizes ls als -> linearizes (LOp i e :: ls) (ACall i c r :: als).

(** The world without its lock. *)
Definition unlocked (w : world) : world := set_poolMu w (RW [] NoWriter).

(** ** Inside a call *)

Section Shapes.
Context {A : Type}.

(** The end of a method under the read lock. *)
Definition leave (t : go A) : go A := Op OPoolRUnlock (fun _ => t).

(** [PoolGet] from its first read of the pool, and from its last. *)
Definition get_last (k : outcome reply -> go A) : go A :=
  Op OPoolRead (fun p => leave (k (Done (RGet p None)))).

Definition get_checked (p : option v1.InferencePool) (k : outcome reply -> go A) : go A :=
  leave (if is_nil p then leave (k (Done (RGet None (Some errPoolNotSynced)))) else get_last k).

Definition get_first (k : outcome reply -> go A) : go A := Op OPoolRead (fun p => get_checked p k).

(** A method that writes the pool, from taking the lock and from writing. *)
Definition set_write (u : option v1.InferencePool) (k : outcome reply -> go A) : go A :=
  Op (OPoolWrite u) (fun _ => Op OPoolUnlock (fun _ => k (Done RUnit))).

Definition set_acquire (u : option v1.InferencePool) (k : outcome reply -> go A) : go A :=
  Op OPoolLockAcquire (fun _ => set_write u k).

(** The methods that do one thing under the read lock: what they do. *)
Definition body (c : cmd) (k : outcome reply -> go A) : option (go A) :=
  match c with
  | CHasSynced => Some (Op OPoolRead (fun p => leave (k (Done (RBool (negb (is_nil p)))))))
  | CReset d => if d <=? 0 then None else Some (Op (OTickerReset d) (fun _ => leave (k (Done RUnit))))
  | CStop => Some (Op OTickerStop (fun _ => leave (k (Done RUnit))))
  | _ => None
  end.

(** A method, operation by operation. *)
Definition shape (c : cmd) (k : outcome reply -> go A) : go A :=
  match c with
  | CSet u => Op OPoolLockAnnounce (fun _ => set_acquire u k)
  | CClear => Op OPoolLockAnnounce (fun _ => set_acquire None k)
  | CGet => Op OPoolRLock (fun _ => Op OPoolRLock (fun _ => get_first k))
  | CGetTicker => Op OPoolRLock (fun _ => leave (k (Done RUnit)))
  | CHasSynced => Op OPoolRLock (fun _ => Op OPoolRead (fun p => leave (k (Done (RBool (negb (is_nil p)))))))
  | CStop => Op OPoolRLock (fun _ => Op OTickerStop (fun _ => leave (k (Done RUnit))))
  | CReset d =>
      Op OPoolRLock (fun _ =>
        if d <=? 0 then leave (k (Crash "non-positive interval for Ticker.Reset"))
        else Op (OTickerReset d) (fun _ => leave (k (Done RUnit))))
  end.

(** Pointwise equality of concrete trees. *)
Ltac pointwise := repeat (eexists; split; [reflexivity|intros ?; cbn]); try apply peq_refl.

Lemma shape_method c k : peq (shape c k) (method c k).
Proof.
  destruct c as [u| | | |d| |]; cbn; pointwise.
  - match goal with p : option _ |- _ => destruct p end; pointwise.
  - unfold TickerReset. destruct (d <=? 0); cbn; pointwise.
Qed.

End Shapes.

(** Where goroutine [i] is: its program [t], and the program [ta] that it has
    in the atomic machine, where the call has not happened yet or is over. *)
Inductive at_pos (i : tid) (w : world) : go unit -> go unit -> Prop :=
| p_out t ta : structured ta -> peq ta t -> at_pos i w t ta
| p_body c k b t ta :                          (* about to do its one thing *)
    (forall r, structured (k r)) -> peq (method c k) ta -> body c k = Some b ->
    (0 < holds i (rw_readers (poolMu (ds w))))%nat -> peq b t -> at_pos i w t ta
| p_leave t ta :                               (* has done it *)
    structured ta -> (0 < holds i (rw_readers (poolMu (ds w))))%nat -> peq (leave ta) t -> at_pos i w t ta
| p_get_again k t ta :                         (* PoolGet: about to call PoolHasSynced *)
    (forall r, structured (k r)) -> peq (method CGet k) ta ->
    (0 < holds i (rw_readers (poolMu (ds w))))%nat -> peq (Op OPoolRLock (fun _ => get_first k)) t -> at_pos i w t ta
| p_get_first k t ta :                         (* ... about to look *)
    (forall r, structured (k r)) -> peq (method CGet k) ta ->
    (1 < holds i (rw_readers (poolMu (ds w))))%nat -> peq (get_first k) t -> at_pos i w t ta
| p_get_checked k t :                          (* ... has looked: this decides *)
    (forall r, structured (k r)) -> (1 < holds i (rw_readers (poolMu (ds w))))%nat ->
    peq (get_checked (pool (ds w)) k) t ->
    at_pos i w t (k (Done (RGet (pool (ds w)) (if is_nil (pool (ds w)) then Some errPoolNotSynced else None))))
| p_get_last k p t :                           (* ... about to read what it has seen *)
    (forall r, structured (k r)) -> (0 < holds i (rw_readers (poolMu (ds w))))%nat -> pool (ds w) = Some p ->
    peq (get_last k) t -> at_pos i w t (k (Done (RGet (Some p) None)))
| p_acquire c u k t ta :                       (* has announced a write *)
    (forall r, structured (k r)) -> peq (method c k) ta -> c = CSet u \/ (c = CClear /\ u = None) ->
    peq (set_acquire u k) t -> at_pos i w t ta
| p_write c u k t ta :                         (* holds the write lock *)
    (forall r, structured (k r)) -> peq (method c k) ta -> c = CSet u \/ (c = CClear /\ u = None) ->
    rw_writer (poolMu (ds w)) = WriterInside i -> peq (set_write u k) t -> at_pos i w t ta
| p_unlock t ta :                              (* has written *)
    structured ta -> rw_writer (poolMu (ds w)) = WriterInside i -> peq (Op OPoolUnlock (fun _ => ta)) t -> at_pos i w t ta.

(** What the others rely on. *)
Definition undisturbed (j : tid) (w w' : world) : Prop :=
  holds j (rw_readers (poolMu (ds w'))) = holds j (rw_readers (poolMu (ds w))) /\
  ((0 < holds j (rw_readers (poolMu (ds w))))%nat -> pool (ds w') = pool (ds w)) /\
  (rw_writer (poolMu (ds w)) = WriterInside j -> rw_writer (poolMu (ds w')) = WriterInside j).

Lemma at_pos_undisturbed j w w' t ta : undisturbed j w w' -> at_pos j w t ta -> at_pos j w' t ta.
Proof.
  intros (Hh & Hp & Hw) Hat. destruct Hat.
  - by apply p_out.
  - by eapply p_body; [..|rewrite Hh|].
  - by apply p_leave; [|rewrite Hh|].
  - by eapply p_get_again; [..|rewrite Hh|].
  - by eapply p_get_first; [..|rewrite Hh|].
  - rewrite <- Hp in * by lia. by apply p_get_checked; [|rewrite Hh|].
  - apply p_get_last; [done|by rewrite Hh|by rewrite Hp|done].
  - by eapply p_acquire.
  - by eapply p_write; [..|apply Hw|].
  - by apply p_unlock; [|apply Hw|].
Qed.

(** ** One operation *)

Abbreviation reads i w := (holds i (rw_readers (poolMu (ds w)))).

Lemma rlock_inv i w x w' : perform i OPoolRLock w x = Some w' ->
  unlocked w' = unlocked w /\ reads i w' = S (reads i w) /\ pool (ds w') = pool (ds w).
Proof.
  cbn. unfold rw_RLock. destruct (rw_writer _); [|done..]. intros [= <-]. cbn. by rewrite decide_True.
Qed.

Lemma runlock_inv i w x w' : perform i OPoolRUnlock w x = Some w' ->
  unlocked w' = unlocked w /\ reads i w' = pred (reads i w) /\ pool (ds w') = pool (ds w).
Proof.
  cbn. unfold rw_RUnlock. destruct (holds _ _) eqn:E; [done|]. intros [= <-]. cbn. by rewrite holds_remove_eq, E.
Qed.

Lemma announce_inv i w x w' : perform i OPoolLockAnnounce w x = Some w' -> unlocked w' = unlocked w.
Proof. cbn. by destruct (rw_Announce _ _); intros [= <-]. Qed.

Lemma acquire_inv i w x w' : perform i OPoolLockAcquire w x = Some w' ->
  unlocked w' = unlocked w /\ rw_writer (poolMu (ds w')) = WriterInside i.
Proof.
  cbn. unfold rw_Acquire. destruct (rw_writer (poolMu (ds w))), (rw_readers (poolMu (ds w))); try done. case_decide; [|done]. by intros [= <-].
Qed.

Lemma unlock_inv i w x w' : perform i OPoolUnlock w x = Some w' -> unlocked w' = unlocked w.
Proof. cbn. by destruct (rw_Unlock _ _); intros [= <-]. Qed.

Lemma read_inv i w x w' : perform i OPoolRead w x = Some w' -> w' = w /\ x = pool (ds w).
Proof. cbn. case_decide; [|done]. by intros [= <-]. Qed.

(** Outside the datastore the lock does not matter. *)
Lemma outside_perform i o w x w' : inside o = false -> perform i o w x = Some w' ->
  perform i o (unlocked w) x = Some (unlocked w').
Proof.
  intros Ho. destruct o; try discriminate Ho; cbn; unfold guard_on, is_closed; cbn.
  all: repeat match goal with
  | |- context [match ?s with SelCtxDone => _ | SelTick => _ end] => destruct s
  | |- context [ticker_recv ?a ?b] => destruct (ticker_recv a b)
  | |- context [scalingUpAndGuardMu ?a] => destruct (scalingUpAndGuardMu a)
  | |- context [decide ?P] => destruct (decide P)
  | |- (if ?b then _ else _) = _ -> _ => destruct b
  end; cbn; by intros [= <-].
Qed.

(** Nobody disturbs the others; a writer of the pool must hold the lock. *)
Lemma perform_undisturbed i o w x w' :
  (forall u, o = OPoolWrite u -> rw_writer (poolMu (ds w)) = WriterInside i) ->
  PoolRead.Inv w -> perform i o w x = Some w' -> PoolRead.Inv w' /\ forall j, j <> i -> undisturbed j w w'.
Proof.
  intros Hwr HI Hp. unfold PoolRead.Inv, undisturbed in *. destruct (PoolRead.aside o) eqn:Ha.
  { destruct (PoolRead.aside_perform _ _ _ _ _ Ha Hp) as [-> ->]. done. }
  destruct o; try discriminate Ha; [..|specialize (Hwr _ eq_refl)].
  all: destruct w as [tm [[rs wr] pl tk] a cl cd le]; cbn in *;
    unfold rw_RLock, rw_RUnlock, rw_Announce, rw_Acquire, rw_Unlock in Hp; cbn in Hp;
    repeat match type of Hp with
    | context [match ?x with _ => _ end] => destruct x eqn:?; cbn in Hp; try discriminate Hp
    end; simplify_eq; cbn in *; (split; [try done|intros j Hne]); rewrite ?decide_False, ?holds_remove_ne by done; try done.
  - destruct wr; try done. by rewrite HI.
  - split; [done|]. split; [done|]. intros [= E]. by destruct Hne.
  - split; [done|]. split; [cbn; lia|done].
Qed.

(** ** The simulation *)

(** A step of goroutine [i], and what the atomic machine does: nothing, the
    call, or the same step. *)
Definition simulates (i : tid) (w : world) (ta : go unit) (o : op) (x : ans o) (w' : world) (t' : go unit) : Prop :=
  (inside o = true /\ unlocked w' = unlocked w /\ at_pos i w' t' ta) \/
  (inside o = true /\ exists c k r s, peq (method c k) ta /\ spec_step (now w) c (abs_of w) = (r, s) /\
     unlocked w' = set_abs (unlocked w) s /\ at_pos i w' t' (k r)) \/
  (inside o = false /\ exists k, ta = Op o k /\ at_pos i w' t' (k x)).

Definition moves (i : tid) (w : world) (ta : go unit) (l : label) (w' : world) (t' : go unit) : Prop :=
  exists o x, l = LOp i (Ev o x) /\ perform i o w x = Some w' /\
    (forall u, o = OPoolWrite u -> rw_writer (poolMu (ds w)) = WriterInside i) /\ simulates i w ta o x w' t'.

(** The goroutine performs [o]; it is not a write of the pool. *)
Ltac performs := eexists; eexists; split; [reflexivity|]; split; [eassumption|]; split; [intros ?; discriminate|].

(** Taking apart the step of a program whose first operation is known. *)
Ltac step_of Ht Hst :=
  let kk := fresh "kk" in let x := fresh "x" in let Hk := fresh "Hk" in let Hp := fresh "Hp" in
  destruct Ht as (kk & -> & Hk); destruct Hst as (x & -> & Hp & ->); specialize (Hk x).

Section Simulation.
Context (i : tid) (w : world) (l : label) (w' : world) (t' : go unit).

(** The first operation of a method. *)
Lemma call_begins c k ta t : (forall r, structured (k r)) -> peq (method c k) ta -> peq (shape c k) t ->
  thread_step i w t l w' t' -> moves i w ta l w' t'.
Proof.
  intros Hk0 Hm Ht Hst.
  assert (Hlock : forall f, peq (Op OPoolRLock f) t -> exists x kk, t = Op OPoolRLock kk /\ l = LOp i (Ev OPoolRLock x) /\
    perform i OPoolRLock w x = Some w' /\ t' = kk x /\ peq (f x) (kk x) /\ unlocked w' = unlocked w /\
    (0 < reads i w')%nat).
  { intros f (kk & -> & Hk). destruct Hst as (x & -> & Hp & ->). exists x, kk.
    destruct (rlock_inv _ _ _ _ Hp) as (Hu & Hr & _). rewrite Hr. by repeat split; [..|lia]. }
  destruct c as [u| | | |d| |]; cbn [shape] in Ht.
  - step_of Ht Hst. performs. left. split; [done|]. split; [by eapply announce_inv|]. eapply p_acquire; eauto.
  - destruct (Hlock _ Ht) as (x & kk & -> & -> & Hp & -> & Hk & Hu & Hr). performs. left.
    split; [done|]. split; [done|]. by eapply p_get_again.
  - destruct (Hlock _ Ht) as (x & kk & -> & -> & Hp & -> & Hk & Hu & Hr). performs. left.
    split; [done|]. split; [done|]. by eapply (p_body i w' CHasSynced k).
  - destruct (Hlock _ Ht) as (x & kk & -> & -> & Hp & -> & Hk & Hu & Hr). performs. right. left.
    split; [done|]. exists CGetTicker, k. do 2 eexists. split; [done|]. split; [reflexivity|].
    split; [by rewrite Hu|]. by apply p_leave.
  - destruct (Hlock _ Ht) as (x & kk & -> & -> & Hp & -> & Hk & Hu & Hr). cbn in Hk. performs.
    destruct (d <=? 0) eqn:Hd.
    + right. left. split; [done|]. exists (CReset d), k. do 2 eexists. split; [done|].
      split; [cbn; rewrite Hd; reflexivity|]. split; [by rewrite Hu|]. by apply p_leave.
    + left. split; [done|]. split; [done|]. eapply (p_body i w' (CReset d) k); [done|done| |done|exact Hk].
      cbn. by rewrite Hd.
  - destruct (Hlock _ Ht) as (x & kk & -> & -> & Hp & -> & Hk & Hu & Hr). performs. left.
    split; [done|]. split; [done|]. by eapply (p_body i w' CStop k).
  - step_of Ht Hst. performs. left. split; [done|]. split; [by eapply announce_inv|]. eapply p_acquire; eauto.
Qed.

Lemma out_moves t ta : structured ta -> peq ta t -> thread_step i w t l w' t' -> moves i w ta l w' t'.
Proof.
  intros Hs Ht Hst. destruct Hs as [a|m|o k Ho Hk|c k p Hk Hm].
  - by rewrite Ht in Hst.
  - by rewrite Ht in Hst.
  - destruct Ht as (kk & -> & Hkk). destruct Hst as (x & -> & Hp & ->). exists o, x.
    split; [done|]. split; [done|]. split; [intros u ->; discriminate Ho|]. right. right. split; [done|].
    exists k. split; [done|]. by apply p_out.
  - eapply call_begins; [exact Hk|exact Hm| |exact Hst].
    eapply peq_trans; [apply shape_method|]. by eapply peq_trans.
Qed.

(** The one thing a method does under the read lock. *)
Lemma body_moves c k b t ta : (forall r, structured (k r)) -> peq (method c k) ta -> body c k = Some b ->
  (0 < reads i w)%nat -> peq b t -> thread_step i w t l w' t' -> moves i w ta l w' t'.
Proof.
  intros Hk0 Hm Hb Hr Ht Hst. destruct c as [u| | | |d| |]; cbn in Hb; simplify_eq.
  - step_of Ht Hst. performs. apply read_inv in Hp as [-> ->]. right. left. split; [done|].
    exists CHasSynced, k. do 2 eexists. split; [done|]. split; [reflexivity|]. split; [done|]. by apply p_leave.
  - destruct (d <=? 0) eqn:Hd; simplify_eq. step_of Ht Hst. performs. injection Hp as <-. right. left. split; [done|].
    exists (CReset d), k. do 2 eexists. split; [done|]. split; [cbn; rewrite Hd; reflexivity|].
    split; [done|]. by apply p_leave.
  - step_of Ht Hst. performs. injection Hp as <-. right. left. split; [done|].
    exists CStop, k. do 2 eexists. split; [done|]. split; [reflexivity|]. split; [done|]. by apply p_leave.
Qed.

Lemma write_moves c u k t ta : (forall r, structured (k r)) -> peq (method c k) ta -> c = CSet u \/ (c = CClear /\ u = None) ->
  rw_writer (poolMu (ds w)) = WriterInside i -> peq (set_write u k) t -> thread_step i w t l w' t' -> moves i w ta l w' t'.
Proof.
  intros Hk0 Hm Hc Hw Ht Hst. step_of Ht Hst. exists (OPoolWrite u), x. split; [done|]. split; [done|]. split; [done|].
  injection Hp as <-. right. left. split; [done|].
  exists c, k, (Done RUnit), (Abs u (ds_ticker (ds w))). split; [done|].
  split; [by destruct Hc as [->|[-> ->]]|]. split; [done|]. by apply p_unlock.
Qed.

Lemma thread_sim t ta : at_pos i w t ta -> thread_step i w t l w' t' -> moves i w ta l w' t'.
Proof.
  intros Hat Hst. destruct Hat as [t ta Hs Ht|c k b t ta Hk0 Hm Hb Hr Ht|t ta Hs Hr Ht|k t ta Hk0 Hm Hr Ht|
    k t ta Hk0 Hm Hr Ht|k t Hk0 Hr Ht|k p t Hk0 Hr Hpl Ht|c u k t ta Hk0 Hm Hc Ht|c u k t ta Hk0 Hm Hc Hw Ht|t ta Hs Hw Ht].
  - by eapply out_moves.
  - by eapply body_moves.
  - step_of Ht Hst. performs. left. split; [done|]. destruct (runlock_inv _ _ _ _ Hp) as (Hu & _). split; [done|].
    by apply p_out.
  - step_of Ht Hst. performs. left. split; [done|]. destruct (rlock_inv _ _ _ _ Hp) as (Hu & Hr' & _). split; [done|].
    eapply p_get_first; [done|done|lia|done].
  - step_of Ht Hst. performs. apply read_inv in Hp as [-> ->]. right. left. split; [done|].
    exists CGet, k. do 2 eexists. split; [done|]. split; [reflexivity|]. split; [done|]. by apply p_get_checked.
  - step_of Ht Hst. performs. left. split; [done|]. destruct (runlock_inv _ _ _ _ Hp) as (Hu & Hr' & Hpl).
    split; [done|]. revert Hk Hpl. destruct (pool (ds w)) as [p|]; cbn; intros Hk Hpl.
    + apply p_get_last; [done|lia|done|done].
    + apply p_leave; [done|lia|done].
  - step_of Ht Hst. performs. apply read_inv in Hp as [-> ->]. left. split; [done|]. split; [done|].
    apply p_leave; [apply Hk0|done|]. by rewrite Hpl in Hk |- *.
  - step_of Ht Hst. performs. left. split; [done|]. destruct (acquire_inv _ _ _ _ Hp) as [Hu Hw]. split; [done|].
    by eapply p_write.
  - by eapply write_moves.
  - step_of Ht Hst. performs. left. split; [done|]. split; [by eapply unlock_inv|]. by apply p_out.
Qed.

End Simulation.

(** The states of the two machines. *)
Definition in_step (w : world) (ts tsa : list (go unit)) : Prop :=
  PoolRead.Inv w /\ length tsa = length ts /\
  forall j t ta, ts !! j = Some t -> tsa !! j = Some ta -> at_pos j w t ta.

Definition corresponds (c a : proc) : Prop :=
  match c, a with
  | Running w ts, Running wa tsa => wa = unlocked w /\ in_step w ts tsa
  | Crashed m, Crashed m' => m' = m
  | _, _ => False
  end.

Lemma in_step_insert i w ts tsa w' t' ta' : in_step w ts tsa -> PoolRead.Inv w' ->
  (forall j, j <> i -> undisturbed j w w') -> at_pos i w' t' ta' -> (i < length ts)%nat ->
  in_step w' (<[i := t']> ts) (<[i := ta']> tsa).
Proof.
  intros (_ & Hlen & Hts) HI' Hun Hat Hi. split; [done|]. split; [by rewrite !length_insert|].
  intros j t ta Hj Hja. destruct (decide (j = i)) as [->|Hne].
  - rewrite list_lookup_insert_eq in Hj by done. rewrite list_lookup_insert_eq in Hja by by rewrite Hlen.
    by simplify_eq.
  - rewrite list_lookup_insert_ne in Hj, Hja by done. eapply at_pos_undisturbed; [by apply Hun|by apply Hts].
Qed.

(** A goroutine that has ended or panics is not in a call. *)
Definition is_op (t : go unit) : bool := match t with Op _ _ => true | _ => false end.

Lemma peq_leaf (t ta : go unit) : is_op t = false -> peq ta t -> ta = t.
Proof. intros Hl Ht%peq_sym. by destruct t. Qed.

Lemma at_pos_leaf i w t ta : is_op t = false -> at_pos i w t ta -> ta = t.
Proof.
  intros Hl Hat.
  assert (Hop : forall o f, peq (Op o f) t -> ta = t) by (intros o f (k' & -> & _); discriminate Hl).
  destruct Hat as [t ta Hs Ht|c k b t ta ? ? Hb ? Ht| | | | | | | |]; try by eapply Hop.
  - by apply peq_leaf.
  - destruct c as [| | | |d| |]; cbn in Hb; simplify_eq; [by eapply Hop| |by eapply Hop].
    destruct (d <=? 0); simplify_eq. by eapply Hop.
Qed.

Lemma astep_thread i w ts tsa l w' t' ta : in_step w ts tsa -> tsa !! i = Some ta -> (i < length ts)%nat ->
  moves i w ta l w' t' ->
  exists als a, asteps (Running (unlocked w) tsa) als a /\ linearizes [l] als /\ corresponds (Running w' (<[i := t']> ts)) a.
Proof.
  intros Hin Ha Hi (o & x & -> & Hp & Hwr & Hsim).
  destruct (perform_undisturbed _ _ _ _ _ Hwr (proj1 Hin) Hp) as [HI' Hun].
  destruct Hsim as [(Ho & Hu & Hat)|[(Ho & c & k & r & s & Hm & Hs & Hu & Hat)|(Ho & k & -> & Hat)]].
  - exists [], (Running (unlocked w) tsa). split; [constructor|]. split; [apply l_silent; [done|constructor]|].
    split; [done|]. rewrite <- (list_insert_id tsa i ta) by done. by eapply in_step_insert.
  - exists [ACall i c r], (Running (set_abs (unlocked w) s) (<[i := k r]> tsa)).
    split; [eapply as_step; [by eapply a_call|constructor]|]. split; [apply l_point; [done|constructor]|].
    split; [done|]. by eapply in_step_insert.
  - exists [ALabel (LOp i (Ev o x))], (Running (unlocked w') (<[i := k x]> tsa)).
    split; [eapply as_step; [eapply a_op; [done|done|by apply outside_perform]|constructor]|].
    split; [apply l_same; [by intros j e [= -> <-]|constructor]|].
    split; [done|]. by eapply in_step_insert.
Qed.

Lemma sim_step c l c' a : corresponds c a -> step c l c' ->
  exists als a', asteps a als a' /\ linearizes [l] als /\ corresponds c' a'.
Proof.
  intros Hc Hst. destruct c as [w ts|m]; [|inversion Hst]. destruct a as [wa tsa|m]; [|done]. destruct Hc as [-> Hin].
  inversion Hst as [i w0 ts0 t l0 w' t' Hi Ht|w0 ts0 d Hd|w0 ts0|i w0 ts0 m Hi]; subst.
  - assert (Hlt : (i < length ts)%nat) by by eapply lookup_lt_Some.
    destruct (lookup_lt_is_Some_2 tsa i) as [ta Hta]; [by rewrite (proj1 (proj2 Hin))|].
    eapply astep_thread; [done|done|done|]. eapply thread_sim; [by apply (proj2 (proj2 Hin))|done].
  - exists [ALabel (LTime d)]. eexists. split; [eapply as_step; [by apply a_time|constructor]|].
    split; [apply l_same; [done|constructor]|]. split; [done|]. destruct Hin as (HI & Hlen & Hts). split; [done|]. split; [done|].
    intros j t ta Hj Hja. eapply at_pos_undisturbed; [|by apply Hts]. done.
  - exists [ALabel LCancel]. eexists. split; [eapply as_step; [by apply a_cancel|constructor]|].
    split; [apply l_same; [done|constructor]|]. split; [done|]. destruct Hin as (HI & Hlen & Hts). split; [done|]. split; [done|].
    intros j t ta Hj Hja. eapply at_pos_undisturbed; [|by apply Hts]. done.
  - destruct (lookup_lt_is_Some_2 tsa i) as [ta Hta]; [rewrite (proj1 (proj2 Hin)); by eapply lookup_lt_Some|].
    pose proof (at_pos_leaf _ _ (Panic m) _ eq_refl (proj2 (proj2 Hin) _ _ _ Hi Hta)) as ->.
    exists [ALabel (LPanic i)], (Crashed m). split; [eapply as_step; [by apply a_panic|constructor]|].
    split; [apply l_same; [done|constructor]|done].
Qed.

Lemma asteps_app c ls c' ls' c'' : asteps c ls c' -> asteps c' ls' c'' -> asteps c (ls ++ ls') c''.
Proof. induction 1; simpl; eauto using asteps. Qed.

Lemma linearizes_app ls als ls' als' : linearizes ls als -> linearizes ls' als' -> linearizes (ls ++ ls') (als ++ als').
Proof. induction 1; simpl; eauto using linearizes. Qed.

Lemma sim_steps c ls c' : steps c ls c' -> forall a, corresponds c a ->
  exists als a', asteps a als a' /\ linearizes ls als /\ corresponds c' a'.
Proof.
  induction 1 as [c|c l c1 ls c2 Hst Hr IH]; intros a Hc.
  - exists [], a. split; [constructor|]. split; [constructor|done].
  - destruct (sim_step _ _ _ _ Hc Hst) as (als & a1 & Ha & Hl & Hc1). destruct (IH _ Hc1) as (als' & a2 & Ha' & Hl' & Hc2).
    exists (als ++ als'), a2. split; [by eapply asteps_app|]. split; [by apply (linearizes_app [l])|done].
Qed.

(** ** The goroutines use the methods *)

Lemma structured_bind {A B} (p : go A) (f : A -> go B) :
  structured p -> (forall a, structured (f a)) -> structured (bind p f).
Proof.
  intros Hp Hf. induction Hp as [a|m|o k Ho _ IH|c k p _ IH Hm]; cbn; [done|by constructor|by constructor|].
  apply (s_call c (fun r => bind (k r) f)); [done|]. eapply peq_trans; [apply bind_catch|]. by apply bind_peq.
Qed.

Lemma structured_defer {A} (f : go unit) (p : go A) : structured p -> structured f -> structured (defer f p).
Proof.
  intros Hp Hf. induction Hp as [a|m|o k Ho _ IH|c k p _ IH Hm]; cbn.
  - apply structured_bind; [done|]. intros; constructor.
  - apply structured_bind; [done|]. intros; constructor.
  - by constructor.
  - apply (s_call c (fun r => defer f (k r))); [done|]. eapply peq_trans; [apply defer_catch|]. by apply defer_peq.
Qed.

#[local] Instance structured_logic : Logic (@structured).
Proof. split; [constructor|intros; by apply structured_bind|intros; by apply structured_defer]. Qed.

Lemma structured_uses {A} (p : go A) : uses (fun o => negb (inside o)) p -> structured p.
Proof.
  induction p as [a|m|o k IH]; [constructor..|]. intros [Ho Hk]. constructor; [by destruct (inside o)|auto].
Qed.

(** A method is a call. *)
Ltac is_call c k :=
  apply (s_call c k); [intros [[]|]; constructor|]; cbn; unfold TickerReset;
  repeat (eexists; split; [reflexivity|intros ?; cbn]); try done.

Lemma structured_PoolGet : structured PoolGet.
Proof.
  is_call CGet (fun r => match r return go (option v1.InferencePool * option error) with
    | Done (RGet p e) => Ret (p, e) | Done _ => Ret (None, None) | Crash m => Panic m end).
  match goal with p : option _ |- _ => destruct p end; cbn; repeat (eexists; split; [reflexivity|intros ?; cbn]); done.
Qed.

Lemma structured_PoolHasSynced : structured PoolHasSynced.
Proof. is_call CHasSynced (fun r => match r return go bool with Done (RBool b) => Ret b | Done _ => Ret true | Crash m => Panic m end). Qed.

Definition done_unit (r : outcome reply) : go unit := match r with Done _ => Ret tt | Crash m => Panic m end.

Lemma structured_PoolSet u : structured (PoolSet u).
Proof. is_call (CSet u) done_unit. by match goal with |- Ret ?x = Ret _ => destruct x end. Qed.

Lemma structured_ResetTicker d : structured (ResetTicker d).
Proof.
  is_call (CReset d) done_unit. destruct (d <=? 0); cbn; repeat (eexists; split; [reflexivity|intros ?; cbn]); [done|].
  by match goal with |- Ret ?x = Ret _ => destruct x end.
Qed.

Lemma structured_GetTicker : structured GetTicker.
Proof. is_call CGetTicker done_unit. Qed.

Lemma structured_StopTicker : structured StopTicker.
Proof. is_call CStop done_unit. by match goal with |- Ret ?x = Ret _ => destruct x end. Qed.

Lemma structured_external o : external o = true -> structured (eff o).
Proof. intros Ho. apply structured_uses. by destruct o. Qed.

#[local] Instance structured_sections : Sections (@structured).
Proof. apply (plain_sections structured_ResetTicker); [intros o Ho _; by apply structured_external|constructor]. Qed.

#[local] Instance structured_more_sections : MoreSections (@structured).
Proof.
  apply (plain_more_sections structured_ResetTicker); [intros o Ho _; by apply structured_external| |
    apply structured_PoolHasSynced|apply structured_GetTicker|apply structured_StopTicker|].
  - intros B f Hf. apply structured_bind; [apply structured_PoolGet|]. intros [p e]. apply Hf. constructor.
  - apply structured_uses. eapply uses_mono; [|apply isScalingUp_uses]. ops_sub.
Qed.

#[local] Instance structured_pool_writes : PoolWrites (@structured).
Proof. split. apply structured_PoolSet. Qed.

Section Goroutines.
Context `{K8s : Kubernetes} `{EU : ErrUtil} `{GS : GrpcStatus} `{Wait : WaitPkg} {WL : WaitPkgLaws} `{EP : ExtProcDesc}.

Lemma structured_scaleInferencePool ns d gr gvr : numReplicas d = 1 -> structured (scaleInferencePool ns d gr gvr).
Proof.
  intros Hd. rewrite scaleInferencePool_body. apply structured_bind.
  - apply structured_uses. eapply uses_mono; [|apply beginScalingUp_uses]. ops_sub.
  - intros _. apply structured_defer; [by apply scale_body_ok|].
    apply structured_uses. eapply uses_mono; [|apply endScalingUp_uses]. ops_sub.
Qed.

Lemma goroutine_structured t : goroutine t -> structured t.
Proof.
  apply (goroutine_ok (ok := @structured)); [constructor|intros; by apply structured_external|
    by apply elected_ok, structured_external|apply structured_scaleInferencePool].
Qed.

(** C14.  The datastore is linearizable.  Every run of any goroutines of the
    process, from the initial state, is matched by a run of the machine in
    which a call of a method of the datastore is one step on two plain
    variables.  The two runs have the same steps outside the datastore, in the
    same order; each call takes its one step at an operation of its own, so
    between its beginning and its end; and they reach the same state, up to
    the lock, with the same goroutines ended, or the same crash.  So nothing
    that the goroutines do or see depends on how the methods are
    interleaved. *)
Theorem datastore_is_linearizable t0 ts ls c :
  Forall goroutine ts -> steps (Running (init_world t0) ts) ls c ->
  exists als a, asteps (Running (init_world t0) ts) als a /\ linearizes ls als /\
    match c, a with
    | Running w ts', Running wa tsa =>
        wa = unlocked w /\ length tsa = length ts' /\
        (forall i, ts' !! i = Some (Ret tt) -> tsa !! i = Some (Ret tt))
    | Crashed m, Crashed m' => m' = m
    | _, _ => False
    end.
Proof.
  intros Hts Hs. destruct (sim_steps _ _ _ Hs (Running (init_world t0) ts)) as (als & a & Ha & Hl & Hc).
  { split; [done|]. split; [done|]. split; [done|]. intros j t ta Hj Hja. assert (ta = t) as -> by congruence.
    apply p_out; [|apply peq_refl]. by apply goroutine_structured, (Forall_lookup_1 _ _ _ _ Hts Hj). }
  exists als, a. split; [done|]. split; [done|]. destruct c as [w ts'|m], a as [wa tsa|m']; [|done..].
  destruct Hc as (-> & _ & Hlen & Hat). split; [done|]. split; [done|]. intros i Hi.
  destruct (lookup_lt_is_Some_2 tsa i) as [ta Hta]; [rewrite Hlen; by eapply lookup_lt_Some|].
  rewrite Hta. f_equal. exact (at_pos_leaf _ _ (Ret tt) _ eq_refl (Hat _ _ _ Hi Hta)).
Qed.

End Goroutines.

(** A request is inside [PoolGet] when the reconciler asks to clear the pool
    and a health check begins. *)
Definition mixed : list sched :=
  burst PoolRead.set_env 1 5 ++ burst PoolRead.set_env 0 6 ++ burst PoolRead.gone_env 1 1 ++
  burst PoolRead.set_env 2 3 ++ burst PoolRead.gone_env 1 1 ++ burst PoolRead.set_env 0 2.

Definition mixed_process : list (go unit) := [demo_stream 1; demo_reconciler [demo_nn; demo_nn]; demo_check].

Lemma datastore_is_linearizable_witness :
  exists als a, asteps (Running (init_world 0) mixed_process) als a /\
    linearizes (run_labels mixed (Running (init_world 0) mixed_process)) als.
Proof.
  assert (Hv : is_nil (run_sched mixed (Running (init_world 0) mixed_process)) = false) by (vm_compute; reflexivity).
  destruct (run_sched mixed (Running (init_world 0) mixed_process)) as [c|] eqn:Hc; [|discriminate Hv].
  destruct (@datastore_is_linearizable demo_k8s demo_errutil demo_status ref_wait ref_wait_laws demo_desc 0
    mixed_process (run_labels mixed (Running (init_world 0) mixed_process)) c ltac:(repeat constructor)
    (run_sched_steps _ _ _ Hc)) as (als & a & Ha & Hl & _).
  exists als, a. split; [exact Ha|exact Hl].
Defined.
