(* ===== verification/Manager.v ===== *)
(** * pkg/activator/server/controller_manager.go

    The options of the controller manager: which objects its cache holds, and
    the lease of the leader election. *)

From S2P Require Import Prelude GoTime Prog Effects Instances Controller.
#[local] Open Scope go_scope.

(** The object types that key [cache.Options.ByObject]. *)
Inductive cached_type := CachedPod | CachedInferenceObjective | CachedPool (k : object_kind).

#[export] Instance cached_type_eq_dec : EqDecision cached_type.
Proof. solve_decision. Defined.

(** *** The scheme *)

(** The packages whose types are registered in [scheme]. *)
Inductive scheme_builder := clientgoscheme | v1alpha2_Install | v1_Install.

#[export] Instance scheme_builder_eq_dec : EqDecision scheme_builder.
Proof. solve_decision. Defined.

(** [func init()]: the package-level [scheme] after the three calls. *)
Definition scheme : list scheme_builder := [clientgoscheme; v1alpha2_Install; v1_Install].

(** [AddToScheme] and [Install] of these packages: the types they register. *)
Class SchemeLib := { registers : scheme_builder -> cached_type -> bool }.

(** A package registers the types it declares. *)
Class SchemeLibLaws `{SchemeLib} : Prop := {
  clientgoscheme_pods : registers clientgoscheme CachedPod = true;
  v1alpha2_objectives : registers v1alpha2_Install CachedInferenceObjective = true;
  v1alpha2_pools : registers v1alpha2_Install (CachedPool KindV1alpha2) = true;
  v1_pools : registers v1_Install (CachedPool KindV1) = true
}.

(** *** The options *)

(** [cache.Config]: the field selector, as the set it is made of. *)
Record cache_Config := MkCacheConfig { FieldSelector : gmap string string }.

#[export] Instance cache_Config_eq_dec : EqDecision cache_Config.
Proof. solve_decision. Defined.

(** [cache.ByObject]: the namespaces with their configuration. *)
Definition cache_ByObject := gmap string cache_Config.

(** [ctrl.Options], as far as the sources set it; [M] are the options of the
    metrics server. *)
Record Options (M : Type) := MkOptions {
  Scheme : list scheme_builder;
  ByObject : list (cached_type * cache_ByObject);
  Metrics : option M;
  opt_LeaderElection : bool;
  LeaderElectionResourceLock : string;
  LeaderElectionID : string;
  LeaderElectionNamespace : string;
  LeaderElectionReleaseOnCancel : bool
}.
#[export] Instance Options_eq_dec {M} `{EqDecision M} : EqDecision (Options M).
Proof. unfold cache_ByObject in *. solve_decision. Defined.
Arguments MkOptions {M} _ _ _ _ _ _ _ _.
Arguments Scheme {M} _.
Arguments ByObject {M} _.
Arguments Metrics {M} _.
Arguments opt_LeaderElection {M} _.
Arguments LeaderElectionResourceLock {M} _.
Arguments LeaderElectionID {M} _.
Arguments LeaderElectionNamespace {M} _.
Arguments LeaderElectionReleaseOnCancel {M} _.

Section Manager.
Context `{K8s : Kubernetes} {M : Type}.

(** The whole namespace, and one name in it. *)
Definition whole_namespace (gknn : GKNN) : cache_ByObject :=
  {[ nn_Namespace (gknn_nn gknn) := MkCacheConfig ∅ ]}.
Definition one_name (gknn : GKNN) : cache_ByObject :=
  {[ nn_Namespace (gknn_nn gknn) := MkCacheConfig {[ "metadata.name"%string := nn_Name (gknn_nn gknn) ]} ]}.

Definition defaultManagerOptions (gknn : GKNN) (metricsServerOptions : M) : res (Options M) :=
  let opt more := MkOptions scheme
    ([(CachedPod, whole_namespace gknn); (CachedInferenceObjective, whole_namespace gknn)] ++ more)
    (Some metricsServerOptions) false "" "" "" false in
  let group := gk_Group (gknn_gk gknn) in
  if String.eqb group v1alpha2_GroupName then Ok (opt [(CachedPool KindV1alpha2, one_name gknn)])
  else if String.eqb group v1_GroupName then Ok (opt [(CachedPool KindV1, one_name gknn)])
  else Err (ENew ("unknown group: " +:+ group)).

(** [fmt.Sprintf("epp-%s-%s.gateway-api-inference-extension.sigs.k8s.io", ...)] *)
Definition lease_ID (gknn : GKNN) : string :=
  "epp-" +:+ nn_Namespace (gknn_nn gknn) +:+ "-" +:+ nn_Name (gknn_nn gknn) +:+
  ".gateway-api-inference-extension.sigs.k8s.io".

Definition with_leader_election (gknn : GKNN) (opt : Options M) : Options M :=
  MkOptions (Scheme opt) (ByObject opt) (Metrics opt) true "leases" (lease_ID gknn) (nn_Namespace (gknn_nn gknn)) true.

(** The options [NewDefaultManager] creates the manager with. *)
Definition manager_options (gknn : GKNN) (metricsServerOptions : M) (leaderElectionEnabled : bool) :
    res (Options M) :=
  match defaultManagerOptions gknn metricsServerOptions with
  | Err err => Err err
  | Ok opt => Ok (if leaderElectionEnabled then with_leader_election gknn opt else opt)
  end.

(** ** The cache *)

Lemma defaultManagerOptions_kind gknn m : v1_GroupName <> v1alpha2_GroupName ->
  defaultManagerOptions gknn m =
  match object_for_group (gk_Group (gknn_gk gknn)) with
  | Ok kind => Ok (MkOptions scheme
      [(CachedPod, whole_namespace gknn); (CachedInferenceObjective, whole_namespace gknn);
       (CachedPool kind, one_name gknn)] (Some m) false "" "" "" false)
  | Err _ => Err (ENew ("unknown group: " +:+ gk_Group (gknn_gk gknn)))
  end.
Proof.
  intros Hne. unfold defaultManagerOptions, object_for_group.
  destruct (String.eqb_spec (gk_Group (gknn_gk gknn)) v1alpha2_GroupName),
    (String.eqb_spec (gk_Group (gknn_gk gknn)) v1_GroupName); try congruence; done.
Qed.

(** C37.  The cache serves the reconciler.  Options are made exactly for the
    groups the reconciler supports; they cache pools of exactly the type the
    reconciler fetches, restricted to the pool's own namespace and name; every
    type they cache is registered in their scheme;
    leader election, and releasing the lease on shutdown, are requested
    exactly when enabled. *)
Theorem cache_serves_reconciler `{SLib : SchemeLib} {SLaws : SchemeLibLaws} gknn m le :
  v1_GroupName <> v1alpha2_GroupName ->
  (is_Ok (manager_options gknn m le) = is_Ok (object_for_group (gk_Group (gknn_gk gknn)))) /\
  (forall opt kind, manager_options gknn m le = Ok opt ->
     object_for_group (gk_Group (gknn_gk gknn)) = Ok kind ->
     opt_LeaderElection opt = le /\ LeaderElectionReleaseOnCancel opt = le /\ Metrics opt = Some m /\
     (forall k c, (CachedPool k, c) ∈ ByObject opt <-> k = kind /\ c = one_name gknn) /\
     (forall t c, (t, c) ∈ ByObject opt -> exists b, b ∈ Scheme opt /\ registers b t = true)) /\
  (forall ns cfg, one_name gknn !! ns = Some cfg ->
     ns = nn_Namespace (gknn_nn gknn) /\
     FieldSelector cfg = {[ "metadata.name"%string := nn_Name (gknn_nn gknn) ]}).
Proof.
  intros Hne. unfold manager_options. rewrite (defaultManagerOptions_kind gknn m Hne). split; [|split].
  - by destruct (object_for_group _).
  - intros opt kind Ho Hk. rewrite Hk in Ho. injection Ho as <-. do 3 (split; [by destruct le|]).
    set (opt := if le then _ else _). replace (ByObject opt) with [(CachedPod, whole_namespace gknn);
      (CachedInferenceObjective, whole_namespace gknn); (CachedPool kind, one_name gknn)] by (by destruct le).
    replace (Scheme opt) with scheme by (by destruct le). split.
    + intros k c. rewrite !elem_of_cons. split; [|naive_solver].
      intros [H|[H|[H|H]]]; [done..|by simplify_eq|by apply not_elem_of_nil in H].
    + intros t c _. destruct t as [| |[]]; unfold scheme.
      * exists clientgoscheme. split; [set_solver|apply clientgoscheme_pods].
      * exists v1alpha2_Install. split; [set_solver|apply v1alpha2_objectives].
      * exists v1_Install. split; [set_solver|apply v1_pools].
      * exists v1alpha2_Install. split; [set_solver|apply v1alpha2_pools].
  - intros ns cfg H. unfold one_name in H. apply lookup_singleton_Some in H as [<- <-]. done.
Qed.

(** ** The lease *)

(** The lease.  Two pools compete for the same lease (the same name in
    the same namespace) only if they have the same namespace and name.  The
    lease name alone does not determine the pool: "a-b"/"c" and "a"/"b-c" get
    the same one, so its uniqueness rests on the lease's namespace. *)
Theorem lease_identifies_pool (g1 g2 : GKNN) (o1 o2 : Options M) :
  (LeaderElectionNamespace (with_leader_election g1 o1) = LeaderElectionNamespace (with_leader_election g2 o2) ->
   LeaderElectionID (with_leader_election g1 o1) = LeaderElectionID (with_leader_election g2 o2) ->
   gknn_nn g1 = gknn_nn g2) /\
  lease_ID (MkGKNN (MkNN "a-b" "c") (gknn_gk g1)) = lease_ID (MkGKNN (MkNN "a" "b-c") (gknn_gk g2)).
Proof.
  split; [|done]. cbn. unfold lease_ID. intros Hns H.
  destruct g1 as [[ns1 n1] k1], g2 as [[ns2 n2] k2]. cbn in *. subst ns2. f_equal.
  do 3 apply string_app_inj_prefix in H. by apply string_app_inj_suffix in H.
Qed.

End Manager.

(** ** Concrete managers *)

(** Each package registers its own types and no others. *)
Definition demo_scheme_lib : SchemeLib := {|
  registers b t :=
    match b, t with
    | clientgoscheme, CachedPod | v1alpha2_Install, CachedInferenceObjective
    | v1alpha2_Install, CachedPool KindV1alpha2 | v1_Install, CachedPool KindV1 => true
    | _, _ => false
    end
|}.

Lemma demo_scheme_lib_laws : @SchemeLibLaws demo_scheme_lib.
Proof. by split. Qed.

Lemma cache_serves_reconciler_witness :
  exists opt, @manager_options demo_k8s unit demo_gknn tt true = Ok opt /\
    (CachedPool KindV1, one_name demo_gknn) ∈ ByObject opt.
Proof.
  eexists. split; [reflexivity|].
  apply (proj1 (proj2 (@cache_serves_reconciler demo_k8s unit demo_scheme_lib demo_scheme_lib_laws demo_gknn tt true ltac:(discriminate))) _ KindV1
    eq_refl eq_refl). split; reflexivity.
Defined.

Lemma lease_identifies_pool_witness :
  gknn_nn demo_gknn = gknn_nn (MkGKNN (MkNN "llm-d-sim" "gaie-sim") (MkGK "g" "k")).
Proof.
  apply (@lease_identifies_pool unit demo_gknn (MkGKNN (MkNN "llm-d-sim" "gaie-sim") (MkGK "g" "k"))
    (MkOptions [] [] None false "" "" "" false) (MkOptions [] [] None false "" "" "" false)); reflexivity.
Defined.
