(* ===== verification/Startup.v ===== *)
(** * Operations of the start-up code

    The code that builds and starts the process (packages tls, runnable,
    server and runner) acts through another set of operations than the
    goroutines of file Machine: clients, certificates, listeners, servers and
    the controller manager.  [sop] is their signature; [go_s A] are the
    programs over it. *)

From stdpp Require Import pretty.
From S2P Require Import Prelude GoTime Prog Effects Controller Manager.

(** [metricsserver.Options], as [Run] fills it. *)
Record metrics_Options := MkMetrics { BindAddress : string; WithAuthenticationAndAuthorization : bool }.

#[export] Instance metrics_Options_eq_dec : EqDecision metrics_Options.
Proof. solve_decision. Defined.

(** ** Certificates *)

Definition Key := Z.
Inductive PublicKey := PublicKey_of (priv : Key).
Definition Certificate := Z.

(** [x509.Certificate], as the template sets it.  Instants and durations are
    in nanoseconds. *)
Record Template := MkTemplate {
  SerialNumber : Z;
  Organization : list string;
  NotBefore : Z;
  NotAfter : Z;
  KeyUsage : Z;
  ExtKeyUsage : list Z;
  BasicConstraintsValid : bool
}.

(** ** Runnables *)

(** [server.ExtProcServerRunner]; the datastore and the activator are those
    of the process. *)
Record ExtProcServerRunner := MkRunner {
  GrpcPort : Z;
  PoolNamespacedName : NamespacedName;
  PoolGKNN : GKNN;
  SecureServing : bool;
  HealthChecking : bool;
  CertPath : string;
  RefreshPrometheusMetricsInterval : Duration;
  MetricsStalenessThreshold : Duration
}.

#[export] Instance ExtProcServerRunner_eq_dec : EqDecision ExtProcServerRunner.
Proof. solve_decision. Defined.

(** The functions that become runnables of the manager. *)
Inductive runnable_func :=
| HealthServer (leaderElectionEnabled : bool) (port : Z)
| ExtProcServer (runner : ExtProcServerRunner).

(** [runnable.leaderElection] *)
Record leaderElection := MkLeaderElection { le_Runnable : runnable_func; needsLeaderElection : bool }.

(** ** Operations *)

(** The goroutines [Run] starts, and the one of a gRPC server. *)
Inductive spawned := Deactivator_goroutine | Elected_goroutine | Shutdown_goroutine.

Inductive done_or_ctx := DoneCh | CtxDone.

Inductive sop :=
(* package tls *)
| SRandInt (max : Z) | STimeNow | SGenerateKey (bits : Z)
| SCreateCertificate (template parent : Template) (pub : PublicKey) (priv : Key)
| SMarshalPKCS8PrivateKey (priv : Key)
| SX509KeyPair (certBytes keyBytes : string)
| SLoadX509KeyPair (certFile keyFile : string)
(* gRPC servers *)
| SNewServer (creds : option Certificate)
| SRegisterExternalProcessor | SRegisterHealth | SSetServingStatus (service : string)
| SListen (port : Z) | SServe | SGracefulStop
| SMakeDoneCh | SCloseDoneCh | SSelectDone
| SSpawn (g : spawned)
(* runner.Run *)
| SSetLogger (level : option Z)
| SGetConfig | SNewDatastore | SNewDiscoveryClient | SNewDynamicClient
| SGetenv (name : string)
| SLeaderStore (b : bool)
| SNewManager (opts : Options metrics_Options)
| SControllerComplete (kind : object_kind)
| SManagerAdd (r : leaderElection)
| SManagerStart.

Definition sans (o : sop) : Type :=
  match o with
  | SRandInt _ => res Z
  | STimeNow => Z
  | SGenerateKey _ => res Key
  | SCreateCertificate _ _ _ _ => res string
  | SMarshalPKCS8PrivateKey _ => res string
  | SX509KeyPair _ _ => res Certificate
  | SLoadX509KeyPair _ _ => res Certificate
  | SListen _ | SServe | SControllerComplete _ | SManagerAdd _ | SManagerStart => option error
  | SSelectDone => done_or_ctx
  | SGetConfig | SNewDiscoveryClient | SNewDynamicClient | SNewManager _ => option error
  | SGetenv _ => string
  | _ => unit
  end.

Notation "'go_s' A" := (prog sans A) (at level 10, A at next level).
Abbreviation sevt := (event sans).

Definition seff (o : sop) : go_s (sans o) := Op o Ret.

(** An environment in which everything works. *)
Definition fine_answer (o : sop) : sans o :=
  match o return sans o with
  | SRandInt _ => Ok 5
  | STimeNow => 1000
  | SGenerateKey _ => Ok 7
  | SCreateCertificate _ _ _ _ => Ok "der"%string
  | SMarshalPKCS8PrivateKey _ => Ok "pkcs8"%string
  | SX509KeyPair _ _ => Ok 1
  | SLoadX509KeyPair _ _ => Ok 2
  | SListen _ | SServe | SControllerComplete _ | SManagerAdd _ | SManagerStart => None
  | SSelectDone => DoneCh
  | SGetConfig | SNewDiscoveryClient | SNewDynamicClient | SNewManager _ => None
  | SGetenv _ => ""%string
  | _ => tt
  end.
