(* ===== verification/Tls.v ===== *)
(** * pkg/activator/tls/tls.go

    The self-signed certificate of the external-processing server.  The
    cryptography is Go's; what is verified is what the code asks of it. *)

From S2P Require Import Prelude GoTime Prog Effects Controller Manager Startup.
#[local] Open Scope go_scope.

(** [x509.KeyUsageDigitalSignature], [x509.KeyUsageKeyEncipherment],
    [x509.ExtKeyUsageServerAuth] *)
Definition KeyUsageDigitalSignature : Z := Z.shiftl 1 0.
Definition KeyUsageKeyEncipherment : Z := Z.shiftl 1 2.
Definition ExtKeyUsageServerAuth : Z := 1.

(** [pem.EncodeToMemory(&pem.Block{Type: ..., Bytes: ...})], and the text of an
    error as [%v] prints it. *)
Class TlsLib := {
  pem_EncodeToMemory : string -> string -> string;
  ErrorText : error -> string
}.

(** [time.Hour * 24 * 365 * 10] *)
Definition validity : Duration := Hour * 24 * 365 * 10.

Definition serialNumberLimit : Z := Z.shiftl 1 128.

Definition certificate_template (serialNumber now : Z) : Template :=
  MkTemplate serialNumber ["Inference Ext"%string] now (now + validity)
    (Z.lor KeyUsageKeyEncipherment KeyUsageDigitalSignature) [ExtKeyUsageServerAuth] true.

Section Tls.
Context `{TL : TlsLib}.

Definition tls_error (what : string) (err : error) : error := ENew (what +:+ ErrorText err).

Definition CreateSelfSignedTLSCertificate : go_s (res Certificate) :=
  serialNumber <- seff (SRandInt serialNumberLimit) ;;
  match serialNumber with
  | Err err => Ret (Err (tls_error "error creating serial number: " err))
  | Ok serialNumber =>
      now <- seff STimeNow ;;
      let template := certificate_template serialNumber now in
      priv <- seff (SGenerateKey 4096) ;;
      match priv with
      | Err err => Ret (Err (tls_error "error generating key: " err))
      | Ok priv =>
          derBytes <- seff (SCreateCertificate template template (PublicKey_of priv) priv) ;;
          match derBytes with
          | Err err => Ret (Err (tls_error "error creating certificate: " err))
          | Ok derBytes =>
              let certBytes := pem_EncodeToMemory "CERTIFICATE" derBytes in
              privBytes <- seff (SMarshalPKCS8PrivateKey priv) ;;
              match privBytes with
              | Err err => Ret (Err (tls_error "error marshalling private key: " err))
              | Ok privBytes =>
                  let keyBytes := pem_EncodeToMemory "PRIVATE KEY" privBytes in
                  seff (SX509KeyPair certBytes keyBytes)
              end
          end
      end
  end.

(** The runs that produce a certificate. *)
Lemma CreateSelfSigned_exec_Ok tr c :
  exec CreateSelfSignedTLSCertificate tr (Done (Ok c)) <->
  exists serial now priv der pkcs8,
    tr = [Ev (SRandInt serialNumberLimit) (Ok serial); Ev STimeNow now; Ev (SGenerateKey 4096) (Ok priv);
          Ev (SCreateCertificate (certificate_template serial now) (certificate_template serial now)
                (PublicKey_of priv) priv) (Ok der);
          Ev (SMarshalPKCS8PrivateKey priv) (Ok pkcs8);
          Ev (SX509KeyPair (pem_EncodeToMemory "CERTIFICATE" der) (pem_EncodeToMemory "PRIVATE KEY" pkcs8)) (Ok c)].
Proof.
  split.
  - cbn. intros ([serial|e] & t1 & -> & H); [|by destruct H as [_ [=]]]. cbn in H.
    destruct H as (now & t2 & -> & H). destruct H as ([priv|e] & t3 & -> & H); [|by destruct H as [_ [=]]].
    destruct H as ([der|e] & t4 & -> & H); [|by destruct H as [_ [=]]].
    destruct H as ([pk|e] & t5 & -> & H); [|by destruct H as [_ [=]]].
    destruct H as (x & t6 & -> & -> & [= ->]). eauto 10.
  - intros (serial & now & priv & der & pkcs8 & ->). cbn.
    repeat (eexists; eexists; split; [reflexivity|cbn]). done.
Qed.

(** C36.  The certificate.  A certificate is returned only by a run in which
    every step succeeded once, in order, and it is made from the certificate
    that was signed and the key that signed it: the template is its own
    parent, its public key is the one of the signing key.  The template asks
    for key encipherment and digital signature for a TLS server; with a random
    source that respects its bound the serial number is a natural number of at
    most 128 bits; the certificate is valid from now on for exactly 3650 days,
    a duration that does not overflow Go's 64-bit [time.Duration]. *)
Theorem certificate_is_self_signed tr c :
  (forall serial, (Ev (SRandInt serialNumberLimit) (Ok serial) : sevt) ∈ tr -> 0 <= serial < serialNumberLimit) ->
  exec CreateSelfSignedTLSCertificate tr (Done (Ok c)) ->
  exists template priv der pkcs8,
    tr = [Ev (SRandInt serialNumberLimit) (Ok (SerialNumber template));
          Ev STimeNow (NotBefore template);
          Ev (SGenerateKey 4096) (Ok priv);
          Ev (SCreateCertificate template template (PublicKey_of priv) priv) (Ok der);
          Ev (SMarshalPKCS8PrivateKey priv) (Ok pkcs8);
          Ev (SX509KeyPair (pem_EncodeToMemory "CERTIFICATE" der) (pem_EncodeToMemory "PRIVATE KEY" pkcs8)) (Ok c)] /\
    0 <= SerialNumber template < 2 ^ 128 /\
    NotAfter template - NotBefore template = 3650 * (24 * Hour) /\
    in_width 64 (NotAfter template - NotBefore template) /\
    KeyUsage template = 5 /\ ExtKeyUsage template = [1].
Proof.
  intros Hrand (serial & now & priv & der & pkcs8 & ->)%CreateSelfSigned_exec_Ok.
  exists (certificate_template serial now), priv, der, pkcs8. split; [done|].
  split; [apply Hrand; by left|].
  replace (NotAfter _ - NotBefore _) with validity by (cbn; lia). done.
Qed.

(** The step that failed names the error. *)
Definition tls_failure (e : sevt) : option error :=
  match e with
  | Ev (SRandInt _) (Err err) => Some (tls_error "error creating serial number: " err)
  | Ev (SGenerateKey _) (Err err) => Some (tls_error "error generating key: " err)
  | Ev (SCreateCertificate _ _ _ _) (Err err) => Some (tls_error "error creating certificate: " err)
  | Ev (SMarshalPKCS8PrivateKey _) (Err err) => Some (tls_error "error marshalling private key: " err)
  | Ev (SX509KeyPair _ _) (Err err) => Some err
  | _ => None
  end.

(** Once a step has failed, nothing else is done. *)
Definition tls_delta (failed : option error) (e : sevt) : option (option error) :=
  match failed with Some _ => None | None => Some (tls_failure e) end.

Definition tls_post (failed : option error) (r : outcome (res Certificate)) : Prop :=
  match failed, r with
  | Some err, Done (Err e) => e = err
  | None, Done (Ok _) => True
  | _, _ => False
  end.

(** Failures.  Making the certificate never panics; if a step fails it
    is the last one, and the error returned is the one of that step; if none
    fails a certificate is returned. *)
Theorem certificate_failure tr r :
  exec CreateSelfSignedTLSCertificate tr r ->
  exists failed, accepts tls_delta None tr = Some failed /\ tls_post failed r.
Proof.
  intros He. eapply mon_exec; [|exact He]. cbn.
  intros [serial|e]; cbn; [|done]. intros now. intros [priv|e]; cbn; [|done].
  intros [der|e]; cbn; [|done]. intros [pk|e]; cbn; [|done]. by intros [c|e].
Qed.

End Tls.

Definition demo_tls : TlsLib :=
  {| pem_EncodeToMemory typ bytes := (typ +:+ ":" +:+ bytes)%string; ErrorText _ := "failed"%string |}.

Lemma certificate_is_self_signed_witness :
  exists template, (Ev (SRandInt serialNumberLimit) (Ok (SerialNumber template)) : sevt) ∈
    fst (run_with fine_answer (@CreateSelfSignedTLSCertificate demo_tls)) /\
  NotAfter template - NotBefore template = 3650 * (24 * Hour).
Proof.
  destruct (@certificate_is_self_signed demo_tls
    (fst (run_with fine_answer (@CreateSelfSignedTLSCertificate demo_tls))) 1) as (template & ? & ? & ? & Htr & _ & Hv & _).
  - intros serial Hin. apply list_elem_of_In in Hin. cbn in Hin.
    repeat (destruct Hin as [Hin|Hin]; [try discriminate Hin|]); [|destruct Hin].
    apply (f_equal (fun e => match e with Ev (SRandInt _) (Ok n) => n | _ => 0 end)) in Hin. cbn in Hin.
    subst serial. vm_compute. split; congruence.
  - apply (run_with_exec fine_answer (@CreateSelfSignedTLSCertificate demo_tls)).
  - exists template. split; [|exact Hv]. rewrite Htr. left.
Defined.

Lemma certificate_failure_witness :
  exists failed, accepts (@tls_delta demo_tls) None
    (fst (run_with (fun o => match o return sans o with SGenerateKey _ => Err EEOF | o => fine_answer o end)
       (@CreateSelfSignedTLSCertificate demo_tls))) = Some failed /\ failed <> None.
Proof.
  destruct (@certificate_failure demo_tls _ _ (run_with_exec
    (fun o => match o return sans o with SGenerateKey _ => Err EEOF | o => fine_answer o end)
    (@CreateSelfSignedTLSCertificate demo_tls))) as (failed & Ha & Hr).
  exists failed. split; [exact Ha|]. cbn in Hr. destruct failed; [discriminate|destruct Hr].
Defined.
