(* ===== verification/Server.v ===== *)
(** * pkg/activator/runnable and pkg/activator/server/runserver.go

    A gRPC server as a runnable of the controller manager, and the external
    processing server built on it. *)

From S2P Require Import Prelude GoTime Prog Effects Instances Controller Manager Startup Tls Health.
#[local] Open Scope go_scope.

(** ** runnable/leader_election.go *)

Definition LeaderElection (runnable : runnable_func) (needs : bool) : leaderElection :=
  MkLeaderElection runnable needs.
Definition RequireLeaderElection (runnable : runnable_func) : leaderElection := LeaderElection runnable true.
Definition NoLeaderElection (runnable : runnable_func) : leaderElection := LeaderElection runnable false.
Definition NeedLeaderElection (r : leaderElection) : bool := needsLeaderElection r.

(** ** runnable/grpc.go *)

(** The goroutine that stops the server. *)
Definition shutdown_goroutine : go_s unit :=
  s <- seff SSelectDone ;;
  match s with
  | CtxDone => seff SGracefulStop
  | DoneCh => Ret tt
  end.

(** The function [GRPCServer(name, srv, port)] makes a runnable of; the name
    is only logged. *)
Definition GRPCServer (port : Z) : go_s (option error) :=
  lis <- seff (SListen port) ;;
  match lis with
  | Some err => Ret (Some (EWrap "gRPC server failed to listen - " err))
  | None =>
      seff SMakeDoneCh ;;
      defer (seff SCloseDoneCh) (
        seff (SSpawn Shutdown_goroutine) ;;
        err <- seff SServe ;;
        match err with
        | Some err => if bool_decide (err = EServerStopped) then Ret None
                      else Ret (Some (EWrap "gRPC server failed - " err))
        | None => Ret None
        end)
  end.

(** ** server/runserver.go *)

Definition DefaultGrpcPort : Z := 9002.
Definition DefaultGrpcHealthPort : Z := 9003.
Definition DefaultMetricsPort : Z := 9090.
Definition DefaultPoolName : string := "".
Definition DefaultPoolNamespace : string := "default".
Definition DefaultRefreshMetricsInterval : Duration := 50 * Millisecond.
Definition DefaultRefreshPrometheusMetricsInterval : Duration := 5 * Second.
Definition DefaultSecureServing : bool := true.
Definition DefaultHealthChecking : bool := false.
Definition DefaultEnablePprof : bool := true.
Definition DefaultCertPath : string := "".
Definition DefaultPoolGroup : string := "inference.networking.k8s.io".
Definition DefaultMetricsStalenessThreshold : Duration := 2 * Second.

Definition NewDefaultExtProcServerRunner : ExtProcServerRunner :=
  let nn := MkNN DefaultPoolNamespace DefaultPoolName in
  MkRunner DefaultGrpcPort nn (MkGKNN nn (MkGK DefaultPoolGroup "InferencePool"))
    DefaultSecureServing DefaultHealthChecking "" DefaultRefreshPrometheusMetricsInterval
    DefaultMetricsStalenessThreshold.

Section Server.
Context `{K8s : Kubernetes} `{TL : TlsLib} `{EP : ExtProcDesc}.

(** [ExtProcServerRunner.SetupWithManager] *)
Definition Runner_SetupWithManager (r : ExtProcServerRunner) : go_s (option error) :=
  err <- SetupWithManager (T := go_s (option error)) (fun kind => seff (SControllerComplete kind))
           (fun e => Ret (Some e)) (PoolGKNN r) ;;
  match err with
  | Some err => Ret (Some (EWrap "failed setting up InferencePoolReconciler: " err))
  | None => Ret None
  end.

(** The server with or without credentials: the part of [AsRunnable] up to
    [grpc.NewServer]. *)
Definition new_server (r : ExtProcServerRunner) : go_s (option error) :=
  if SecureServing r then
    cert <- (if negb (String.eqb (CertPath r) "")
             then seff (SLoadX509KeyPair (CertPath r +:+ "/tls.crt") (CertPath r +:+ "/tls.key"))
             else CreateSelfSignedTLSCertificate) ;;
    match cert with
    | Err err => Ret (Some (EWrap "failed to create self signed certificate - " err))
    | Ok cert => seff (SNewServer (Some cert)) ;; Ret None
    end
  else seff (SNewServer None) ;; Ret None.

(** The function [AsRunnable] makes a runnable of. *)
Definition ExtProc_Start (r : ExtProcServerRunner) : go_s (option error) :=
  failed <- new_server r ;;
  match failed with
  | Some err => Ret (Some err)
  | None =>
      seff SRegisterExternalProcessor ;;
      (if HealthChecking r
       then seff SRegisterHealth ;; seff (SSetServingStatus ExternalProcessor_ServiceName)
       else Ret tt) ;;
      GRPCServer (GrpcPort r)
  end.

Definition AsRunnable (r : ExtProcServerRunner) : leaderElection := NoLeaderElection (ExtProcServer r).

(** ** A gRPC server *)

(** Serving.  A server that cannot listen does nothing else and reports
    it.  Otherwise the goroutine that stops the server is started before
    serving, and when serving ends the channel that releases that goroutine is
    closed, as the last thing done; the server reports an error exactly when
    serving failed with one other than having been stopped. *)
Theorem GRPCServer_spec port tr r :
  exec (GRPCServer port) tr r <->
  (exists err, tr = [Ev (SListen port) (Some err)] /\
     r = Done (Some (EWrap "gRPC server failed to listen - " err))) \/
  (exists served, tr = [Ev (SListen port) None; Ev SMakeDoneCh tt; Ev (SSpawn Shutdown_goroutine) tt;
                        Ev SServe served; Ev SCloseDoneCh tt] /\
     r = Done (if bool_decide (served = None \/ served = Some EServerStopped) then None
               else EWrap "gRPC server failed - " <$> served)).
Proof.
  split.
  - intros ([err|] & t1 & -> & H); cbn [bind] in H; [destruct H as [-> ->]; eauto|]. right.
    cbn in H. destruct H as ([] & t2 & -> & [] & t3 & -> & served & t4 & -> & H). exists served.
    destruct served as [err|]; cbn in H.
    + destruct (decide (err = EServerStopped)) as [->|Hne].
      * rewrite bool_decide_eq_true_2 in H by done. destruct H as ([] & t5 & -> & -> & ->).
        by rewrite bool_decide_eq_true_2 by auto.
      * rewrite bool_decide_eq_false_2 in H by done. destruct H as ([] & t5 & -> & -> & ->).
        rewrite bool_decide_eq_false_2 by naive_solver. done.
    + destruct H as ([] & t5 & -> & -> & ->). by rewrite bool_decide_eq_true_2 by auto.
  - intros [(err & -> & ->)|(served & -> & ->)]; [by exists (Some err), []|].
    exists None. eexists. split; [done|]. exists tt. eexists. split; [done|]. exists tt. eexists. split; [done|].
    exists served. eexists. split; [done|].
    destruct served as [err|]; [destruct (decide (err = EServerStopped)) as [->|Hne]|].
    + by exists tt, [].
    + rewrite (bool_decide_eq_false_2 (_ \/ _)) by naive_solver. cbn.
      rewrite bool_decide_eq_false_2 by done. by exists tt, [].
    + by exists tt, [].
Qed.

(** ** The external-processing server *)

(** No certificate yet; one obtained; the server made with or without one;
    the service registered; listening. *)
Inductive server_phase :=
| NoServer (cert : option Certificate)
| Made (creds : option Certificate)
| Registered (creds : option Certificate)
| Listening (creds : option Certificate).

(** The order in which a server is brought up.  Registering services on a
    server that serves is an error of gRPC. *)
Definition server_delta (s : server_phase) (e : sevt) : option server_phase :=
  match e with
  | Ev (SX509KeyPair _ _) (Ok c) => match s with NoServer None => Some (NoServer (Some c)) | _ => None end
  | Ev (SLoadX509KeyPair _ _) (Ok c) => match s with NoServer None => Some (NoServer (Some c)) | _ => None end
  | Ev (SNewServer creds) _ =>
      match s with NoServer c => if decide (creds = c) then Some (Made c) else None | _ => None end
  | Ev SRegisterExternalProcessor _ => match s with Made c => Some (Registered c) | _ => None end
  | Ev SRegisterHealth _ | Ev (SSetServingStatus _) _ =>
      match s with Registered c => Some s | _ => None end
  | Ev (SListen _) _ => match s with Registered c => Some (Listening c) | _ => None end
  | Ev SServe _ => match s with Listening _ => Some s | _ => None end
  | _ => Some s
  end.

(** Brought up far enough to listen, with a certificate exactly when serving
    is secure; or given up for want of a certificate. *)
Definition server_post (secure : bool) (s : server_phase) (r : outcome (option error)) : Prop :=
  match s, r with
  | Listening c, Done _ => negb (is_nil c) = secure
  | NoServer None, Done (Some _) => secure = true
  | _, _ => False
  end.

Lemma CreateSelfSigned_server : mon server_delta (NoServer None) CreateSelfSignedTLSCertificate
  (fun s r => match r with Done (Ok c) => s = NoServer (Some c) | Done (Err _) => s = NoServer None | Crash _ => False end).
Proof.
  cbn. intros [serial|e]; cbn; [|done]. intros now. intros [priv|e]; cbn; [|done].
  intros [der|e]; cbn; [|done]. intros [pk|e]; cbn; [|done]. by intros [c|e].
Qed.

Lemma GRPCServer_server port creds : mon server_delta (Registered creds) (GRPCServer port)
  (fun s r => s = Listening creds /\ exists o, r = Done o).
Proof.
  cbn. intros [e|]; cbn; [eauto|]. intros _ _ [e|]; cbn; [|eauto].
  case_bool_decide; cbn; eauto.
Qed.

Lemma new_server_server r : mon server_delta (NoServer None) (new_server r) (fun s o =>
  match o with
  | Done None => exists c, s = Made c /\ negb (is_nil c) = SecureServing r
  | Done (Some _) => s = NoServer None /\ SecureServing r = true
  | Crash _ => False
  end).
Proof.
  unfold new_server. destruct (SecureServing r); [|by intros []; exists None]. apply mon_bind.
  assert (Hrest : forall cert : res Certificate,
    mon server_delta (NoServer (match cert with Ok c => Some c | Err _ => None end))
      (match cert with
       | Err err => Ret (Some (EWrap "failed to create self signed certificate - " err))
       | Ok cert => seff (SNewServer (Some cert)) ;; Ret None
       end) (fun s o =>
        match o with
        | Done None => exists c, s = Made c /\ negb (is_nil c) = true
        | Done (Some _) => s = NoServer None /\ true = true
        | Crash _ => False
        end)).
  { intros [c|e]; cbn; [intros _; rewrite decide_True by done; eauto|done]. }
  destruct (negb _).
  - cbn -[mon]. intros [c|e]; [apply (Hrest (Ok c))|apply (Hrest (Err e))].
  - eapply mon_mono; [|apply CreateSelfSigned_server].
    intros s [[c|e]|m]; [intros ->; apply (Hrest (Ok c))|intros ->; apply (Hrest (Err e))|done].
Qed.

(** C33.  Bringing up the server.  In every run of the external-processing
    runnable: with secure serving the server is made with the certificate that
    was loaded or created, and without one nothing listens and an error is
    returned; without secure serving no certificate is used; every service is
    registered after the server is made and before it listens; it serves only
    once it listens; and nothing panics. *)
Theorem ExtProc_server_bring_up r tr o :
  exec (ExtProc_Start r) tr o ->
  exists s, accepts server_delta (NoServer None) tr = Some s /\ server_post (SecureServing r) s o.
Proof.
  intros He. eapply mon_exec; [|exact He]. apply mon_bind. eapply mon_mono; [|apply new_server_server].
  intros s [[e|]|m]; [intros [-> H]; by rewrite H| |done].
  intros (c & -> & Hc). cbn -[GRPCServer]. intros _.
  assert (Hg : mon server_delta (Registered c) (GRPCServer (GrpcPort r)) (server_post (SecureServing r))).
  { eapply mon_mono; [|apply GRPCServer_server]. intros s o' [-> [x ->]]. done. }
  destruct (HealthChecking r); [cbn -[GRPCServer]; intros _ _|]; exact Hg.
Qed.

End Server.

(** ** Concrete servers *)

Lemma GRPCServer_spec_witness :
  exec (GRPCServer 9002) [Ev (SListen 9002) None; Ev SMakeDoneCh tt; Ev (SSpawn Shutdown_goroutine) tt;
    Ev SServe (Some EServerStopped); Ev SCloseDoneCh tt] (Done None).
Proof.
  apply (GRPCServer_spec 9002). right. exists (Some EServerStopped). split; reflexivity.
Defined.

Lemma ExtProc_server_bring_up_witness :
  exists s, accepts server_delta (NoServer None)
    (fst (run_with fine_answer (@ExtProc_Start demo_tls demo_desc NewDefaultExtProcServerRunner))) = Some s /\
    server_post true s (snd (run_with fine_answer (@ExtProc_Start demo_tls demo_desc NewDefaultExtProcServerRunner))).
Proof.
  apply (@ExtProc_server_bring_up demo_tls demo_desc NewDefaultExtProcServerRunner).
  apply run_with_exec.
Defined.
