(* ===== verification/Shutdown.v ===== *)
(** * Shutting down a gRPC server

    [GRPCServer] and the goroutine it starts, side by side, over the gRPC
    server they share.  The server is a parameter ([GrpcServer]) of which only
    the documented behaviour of [Serve] and [GracefulStop] is used
    ([GrpcServerLaws]).  Calls of clients come and go at any time, before the
    context is cancelled and after it, until the server is being stopped.

    Once the context is cancelled, or serving has ended for another reason,
    both goroutines end in every fair run, provided that the calls that are
    open when the server is being stopped end ([shutdown_completes]). *)

From S2P Require Import Prelude Prog Effects Startup Server.
#[local] Open Scope go_scope.

(** ** google.golang.org/grpc *)

(** A server: its states, the calls being handled, whether [GracefulStop] was
    called and whether it has returned; what calling a blocking method and returning from it, and
    beginning and ending a client's call, do to it. *)
Class GrpcServer := {
  grpc_state : Type;
  grpc_new : grpc_state;
  grpc_open : grpc_state -> nat;
  grpc_stopping : grpc_state -> bool;
  grpc_stopped : grpc_state -> bool;
  Serve_call : grpc_state -> grpc_state -> Prop;
  Serve_return : option error -> grpc_state -> grpc_state -> Prop;
  GracefulStop_call : grpc_state -> grpc_state -> Prop;
  GracefulStop_return : grpc_state -> grpc_state -> Prop;
  rpc_begin : grpc_state -> grpc_state -> Prop;
  rpc_end : grpc_state -> grpc_state -> Prop
}.

(** "GracefulStop stops the gRPC server gracefully. It stops the server from
    accepting new connections and RPCs and blocks until all the pending RPCs
    are finished."  "Serve returns when lis.Accept fails with fatal errors",
    and once the server has been stopped. *)
Class GrpcServerLaws `{GrpcServer} : Prop := {
  new_not_stopping : grpc_stopping grpc_new = false;
  Serve_callable g : exists g', Serve_call g g';
  Serve_call_law g g' : Serve_call g g' ->
    grpc_stopping g' = grpc_stopping g /\ (grpc_stopped g = true -> grpc_stopped g' = true);
  Serve_return_law x g g' : Serve_return x g g' -> grpc_stopping g' = grpc_stopping g;
  Serve_returns g : grpc_stopped g = true -> exists x g', Serve_return x g g';
  GracefulStop_callable g : exists g', GracefulStop_call g g';
  GracefulStop_call_law g g' : GracefulStop_call g g' -> grpc_stopping g' = true;
  GracefulStop_return_law g g' : GracefulStop_return g g' ->
    grpc_stopping g' = grpc_stopping g /\ grpc_stopped g' = true;
  GracefulStop_returns g : grpc_stopping g = true -> grpc_open g = 0%nat -> exists g', GracefulStop_return g g';
  rpc_begin_law g g' : rpc_begin g g' ->
    grpc_stopping g = false /\ grpc_stopping g' = false /\ (grpc_stopped g = true -> grpc_stopped g' = true);
  rpc_end_law g g' : rpc_end g g' ->
    grpc_stopping g' = grpc_stopping g /\ grpc_open g = S (grpc_open g') /\
    (grpc_stopped g = true -> grpc_stopped g' = true)
}.

Section Shutdown.
Context `{GSrv : GrpcServer}.

(** ** The two goroutines *)

(** What they share: the server, [doneCh] (not made, or whether it is closed),
    and the context of the runnable. *)
Record shared := MkShared { grpc : grpc_state; doneCh : option bool; ctxDone : bool }.

Definition set_grpc g v := MkShared g (doneCh v) (ctxDone v).
Definition set_doneCh d v := MkShared (grpc v) d (ctxDone v).
Definition set_ctxDone b v := MkShared (grpc v) (doneCh v) b.

(** What a goroutine has left to do, and whether it is inside a method of the
    server. *)
Record thread (A : Type) := MkThread { code : go_s A; inside : bool }.
#[global] Arguments MkThread {A} _ _.
#[global] Arguments code {A} _.
#[global] Arguments inside {A} _.

(** The channel and the context; operations that nobody else sees. *)
Definition complete (o : sop) (v : shared) : sans o -> option shared :=
  match o return sans o -> option shared with
  | SMakeDoneCh => fun _ => Some (set_doneCh (Some false) v)
  | SCloseDoneCh => fun _ => match doneCh v with Some false => Some (set_doneCh (Some true) v) | _ => None end
  | SSelectDone => fun s =>
      match s with
      | DoneCh => if decide (doneCh v = Some true) then Some v else None
      | CtxDone => if ctxDone v then Some v else None
      end
  | _ => fun _ => Some v
  end.

(** A goroutine calls a method of the server, returns from it, or performs
    another operation. *)
Definition thread_step {A} (v : shared) (t : thread A) (v' : shared) (t' : thread A) : Prop :=
  match code t with
  | Op o k =>
      match o return (sans o -> go_s A) -> Prop with
      | SServe => fun k =>
          if inside t
          then exists x g, Serve_return x (grpc v) g /\ v' = set_grpc g v /\ t' = MkThread (k x) false
          else exists g, Serve_call (grpc v) g /\ v' = set_grpc g v /\ t' = MkThread (code t) true
      | SGracefulStop => fun k =>
          if inside t
          then exists g, GracefulStop_return (grpc v) g /\ v' = set_grpc g v /\ t' = MkThread (k tt) false
          else exists g, GracefulStop_call (grpc v) g /\ v' = set_grpc g v /\ t' = MkThread (code t) true
      | o => fun k => exists x, complete o v x = Some v' /\ t' = MkThread (k x) (inside t)
      end k
  | _ => False
  end.

(** The goroutine of the runnable, and the one it starts. *)
Record state := MkState { shr : shared; main : thread (option error); shut : option (thread unit) }.

Definition start (port : Z) : state :=
  MkState (MkShared grpc_new None false) (MkThread (GRPCServer port) false) None.

(** What [go func() { ... }()] does. *)
Definition spawn {A} (p : go_s A) (g : option (thread unit)) : option (thread unit) :=
  match p with Op (SSpawn Shutdown_goroutine) _ => Some (MkThread shutdown_goroutine false) | _ => g end.

Inductive slabel := Main | Shut | CallBegin | CallEnd | Cancel | Idle.

Inductive sstep : state -> slabel -> state -> Prop :=
| main_step v m g v' m' : thread_step v m v' m' ->
    sstep (MkState v m g) Main (MkState v' m' (spawn (code m) g))
| shut_step v m g v' g' : thread_step v g v' g' ->
    sstep (MkState v m (Some g)) Shut (MkState v' m (Some g'))
| call_begin v m g s' : rpc_begin (grpc v) s' ->
    sstep (MkState v m g) CallBegin (MkState (set_grpc s' v) m g)
| call_end v m g s' : rpc_end (grpc v) s' ->
    sstep (MkState v m g) CallEnd (MkState (set_grpc s' v) m g)
| ctx_cancel v m g : sstep (MkState v m g) Cancel (MkState (set_ctxDone true v) m g)
| idle_step s : sstep s Idle s.

Definition enabled (l : slabel) (s : state) : Prop := exists s', sstep s l s'.

Definition stopping (s : state) : bool := grpc_stopping (grpc (shr s)).
Definition stopped (s : state) : bool := grpc_stopped (grpc (shr s)).
Definition open (s : state) : nat := grpc_open (grpc (shr s)).

Definition returned (s : state) : Prop := exists r, code (main s) = Ret r.

(** Both goroutines have ended. *)
Definition finished (s : state) : Prop :=
  returned s /\ (shut s = None \/ shut s = Some (MkThread (Ret tt) false)).

(** ** Fair runs *)

Definition is_run (port : Z) (st : nat -> state) (lb : nat -> slabel) : Prop :=
  st 0%nat = start port /\ forall n, sstep (st n) (lb n) (st (S n)).

(** A goroutine that can go on is scheduled; once the server is being stopped,
    its open calls end. *)
Record fair (st : nat -> state) (lb : nat -> slabel) : Prop := Fair {
  fair_main n : exists m, (n <= m)%nat /\ (~ enabled Main (st m) \/ lb m = Main);
  fair_shut n : exists m, (n <= m)%nat /\ (~ enabled Shut (st m) \/ lb m = Shut);
  calls_end n : stopping (st n) = true -> exists m, (n <= m)%nat /\ (open (st m) = 0%nat \/ lb m = CallEnd)
}.

(** ** Where the two goroutines can be *)

Definition serve_result (x : option error) : option error :=
  match x with
  | Some err => if bool_decide (err = EServerStopped) then None else Some (EWrap "gRPC server failed - " err)
  | None => None
  end.

Definition at_close (r : option error) : go_s (option error) := seff SCloseDoneCh ;; Ret r.

Definition at_serve : go_s (option error) :=
  Op SServe (fun x => defer (seff SCloseDoneCh)
    (match x with
     | Some err => if bool_decide (err = EServerStopped) then Ret None
                   else Ret (Some (EWrap "gRPC server failed - " err))
     | None => Ret None
     end)).

Definition at_spawn : go_s (option error) := Op (SSpawn Shutdown_goroutine) (fun _ => at_serve).
Definition at_make : go_s (option error) := Op SMakeDoneCh (fun _ => at_spawn).

Lemma at_serve_next x : defer (seff SCloseDoneCh)
    (match x with
     | Some err => if bool_decide (err = EServerStopped) then Ret None
                   else Ret (Some (EWrap "gRPC server failed - " err))
     | None => Ret None
     end) = at_close (serve_result x).
Proof. destruct x as [e|]; cbn; [by case_bool_decide|done]. Qed.

(** The goroutine is waiting, about to stop the server, stopping it, or done. *)
Inductive shut_at : bool -> thread unit -> Prop :=
| sh_wait : shut_at false (MkThread shutdown_goroutine false)
| sh_stop : shut_at false (MkThread (seff SGracefulStop) false)
| sh_stopping : shut_at true (MkThread (seff SGracefulStop) true)
| sh_done q : shut_at q (MkThread (Ret tt) false).

Inductive inv : state -> Prop :=
| i_listen v port : doneCh v = None -> grpc_stopping (grpc v) = false ->
    inv (MkState v (MkThread (GRPCServer port) false) None)
| i_failed v e : inv (MkState v (MkThread (Ret (Some e)) false) None)
| i_make v : grpc_stopping (grpc v) = false -> inv (MkState v (MkThread at_make false) None)
| i_spawn v : doneCh v = Some false -> grpc_stopping (grpc v) = false -> inv (MkState v (MkThread at_spawn false) None)
| i_serve v b g : doneCh v = Some false -> shut_at (grpc_stopping (grpc v)) g ->
    (code g = Ret tt -> grpc_stopped (grpc v) = true) -> inv (MkState v (MkThread at_serve b) (Some g))
| i_close v r g : doneCh v = Some false -> shut_at (grpc_stopping (grpc v)) g ->
    inv (MkState v (MkThread (at_close r) false) (Some g))
| i_ended v r g : doneCh v = Some true -> shut_at (grpc_stopping (grpc v)) g ->
    inv (MkState v (MkThread (Ret r) false) (Some g)).

(** Steps of the goroutines that remain. *)
Definition main_left (t : thread (option error)) : nat :=
  match code t with
  | Op (SListen _) _ => 6
  | Op SMakeDoneCh _ => 5
  | Op (SSpawn _) _ => 4
  | Op SServe _ => if inside t then 2 else 3
  | Op _ _ => 1
  | _ => 0
  end.

Definition shut_left (g : option (thread unit)) : nat :=
  match g with
  | None => 3
  | Some t =>
      match code t with
      | Op SSelectDone _ => 3
      | Op _ _ => if inside t then 1 else 2
      | _ => 0
      end
  end.

Definition left_over (s : state) : nat := main_left (main s) + shut_left (shut s).

Definition of_goroutine (l : slabel) : bool := match l with Main | Shut => true | _ => false end.

Context {GL : GrpcServerLaws}.

Lemma main_inv v m g v' m' : inv (MkState v m g) -> thread_step v m v' m' ->
  inv (MkState v' m' (spawn (code m) g)) /\
  (main_left m' + shut_left (spawn (code m) g) < main_left m + shut_left g)%nat.
Proof.
  intros Hi Hp. inversion Hi; subst; cbn in Hp; try done.
  - destruct Hp as ([e|] & [= <-] & ->); cbn; (split; [by constructor|lia]).
  - destruct Hp as ([] & [= <-] & ->). cbn. split; [by constructor|lia].
  - destruct Hp as ([] & [= <-] & ->). cbn. split; [|lia]. constructor; [done| |done].
    match goal with H : grpc_stopping _ = false |- _ => rewrite H end. constructor.
  - destruct b.
    + destruct Hp as (x & g' & Hr & -> & ->). rewrite at_serve_next. apply Serve_return_law in Hr as Hs.
      cbn. split; [|lia]. constructor; cbn; [done|by rewrite Hs].
    + destruct Hp as (g' & Hr & -> & ->). apply Serve_call_law in Hr as [Hs Hd].
      cbn. split; [|lia]. constructor; cbn; [done|by rewrite Hs|auto].
  - destruct Hp as ([] & Hc & ->). cbn in Hc. destruct (doneCh v) as [[]|]; simplify_eq. cbn.
    split; [by constructor|lia].
Qed.

Lemma shut_at_step v g v' g' : shut_at (grpc_stopping (grpc v)) g -> thread_step v g v' g' ->
  shut_at (grpc_stopping (grpc v')) g' /\ doneCh v' = doneCh v /\
  (shut_left (Some g') < shut_left (Some g))%nat /\
  (code g' = Ret tt -> grpc_stopped (grpc v') = true \/ doneCh v = Some true).
Proof.
  intros Hg Hs. inversion Hg as [Hq Hg'|Hq Hg'|Hq Hg'|q Hq Hg']; subst; cbn in Hs; [..|done].
  - destruct Hs as ([] & Hc & ->); cbn in Hc.
    + case_decide; simplify_eq. rewrite <- Hq. split; [constructor|]. cbn. split_and!; auto; first [lia|done].
    + destruct (ctxDone v); simplify_eq. rewrite <- Hq. split; [constructor|]. cbn. split_and!; auto; first [lia|done].
  - destruct Hs as (g1 & Hr & -> & ->). apply GracefulStop_call_law in Hr as Hq'. cbn. rewrite Hq'.
    split; [constructor|]. split_and!; auto; first [lia|done].
  - destruct Hs as (g1 & Hr & -> & ->). apply GracefulStop_return_law in Hr as [Hq' Hd]. cbn. rewrite Hq', <- Hq.
    split; [constructor|]. split_and!; auto; first [lia|done].
Qed.

Lemma shut_inv v m g v' g' : inv (MkState v m (Some g)) -> thread_step v g v' g' ->
  inv (MkState v' m (Some g')) /\ (shut_left (Some g') < shut_left (Some g))%nat.
Proof.
  intros Hi Hp. inversion Hi; subst;
    match goal with H : shut_at _ _ |- _ => destruct (shut_at_step _ _ _ _ H Hp) as (Hg & Hd & Hl & Hr) end;
    (split; [|done]); constructor; try congruence; try done.
  intros Hc. destruct (Hr Hc); congruence.
Qed.

(** A step of anything else leaves the goroutines where they are, and a server
    that is being stopped begins no call. *)
Record frozen (s s' : state) : Prop := Frozen {
  frozen_main : main s' = main s;
  frozen_shut : shut s' = shut s;
  frozen_doneCh : doneCh (shr s') = doneCh (shr s);
  frozen_ctx : ctxDone (shr s) = true -> ctxDone (shr s') = true;
  frozen_stopping : stopping s' = stopping s;
  frozen_stopped : stopped s = true -> stopped s' = true;
  frozen_open : stopping s = true -> (open s' <= open s)%nat
}.

Lemma frozen_refl s : frozen s s.
Proof. by split. Qed.

Lemma frozen_trans s1 s2 s3 : frozen s1 s2 -> frozen s2 s3 -> frozen s1 s3.
Proof.
  intros [? ? ? ? Hs1 ? Ho1] [? ? ? ? Hs2 ? Ho2]. split; try congruence; [by auto..|]. intros Hs.
  specialize (Ho1 Hs). rewrite Hs1 in Ho2. specialize (Ho2 Hs). lia.
Qed.

Lemma other_frozen s l s' : sstep s l s' -> of_goroutine l = false -> frozen s s'.
Proof.
  intros Hs Hl. destruct Hs as [| |v m g s' Hb|v m g s' He|v m g|s]; try done.
  - apply rpc_begin_law in Hb as (H1 & H2 & H3). split; unfold stopping, stopped, open; cbn; try congruence; done.
  - apply rpc_end_law in He as (H1 & H2 & H3). split; unfold stopping, stopped, open; cbn; try done. intros _. lia.
Qed.

Lemma frozen_inv s s' : frozen s s' -> inv s -> inv s'.
Proof.
  intros [Hm Hg Hd _ Hs Hp _]. destruct s as [v m g], s' as [v' m' g']. unfold stopping, stopped in *. cbn in *. subst.
  intros Hi. inversion Hi; subst; constructor; try congruence; first [by rewrite Hs|by auto].
Qed.

Lemma step_inv s l s' : inv s -> sstep s l s' ->
  inv s' /\ (if of_goroutine l then (left_over s' < left_over s)%nat else left_over s' = left_over s).
Proof.
  intros Hi Hs. destruct (of_goroutine l) eqn:Hl.
  - destruct Hs as [v m g v' m' Hp|v m g v' g' Hp| | | |]; try done.
    + destruct (main_inv _ _ _ _ _ Hi Hp). split; [done|]. unfold left_over. cbn -[shut_left main_left spawn]. lia.
    + destruct (shut_inv _ _ _ _ _ Hi Hp). split; [done|]. unfold left_over. cbn -[shut_left main_left]. lia.
  - pose proof (other_frozen _ _ _ Hs Hl) as Hf. split; [by eapply frozen_inv|].
    unfold left_over. by rewrite (frozen_main _ _ Hf), (frozen_shut _ _ Hf).
Qed.

(** ** Runs *)

Section Run.
Context (port : Z) (st : nat -> state) (lb : nat -> slabel).
Context (Hrun : is_run port st lb) (Hfair : fair st lb).

Lemma run_inv n : inv (st n).
Proof.
  destruct Hrun as [H0 Hs]. induction n as [|n IH].
  - rewrite H0. constructor; [done|apply new_not_stopping].
  - by apply (step_inv _ _ _ IH (Hs n)).
Qed.

Lemma run_left n : (left_over (st (S n)) + (if of_goroutine (lb n) then 1 else 0) <= left_over (st n))%nat.
Proof.
  destruct (step_inv _ _ _ (run_inv n) (proj2 Hrun n)) as [_ H]. destruct (of_goroutine _); lia.
Qed.

Lemma run_left_mono n m : (n <= m)%nat -> (left_over (st m) <= left_over (st n))%nat.
Proof. induction 1 as [|m _ IH]; [lia|]. pose proof (run_left m). lia. Qed.

Lemma run_frozen n m : (n <= m)%nat -> left_over (st m) = left_over (st n) -> frozen (st n) (st m).
Proof.
  induction 1 as [|m Hm IH]; intros He; [apply frozen_refl|].
  pose proof (run_left m) as Hl. pose proof (run_left_mono n m Hm).
  destruct (of_goroutine (lb m)) eqn:Hg; [lia|].
  eapply frozen_trans; [apply IH; lia|]. by eapply other_frozen; [apply Hrun|].
Qed.

(** The goroutines get closer to their end. *)
Definition advances (n : nat) : Prop := exists m, (n <= m)%nat /\ (left_over (st m) < left_over (st n))%nat.

Lemma advances_later n m : (n <= m)%nat -> advances m -> advances n.
Proof. intros Hm (k & Hk & Hl). exists k. pose proof (run_left_mono n m Hm). lia. Qed.

(** A goroutine that can go on for as long as nobody else does, goes on. *)
Lemma fair_advances l n : l = Main \/ l = Shut ->
  (forall s', frozen (st n) s' -> enabled l s') -> advances n.
Proof.
  intros Hl He.
  assert (Hm : exists m, (n <= m)%nat /\ (~ enabled l (st m) \/ lb m = l)).
  { destruct Hl as [->| ->]; [apply (fair_main _ _ Hfair)|apply (fair_shut _ _ Hfair)]. }
  destruct Hm as (m & Hnm & Hm). pose proof (run_left_mono n m Hnm).
  destruct (decide (left_over (st m) = left_over (st n))) as [E|]; [|exists m; lia].
  destruct Hm as [Hm|Hm]; [by destruct Hm; apply He, run_frozen|].
  exists (S m). pose proof (run_left m) as Hs. rewrite Hm in Hs. destruct Hl as [-> | ->]; cbn in Hs; lia.
Qed.

(** The open calls of a server that is being stopped end. *)
Lemma drained k : forall n, open (st n) = k -> stopping (st n) = true ->
  advances n \/ exists m, (n <= m)%nat /\ frozen (st n) (st m) /\ open (st m) = 0%nat.
Proof.
  induction (lt_wf k) as [k _ IH]. intros n <- Hs. destruct (calls_end _ _ Hfair n Hs) as (m & Hnm & Hm).
  pose proof (run_left_mono n m Hnm).
  destruct (decide (left_over (st m) = left_over (st n))) as [E|]; [|left; exists m; lia].
  pose proof (run_frozen n m Hnm E) as Hf. destruct Hm as [Hm|Hm]; [right; eauto|].
  pose proof (proj2 Hrun m) as Hst. rewrite Hm in Hst. pose proof (other_frozen _ _ _ Hst eq_refl) as Hf'.
  assert (Hlt : (open (st (S m)) < open (st n))%nat).
  { pose proof (frozen_open _ _ Hf Hs). inversion Hst as [| | |v m' g s' He H1 H2| |].
    apply rpc_end_law in He as (_ & He & _). unfold open in *. rewrite <- H1 in *. cbn in *. lia. }
  assert (Hs' : stopping (st (S m)) = true).
  { by rewrite (frozen_stopping _ _ Hf'), (frozen_stopping _ _ Hf). }
  destruct (IH _ Hlt (S m) eq_refl Hs') as [Ha|(m2 & Hm2 & Hf2 & Ho)].
  - left. eapply advances_later; [|exact Ha]. lia.
  - right. exists m2. split; [lia|]. split; [|done]. by eapply frozen_trans, frozen_trans.
Qed.

(** Something to do for a goroutine once the server has no open calls. *)
Lemma drained_advances l n : l = Main \/ l = Shut -> stopping (st n) = true ->
  (forall s', frozen (st n) s' -> open s' = 0%nat -> enabled l s') -> advances n.
Proof.
  intros Hl Hs He. destruct (drained _ n eq_refl Hs) as [Ha|(m & Hm & Hf & Ho)]; [done|].
  eapply advances_later; [exact Hm|]. apply (fair_advances l); [done|]. intros s' Hf'.
  apply He; [by eapply frozen_trans|]. pose proof (frozen_open _ _ Hf').
  rewrite (frozen_stopping _ _ Hf) in *. specialize (H Hs). lia.
Qed.

(** The context is cancelled, or serving has ended. *)
Definition winding_down (s : state) : Prop := ctxDone (shr s) = true \/ returned s.

Lemma thread_ctx {A} v (t : thread A) v' t' : thread_step v t v' t' -> ctxDone v = true -> ctxDone v' = true.
Proof.
  unfold thread_step. destruct (code t) as [| |o k]; [done..|]. intros H Hc.
  destruct o; try (destruct (inside t)); split_hyps; simplify_eq/=; repeat (case_match; simplify_eq/=); try done.
Qed.

Lemma winding_down_step s l s' : sstep s l s' -> winding_down s -> winding_down s'.
Proof.
  intros Hs [Hw|[r Hw]].
  - left. destruct Hs as [v m g v' m' Hp|v m g v' g' Hp| | | |]; cbn in *; try done; by eapply thread_ctx.
  - destruct Hs as [v m g v' m' Hp| | | | |]; try (right; by exists r).
    unfold thread_step in Hp. cbn in Hw. by rewrite Hw in Hp.
Qed.

Lemma winding_down_later n m : (n <= m)%nat -> winding_down (st n) -> winding_down (st m).
Proof. induction 1 as [|m _ IH]; [done|]. intros Hw. eapply winding_down_step; [apply Hrun|auto]. Qed.

Lemma shut_advances n v m g : st n = MkState v m (Some g) -> shut_at (grpc_stopping (grpc v)) g ->
  (ctxDone v = true \/ doneCh v = Some true) -> code g <> Ret tt -> advances n.
Proof.
  intros Hn Hg Hw Hne. inversion Hg as [Hq E|Hq E|Hq E|q Hq E]; subst g; [..|done].
  - apply (fair_advances Shut); [by right|]. rewrite Hn. intros [v' m' g'] [Hm Hs Hd Hx _ _ _]. cbn in *. subst.
    destruct Hw as [Hw|Hw].
    + eexists. eapply shut_step. exists CtxDone. cbn. rewrite Hx by done. done.
    + eexists. eapply shut_step. exists DoneCh. cbn. rewrite decide_True by congruence. done.
  - apply (fair_advances Shut); [by right|]. rewrite Hn. intros [v' m' g'] [Hm Hs _ _ _ _ _]. cbn in *. subst.
    destruct (GracefulStop_callable (grpc v')) as [g1 H1]. eexists. eapply shut_step. exists g1. done.
  - assert (Hst : stopping (st n) = true) by by rewrite Hn.
    apply (drained_advances Shut); [by right|done|]. rewrite Hn in *. intros [v' m' g'] [Hm Hs _ _ Hq' _ _] Ho.
    unfold stopping in Hst, Hq'. unfold open in Ho. cbn in *. subst.
    destruct (GracefulStop_returns (grpc v')) as [g1 H1]; [congruence|done|].
    eexists. eapply shut_step. exists g1. done.
Qed.

(** A goroutine of the runnable that is not inside [Serve] can go on. *)
Lemma main_advances n v t g : st n = MkState v t g -> inv (st n) ->
  (forall r, code t <> Ret r) -> (code t = at_serve -> inside t = false) -> advances n.
Proof.
  intros Hn Hi Hne Hs. apply (fair_advances Main); [by left|]. intros s' Hf.
  pose proof (frozen_inv _ _ Hf Hi) as Hi'. rewrite Hn in Hf. destruct Hf as [Hm _ _ _ _ _ _].
  destruct s' as [v' m' g']. cbn in Hm. subst m'. inversion Hi'; subst; cbn in *; try (by destruct (Hne _ eq_refl)).
  - eexists. eapply main_step. exists None. done.
  - eexists. eapply main_step. exists tt. done.
  - eexists. eapply main_step. exists tt. done.
  - rewrite (Hs eq_refl). destruct (Serve_callable (grpc v')) as [g1 H1]. eexists. eapply main_step. exists g1. done.
  - eexists. eapply main_step. exists tt. cbn.
    match goal with H : doneCh v' = Some false |- _ => rewrite H end. done.
Qed.

Lemma progress n : winding_down (st n) -> finished (st n) \/ advances n.
Proof.
  intros Hw. pose proof (run_inv n) as Hi. destruct (st n) as [v t g] eqn:Hn.
  assert (Hmain : (forall r, code t <> Ret r) -> (code t = at_serve -> inside t = false) -> advances n).
  { apply (main_advances n v t g Hn). by rewrite Hn. }
  inversion Hi; subst; cbn in *; try (right; apply Hmain; done).
  - left. split; [by eexists|by left].
  - destruct b; [|by right; apply Hmain]. destruct Hw as [Hw|[r [=]]]. cbn in Hw. right.
    match goal with H : shut_at _ ?h |- _ => rename H into Hg; rename h into g0 end.
    inversion Hg as [Hq E|Hq E|Hq E|q Hq E]; subst g0; try (by eapply shut_advances; [exact Hn|exact Hg|auto|done]).
    apply (fair_advances Main); [by left|]. rewrite Hn. intros [v' m' g'] [Hm Hs _ _ _ Hp _].
    unfold stopped in Hp. cbn in *. subst. destruct (Serve_returns (grpc v')) as (x & g1 & H1); [auto|].
    eexists. eapply main_step. exists x, g1. done.
  - match goal with H : shut_at _ ?h |- _ => rename H into Hg; rename h into g0 end.
    inversion Hg as [Hq E|Hq E|Hq E|q Hq E]; subst g0; try (right; by eapply shut_advances; [exact Hn|exact Hg|auto|done]).
    left. split; [by eexists|by right].
Qed.

Lemma winds_down k : forall n, left_over (st n) = k -> winding_down (st n) -> exists m, finished (st m).
Proof.
  induction (lt_wf k) as [k _ IH]. intros n <- Hw. destruct (progress n Hw) as [Hf|(m & Hm & Hl)]; [by exists n|].
  eapply IH; [exact Hl|done|by eapply winding_down_later].
Qed.

(** The steps of the goroutines among the first [n]. *)
Definition goroutine_steps (n : nat) : nat := length (filter (fun l => of_goroutine l = true) (map lb (seq 0 n))).

Lemma goroutine_steps_bound n : (goroutine_steps n + left_over (st n) <= 9)%nat.
Proof.
  unfold goroutine_steps. induction n as [|n IH].
  - cbn. by rewrite (proj1 Hrun).
  - rewrite seq_S, map_app, filter_app, length_app. cbn [map]. pose proof (run_left n) as Hl.
    rewrite filter_cons, filter_nil, Nat.add_0_l. destruct (of_goroutine (lb n)) eqn:E; case_decide; cbn; try done; lia.
Qed.

End Run.

(** C20.  Shutdown.  In every fair run of a server and its shutdown goroutine,
    in any interleaving and whatever calls begin and end, also between the
    cancellation and the stop: once the context is cancelled, and once serving
    has ended for whatever reason, both goroutines come to their end, the
    second one does not leak; they take at most nine steps in all.  Fair means
    that a goroutine that can go on is scheduled, and that the calls that are
    open when the server is being stopped end. *)
Theorem shutdown_completes port st lb :
  is_run port st lb -> fair st lb ->
  (exists n, ctxDone (shr (st n)) = true \/ returned (st n)) ->
  (exists m, finished (st m)) /\
  (forall n, (length (filter (fun l => of_goroutine l = true) (map lb (seq 0 n))) <= 9)%nat).
Proof.
  intros Hr Hf [n Hw]. split; [by eapply winds_down|].
  intros k. pose proof (goroutine_steps_bound _ _ _ Hr k). unfold goroutine_steps in *. lia.
Qed.

End Shutdown.

(** ** A server for which the laws hold *)

Module Demo.

Record server := MkServer { calls : nat; stop_called : bool; stop_returned : bool }.

#[local] Instance demo_grpc : GrpcServer := {|
  grpc_state := server;
  grpc_new := MkServer 0 false false;
  grpc_open := calls;
  grpc_stopping := stop_called;
  grpc_stopped := stop_returned;
  Serve_call g g' := g' = g;
  Serve_return x g g' := stop_returned g = true /\ x = None /\ g' = g;
  GracefulStop_call g g' := g' = MkServer (calls g) true (stop_returned g);
  GracefulStop_return g g' := calls g = 0%nat /\ g' = MkServer 0 (stop_called g) true;
  rpc_begin g g' := stop_called g = false /\ g' = MkServer (S (calls g)) false (stop_returned g);
  rpc_end g g' := exists n, calls g = S n /\ g' = MkServer n (stop_called g) (stop_returned g)
|}.

#[local] Instance demo_grpc_laws : GrpcServerLaws.
Proof. split; cbn; naive_solver. Qed.

(** A call that begins before the cancellation, and one that begins between it
    and the stop; the server waits for both. *)
Definition labels : list slabel :=
  [Main; Main; Main; Main; CallBegin; Cancel; Shut; CallBegin; Shut; CallEnd; CallEnd; Shut; Main; Main].

Definition lb (n : nat) : slabel := default Idle (labels !! n).

Definition waiting : option (thread unit) := Some (MkThread shutdown_goroutine false).
Definition gone : option (thread unit) := Some (MkThread (Ret tt) false).
Definition stop_at (b : bool) : option (thread unit) := Some (MkThread (seff SGracefulStop) b).
Definition at_ (calls : nat) (b1 b2 : bool) (d : option bool) (c : bool) := MkShared (MkServer calls b1 b2) d c.
Definition serving : thread (option error) := MkThread at_serve true.

Definition final : state := MkState (at_ 0 true true (Some true) true) (MkThread (Ret None) false) gone.

Definition states : list state :=
  let open_ := Some false in
  [start 9002;
   MkState (at_ 0 false false None false) (MkThread at_make false) None;
   MkState (at_ 0 false false open_ false) (MkThread at_spawn false) None;
   MkState (at_ 0 false false open_ false) (MkThread at_serve false) waiting;
   MkState (at_ 0 false false open_ false) serving waiting;
   MkState (at_ 1 false false open_ false) serving waiting;
   MkState (at_ 1 false false open_ true) serving waiting;
   MkState (at_ 1 false false open_ true) serving (stop_at false);
   MkState (at_ 2 false false open_ true) serving (stop_at false);
   MkState (at_ 2 true false open_ true) serving (stop_at true);
   MkState (at_ 1 true false open_ true) serving (stop_at true);
   MkState (at_ 0 true false open_ true) serving (stop_at true);
   MkState (at_ 0 true true open_ true) serving gone;
   MkState (at_ 0 true true open_ true) (MkThread (at_close None) false) gone].

Definition st (n : nat) : state := default final (states !! n).

Ltac next :=
  unfold st, lb, start; cbn [lookup list_lookup default states labels];
  first
    [ apply idle_step
    | apply ctx_cancel
    | apply call_begin; by split
    | apply call_end; by eexists
    | first [apply main_step|apply shut_step]; hnf; cbn;
      first [by exists None|by exists tt|by exists CtxDone|by eexists; split_and!
            |by exists None; eexists; split_and!] ].

Lemma demo_run : is_run 9002 st lb.
Proof. split; [done|]. intros n. do 14 (destruct n as [|n]; [next|]). next. Qed.

Lemma demo_final n : st (14 + n) = final.
Proof. done. Qed.

Lemma demo_fair : fair st lb.
Proof.
  split; intros n; [| |intros _]; exists (14 + n)%nat; (split; [lia|]); left; rewrite demo_final; [..|done];
    intros [s' Hs]; by inversion Hs.
Qed.

End Demo.

Lemma shutdown_completes_witness :
  (is_run 9002 Demo.st Demo.lb /\ fair Demo.st Demo.lb /\ ctxDone (shr (Demo.st 6)) = true) /\
  (exists m, finished (Demo.st m)) /\
  (forall n, (length (filter (fun l => of_goroutine l = true) (map Demo.lb (seq 0 n))) <= 9)%nat).
Proof.
  split; [exact (conj Demo.demo_run (conj Demo.demo_fair eq_refl))|].
  apply (@shutdown_completes Demo.demo_grpc Demo.demo_grpc_laws 9002 Demo.st Demo.lb Demo.demo_run Demo.demo_fair).
  exists 6%nat. left. reflexivity.
Defined.
