(* ===== verification/Runner.v ===== *)
(** * cmd/activator: runner.go and main.go

    Start-up: flags, logging, the clients, the deactivator, the controller
    manager and its runnables.  The theorems are about the order of these
    steps and about what happens when one fails. *)

From stdpp Require Import pretty.
From S2P Require Import Prelude GoTime Prog Effects Instances Controller Manager Startup Tls Health Server.
#[local] Open Scope go_scope.

(** The flags. *)
Record flags := MkFlags {
  grpcPort : Z;
  grpcHealthPort : Z;
  metricsPort : Z;
  poolName : string;
  poolGroup : string;
  poolNamespace : string;
  logVerbosity : Z;
  secureServing : bool;
  healthChecking : bool;
  certPath : string;
  haEnableLeaderElection : bool;
  zap_log_level_set : bool    (* whether -zap-log-level was given *)
}.

(** ** Clients: requestcontrol's constructors *)

(** [InitScaleClient]: only the discovery client can fail. *)
Definition InitScaleClient : go_s (option error) := seff SNewDiscoveryClient.

Definition NewActivatorWithConfig : go_s (option error) :=
  err <- InitScaleClient ;;
  match err with Some err => Ret (Some err) | None => seff SNewDynamicClient end.

Definition DeactivatorWithConfig : go_s (option error) :=
  err <- InitScaleClient ;;
  match err with Some err => Ret (Some err) | None => seff SNewDynamicClient end.

Section Runner.
Context `{K8s : Kubernetes} `{TL : TlsLib} (f : flags).

(** [zapcore.Level(int8(-1 * v))], unless -zap-log-level was given. *)
Definition log_level : option Z :=
  if zap_log_level_set f then None else Some (int8 (int64 (-1 * logVerbosity f))).

Definition initLogging : go_s unit := seff (SSetLogger log_level).

(** [fmt.Errorf("required %q flag not set", "poolName")] *)
Definition dquote : string := String (Ascii.ascii_of_nat 34) "".
Definition validateFlags : option error :=
  if String.eqb (poolName f) ""
  then Some (ENew ("required " +:+ dquote +:+ "poolName" +:+ dquote +:+ " flag not set")) else None.

Definition resolvePoolNamespace : go_s string :=
  if negb (String.eqb (poolNamespace f) "") then Ret (poolNamespace f)
  else
    nsEnv <- seff (SGetenv "NAMESPACE") ;;
    if negb (String.eqb nsEnv "") then Ret nsEnv else Ret DefaultPoolNamespace.

(** server.NewDefaultManager and NewManagerWithOptions *)
Definition NewManagerWithOptions (opts : Options metrics_Options) : go_s (option error) :=
  err <- seff (SNewManager opts) ;;
  match err with
  | Some err => Ret (Some (ENew ("failed to create controller manager: " +:+ ErrorText err)))
  | None => Ret None
  end.

Definition NewDefaultManager (gknn : GKNN) (m : metrics_Options) (leaderElectionEnabled : bool) : go_s (option error) :=
  match manager_options gknn m leaderElectionEnabled with
  | Err err => Ret (Some (ENew ("failed to create controller manager options: " +:+ ErrorText err)))
  | Ok opt =>
      err <- seff (SNewManager opt) ;;
      match err with
      | Some err => Ret (Some (ENew ("failed to create controller manager: " +:+ ErrorText err)))
      | None => Ret None
      end
  end.

Definition registerHealthServer (port : Z) (leaderElectionEnabled : bool) : go_s (option error) :=
  seff (SNewServer None) ;;
  seff SRegisterHealth ;;
  err <- seff (SManagerAdd (NoLeaderElection (HealthServer leaderElectionEnabled port))) ;;
  match err with Some err => Ret (Some err) | None => Ret None end.

Definition registerExtProcServer (r : ExtProcServerRunner) : go_s (option error) :=
  err <- seff (SManagerAdd (AsRunnable r)) ;;
  match err with Some err => Ret (Some err) | None => Ret None end.

(** [if err := p; err != nil { return err }; q] *)
Definition check_err (p q : go_s (option error)) : go_s (option error) :=
  err <- p ;; match err with Some err => Ret (Some err) | None => q end.

Definition pool_gknn (ns : string) : GKNN :=
  MkGKNN (MkNN ns (poolName f)) (MkGK (poolGroup f) "InferencePool").

Definition server_runner (ns : string) : ExtProcServerRunner :=
  MkRunner (grpcPort f) (MkNN ns (poolName f)) (pool_gknn ns) (secureServing f) (healthChecking f) (certPath f) 0 0.

Definition metrics_options : metrics_Options := MkMetrics (":" +:+ pretty (metricsPort f)) true.

Definition Run : go_s (option error) :=
  initLogging ;;
  check_err (Ret validateFlags) (
  check_err (seff SGetConfig) (
  seff SNewDatastore ;;
  check_err NewActivatorWithConfig (
  check_err DeactivatorWithConfig (
  seff (SSpawn Deactivator_goroutine) ;;
  ns <- resolvePoolNamespace ;;
  seff (SLeaderStore false) ;;
  check_err (NewDefaultManager (pool_gknn ns) metrics_options (haEnableLeaderElection f)) (
  (if haEnableLeaderElection f then seff (SSpawn Elected_goroutine) else seff (SLeaderStore true)) ;;
  check_err (Runner_SetupWithManager (server_runner ns)) (
  check_err (registerHealthServer (grpcHealthPort f) (haEnableLeaderElection f)) (
  check_err (registerExtProcServer (server_runner ns)) (
  check_err (seff SManagerStart) (Ret None))))))))).

(** [main]: the exit code of the process. *)
Definition main : go_s Z :=
  err <- Run ;; match err with Some _ => Ret 1 | None => Ret 0 end.

End Runner.

(** ** Order and failures *)

(** How far start-up has come.  The namespace and the options the manager was
    created with are remembered. *)
Inductive stage :=
| Begin | Logging | Configured | Stored
| Client (n : nat)                 (* n of the four clients made *)
| Monitoring                       (* the deactivator runs *)
| FlagReset
| Managed (opts : Options metrics_Options)
| LeaderKnown (opts : Options metrics_Options)
| Controlled (opts : Options metrics_Options)
| HealthMade (opts : Options metrics_Options)
| HealthAdded (opts : Options metrics_Options)
| ExtProcAdded (opts : Options metrics_Options)
| Stopped
| Failed (e : error).

(** The only order; a failure ends start-up. *)
Definition stage_delta (s : stage) (e : sevt) : option stage :=
  let next (r : option error) (s' : stage) := Some (match r with Some err => Failed err | None => s' end) in
  match e with
  | Ev (SSetLogger _) _ => match s with Begin => Some Logging | _ => None end
  | Ev SGetConfig r => match s with Logging => next r Configured | _ => None end
  | Ev SNewDatastore _ => match s with Configured => Some Stored | _ => None end
  | Ev SNewDiscoveryClient r =>
      match s with Stored => next r (Client 1) | Client 2 => next r (Client 3) | _ => None end
  | Ev SNewDynamicClient r =>
      match s with Client 1 => next r (Client 2) | Client 3 => next r (Client 4) | _ => None end
  | Ev (SSpawn Deactivator_goroutine) _ => match s with Client 4 => Some Monitoring | _ => None end
  | Ev (SGetenv _) _ => match s with Monitoring => Some s | _ => None end
  | Ev (SLeaderStore false) _ => match s with Monitoring => Some FlagReset | _ => None end
  | Ev (SNewManager opts) r => match s with FlagReset => next r (Managed opts) | _ => None end
  | Ev (SLeaderStore true) _ =>
      match s with Managed o => if opt_LeaderElection o then None else Some (LeaderKnown o) | _ => None end
  | Ev (SSpawn Elected_goroutine) _ =>
      match s with Managed o => if opt_LeaderElection o then Some (LeaderKnown o) else None | _ => None end
  | Ev (SControllerComplete k) r =>
      match s with
      | LeaderKnown o =>
          if bool_decide (Exists (fun p => fst p = CachedPool k) (ByObject o)) then next r (Controlled o) else None
      | _ => None
      end
  | Ev (SNewServer None) _ => match s with Controlled o => Some s | _ => None end
  | Ev SRegisterHealth _ => match s with Controlled o => Some (HealthMade o) | _ => None end
  | Ev (SManagerAdd r) x =>
      match s, le_Runnable r with
      | HealthMade o, HealthServer le _ =>
          if bool_decide (le = opt_LeaderElection o /\ NeedLeaderElection r = false)
          then next x (HealthAdded o) else None
      | HealthAdded o, ExtProcServer _ =>
          if NeedLeaderElection r then None else next x (ExtProcAdded o)
      | _, _ => None
      end
  | Ev SManagerStart r => match s with ExtProcAdded _ => next r Stopped | _ => None end
  | _ => None
  end.

(** How [Run] reports the error of a step: as it is, wrapped, or its text. *)
Definition reports `{TlsLib} (err e : error) : Prop :=
  e = err \/ (exists p, e = EWrap p err) \/ (exists p, e = ENew (p +:+ ErrorText err)).

(** A clean exit is one in which the manager ran and stopped; any other exit
    is an error: of the step that failed, or, with nothing having failed,
    because the pool's name is missing or its group not supported. *)
Definition stage_post `{Kubernetes} `{TlsLib} (f : flags) (s : stage) (r : outcome (option error)) : Prop :=
  match s, r with
  | Stopped, Done None => True
  | Failed err, Done (Some e) => reports err e
  | Logging, Done (Some _) => poolName f = ""%string
  | FlagReset, Done (Some _) => is_Ok (object_for_group (poolGroup f)) = false
  | _, _ => False
  end.

Section Order.
Context `{K8s : Kubernetes} `{TL : TlsLib} (f : flags).

(** A step that, unless it fails, leads to stage [s']. *)
Definition leads_to (s' : stage) (s : stage) (r : outcome (option error)) : Prop :=
  match r with
  | Done None => s = s'
  | Done (Some e) => exists err, s = Failed err /\ reports err e
  | Crash _ => False
  end.

Lemma check_err_mon s s' p q :
  mon stage_delta s p (leads_to s') -> mon stage_delta s' q (stage_post f) ->
  mon stage_delta s (check_err p q) (stage_post f).
Proof.
  intros Hp Hq. apply mon_bind. eapply mon_mono; [|exact Hp].
  intros s1 [[e|]|m]; [intros (err & -> & He); exact He|by intros ->|done].
Qed.

(** The answer of a step: an error that is reported, or success. *)
Ltac answer := intros [?|]; cbn; [eexists; split; [reflexivity|unfold reports; by eauto]|try done].

Lemma clients_mon n : n = 1%nat \/ n = 3%nat -> 
  mon stage_delta (if decide (n = 1%nat) then Stored else Client 2) NewActivatorWithConfig
    (leads_to (Client (S n))).
Proof.
  by intros [-> | ->]; cbn; answer; answer.
Qed.

Lemma SetupWithManager_mon ns opts :
  manager_options (pool_gknn f ns) (metrics_options f) (haEnableLeaderElection f) = Ok opts ->
  mon stage_delta (LeaderKnown opts) (Runner_SetupWithManager (server_runner f ns)) (leads_to (Controlled opts)).
Proof.
  intros Ho.
  assert (Hc : forall k, Exists (fun p => fst p = CachedPool k) (ByObject opts) ->
    mon stage_delta (LeaderKnown opts)
      (err <- seff (SControllerComplete k) ;;
       match err with
       | Some err => Ret (Some (EWrap "failed setting up InferencePoolReconciler: " err))
       | None => Ret None
       end) (leads_to (Controlled opts))).
  { intros k Hk. cbn. rewrite bool_decide_eq_true_2 by done. answer. }
  unfold manager_options in Ho. destruct (defaultManagerOptions _ _) as [o|] eqn:Hd; [|done].
  unfold defaultManagerOptions in Hd. unfold Runner_SetupWithManager, SetupWithManager. cbn in Hd |- *.
  repeat split_match_in Hd; simplify_eq/=; apply Hc; destruct (haEnableLeaderElection f); simplify_eq/=;
    by repeat constructor.
Qed.

Lemma managed_LeaderElection ns opts :
  manager_options (pool_gknn f ns) (metrics_options f) (haEnableLeaderElection f) = Ok opts ->
  opt_LeaderElection opts = haEnableLeaderElection f.
Proof.
  unfold manager_options. destruct (defaultManagerOptions _ _) as [o|] eqn:Hd; [|done]. intros [= <-].
  unfold defaultManagerOptions in Hd. repeat split_match_in Hd; simplify_eq/=; by destruct (haEnableLeaderElection f).
Qed.

(** From the creation of the manager on. *)
Lemma Run_managed_mon ns opts :
  manager_options (pool_gknn f ns) (metrics_options f) (haEnableLeaderElection f) = Ok opts ->
  mon stage_delta (Managed opts)
    ((if haEnableLeaderElection f then seff (SSpawn Elected_goroutine) else seff (SLeaderStore true)) ;;
     check_err (Runner_SetupWithManager (server_runner f ns)) (
     check_err (registerHealthServer (grpcHealthPort f) (haEnableLeaderElection f)) (
     check_err (registerExtProcServer (server_runner f ns)) (
     check_err (seff SManagerStart) (Ret None))))) (stage_post f).
Proof.
  intros Ho. pose proof (managed_LeaderElection _ _ Ho) as Hle. apply mon_bind.
  eapply (mon_mono _ _ _ (fun s r => s = LeaderKnown opts /\ r = Done tt)).
  - intros s r [-> ->]. cbn [mthen]. eapply check_err_mon; [by apply SetupWithManager_mon|].
    eapply (check_err_mon _ (HealthAdded opts)).
    { cbn. intros _ _. rewrite bool_decide_eq_true_2 by done. answer. }
    eapply (check_err_mon _ (ExtProcAdded opts)); [cbn; answer|].
    eapply (check_err_mon _ Stopped); [cbn; answer|done].
  - destruct (haEnableLeaderElection f); cbn; rewrite Hle; by intros [].
Qed.

Lemma manager_options_Err gknn (m : metrics_Options) le e :
  v1_GroupName <> v1alpha2_GroupName -> manager_options gknn m le = Err e ->
  is_Ok (object_for_group (gk_Group (gknn_gk gknn))) = false.
Proof.
  intros Hne H. unfold manager_options in H. rewrite defaultManagerOptions_kind in H by done.
  by destruct (object_for_group _).
Qed.

Lemma Run_mon : v1_GroupName <> v1alpha2_GroupName -> mon stage_delta Begin (Run f) (stage_post f).
Proof.
  intros Hne. unfold Run. cbn [initLogging bind seff mon stage_delta]. intros _.
  unfold check_err at 1. cbn [bind]. unfold validateFlags.
  destruct (String.eqb_spec (poolName f) "") as [Hn|_]; [done|].
  eapply (check_err_mon _ Configured); [cbn; answer|].
  cbn [bind seff mon stage_delta]. intros _.
  eapply check_err_mon; [apply (clients_mon 1); auto|].
  eapply (check_err_mon _ (Client 4)); [apply (clients_mon 3); auto|].
  cbn [bind seff mon stage_delta]. intros _. apply mon_bind.
  eapply (mon_mono _ _ _ (fun s r => s = Monitoring /\ exists ns, r = Done ns)).
  { intros s r [-> [ns ->]]. cbn [mthen bind seff mon stage_delta]. intros _.
    unfold NewDefaultManager. destruct (manager_options _ _ _) as [opts|e] eqn:Ho; cycle 1.
    { by apply manager_options_Err in Ho. }
    eapply (check_err_mon _ (Managed opts)); [cbn; answer|].
    by apply Run_managed_mon. }
  unfold resolvePoolNamespace. destruct (negb _); [split; [done|by eexists]|]. cbn. intros env.
  by destruct (negb _); (split; [done|by eexists]).
Qed.

(** C32.  Start-up.  In every run of [Run], whatever fails: logging, the
    configuration, the datastore, the activator's and the deactivator's
    clients, the deactivator, the leader flag, the manager, the controller, the
    health server and the external-processing server are set up in this order,
    each once; the controller is completed for a type the manager's cache
    holds; both servers are added as runnables that do not wait for leader
    election, the deactivator runs whether or not it is enabled; the manager is
    started only after everything is in place.  The first failure ends
    start-up and is the error reported; [Run] returns nil only after the
    manager ran and stopped. *)
Theorem startup_order tr r :
  v1_GroupName <> v1alpha2_GroupName -> exec (Run f) tr r ->
  exists s, accepts stage_delta Begin tr = Some s /\ stage_post f s r.
Proof. intros Hne He. eapply mon_exec; [by apply Run_mon|exact He]. Qed.

(** ** Which pool *)

(** The namespace of a run: the flag, else the environment, else the default. *)
Definition namespace_of (nsEnv : string) : string :=
  if decide (poolNamespace f <> ""%string) then poolNamespace f
  else if decide (nsEnv <> ""%string) then nsEnv else DefaultPoolNamespace.

(** The manager's options and the external-processing server are about the
    pool of the flags in that namespace; the state is the value of the
    environment variable, empty until it is read. *)
Definition pool_delta (env : string) (e : sevt) : option string :=
  match e with
  | Ev (SGetenv name) v => if decide (name = "NAMESPACE"%string) then Some v else None
  | Ev (SNewManager opts) _ =>
      match manager_options (pool_gknn f (namespace_of env)) (metrics_options f) (haEnableLeaderElection f) with
      | Ok o => if decide (o = opts) then Some env else None
      | Err _ => None
      end
  | Ev (SManagerAdd (MkLeaderElection (ExtProcServer r) _)) _ =>
      if decide (r = server_runner f (namespace_of env)) then Some env else None
  | _ => Some env
  end.

(** The programs that do not read the environment. *)
Definition pool_blind (o : sop) : bool :=
  match o with SGetenv _ | SNewManager _ | SManagerAdd _ => false | _ => true end.

Lemma check_err_pool env p q (Q : string -> outcome (option error) -> Prop) :
  mon pool_delta env p (fun env' _ => env' = env) ->
  (forall r, Q env r) -> mon pool_delta env q Q -> mon pool_delta env (check_err p q) Q.
Proof.
  intros Hp HQ Hq. apply mon_bind. eapply mon_mono; [|exact Hp]. intros env' [[e|]|m] ->; [apply HQ|done|apply HQ].
Qed.

Ltac blind := eapply (mon_uses _ pool_blind); [|by intros []|done].

Lemma Run_pool_managed ns env : ns = namespace_of env ->
  mon pool_delta env
    ((if haEnableLeaderElection f then seff (SSpawn Elected_goroutine) else seff (SLeaderStore true)) ;;
     check_err (Runner_SetupWithManager (server_runner f ns)) (
     check_err (registerHealthServer (grpcHealthPort f) (haEnableLeaderElection f)) (
     check_err (registerExtProcServer (server_runner f ns)) (
     check_err (seff SManagerStart) (Ret None))))) (fun _ _ => True).
Proof.
  intros ->. apply mon_bind.
  eapply (mon_mono _ _ _ (fun env' _ => env' = env)); [|by destruct (haEnableLeaderElection f)].
  intros env' r ->. destruct r as [[]|m]; [|done]. cbn [mthen].
  apply check_err_pool; [|done|].
  { unfold Runner_SetupWithManager, SetupWithManager. blind.
    apply uses_bind; [by repeat split_match|by intros [e|]]. }
  apply check_err_pool; [cbn; intros _ _; by intros [e|]|done|].
  apply check_err_pool; [cbn; rewrite decide_True by done; by intros [e|]|done|].
  by apply check_err_pool; [cbn; intros [e|]|..].
Qed.

(** C38.  One pool.  In every run of [Run] the namespace is the flag
    -pool-namespace if it is set, else the variable NAMESPACE if it is set and
    not empty, else "default"; and the manager's cache and lease and the
    external-processing server are all set up for the pool of that namespace
    with the name and the group of the flags. *)
Theorem one_pool tr r : exec (Run f) tr r -> exists env, accepts pool_delta "" tr = Some env.
Proof.
  intros He. enough (H : mon pool_delta "" (Run f) (fun _ _ => True)).
  { destruct (mon_exec _ _ _ _ _ _ H He) as (env & Ha & _). eauto. }
  unfold Run. cbn [initLogging bind seff mon pool_delta]. intros _.
  apply check_err_pool; [done..|]. apply check_err_pool; [cbn; intros [e|]; done|done|].
  cbn [bind seff mon pool_delta]. intros _.
  apply check_err_pool; [cbn; intros [e|]; [done|cbn; intros [e|]; done]|done|].
  apply check_err_pool; [cbn; intros [e|]; [done|cbn; intros [e|]; done]|done|].
  cbn [bind seff mon pool_delta]. intros _. apply mon_bind.
  eapply (mon_mono _ _ _ (fun env r => r = Done (namespace_of env))).
  - intros env o ->. cbn [mthen bind seff mon pool_delta]. intros _.
    unfold NewDefaultManager. destruct (manager_options _ _ _) as [opts|e] eqn:Ho; [|done].
    apply check_err_pool; [|done|by apply Run_pool_managed].
    cbn. rewrite Ho, decide_True by done. by intros [e|].
  - unfold resolvePoolNamespace, namespace_of.
    destruct (String.eqb_spec (poolNamespace f) "") as [Hn|Hn]; [|by cbn; rewrite decide_True].
    cbn [negb bind seff mon pool_delta]. intros v. rewrite decide_True by done. cbn [mon].
    destruct (String.eqb_spec v "") as [Hv|Hv]; cbn [negb mon];
      by repeat case_decide; try tauto.
Qed.

(** ** Logging *)

(** The log level is minus the verbosity as long as that fits eight
    bits; beyond 128 it wraps around, and from 129 to 255 it is a positive
    level, which suppresses what the flag asked for. *)
Theorem log_level_wraps :
  zap_log_level_set f = false ->
  (-127 <= logVerbosity f <= 128 -> log_level f = Some (- logVerbosity f)) /\
  (129 <= logVerbosity f <= 255 -> log_level f = Some (256 - logVerbosity f)).
Proof.
  intros Hz. unfold log_level. rewrite Hz. unfold int8, int64.
  assert (H8 : 2 ^ (8 - 1) = 128) by done. assert (H64 : 2 ^ (64 - 1) = 9223372036854775808) by done.
  split; intros Hv; rewrite (wrap_small 64) by (unfold in_width; lia).
  - rewrite wrap_small by (unfold in_width; lia). f_equal; lia.
  - rewrite <- (wrap_period 8 _ 1) by lia. change (2 ^ 8) with 256.
    rewrite wrap_small by (unfold in_width; lia). f_equal; lia.
Qed.

End Order.

(** ** Concrete start-ups *)

Definition demo_flags : flags :=
  MkFlags DefaultGrpcPort DefaultGrpcHealthPort DefaultMetricsPort "gaie-sim" DefaultPoolGroup "" 200
    DefaultSecureServing DefaultHealthChecking DefaultCertPath true false.

Lemma startup_order_witness :
  exists s, accepts stage_delta Begin (fst (run_with fine_answer (@Run demo_k8s demo_tls demo_flags))) = Some s /\
    @stage_post demo_k8s demo_tls demo_flags s (snd (run_with fine_answer (@Run demo_k8s demo_tls demo_flags))).
Proof.
  apply (@startup_order demo_k8s demo_tls demo_flags); [discriminate|]. apply run_with_exec.
Defined.

Lemma one_pool_witness :
  exists env, accepts (@pool_delta demo_k8s demo_flags) ""
    (fst (run_with (fun o => match o return sans o with SGetenv _ => "llm-d-sim"%string | o => fine_answer o end)
      (@Run demo_k8s demo_tls demo_flags))) = Some env.
Proof.
  apply (@one_pool demo_k8s demo_tls demo_flags _ _ (run_with_exec
    (fun o => match o return sans o with SGetenv _ => "llm-d-sim"%string | o => fine_answer o end)
    (@Run demo_k8s demo_tls demo_flags))).
Defined.

Lemma log_level_wraps_witness : log_level demo_flags = Some 56.
Proof.
  rewrite (proj2 (log_level_wraps demo_flags eq_refl)); [reflexivity|]. cbn. lia.
Defined.

(** The clean run ends with exit code 0, a failing one with 1. *)
Example main_exit_codes :
  snd (run_with fine_answer (@main demo_k8s demo_tls demo_flags)) = Done 0 /\
  snd (run_with (fun o => match o return sans o with SManagerStart => Some EEOF | o => fine_answer o end)
    (@main demo_k8s demo_tls demo_flags)) = Done 1.
Proof. vm_compute. split; reflexivity. Qed.
